(* ===== verification/_CoqProject ===== *)
-Q . S2P
Prelude.v
GoStrings.v
Utf8Facts.v
Effects.v
GoTime.v
Base64.v
Sha256.v
GoAny.v
Json.v
JsonFacts.v
FloatFacts.v
FloatJson.v
Cookie.v
Handoff.v
Session.v
SessionFacts.v
Redis.v
AuthConfig.v
GoDuration.v
GoUrl.v
GoNet.v
Redirect.v
Token.v
Sdk.v
AuthService.v
AuthFlows.v
AuthEnv.v
AuthFacts.v
AuthRefresh.v
RefreshLock.v
AuthAccess.v
Graphql.v
Authz.v
AuthzFacts.v
AuthzHttp.v
ProxyConfig.v
ProxyConfigFacts.v
Registry.v
RegistryFacts.v
Ratelimit.v
ProxyServer.v
ProxyClient.v
ProxyServerFacts.v
GoHttp.v
AuthServer.v
AuthServerFacts.v
ResolveChain.v
Policy.v
PolicyFacts.v
Oidc.v
OidcFacts.v
Grpc.v
GrpcFacts.v
Manifest.v
ManifestFacts.v
PluginHost.v
Bootstrap.v
BootstrapFacts.v
BundleSign.v
BundleSignFacts.v
AuthMain.v
AuthMainFacts.v
BrowserSession.v
Observability.v
ObservabilityFacts.v
ConfigLoad.v
Lifecycle.v
UrlFacts.v
Tools.v
RenderConfig.v
MockIdp.v
MockIdpFacts.v
LoginLoop.v
LoginThrough.v
