(* ===== verification/Prelude.v ===== *)
(** * AccessGate: a verification library

    AccessGate is an authentication and authorization gateway in two servers.
    The {e auth server} ([cmd/accessgate-auth], [internal/auth], [pkg]) drives
    the OIDC login of one or more connectors, keeps sessions in Redis and hands
    the browser a signed cookie. The {e proxy} ([cmd/accessgate-proxy],
    [internal/proxy], [internal/authz], [internal/policy], [internal/grpc])
    resolves that cookie at the auth server, asks a policy and pipeline plugins,
    and forwards allowed requests, over HTTP or gRPC, with identity headers of
    its own. This library models both in Rocq and proves what makes them
    correct. All paths below are under [src/].

    ** How programs are modelled

    A Go function without effects is a Rocq function. One with effects is a
    [prog E A] (Effects.v): sequential code around external calls. [exec p tr a]
    says that [p] made exactly the calls of [tr] with the answers recorded there
    and returned [a]; a theorem about every [exec] assumes nothing of the
    environment. [run] serves the calls by a handler (witnesses, round trips);
    a pool of programs interleaves at its calls ([pstep]; concurrency), and
    [interp] puts one layer's program in place of another's call (composition).
    What a package of ours promises another, and what a foreign package
    provides, are classes ([ClockE], [SessionStore], [Ed25519], [CodecLaws]...).
    Errors are values: [res A], or [option string] for a bare Go [error], [None]
    being nil. [int] is [Z] with its wrap-around where it matters ([wrap64]),
    [float64] is the binary64 [spec_float], a Go string is a byte string. Each
    operation keeps its Go name (prefixed where two components share one).

    ** The files

    {b Go and its standard library}: Prelude (machine integers, results, map
    ranges, tactics), GoStrings (strings, strconv, utf8) with Utf8Facts (well-formed
    texts decode rune by rune), Effects, GoTime,
    GoDuration, Base64, Sha256 (SHA-256 and HMAC, executable), GoAny ([any] and
    float64), Json with JsonFacts, GoUrl with UrlFacts (queries and
    paths that read back), GoNet, GoHttp, FloatFacts and FloatJson (float64 through
    JSON text).

    {b The auth server}: Cookie ([pkg/cookie/signed.go] and its options),
    BrowserSession ([pkg/cookie/codec.go], [encrypt.go], [internal/session]),
    Handoff ([internal/auth/handoff]), Session and SessionFacts ([pkg/session]),
    Redis ([internal/redis]), AuthConfig ([internal/auth/config]), Redirect
    ([internal/auth/service/redirect.go]), Token ([pkg/token]), Sdk ([pkg/sdk]),
    Oidc and OidcFacts ([pkg/oidc], [internal/plugins/oidcprovider]),
    AuthService and AuthFlows ([internal/auth/service/service.go]), AuthServer
    and AuthServerFacts ([internal/auth/httpserver], [errormap]), AuthMain and
    AuthMainFacts ([cmd/accessgate-auth/main.go]). The theorems on the flows
    are in AuthFacts (login), AuthRefresh and RefreshLock (refresh, alone and
    concurrent), AuthAccess (resolution, logout, handoff, construction); AuthEnv
    is the concrete environment of their witnesses.

    {b The proxy}: Graphql ([internal/graphql]), Authz and AuthzFacts
    ([internal/authz/engine.go], request, decision), AuthzHttp ([normalize.go],
    [http.go], [middleware.go], and what net/http/httputil's reverse proxy sends of
    the request it is handed), ProxyConfig and ProxyConfigFacts
    ([internal/proxy/config]), ProxyClient ([internal/proxy]), ProxyServer and
    ProxyServerFacts ([internal/proxy/httpserver]), Policy and PolicyFacts
    ([internal/policy]), Grpc and GrpcFacts ([internal/grpc],
    [grpcserver.go]), Bootstrap and BootstrapFacts ([bootstrap.go], [main.go]).

    {b Plugins}: Registry and RegistryFacts ([internal/plugin/registry.go]),
    Manifest and ManifestFacts ([discovery.go], [signature.go]), PluginHost
    ([platform.go], [config.go]), Ratelimit ([internal/plugins/ratelimit]).

    {b Both together}: ResolveChain, the proxy's client against the auth
    server's handler; LoginLoop, browser, auth server, OIDC client and mock
    provider in one world; LoginThrough, the proxy in that world too, from the
    login to the upstream and after the logout.

    {b Tools and observability}: BundleSign and BundleSignFacts
    ([cmd/bundle-sign]), Tools ([cmd/schema],
    [cmd/validateconfig]), RenderConfig ([cmd/renderconfig]), ConfigLoad ([internal/configload]), MockIdp and
    MockIdpFacts ([cmd/mockidp], and the OIDC client against it),
    Observability and ObservabilityFacts ([pkg/observability]: log lines,
    metrics, span attributes, exporters), Lifecycle (what both mains do around
    their servers: health check, wait, shutdown; [internal/healthcheck]).

    ** What the theorems show

    - {e Logins and sessions}: a session is created only for the state, nonce
      and verifier of a started login whose ID token validated
      ([login_end_sound], [login_start_exact], [auth_request_exact],
      [exchange_sound], [id_token_validated]); cookies are accepted only under a
      known key ([signed_cookie_accepts]); a stored session that JSON can carry
      reads back ([session_store_roundtrip]), a browser session lives from start
      to end ([browser_session_life]); the proxy is told of the session made
      fresh ([resolve_sound]); connectors that leave their names to be derived
      share neither a key nor a cookie ([connector_isolation]) and the server is wired
      that way ([auth_start_wired]). Against the development
      provider, a login completes, from the browser's first request to a session
      the cookie names ([login_completes]).
    - {e Refresh}: only under the lock, with identity kept ([refresh_sound],
      [ensure_fresh_lock], [identity_stable]); concurrently, one at a time, and
      every request returns under a fair schedule ([refresh_exclusive],
      [refreshes_return]).
    - {e Handoff}: issued tickets redeem, once at most, whatever the
      interleaving ([handoff_issue_redeem], [handoff_at_most_once]).
    - {e Where browsers are sent, what cookies look like, who administers}:
      [redirect_safe], [cookies_hardened], [admin_secret_needed].
    - {e Authorization}: the engine allows only on an explicit decision
      ([engine_allows], [evaluate_fail_closed]), a protected route forwards only
      what the engine allowed ([route_protected], [grpc_forward_exact]), clients
      cannot spoof identity headers ([no_identity_spoofing]), the route is the
      longest match ([match_route_spec]), the limiter lets exactly its burst
      through ([burst_bound]), configurations that load are well typed and
      point at public addresses ([proxy_load_sound]).
    - {e Trust in code}: only verified bundles and signed manifests are used
      ([only_verified_policy], [only_signed_plugins], [signed_bundle_accepted]);
      plugins start in dependency order ([startup_order_exact],
      [graph_terminates]).
    - {e Composition}: the proxy's resolution refines the auth service's
      ([resolve_refines]) and a request reaches a protected upstream only for a
      session the auth service resolved ([proxy_end_to_end]); the cookie of a
      completed login opens it in the name of the provider's user when proxy and
      auth server agree on the cookie's name, and does not otherwise
      ([login_completes], [login_opens_route]), and a logout closes it
      ([logout_closes_route]); the gRPC relay
      keeps frames in order ([relay_in_order]).
    - {e Around the servers}: a log line reads back ([log_line_reads_back]), spans
      carry no secret ([spans_without_secrets]), counters count
      ([counters_exact]); shutdown runs its steps in order and exits with the
      right code ([proxy_shutdown_exact], [auth_shutdown_exact]); a loaded policy
      stays loaded ([policy_stays_loaded]); the configuration checker reports
      success only for what the loader takes ([validate_success]) and the example
      printer writes the defaults, readable ([render_main_exact]).

    ** Fuel and bounds

    Recursion that is not structural takes fuel computed from the input and
    shown or chosen to be enough: string scans use the string's length plus one
    (each step consumes a byte), [parse] the length of the text, Kahn's loop the
    number of plugins ([graph_terminates]). The Redis SCAN loops take a number
    of pages as an argument, answer [None] when it runs out, and
    [find_pages_fuel] shows that pages bound them. [AuthMain] passes that
    number through. The schema walker's depth and the search for a parent
    directory are enough by [schema_bounded] and [find_up_ends]. Theorems
    about concurrency bound nothing: they quantify over all schedules.

    ** Scope of the round trips

    Theorems that pass texts through JSON ask for well-formed UTF-8 and for whole
    numbers below 2^53, what JSON carries unchanged; the login against the
    development provider (LoginLoop, LoginThrough) takes ASCII texts, a clock
    that does not run back and a JWT library that accepts what the provider
    signed ([accepts_signed]).

    ** Not modelled, and why

    - Foreign code, always a parameter: go-redis, golang-jwt (signature
      checking), OPA, wazero, grpc-go, crypto/ed25519, x509, PEM, AES-GCM,
      structpb, name resolution, the HTTP transport, the file system. Unicode
      tables beyond ASCII are a class ([Unicode]), map iteration order another
      ([MapRange]).
    - Of net/http: the redirect ServeMux gives for unclean paths (so [hr_Path] is
      clean), multipart bodies (a parameter), the truncation of streams.
    - Tracing spans, times in log lines, floating-point contraction on
      architectures that fuse multiply and add, the nesting limit of
      encoding/json.
    - Of process life: listeners, signals, timers and the scheduling of
      goroutines are calls of Lifecycle; their order and the exit codes are
      modelled, deadlines are not.
    - Generated protobuf code ([proto/gen]), test data and test support, files
      that only declare interfaces. *)

From Stdlib Require Export ZArith Lia Ascii.
From stdpp Require Export base tactics list gmap strings.

Declare Scope go_scope.
Delimit Scope go_scope with go.
#[global] Open Scope string_scope.
#[global] Open Scope list_scope.
#[global] Open Scope Z_scope.
#[global] Open Scope go_scope.

(** ** Machine integers

    Go's [int] and [int64] are 64-bit two's complement: a result is taken
    modulo [2^64] into [-2^63, 2^63). *)
Definition wrap64 (z : Z) : Z := (z + 2^63) `mod` 2^64 - 2^63.

Definition int64_range (z : Z) : Prop := - 2^63 ≤ z < 2^63.

Lemma wrap64_id z : int64_range z → wrap64 z = z.
Proof. unfold int64_range, wrap64. intros. rewrite Z.mod_small; lia. Qed.

Lemma wrap64_range z : int64_range (wrap64 z).
Proof.
  unfold int64_range, wrap64.
  pose proof (Z.mod_pos_bound (z + 2^63) (2^64)). lia.
Qed.

(** ** Results of fallible Go functions

    A Go function returning [(T, error)] is modelled by [res T]; the error
    keeps its message. *)
Inductive res (A : Type) : Type :=
| Ok (a : A)
| Err (msg : string).
Arguments Ok {A} a.
Arguments Err {A} msg.

Definition is_ok {A} (r : res A) : bool :=
  match r with Ok _ => true | Err _ => false end.

Definition res_bind {A B} (r : res A) (f : A → res B) : res B :=
  match r with Ok a => f a | Err e => Err e end.

Notation "'try' x <- r ; k" := (res_bind r (λ x, k))
  (at level 60, x name, r at next level, right associativity) : go_scope.

#[global] Instance res_eq_dec {A} `{EqDecision A} : EqDecision (res A).
Proof. solve_decision. Defined.

Lemma res_bind_ok {A B} (r : res A) (f : A → res B) b :
  res_bind r f = Ok b ↔ ∃ a, r = Ok a ∧ f a = Ok b.
Proof. destruct r; naive_solver. Qed.

(** [when b e k]: the early return [if b { return e }; k]. *)
Definition when {A} (b : bool) (e k : A) : A := if b then e else k.

(** ** Automation *)
Create HintDb go.
#[export] Hint Rewrite @res_bind_ok : go.

(** Case analysis on the scrutinee of the first [match]/[if] of the goal. *)
Ltac go_case :=
  match goal with
  | |- context [if ?b then _ else _] => destruct b eqn:?
  | |- context [match ?x with _ => _ end] => destruct x eqn:?
  end.

(** The same on a hypothesis. *)
Ltac go_case_in H :=
  match type of H with
  | context [if ?b then _ else _] => destruct b eqn:?
  | context [match ?x with _ => _ end] => destruct x eqn:?
  end.

(** Boolean connectives to propositional ones, everywhere. *)
Ltac bool_prop :=
  repeat match goal with
  | H : (_ && _)%bool = true |- _ => apply andb_true_iff in H as [? ?]
  | H : (_ || _)%bool = false |- _ => apply orb_false_iff in H as [? ?]
  | H : negb _ = true |- _ => apply negb_true_iff in H
  | H : negb _ = false |- _ => apply negb_false_iff in H
  | H : bool_decide _ = true |- _ => apply bool_decide_eq_true in H
  | H : bool_decide _ = false |- _ => apply bool_decide_eq_false in H
  | H : String.eqb _ _ = true |- _ => apply String.eqb_eq in H
  | H : String.eqb _ _ = false |- _ => apply String.eqb_neq in H
  | H : (_ =? _)%Z = true |- _ => apply Z.eqb_eq in H
  | H : (_ =? _)%Z = false |- _ => apply Z.eqb_neq in H
  | H : (_ <? _)%Z = true |- _ => apply Z.ltb_lt in H
  | H : (_ <? _)%Z = false |- _ => apply Z.ltb_ge in H
  | H : (_ <=? _)%Z = true |- _ => apply Z.leb_le in H
  | H : (_ <=? _)%Z = false |- _ => apply Z.leb_gt in H
  end.

(** ** Lists *)
Section list_facts.
Context {A : Type}.

Lemma existsb_false_iff (f : A → bool) l :
  existsb f l = false ↔ ∀ x, x ∈ l → f x = false.
Proof.
  induction l as [|x l IH]; simpl; [set_solver|].
  rewrite orb_false_iff, IH. set_solver.
Qed.

Lemma existsb_true_iff (f : A → bool) l :
  existsb f l = true ↔ ∃ x, x ∈ l ∧ f x = true.
Proof.
  rewrite existsb_exists. setoid_rewrite list_elem_of_In. done.
Qed.

Lemma find_app (f : A → bool) l1 l2 :
  List.find f (l1 ++ l2) =
  match List.find f l1 with Some x => Some x | None => List.find f l2 end.
Proof. induction l1 as [|x l1 IH]; simpl; [done|]. by destruct (f x). Qed.
End list_facts.

(** Prove [Forall P l] of a literal list, each element by [tac]. *)
Ltac forall_each tac :=
  repeat (apply List.Forall_cons; [solve [tac]|]); try apply List.Forall_nil.

(** ** Maps *)

(** The order a [range] loop visits a map in: any order, each key once. *)
Class MapRange := {
  range : ∀ A, gmap string A → list (string * A);
  range_perm : ∀ A m, range A m ≡ₚ map_to_list m }.
Arguments range {_ A} m.

Lemma range_elem `{MapRange} {A} (m : gmap string A) k v : (k, v) ∈ range m ↔ m !! k = Some v.
Proof. rewrite range_perm. apply elem_of_map_to_list. Qed.

Lemma range_NoDup `{MapRange} {A} (m : gmap string A) : NoDup (range m).*1.
Proof. rewrite range_perm. apply NoDup_fst_map_to_list. Qed.

(** One concrete order. *)
Definition sorted_range : MapRange :=
  {| range := λ A m, map_to_list m; range_perm := λ A m, reflexivity _ |}.
