(* ===== verification/GoStrings.v ===== *)
(** * Go strings

    A Go [string] is an immutable sequence of bytes; it is a
    [String.string], one [ascii] per byte.  The functions of the packages
    [strings], [strconv], [unicode/utf8] and [net/textproto] the program
    calls, on that representation. *)

From S2P Require Import Prelude.


(* stdpp makes concatenation opaque to [simpl]; the lemmas below compute with it. *)
#[global] Arguments String.append !_ _ / : simpl nomatch.

(** ** Bytes *)
Definition byte_of (c : ascii) : Z := Z.of_N (Ascii.N_of_ascii c).
Definition of_byte (z : Z) : ascii := Ascii.ascii_of_N (Z.to_N z).

Lemma of_byte_of c : of_byte (byte_of c) = c.
Proof. unfold of_byte, byte_of. rewrite N2Z.id. apply Ascii.ascii_N_embedding. Qed.

Lemma byte_of_of z : 0 ≤ z < 256 → byte_of (of_byte z) = z.
Proof.
  intros. unfold of_byte, byte_of.
  rewrite Ascii.N_ascii_embedding by lia. lia.
Qed.

Lemma byte_of_range c : 0 ≤ byte_of c < 256.
Proof. unfold byte_of. pose proof (Ascii.N_ascii_bounded c). lia. Qed.

Lemma byte_of_inj c d : byte_of c = byte_of d → c = d.
Proof. intros H. by rewrite <-(of_byte_of c), <-(of_byte_of d), H. Qed.

Definition str (c : ascii) : string := String c "".

(** The bytes of a string, as numbers, and back. *)
Definition bytes_of (s : string) : list Z := byte_of <$> String.list_ascii_of_string s.
Definition of_bytes (l : list Z) : string := String.string_of_list_ascii (of_byte <$> l).

Lemma of_bytes_of s : of_bytes (bytes_of s) = s.
Proof.
  unfold of_bytes, bytes_of. rewrite <-list_fmap_compose.
  rewrite (list_fmap_ext _ id), list_fmap_id.
  - apply String.string_of_list_ascii_of_string.
  - intros. apply of_byte_of.
Qed.

Lemma bytes_of_of l : Forall (λ z, 0 ≤ z < 256) l → bytes_of (of_bytes l) = l.
Proof.
  intros H. unfold of_bytes, bytes_of.
  rewrite String.list_ascii_of_string_of_list_ascii, <-list_fmap_compose.
  induction H as [|z l Hz _ IH]; [done|].
  simpl. rewrite byte_of_of by done. by f_equal.
Qed.

Lemma bytes_of_inj s t : bytes_of s = bytes_of t → s = t.
Proof. intros H. by rewrite <-(of_bytes_of s), <-(of_bytes_of t), H. Qed.

Lemma bytes_of_range s : Forall (λ z, 0 ≤ z < 256) (bytes_of s).
Proof.
  unfold bytes_of. apply Forall_fmap, Forall_true. intros. apply byte_of_range.
Qed.

Definition len (s : string) : Z := Z.of_nat (String.length s).

(** ** Concatenation *)
Lemma app_empty_r s : s +:+ "" = s.
Proof. induction s; simpl; congruence. Qed.

Lemma app_assoc_str (s t u : string) : (s +:+ t) +:+ u = s +:+ (t +:+ u).
Proof. induction s; simpl; congruence. Qed.

Lemma app_inj_l (s t u : string) : s +:+ t = s +:+ u → t = u.
Proof. induction s; simpl; intros; [done|]. naive_solver. Qed.

Lemma length_app_str s t : String.length (s +:+ t) = (String.length s + String.length t)%nat.
Proof. induction s; simpl; lia. Qed.

Lemma len_app s t : len (s +:+ t) = len s + len t.
Proof. unfold len. induction s; simpl; lia. Qed.

Lemma app_inj_r (s t u : string) : s +:+ u = t +:+ u → s = t.
Proof.
  revert t. induction s as [|c s IH]; intros [|d t]; simpl; intros H.
  - done.
  - apply (f_equal len) in H. unfold len in H. simpl in H.
    pose proof (len_app t u). unfold len in *. lia.
  - apply (f_equal len) in H. unfold len in H. simpl in H.
    pose proof (len_app s u). unfold len in *. lia.
  - injection H as -> H. f_equal. by apply IH.
Qed.

Lemma app_nil_inv s t : s +:+ t = "" → s = "" ∧ t = "".
Proof. destruct s; naive_solver. Qed.

(** ** Prefixes and suffixes *)

(** Remove [p] from the front of [s], when it is there. *)
Fixpoint cut_prefix (p s : string) : option string :=
  match p, s with
  | "", _ => Some s
  | String a p', String b s' => if Ascii.eqb a b then cut_prefix p' s' else None
  | _, _ => None
  end.

Definition HasPrefix (s p : string) : bool :=
  match cut_prefix p s with Some _ => true | None => false end.
Definition TrimPrefix (s p : string) : string :=
  match cut_prefix p s with Some r => r | None => s end.

Fixpoint rev_append (s acc : string) : string :=
  match s with "" => acc | String c s' => rev_append s' (String c acc) end.
Definition rev_string (s : string) : string := rev_append s "".

Definition HasSuffix (s p : string) : bool := HasPrefix (rev_string s) (rev_string p).
Definition TrimSuffix (s p : string) : string :=
  rev_string (TrimPrefix (rev_string s) (rev_string p)).

Lemma cut_prefix_spec p s r : cut_prefix p s = Some r ↔ s = p +:+ r.
Proof.
  revert s. induction p as [|a p IH]; intros s; simpl; [naive_solver|].
  destruct s as [|b s]; [naive_solver|].
  destruct (Ascii.eqb_spec a b) as [->|]; [rewrite IH|]; naive_solver.
Qed.

Lemma HasPrefix_spec s p : HasPrefix s p = true ↔ ∃ r, s = p +:+ r.
Proof.
  unfold HasPrefix. destruct (cut_prefix p s) as [r|] eqn:E.
  - apply cut_prefix_spec in E. naive_solver.
  - split; [done|]. intros [r Hr]. apply cut_prefix_spec in Hr. congruence.
Qed.

Lemma HasPrefix_app p r : HasPrefix (p +:+ r) p = true.
Proof. apply HasPrefix_spec. eauto. Qed.

Lemma TrimPrefix_app p r : TrimPrefix (p +:+ r) p = r.
Proof. unfold TrimPrefix. by rewrite (proj2 (cut_prefix_spec p _ r)). Qed.

Lemma TrimPrefix_id s p : HasPrefix s p = false → TrimPrefix s p = s.
Proof. unfold HasPrefix, TrimPrefix. by destruct (cut_prefix p s). Qed.

Lemma rev_append_spec s acc : rev_append s acc = rev_string s +:+ acc.
Proof.
  unfold rev_string. revert acc. induction s as [|c s IH]; intros acc; [done|].
  simpl. rewrite IH, (IH (String c "")), app_assoc_str. done.
Qed.

Lemma rev_string_cons c s : rev_string (String c s) = rev_string s +:+ str c.
Proof. exact (rev_append_spec s (str c)). Qed.

Lemma rev_string_app s t : rev_string (s +:+ t) = rev_string t +:+ rev_string s.
Proof.
  induction s as [|c s IH]; simpl.
  - by rewrite app_empty_r.
  - by rewrite !rev_string_cons, IH, app_assoc_str.
Qed.

Lemma rev_string_invol s : rev_string (rev_string s) = s.
Proof.
  induction s as [|c s IH]; [done|].
  change (String c s) with (str c +:+ s) at 1.
  by rewrite !rev_string_app, IH.
Qed.

Lemma rev_string_inj s t : rev_string s = rev_string t → s = t.
Proof. intros H. by rewrite <-(rev_string_invol s), H, rev_string_invol. Qed.

Lemma HasSuffix_spec s p : HasSuffix s p = true ↔ ∃ r, s = r +:+ p.
Proof.
  unfold HasSuffix. rewrite HasPrefix_spec. split; intros [r Hr].
  - exists (rev_string r). apply rev_string_inj. by rewrite rev_string_app, rev_string_invol.
  - exists (rev_string r). by rewrite Hr, rev_string_app.
Qed.

Lemma TrimSuffix_app r p : TrimSuffix (r +:+ p) p = r.
Proof. unfold TrimSuffix. by rewrite rev_string_app, TrimPrefix_app, rev_string_invol. Qed.

Lemma TrimSuffix_id s p : HasSuffix s p = false → TrimSuffix s p = s.
Proof. intros. unfold TrimSuffix. by rewrite TrimPrefix_id, rev_string_invol. Qed.

Lemma TrimSuffix_cases s p : TrimSuffix s p = s ∨ s = TrimSuffix s p +:+ p.
Proof.
  destruct (HasSuffix s p) eqn:E; [right|left; by apply TrimSuffix_id].
  apply HasSuffix_spec in E as [r ->]. by rewrite TrimSuffix_app.
Qed.

(** ** UTF-8 (package unicode/utf8)

    [decode_rune] is [utf8.DecodeRuneInString]: an ill-formed sequence gives
    [RuneError] and consumes one byte. *)
Definition RuneError : Z := 0xFFFD.

Definition is_cont (lo hi z : Z) : bool := (lo <=? z)%Z && (z <=? hi)%Z.

Definition low6 (z : Z) : Z := Z.land z 0x3F.

Definition decode_rune (c0 : ascii) (s : string) : Z * string :=
  let b0 := byte_of c0 in
  let bad := (RuneError, s) in
  if (b0 <? 0x80)%Z then (b0, s)
  else if (b0 <? 0xC2)%Z then bad
  else if (b0 <? 0xE0)%Z then
    match s with
    | String c1 s1 =>
        let b1 := byte_of c1 in
        if is_cont 0x80 0xBF b1
        then (Z.lor (Z.shiftl (Z.land b0 0x1F) 6) (low6 b1), s1) else bad
    | _ => bad
    end
  else if (b0 <? 0xF0)%Z then
    match s with
    | String c1 (String c2 s2) =>
        let b1 := byte_of c1 in let b2 := byte_of c2 in
        let lo := if (b0 =? 0xE0)%Z then 0xA0 else 0x80 in
        let hi := if (b0 =? 0xED)%Z then 0x9F else 0xBF in
        if is_cont lo hi b1 && is_cont 0x80 0xBF b2
        then (Z.lor (Z.lor (Z.shiftl (Z.land b0 0x0F) 12) (Z.shiftl (low6 b1) 6)) (low6 b2), s2)
        else bad
    | _ => bad
    end
  else if (b0 <? 0xF5)%Z then
    match s with
    | String c1 (String c2 (String c3 s3)) =>
        let b1 := byte_of c1 in let b2 := byte_of c2 in let b3 := byte_of c3 in
        let lo := if (b0 =? 0xF0)%Z then 0x90 else 0x80 in
        let hi := if (b0 =? 0xF4)%Z then 0x8F else 0xBF in
        if is_cont lo hi b1 && is_cont 0x80 0xBF b2 && is_cont 0x80 0xBF b3
        then (Z.lor (Z.lor (Z.shiftl (Z.land b0 0x07) 18) (Z.shiftl (low6 b1) 12))
                    (Z.lor (Z.shiftl (low6 b2) 6) (low6 b3)), s3)
        else bad
    | _ => bad
    end
  else bad.

(** The runes a [for range] loop over the string yields; the fuel is the
    length, each step consumes at least one byte. *)
Fixpoint runes_aux (n : nat) (s : string) : list Z :=
  match n, s with
  | S n', String c s' => let '(r, s'') := decode_rune c s' in r :: runes_aux n' s''
  | _, _ => []
  end.
Definition runes (s : string) : list Z := runes_aux (String.length s) s.

(** [utf8.AppendRune]: surrogates and out-of-range values encode [RuneError]. *)
Definition encode_rune (r0 : Z) : string :=
  let r := if (r0 <? 0)%Z || (0x10FFFF <? r0)%Z || ((0xD800 <=? r0)%Z && (r0 <=? 0xDFFF)%Z)
           then RuneError else r0 in
  let tail z := Z.lor 0x80 (low6 z) in
  of_bytes
    (if (r <? 0x80)%Z then [r]
     else if (r <? 0x800)%Z then [Z.lor 0xC0 (Z.shiftr r 6); tail r]
     else if (r <? 0x10000)%Z then
       [Z.lor 0xE0 (Z.shiftr r 12); tail (Z.shiftr r 6); tail r]
     else [Z.lor 0xF0 (Z.shiftr r 18); tail (Z.shiftr r 12); tail (Z.shiftr r 6); tail r]).

Fixpoint concat_strings (l : list string) : string :=
  match l with [] => "" | s :: l' => s +:+ concat_strings l' end.

(** [strings.Map]: a negative result of the mapping drops the rune. *)
Definition Map (f : Z → Z) (s : string) : string :=
  concat_strings ((λ r, if (f r <? 0)%Z then "" else encode_rune (f r)) <$> runes s).

(** Case mapping of runes outside ASCII comes from the Unicode tables, which
    are data of the Go distribution: a parameter. *)
Class Unicode := {
  rune_lower_high : Z → Z;
  rune_fold_high : Z → Z;
  is_print_high : Z → bool
}.

Definition rune_lower `{Unicode} (r : Z) : Z :=
  if (r <? 0x80)%Z
  then (if (65 <=? r)%Z && (r <=? 90)%Z then r + 32 else r)
  else rune_lower_high r.

(** [strings.ToLower]: the ASCII fast path, else [Map unicode.ToLower]. *)
Definition is_ascii_string (s : string) : bool :=
  forallb (λ z, (z <? 0x80)%Z) (bytes_of s).
Definition lower_byte (c : ascii) : ascii :=
  let z := byte_of c in
  if (65 <=? z)%Z && (z <=? 90)%Z then of_byte (z + 32) else c.
Fixpoint map_bytes (f : ascii → ascii) (s : string) : string :=
  match s with "" => "" | String c s' => String (f c) (map_bytes f s') end.
Definition ToLower `{Unicode} (s : string) : string :=
  if is_ascii_string s then map_bytes lower_byte s else Map rune_lower s.

(** [strings.EqualFold]: equality of the strings' runes under simple folding.
    The K (U+212A) and long s (U+017F) signs fold to ASCII letters, which the
    table gives. *)
Definition rune_fold `{Unicode} (r : Z) : Z :=
  if (r <? 0x80)%Z
  then (if (65 <=? r)%Z && (r <=? 90)%Z then r + 32 else r)
  else rune_fold_high r.
Definition EqualFold `{Unicode} (s t : string) : bool :=
  bool_decide ((rune_fold <$> runes s) = (rune_fold <$> runes t)).

(** The tables restricted to ASCII: what witnesses compute with. *)
Definition ascii_unicode : Unicode := 
  {| rune_lower_high := id; rune_fold_high := id; is_print_high := λ _, true |}.

(** ** Trimming *)

(** The encodings of the runes [unicode.IsSpace] accepts. *)
Definition space_encodings : list string :=
  (λ l, of_bytes l) <$>
  ([[9]; [10]; [11]; [12]; [13]; [32]; [0xC2; 0x85]; [0xC2; 0xA0]; [0xE1; 0x9A; 0x80]] ++
   ((λ z, [0xE2; 0x80; z]) <$>
      [0x80; 0x81; 0x82; 0x83; 0x84; 0x85; 0x86; 0x87; 0x88; 0x89; 0x8A; 0xA8; 0xA9; 0xAF]) ++
   [[0xE2; 0x81; 0x9F]; [0xE3; 0x80; 0x80]]).

(** Remove one of the strings of [ps] from the front. *)
Fixpoint cut_any (ps : list string) (s : string) : option string :=
  match ps with
  | [] => None
  | p :: ps' => match cut_prefix p s with Some r => Some r | None => cut_any ps' s end
  end.
Fixpoint trim_left_aux (n : nat) (ps : list string) (s : string) : string :=
  match n with
  | O => s
  | S n' => match cut_any ps s with Some r => trim_left_aux n' ps r | None => s end
  end.
Definition trim_left (ps : list string) (s : string) : string :=
  trim_left_aux (String.length s) ps s.
Definition TrimSpace (s : string) : string :=
  rev_string (trim_left (rev_string <$> space_encodings)
                (rev_string (trim_left space_encodings s))).

(** [strings.Fields]: the maximal runs of non-space runes. *)
Fixpoint fields_aux (n : nat) (s cur : string) : list string :=
  let flush := if String.eqb cur "" then [] else [cur] in
  match n with
  | O => flush
  | S n' =>
      match cut_any space_encodings s with
      | Some r => flush ++ fields_aux n' r ""
      | None => match s with
                | "" => flush
                | String c r => fields_aux n' r (cur +:+ str c)
                end
      end
  end.
Definition Fields (s : string) : list string := fields_aux (S (String.length s)) s "".

(** ** Splitting and searching *)

(** [cut sep s]: the parts around the first occurrence of the non-empty
    separator. *)
Fixpoint cut (sep s : string) : option (string * string) :=
  match cut_prefix sep s with
  | Some r => Some ("", r)
  | None => match s with
            | "" => None
            | String c s' => match cut sep s' with
                             | Some (a, b) => Some (String c a, b)
                             | None => None
                             end
            end
  end.

Definition Contains (s sub : string) : bool :=
  match cut sub s with Some _ => true | None => false end.

(** [strings.Split] with a non-empty separator. *)
Fixpoint split_aux (n : nat) (sep s : string) : list string :=
  match n with
  | O => [s]
  | S n' => match cut sep s with
            | Some (a, b) => a :: split_aux n' sep b
            | None => [s]
            end
  end.
Definition Split (s sep : string) : list string := split_aux (S (String.length s)) sep s.

(** [strings.SplitN s sep 2] with a non-empty separator. *)
Definition SplitN2 (s sep : string) : list string :=
  match cut sep s with Some (a, b) => [a; b] | None => [s] end.

(** [strings.LastIndex s sep] for a one-byte separator, as the parts around it. *)
Definition cut_last (sep s : string) : option (string * string) :=
  match cut (rev_string sep) (rev_string s) with
  | Some (b, a) => Some (rev_string a, rev_string b)
  | None => None
  end.

Fixpoint Join (l : list string) (sep : string) : string :=
  match l with
  | [] => ""
  | [s] => s
  | s :: l' => s +:+ sep +:+ Join l' sep
  end.

(** [strings.ReplaceAll] with a non-empty pattern. *)
Definition ReplaceAll (s old new : string) : string := Join (Split s old) new.

(** ** strconv *)
Fixpoint dec_digits (n : nat) (z : Z) (acc : string) : string :=
  match n with
  | O => acc
  | S n' =>
      let acc' := String (of_byte (48 + z `mod` 10)) acc in
      if (z / 10 =? 0)%Z then acc' else dec_digits n' (z / 10) acc'
  end.
(** [strconv.Itoa]/[FormatInt(_, 10)]; the fuel bounds the number of digits. *)
Definition Itoa (z : Z) : string :=
  let a := Z.abs z in
  let d := dec_digits (S (Z.to_nat (Z.log2 a))) a "" in
  if (z <? 0)%Z then "-" +:+ d else d.

(** [strconv.Quote], what the [%q] verb writes. *)
Definition lowhex (z : Z) : ascii := of_byte (if z <? 10 then 48 + z else 87 + z).
Fixpoint hex_digits (n : nat) (z : Z) (acc : string) : string :=
  match n with O => acc | S n' => hex_digits n' (z / 16) (String (lowhex (z `mod` 16)) acc) end.
Definition quote_rune `{Unicode} (r : Z) : string :=
  let esc d := of_bytes [92; d] in
  if (r =? 34) || (r =? 92) then of_bytes [92; r]
  else if (32 <=? r) && (r <? 127) then of_bytes [r]
  else if (0x80 <=? r) && is_print_high r then encode_rune r
  else if r =? 7 then esc 97 else if r =? 8 then esc 98 else if r =? 12 then esc 102
  else if r =? 10 then esc 110 else if r =? 13 then esc 114 else if r =? 9 then esc 116
  else if r =? 11 then esc 118
  else if r <? 0x80 then of_bytes [92; 120] +:+ hex_digits 2 r ""
  else if r <? 0x10000 then of_bytes [92; 117] +:+ hex_digits 4 r ""
  else of_bytes [92; 85] +:+ hex_digits 8 r "".
Fixpoint quote_aux `{Unicode} (n : nat) (s : string) : string :=
  match n, s with
  | S n', String c s' =>
      let '(r, s'') := decode_rune c s' in
      (if (0x80 <=? byte_of c) && (String.length s' =? String.length s'')%nat
       then of_bytes [92; 120] +:+ hex_digits 2 (byte_of c) ""    (* an ill-formed byte *)
       else quote_rune r) +:+ quote_aux n' s''
  | _, _ => ""
  end.
Definition Quote `{Unicode} (s : string) : string :=
  of_bytes [34] +:+ quote_aux (String.length s) s +:+ of_bytes [34].

(** ** Facts about cutting and splitting *)
Definition no_byte (c : ascii) (s : string) : Prop := c ∉ String.list_ascii_of_string s.

Lemma bytes_app_ascii x y :
  String.list_ascii_of_string (x +:+ y) = String.list_ascii_of_string x ++ String.list_ascii_of_string y.
Proof. induction x as [|c x IH]; simpl; [done|]. by f_equal. Qed.

Lemma cut_sound sep s a b : cut sep s = Some (a, b) → s = a +:+ sep +:+ b.
Proof.
  revert a b. induction s as [|c s IH]; intros a b; simpl.
  - destruct (cut_prefix sep "") eqn:E; [|done].
    intros [= <- <-]. by apply cut_prefix_spec in E.
  - destruct (cut_prefix sep (String c s)) eqn:E.
    + intros [= <- <-]. by apply cut_prefix_spec in E.
    + destruct (cut sep s) as [[x y]|]; [|done].
      intros [= <- <-]. simpl. f_equal. by apply IH.
Qed.

Lemma cut_first c a b : no_byte c a → cut (str c) (a +:+ str c +:+ b) = Some (a, b).
Proof.
  unfold no_byte. induction a as [|d a IH]; simpl; intros H.
  - by rewrite Ascii.eqb_refl.
  - apply not_elem_of_cons in H as [H1 H2].
    destruct (Ascii.eqb_spec c d) as [->|_]; [done|]. simpl in IH. by rewrite IH.
Qed.

Lemma cut_none c s : cut (str c) s = None ↔ no_byte c s.
Proof.
  unfold no_byte. induction s as [|d s IH]; simpl; [by split; [set_solver|]|].
  rewrite not_elem_of_cons. destruct (Ascii.eqb_spec c d) as [->|Hd]; [naive_solver|].
  destruct (cut (str c) s) as [[? ?]|]; naive_solver.
Qed.

Lemma cut_some_no_byte c s a b : cut (str c) s = Some (a, b) → no_byte c a.
Proof.
  revert a b. unfold no_byte. induction s as [|d s IH]; intros a b; simpl; [done|].
  destruct (Ascii.eqb_spec c d) as [->|Hd].
  - intros [= <- <-]. set_solver.
  - destruct (cut (str c) s) as [[x y]|] eqn:E; [|done].
    intros [= <- <-]. simpl. apply not_elem_of_cons. split; [done|]. by eapply IH.
Qed.

Lemma no_byte_app c s t : no_byte c (s +:+ t) ↔ no_byte c s ∧ no_byte c t.
Proof.
  unfold no_byte. induction s as [|d s IH]; simpl; [set_solver|].
  rewrite !not_elem_of_cons, IH. tauto.
Qed.

Lemma SplitN2_pair s c a b : SplitN2 s (str c) = [a; b] ↔ s = a +:+ str c +:+ b ∧ no_byte c a.
Proof.
  unfold SplitN2. split.
  - destruct (cut (str c) s) as [[x y]|] eqn:E; [|done].
    intros [= <- <-]. split; [by apply cut_sound|by eapply cut_some_no_byte].
  - intros [-> H]. by rewrite cut_first.
Qed.

Lemma HasPrefix_first s c : HasPrefix s (str c) = true → s ≠ "".
Proof. intros [r ->]%HasPrefix_spec. done. Qed.

Lemma no_byte_rev c s : no_byte c (rev_string s) ↔ no_byte c s.
Proof.
  induction s as [|d s IH]; [done|]. rewrite rev_string_cons, no_byte_app, IH.
  unfold no_byte. simpl. set_solver.
Qed.

(** What follows the last separator is determined. *)
Lemma last_sep_inj c a b a' b' :
  a +:+ str c +:+ b = a' +:+ str c +:+ b' → no_byte c b → no_byte c b' → a = a' ∧ b = b'.
Proof.
  intros E Hb Hb'. apply (f_equal rev_string) in E. rewrite !rev_string_app in E.
  change (rev_string (str c)) with (str c) in E. rewrite !app_assoc_str in E.
  apply (f_equal (cut (str c))) in E.
  rewrite !cut_first in E by by apply no_byte_rev.
  injection E as E1 E2. by apply rev_string_inj in E1, E2.
Qed.

Lemma cut_last_sound sep s a b : cut_last sep s = Some (a, b) → s = a +:+ sep +:+ b.
Proof.
  unfold cut_last. destruct (cut _ _) as [[x y]|] eqn:E; [|done]. intros [= <- <-].
  apply cut_sound in E. apply (f_equal rev_string) in E.
  by rewrite !rev_string_app, !rev_string_invol, app_assoc_str in E.
Qed.

Lemma cut_last_no_byte c s a b : cut_last (str c) s = Some (a, b) → no_byte c b.
Proof.
  unfold cut_last. change (rev_string (str c)) with (str c).
  destruct (cut _ _) as [[x y]|] eqn:E; [|done]. intros [= <- <-].
  apply cut_some_no_byte in E. by apply no_byte_rev.
Qed.

Lemma cut_last_none c s : cut_last (str c) s = None → no_byte c s.
Proof.
  unfold cut_last. change (rev_string (str c)) with (str c).
  destruct (cut _ _) as [[x y]|] eqn:E; [done|]. intros _.
  apply cut_none in E. by apply no_byte_rev.
Qed.

(** ** Facts about runes *)
Lemma lor_high a b : 128 ≤ a < 256 → 0 ≤ b < 256 → 128 ≤ Z.lor a b < 256.
Proof.
  intros Ha Hb.
  assert (Z.log2 a = 7) as Hla by (apply Z.log2_unique; lia).
  assert (Z.log2 b ≤ 7) as Hlb.
  { transitivity (Z.log2 255); [apply Z.log2_le_mono; lia|done]. }
  pose proof (Z.log2_lor a b ltac:(lia) ltac:(lia)) as Hl.
  assert (0 < Z.lor a b) as Hpos.
  { destruct (Z.eq_dec (Z.lor a b) 0) as [E|]; [apply Z.lor_eq_0_iff in E; lia|].
    pose proof (proj2 (Z.lor_nonneg a b) ltac:(lia)). lia. }
  pose proof (Z.log2_spec (Z.lor a b) Hpos) as Hs. rewrite Hl, Hla in Hs.
  rewrite Z.max_l in Hs by lia. lia.
Qed.

Lemma low6_range z : 0 ≤ low6 z < 64.
Proof.
  unfold low6. replace 0x3F with (Z.ones 6) by done. rewrite Z.land_ones by lia.
  by apply Z.mod_pos_bound.
Qed.

(** A rune below 128 is its own byte; any other is spelled with high bytes. *)
Lemma encode_rune_low r : 0 ≤ r < 128 → encode_rune r = str (of_byte r).
Proof.
  intros Hr. unfold encode_rune.
  assert ((r <? 0)%Z || (0x10FFFF <? r)%Z || ((0xD800 <=? r)%Z && (r <=? 0xDFFF)%Z) = false) as ->
    by (rewrite !orb_false_iff, andb_false_iff; lia).
  by replace (r <? 0x80)%Z with true by lia.
Qed.

Lemma encode_rune_high r : ¬ 0 ≤ r < 128 → Forall (λ z, 128 ≤ z) (bytes_of (encode_rune r)).
Proof.
  intros Hr. unfold encode_rune. set (r' := if (r <? 0)%Z || (0x10FFFF <? r)%Z || ((0xD800 <=? r)%Z && (r <=? 0xDFFF)%Z)
                                      then RuneError else r).
  assert (128 ≤ r' ≤ 0x10FFFF) as Hr'.
  { subst r'. case_match eqn:E; [by unfold RuneError|].
    rewrite !orb_false_iff, andb_false_iff in E. lia. }
  clearbody r'. assert (Ht : ∀ z, 128 ≤ Z.lor 0x80 (low6 z) < 256).
  { intros z. pose proof (low6_range z). apply lor_high; lia. }
  assert (Hs : ∀ k m : Z, 0 ≤ k → r' < 2 ^ (k + m) → 0 ≤ m → 0 ≤ Z.shiftr r' k < 2 ^ m).
  { intros k m Hk Hlt Hm. rewrite Z.shiftr_div_pow2 by lia. rewrite Z.pow_add_r in Hlt by lia.
    split; [apply Z.div_pos; lia|]. apply Z.div_lt_upper_bound; lia. }
  rewrite bytes_of_of; repeat case_match; bool_prop; try lia;
    repeat first [apply List.Forall_nil | apply List.Forall_cons];
    try (pose proof (Ht r'); lia); try (pose proof (Ht (Z.shiftr r' 6)); lia);
    try (pose proof (Ht (Z.shiftr r' 12)); lia).
  all: first [pose proof (Hs 6 5 ltac:(lia) ltac:(simpl; lia) ltac:(lia))
             |pose proof (Hs 12 4 ltac:(lia) ltac:(simpl; lia) ltac:(lia))
             |pose proof (Hs 18 3 ltac:(lia) ltac:(simpl; lia) ltac:(lia))].
  all: match goal with |- context [Z.lor ?a ?b] => pose proof (lor_high a b ltac:(lia) ltac:(lia)) end; lia.
Qed.

Lemma no_byte_concat c l : no_byte c (concat_strings l) ↔ Forall (no_byte c) l.
Proof.
  induction l as [|s l IH]; simpl; [by split; [constructor|intros _; apply not_elem_of_nil]|].
  rewrite no_byte_app, IH. symmetry. apply Forall_cons.
Qed.

(** A mapping that never gives an ASCII byte yields a string without it. *)
Lemma Map_no_byte f c s : byte_of c < 128 → (∀ r, f r ≠ byte_of c) → no_byte c (Map f s).
Proof.
  intros Hc Hf. unfold Map. apply no_byte_concat, Forall_fmap, Forall_true. intros r. simpl.
  destruct (f r <? 0)%Z eqn:E; [apply not_elem_of_nil|]. bool_prop.
  destruct (decide (f r < 128)) as [Hlt|Hge].
  - rewrite encode_rune_low by lia. intros Hin%list_elem_of_singleton.
    apply (Hf r). rewrite Hin. symmetry. apply byte_of_of. lia.
  - pose proof (encode_rune_high (f r) ltac:(lia)) as Hall. intros Hin.
    rewrite Forall_forall in Hall. enough (128 ≤ byte_of c) by lia. apply Hall.
    unfold bytes_of. apply list_elem_of_fmap. eauto.
Qed.

Lemma bytes_of_cons c s : bytes_of (String c s) = byte_of c :: bytes_of s.
Proof. done. Qed.

(** ASCII bytes are their own runes. *)
Lemma runes_cons c s : byte_of c < 128 → runes (String c s) = byte_of c :: runes s.
Proof.
  intros Hc. unfold runes at 1. cbn [String.length runes_aux]. unfold decode_rune.
  by replace (byte_of c <? 0x80)%Z with true by lia.
Qed.

Lemma runes_ascii_app s t :
  Forall (λ z, z < 128) (bytes_of s) → runes (s +:+ t) = bytes_of s ++ runes t.
Proof.
  induction s as [|c s IH]; [done|]. rewrite bytes_of_cons. intros [Hc Hs]%Forall_cons.
  cbn [String.append].
  rewrite runes_cons, IH; done.
Qed.

Lemma runes_ascii s : Forall (λ z, z < 128) (bytes_of s) → runes s = bytes_of s.
Proof.
  intros Hs. pose proof (runes_ascii_app s "" Hs) as H. by rewrite app_empty_r, app_nil_r in H.
Qed.
