(* ===== verification/Utf8Facts.v ===== *)
(** * Well-formed UTF-8

    A well-formed sequence decodes to a rune that encodes to the same bytes, and
    the bytes after it do not matter ([decode_rune_wf]). A string is well formed
    when it is a sequence of ASCII bytes and of such sequences ([utf8_str]). *)

From S2P Require Import Prelude.
From S2P Require Import GoStrings.

(** ** Bits *)
Lemma lor_add a b k : 0 ≤ k → 0 ≤ b < 2 ^ k → Z.lor (Z.shiftl a k) b = a * 2 ^ k + b.
Proof.
  intros Hk Hb. rewrite <-Z.shiftl_mul_pow2 by done. rewrite Z.add_nocarry_lxor; [rewrite Z.lxor_lor; [done|]|].
  all: apply Z.bits_inj'; intros i Hi; rewrite Z.land_spec, Z.bits_0, andb_false_iff, Z.shiftl_spec by lia.
  all: destruct (decide (i < k)); [left; apply Z.testbit_neg_r; lia|right].
  all: rewrite <-(Z.mod_small b (2 ^ k)) by done; apply Z.mod_pow2_bits_high; lia.
Qed.
Lemma low6_mod z : low6 z = z `mod` 64.
Proof. unfold low6. change 0x3F with (Z.ones 6). by rewrite Z.land_ones. Qed.
Lemma tail_byte z : Z.lor 0x80 (low6 z) = 128 + z `mod` 64.
Proof.
  change 0x80 with (Z.shiftl 2 6). pose proof (low6_range z). rewrite lor_add by lia. by rewrite low6_mod.
Qed.
Lemma lead_byte a k z : 0 ≤ k → 0 ≤ z < 2 ^ k → Z.lor (a * 2 ^ k) z = a * 2 ^ k + z.
Proof. intros. rewrite <-Z.shiftl_mul_pow2, lor_add by done. by rewrite Z.shiftl_mul_pow2. Qed.

(** ** One rune *)
Definition rune_ok (r : Z) : Prop := 0 ≤ r < 0xD800 ∨ 0xDFFF < r ≤ 0x10FFFF.

Lemma encode_rune_ok r : rune_ok r → encode_rune r = of_bytes
  (if r <? 0x80 then [r]
   else if r <? 0x800 then [192 + r / 64; 128 + r `mod` 64]
   else if r <? 0x10000 then [224 + r / 4096; 128 + (r / 64) `mod` 64; 128 + r `mod` 64]
   else [240 + r / 262144; 128 + (r / 4096) `mod` 64; 128 + (r / 64) `mod` 64; 128 + r `mod` 64]).
Proof.
  intros Hr. unfold encode_rune.
  assert ((r <? 0) || (0x10FFFF <? r) || ((0xD800 <=? r) && (r <=? 0xDFFF)) = false) as ->
    by (rewrite !orb_false_iff, andb_false_iff; unfold rune_ok in Hr; lia).
  cbv zeta. rewrite !tail_byte, !Z.shiftr_div_pow2 by lia. f_equal.
  change (2 ^ 6) with 64. change (2 ^ 12) with 4096. change (2 ^ 18) with 262144.
  destruct (Z.ltb_spec r 0x80); [done|]. unfold rune_ok in Hr.
  destruct (Z.ltb_spec r 0x800); [f_equal; apply (lead_byte 6 5); [done|]; Z.to_euclidean_division_equations; lia|].
  destruct (Z.ltb_spec r 0x10000); f_equal;
    [apply (lead_byte 14 4)|apply (lead_byte 30 3)]; try done; Z.to_euclidean_division_equations; lia.
Qed.

Lemma cons_bytes c x : String c x = of_bytes (byte_of c :: bytes_of x).
Proof. rewrite <-(of_bytes_of (String c x)). done. Qed.

Lemma cont_low lo hi b : is_cont lo hi b = true → 0x80 ≤ lo → hi ≤ 0xBF → lo ≤ b ≤ hi ∧ low6 b = b - 128.
Proof.
  unfold is_cont. intros. bool_prop. split; [lia|]. rewrite low6_mod. symmetry. apply (Z.mod_unique _ _ 2); lia.
Qed.

(** The rune of each number of bytes, from their values. *)
Lemma sum2 b0 b1 : 0xC2 ≤ b0 < 0xE0 → 0 ≤ b1 < 64 →
  Z.lor (Z.shiftl (Z.land b0 0x1F) 6) b1 = (b0 - 192) * 64 + b1.
Proof.
  intros. change 0x1F with (Z.ones 5). rewrite Z.land_ones, lor_add by done. do 2 f_equal.
  symmetry. apply (Z.mod_unique _ _ 6); lia.
Qed.
Lemma sum3 b0 b1 b2 : 0xE0 ≤ b0 < 0xF0 → 0 ≤ b1 < 64 → 0 ≤ b2 < 64 →
  Z.lor (Z.lor (Z.shiftl (Z.land b0 0x0F) 12) (Z.shiftl b1 6)) b2 = (b0 - 224) * 4096 + b1 * 64 + b2.
Proof.
  intros. change 0x0F with (Z.ones 4). rewrite Z.land_ones by done.
  replace (b0 `mod` 2 ^ 4) with (b0 - 224) by (apply (Z.mod_unique _ _ 14); lia).
  rewrite (Z.shiftl_mul_pow2 b1), lor_add by lia.
  replace ((b0 - 224) * 2 ^ 12 + b1 * 2 ^ 6) with (Z.shiftl ((b0 - 224) * 64 + b1) 6) by (rewrite Z.shiftl_mul_pow2; lia).
  rewrite lor_add by lia. lia.
Qed.
Lemma sum4 b0 b1 b2 b3 : 0xF0 ≤ b0 < 0xF5 → 0 ≤ b1 < 64 → 0 ≤ b2 < 64 → 0 ≤ b3 < 64 →
  Z.lor (Z.lor (Z.shiftl (Z.land b0 0x07) 18) (Z.shiftl b1 12)) (Z.lor (Z.shiftl b2 6) b3) =
  (b0 - 240) * 262144 + b1 * 4096 + b2 * 64 + b3.
Proof.
  intros. change 0x07 with (Z.ones 3). rewrite Z.land_ones by done.
  replace (b0 `mod` 2 ^ 3) with (b0 - 240) by (apply (Z.mod_unique _ _ 30); lia).
  rewrite (Z.shiftl_mul_pow2 b1), (lor_add b2), lor_add by lia.
  replace ((b0 - 240) * 2 ^ 18 + b1 * 2 ^ 12) with (Z.shiftl ((b0 - 240) * 64 + b1) 12) by (rewrite Z.shiftl_mul_pow2; lia).
  rewrite lor_add by lia. lia.
Qed.

(** The bytes of a text, from the rune. *)
Lemma encode2 c c1 r :
  r = (byte_of c - 192) * 64 + (byte_of c1 - 128) → 0xC2 ≤ byte_of c < 0xE0 → 0x80 ≤ byte_of c1 ≤ 0xBF →
  128 ≤ r ∧ rune_ok r ∧ String c (str c1) = encode_rune r.
Proof.
  intros. assert (128 ≤ r < 0x800) by lia. split; [lia|]. unfold rune_ok. split; [lia|].
  rewrite encode_rune_ok, cons_bytes by (unfold rune_ok; lia).
  rewrite (proj2 (Z.ltb_ge r 0x80)), (proj2 (Z.ltb_lt r 0x800)) by lia. cbn [bytes_of String.list_ascii_of_string str fmap list_fmap].
  repeat f_equal; Z.to_euclidean_division_equations; lia.
Qed.
Lemma encode3 c c1 c2 r :
  r = (byte_of c - 224) * 4096 + (byte_of c1 - 128) * 64 + (byte_of c2 - 128) → 0xE0 ≤ byte_of c < 0xF0 →
  0x80 ≤ byte_of c1 ≤ 0xBF → 0x80 ≤ byte_of c2 ≤ 0xBF → (byte_of c = 0xE0 → 0xA0 ≤ byte_of c1) →
  (byte_of c = 0xED → byte_of c1 ≤ 0x9F) →
  128 ≤ r ∧ rune_ok r ∧ String c (String c1 (str c2)) = encode_rune r.
Proof.
  intros. assert (0x800 ≤ r < 0x10000 ∧ rune_ok r) as [? ?] by (unfold rune_ok; lia). split; [lia|]. split; [done|].
  rewrite encode_rune_ok, cons_bytes by done.
  rewrite (proj2 (Z.ltb_ge r 0x80)), (proj2 (Z.ltb_ge r 0x800)), (proj2 (Z.ltb_lt r 0x10000)) by lia.
  cbn [bytes_of String.list_ascii_of_string str fmap list_fmap].
  repeat f_equal; Z.to_euclidean_division_equations; lia.
Qed.
Lemma encode4 c c1 c2 c3 r :
  r = (byte_of c - 240) * 262144 + (byte_of c1 - 128) * 4096 + (byte_of c2 - 128) * 64 + (byte_of c3 - 128) →
  0xF0 ≤ byte_of c < 0xF5 → 0x80 ≤ byte_of c1 ≤ 0xBF → 0x80 ≤ byte_of c2 ≤ 0xBF → 0x80 ≤ byte_of c3 ≤ 0xBF →
  (byte_of c = 0xF0 → 0x90 ≤ byte_of c1) → (byte_of c = 0xF4 → byte_of c1 ≤ 0x8F) →
  128 ≤ r ∧ rune_ok r ∧ String c (String c1 (String c2 (str c3))) = encode_rune r.
Proof.
  intros. assert (0x10000 ≤ r ∧ rune_ok r) as [? ?] by (unfold rune_ok; lia). split; [lia|]. split; [done|].
  rewrite encode_rune_ok, cons_bytes by done.
  rewrite (proj2 (Z.ltb_ge r 0x80)), (proj2 (Z.ltb_ge r 0x800)), (proj2 (Z.ltb_ge r 0x10000)) by lia.
  cbn [bytes_of String.list_ascii_of_string str fmap list_fmap].
  repeat f_equal; Z.to_euclidean_division_equations; lia.
Qed.

(** A sequence that is well formed: its rune, its bytes, and what follows them. *)
Definition rune_of (c : ascii) (x : string) (r : Z) : Prop :=
  128 ≤ r ∧ rune_ok r ∧ String c x = encode_rune r ∧ ∀ y, decode_rune c (x +:+ y) = (r, y).

Lemma decode_rune_wf c s r s' :
  128 ≤ byte_of c → decode_rune c s = (r, s') → s' ≠ s → ∃ x, s = x +:+ s' ∧ rune_of c x r.
Proof.
  intros Hc Hd Hne. pose proof (byte_of_range c) as Hr0.
  assert (Hfin : ∀ x, s = x +:+ s' → (128 ≤ r ∧ rune_ok r ∧ String c x = encode_rune r) →
    (∀ y, decode_rune c (x +:+ y) = (r, y)) → ∃ x, s = x +:+ s' ∧ rune_of c x r).
  { intros x ? (?&?&?) ?. by exists x. }
  unfold decode_rune in Hd, Hfin. cbv zeta in Hd, Hfin.
  assert (E80 : (byte_of c <? 0x80) = false) by lia. rewrite E80 in Hd, Hfin.
  destruct (byte_of c <? 0xC2) eqn:EC2; [by injection Hd as <- <-|].
  destruct (byte_of c <? 0xE0) eqn:EE0.
  { destruct s as [|c1 s1]; [by injection Hd as <- <-|].
    destruct (is_cont 0x80 0xBF (byte_of c1)) eqn:E1; [|by injection Hd as <- <-]. injection Hd as Er <-.
    apply (Hfin (str c1)); [done| |intros y; cbn [String.append str]; by rewrite E1, Er].
    apply cont_low in E1 as [Hb1 E1]; [|lia..]. rewrite E1, sum2 in Er by (bool_prop; lia). bool_prop.
    apply encode2; lia. }
  destruct (byte_of c <? 0xF0) eqn:EF0.
  { destruct s as [|c1 [|c2 s2]]; try by injection Hd as <- <-.
    destruct (is_cont _ _ (byte_of c1)) eqn:E1; cbn [andb] in Hd; [|by injection Hd as <- <-].
    destruct (is_cont 0x80 0xBF (byte_of c2)) eqn:E2; [|by injection Hd as <- <-]. injection Hd as Er <-.
    apply (Hfin (String c1 (str c2))); [done| |intros y; cbn [String.append str]; by rewrite E1, E2, Er].
    clear Hfin. apply cont_low in E1 as [Hb1 E1]; [|repeat case_match; lia..]. apply cont_low in E2 as [Hb2 E2]; [|lia..].
    rewrite E1, E2, sum3 in Er by (bool_prop; repeat case_match; lia). bool_prop.
    apply encode3; repeat case_match; bool_prop; lia. }
  destruct (byte_of c <? 0xF5) eqn:EF5; [|by injection Hd as <- <-].
  destruct s as [|c1 [|c2 [|c3 s3]]]; try by injection Hd as <- <-.
  destruct (is_cont _ _ (byte_of c1)) eqn:E1; cbn [andb] in Hd; [|by injection Hd as <- <-].
  destruct (is_cont 0x80 0xBF (byte_of c2)) eqn:E2; cbn [andb] in Hd; [|by injection Hd as <- <-].
  destruct (is_cont 0x80 0xBF (byte_of c3)) eqn:E3; [|by injection Hd as <- <-]. injection Hd as Er <-.
  apply (Hfin (String c1 (String c2 (str c3)))); [done| |intros y; cbn [String.append str]; by rewrite E1, E2, E3, Er].
  clear Hfin. apply cont_low in E1 as [Hb1 E1]; [|repeat case_match; lia..]. apply cont_low in E2 as [Hb2 E2]; [|lia..].
  apply cont_low in E3 as [Hb3 E3]; [|lia..].
  rewrite E1, E2, E3, sum4 in Er by (bool_prop; repeat case_match; lia). bool_prop.
  apply encode4; repeat case_match; bool_prop; lia.
Qed.

(** ** Strings *)
Inductive utf8_str : string → Prop :=
| utf8_nil : utf8_str ""
| utf8_ascii c s : byte_of c < 0x80 → utf8_str s → utf8_str (String c s)
| utf8_rune c x r s : rune_of c x r → utf8_str s → utf8_str (String c (x +:+ s)).

(** The scan of [utf8.ValidString] decides it. *)
Fixpoint valid_aux (n : nat) (s : string) : bool :=
  match n, s with
  | S n', String c s' =>
      let '(_, s'') := decode_rune c s' in
      ((byte_of c <? 0x80) || negb (String.eqb s'' s')) && valid_aux n' s''
  | _, "" => true
  | O, _ => false
  end.
Definition ValidString (s : string) : bool := valid_aux (String.length s) s.

Lemma valid_utf8 s : ValidString s = true → utf8_str s.
Proof.
  unfold ValidString. generalize (String.length s). intros n. revert s.
  induction n as [|n IH]; intros [|c s] Hv; try done; [apply utf8_nil..|]. cbn [valid_aux] in Hv.
  destruct (decode_rune c s) as [r s'] eqn:Ed. apply andb_true_iff in Hv as [Hc Hv]. apply IH in Hv.
  destruct (Z.ltb_spec (byte_of c) 0x80) as [Hlt|Hge].
  - unfold decode_rune in Ed. rewrite (proj2 (Z.ltb_lt _ _) Hlt) in Ed. injection Ed as <- <-. by apply utf8_ascii.
  - cbn [orb] in Hc. apply negb_true_iff, String.eqb_neq in Hc.
    destruct (decode_rune_wf c s r s' Hge Ed Hc) as (x & -> & Hx). by eapply utf8_rune.
Qed.

Example utf8_ex : utf8_str (of_bytes [206; 178; 32; 226; 130; 172; 32; 240; 159; 153; 130]).
Proof. apply valid_utf8. vm_compute. reflexivity. Qed.
