(* ===== verification/Effects.v ===== *)
(** * Programs with external calls

    The program's functions are sequential code around calls the model does
    not look into (Redis, the identity provider, the clock, ...).  Such code
    is a [prog E A]: a tree whose nodes are external calls of the signature
    [E], each with one branch per possible answer, and whose leaves are
    results.

    - [exec p tr a]: with the answers recorded in the trace [tr], [p] makes
      exactly the calls of [tr], in that order, and returns [a].  Nothing is
      assumed of the answers: a theorem about every [exec] holds against any
      environment.
    - [run h p s]: the calls are served by a handler [h] over a state [s].
    - [pstep]: a pool of programs over one shared state, each step serving one
      call of one of them: concurrent requests interleave at their calls. *)

From S2P Require Import Prelude.

Inductive prog (E : Type → Type) (A : Type) : Type :=
| Ret (a : A)
| Vis {X : Type} (e : E X) (k : X → prog E A).
Arguments Ret {E A} a.
Arguments Vis {E A X} e k.

Fixpoint pbind {E A B} (p : prog E A) (f : A → prog E B) : prog E B :=
  match p with
  | Ret a => f a
  | Vis e k => Vis e (λ x, pbind (k x) f)
  end.

Definition call {E X} (e : E X) : prog E X := Vis e Ret.

Notation "x <- p ;; k" := (pbind p (λ x, k))
  (at level 100, p at next level, right associativity) : go_scope.
Notation "p ;;; k" := (pbind p (λ _, k))
  (at level 100, right associativity) : go_scope.

(** The wall clock: [time.Now()], as nanoseconds since the Unix epoch. *)
Class ClockE (E : Type → Type) := Now : E Z.

Inductive event (E : Type → Type) : Type :=
| Ev {X : Type} (e : E X) (x : X).
Arguments Ev {E X} e x.

Section exec.
Context {E : Type → Type}.

Fixpoint exec {A} (p : prog E A) (tr : list (event E)) (a : A) : Prop :=
  match p with
  | Ret a' => tr = [] ∧ a' = a
  | Vis e k => ∃ x tr', tr = Ev e x :: tr' ∧ exec (k x) tr' a
  end.

Lemma exec_bind {A B} (p : prog E A) (f : A → prog E B) tr b :
  exec (pbind p f) tr b ↔
  ∃ a t1 t2, tr = t1 ++ t2 ∧ exec p t1 a ∧ exec (f a) t2 b.
Proof.
  revert tr. induction p as [a|X e k IH]; intros tr; simpl.
  - split; [intros; by exists a, [], tr|].
    by intros (a' & t1 & t2 & -> & [-> ->] & H).
  - split.
    + intros (x & tr' & -> & (a & t1 & t2 & -> & H1 & H2)%IH).
      exists a, (Ev e x :: t1), t2. split; [done|]. split; [eauto|done].
    + intros (a & t1 & t2 & -> & (x & tr' & -> & H1) & H2).
      exists x, (tr' ++ t2). split; [done|]. apply IH. eauto 6.
Qed.

(** Every result of the program satisfies [P], whatever the answers. *)
Fixpoint always {A} (P : A → Prop) (p : prog E A) : Prop :=
  match p with
  | Ret a => P a
  | Vis e k => ∀ x, always P (k x)
  end.

Lemma always_bind {A B} (P : B → Prop) (p : prog E A) (f : A → prog E B) :
  (∀ a, always P (f a)) → always P (pbind p f).
Proof. intros Hf. induction p as [a|X e k IH]; simpl; auto. Qed.

Lemma always_exec {A} (P : A → Prop) (p : prog E A) tr a : always P p → exec p tr a → P a.
Proof.
  revert tr. induction p as [a'|X e k IH]; simpl; intros tr Hp.
  - by intros [_ <-].
  - intros (x & tr' & _ & Hx). by eapply IH.
Qed.

Lemma exec_ret {A} (a a' : A) tr : exec (Ret a : prog E A) tr a' ↔ tr = [] ∧ a = a'.
Proof. done. Qed.
End exec.

Section run.
Context {E : Type → Type} {S : Type}.

Definition handler := ∀ X, E X → S → X * S.

Fixpoint run (h : handler) {A} (p : prog E A) (s : S) : A * S :=
  match p with
  | Ret a => (a, s)
  | Vis e k => let '(x, s') := h _ e s in run h (k x) s'
  end.

(** The calls a run makes. *)
Fixpoint run_trace (h : handler) {A} (p : prog E A) (s : S) : list (event E) :=
  match p with
  | Ret _ => []
  | Vis e k => let '(x, s') := h _ e s in Ev e x :: run_trace h (k x) s'
  end.

Lemma run_bind h {A B} (p : prog E A) (f : A → prog E B) s :
  run h (pbind p f) s = let '(a, s') := run h p s in run h (f a) s'.
Proof.
  revert s. induction p as [a|X e k IH]; intros s; simpl; [done|].
  destruct (h X e s) as [x s']. apply IH.
Qed.

(** A run is one of the executions. *)
Lemma run_exec h {A} (p : prog E A) s :
  exec p (run_trace h p s) (fst (run h p s)).
Proof.
  revert s. induction p as [a|X e k IH]; intros s; simpl; [done|].
  destruct (h X e s) as [x s']. eauto.
Qed.
End run.
Arguments handler : clear implicits.

(** Each call of [E] implemented by a program over [F]: the composition of two
    layers of the system. *)
Fixpoint interp {E F : Type → Type} (impl : ∀ X, E X → prog F X) {A} (p : prog E A) : prog F A :=
  match p with
  | Ret a => Ret a
  | Vis e k => pbind (impl _ e) (λ x, interp impl (k x))
  end.

Lemma run_interp {E F : Type → Type} {S} (impl : ∀ X, E X → prog F X) (h : handler F S)
    {A} (p : prog E A) s :
  run h (interp impl p) s = run (λ X (e : E X) s', run h (impl X e) s') p s.
Proof.
  revert s. induction p as [a|X e k IH]; intros s; simpl; [done|].
  rewrite run_bind. destruct (run h (impl X e) s) as [x s']. apply IH.
Qed.

(** The calls of one environment as calls of a larger one. *)
Definition lift_event {E F : Type → Type} (f : ∀ X, E X → F X) (ev : event E) : event F :=
  match ev with Ev e x => Ev (f _ e) x end.

Lemma exec_lift {E F : Type → Type} (f : ∀ X, E X → F X) {A} (p : prog E A) tr a :
  exec (interp (λ X e, call (f X e)) p) tr a ↔ ∃ t, tr = lift_event f <$> t ∧ exec p t a.
Proof.
  revert tr. induction p as [b|X e k IH]; intros tr.
  - cbn [interp exec]. split; [intros [-> ->]; by exists []|]. intros (t & -> & -> & ->). done.
  - cbn [interp pbind call exec]. split.
    + intros (x & tr' & -> & (t & -> & Ht)%IH). exists (Ev e x :: t). split; [done|]. by exists x, t.
    + intros (t & -> & x & t' & -> & Ht). exists x, (lift_event f <$> t'). split; [done|]. apply IH. by exists t'.
Qed.

(** ** Pools of programs *)
Section pool.
Context {E : Type → Type} {S A : Type}.
Context (answers : ∀ X, E X → S → X → S → Prop).

(** The next call of a program, served: [answers] says which answer and which
    next state the shared environment may give. *)
Definition served (p : prog E A) (s : S) (p' : prog E A) (s' : S) : Prop :=
  match p with
  | Ret _ => False
  | Vis e k => ∃ x, answers _ e s x s' ∧ p' = k x
  end.

Inductive pstep : S * list (prog E A) → S * list (prog E A) → Prop :=
| pstep_call s s' ps i p p' :
    ps !! i = Some p → served p s p' s' → pstep (s, ps) (s', <[i := p']> ps).

Definition preach : S * list (prog E A) → S * list (prog E A) → Prop := rtc pstep.

Lemma pstep_vis s s' ps ps' i X (e : E X) k x :
  ps !! i = Some (Vis e k) → answers X e s x s' → ps' = <[i := k x]> ps →
  pstep (s, ps) (s', ps').
Proof. intros ? ? ->. eapply pstep_call; [done|]. by exists x. Qed.
End pool.

Lemma preach_mono {E : Type → Type} {S A : Type} (R R' : ∀ X, E X → S → X → S → Prop)
    (st st' : S * list (prog E A)) :
  (∀ X e s x s', R X e s x s' → R' X e s x s') → preach R st st' → preach R' st st'.
Proof.
  intros HR. apply rtc_subrel. intros a b Hs. destruct Hs as [s s' ps i p p' Hi Hp]. econstructor; [exact Hi|].
  destruct p as [|X e k]; [done|]. destruct Hp as (x & Hx & ->). exists x. auto.
Qed.

(** A schedule served by a handler: the next call of each program named. *)
Section schedule.
Context {E : Type → Type} {S A : Type} (h : handler E S).

Definition handler_answers (X : Type) (e : E X) (s : S) (x : X) (s' : S) : Prop := h X e s = (x, s').
Definition serve_next (st : S * list (prog E A)) (i : nat) : S * list (prog E A) :=
  match @lookup nat (prog E A) _ _ i st.2 with
  | Some (Vis e k) => let '(x, s) := h _ e st.1 in (s, @insert nat (prog E A) _ _ i (k x) st.2)
  | _ => st
  end.

Lemma schedule_reach (l : list nat) st : preach handler_answers st (foldl serve_next st l).
Proof.
  revert st. induction l as [|i l IH]; intros st; [done|]. simpl. etrans; [|apply IH].
  destruct st as [s ps]. unfold serve_next. simpl. destruct (ps !! i) as [[a|X e k]|] eqn:Ei; try done.
  destruct (h X e s) as [x s'] eqn:Eh. apply rtc_once. by eapply pstep_vis.
Qed.
End schedule.

(** ** Fair schedules

    Whichever program an endless schedule names, as long as it names each again
    and again, every program of the pool returns: a program makes finitely many
    calls. *)
Section fair.
Context {E : Type → Type} {S A : Type} (h : handler E S) (sched : nat → nat).
Notation state := (S * list (prog E A))%type.

Definition fair (n : nat) : Prop := ∀ i k : nat, (i < n)%nat → ∃ d : nat, sched (k + d) = i.
Fixpoint served_for (n : nat) (st : state) : state :=
  match n with O => st | Datatypes.S n' => serve_next h (served_for n' st) (sched n') end.
Definition returned (p : prog E A) : Prop := match p with Ret _ => True | Vis _ _ => False end.

Lemma serve_next_other (st : state) i j : i ≠ j → (serve_next h st i).2 !! j = st.2 !! j.
Proof.
  intros Hij. unfold serve_next. destruct (st.2 !! i) as [[a|X e k]|]; [done| |done].
  destruct (h X e st.1). simpl. by rewrite list_lookup_insert_ne.
Qed.

Lemma serve_next_self (st : state) i X (e : E X) k : st.2 !! i = Some (Vis e k) →
  (serve_next h st i).2 !! i = Some (k (fst (h X e st.1))).
Proof.
  intros Hi. unfold serve_next. rewrite Hi. destruct (h X e st.1). simpl.
  apply list_lookup_insert_eq. by eapply lookup_lt_Some.
Qed.

Lemma served_length st n : length (served_for n st).2 = length st.2.
Proof.
  induction n as [|n IH]; [done|]. cbn [served_for]. rewrite <-IH. generalize (served_for n st). intros st'. unfold serve_next.
  destruct (st'.2 !! sched n) as [[a|X e k]|]; [done| |done]. destruct (h X e st'.1). simpl. apply length_insert.
Qed.

Lemma returned_stays st i n m a : (n ≤ m)%nat → (served_for n st).2 !! i = Some (Ret a) →
  (served_for m st).2 !! i = Some (Ret a).
Proof.
  intros Hle Hn. induction Hle as [|m _ IH]; [done|]. simpl.
  destruct (decide (sched m = i)) as [<-|Hne]; [|by rewrite serve_next_other].
  unfold serve_next. by rewrite IH.
Qed.

Lemma eventually_returned st i p : (∀ k : nat, ∃ d : nat, sched (k + d) = i) →
  ∀ n, (served_for n st).2 !! i = Some p → ∃ m a, (served_for m st).2 !! i = Some (Ret a).
Proof.
  intros Hf. induction p as [a|X e k IH]; intros n Hn; [eauto|].
  destruct (Hf n) as [d Hd]. revert n Hn Hd. induction d as [|d IHd]; intros n Hn Hd.
  - rewrite Nat.add_0_r in Hd. apply (IH (fst (h X e (served_for n st).1)) (Datatypes.S n)). simpl. rewrite Hd.
    by apply serve_next_self.
  - destruct (decide (sched n = i)) as [Hi|Hi].
    + apply (IH (fst (h X e (served_for n st).1)) (Datatypes.S n)). simpl. rewrite Hi. by apply serve_next_self.
    + apply (IHd (Datatypes.S n)); [|by rewrite <-Hd; f_equal; lia]. simpl. by rewrite serve_next_other.
Qed.

Lemma fair_all_returned st : fair (length st.2) → ∃ n, Forall returned (served_for n st).2.
Proof.
  intros Hf.
  assert (Hl : ∀ l, (l ≤ length st.2)%nat → ∃ n, ∀ i, (i < l)%nat → ∃ a, (served_for n st).2 !! i = Some (Ret a)).
  { induction l as [|l IH]; intros Hle; [exists 0%nat; lia|]. destruct IH as [n Hn]; [lia|].
    destruct (lookup_lt_is_Some_2 st.2 l) as [p Hp]; [lia|].
    destruct (eventually_returned st l p (λ k, Hf l k ltac:(lia)) 0 Hp) as (m & a & Hm).
    exists (n `max` m)%nat. intros i Hi. destruct (decide (i = l)) as [->|].
    - exists a. eapply returned_stays; [|exact Hm]. lia.
    - destruct (Hn i) as [b Hb]; [lia|]. exists b. eapply returned_stays; [|exact Hb]. lia. }
  destruct (Hl (length st.2)) as [n Hn]; [done|]. exists n. apply Forall_lookup. intros i p Hp.
  destruct (Hn i) as [a Ha]; [rewrite <-(served_length st n); by eapply lookup_lt_Some|].
  rewrite Hp in Ha. by injection Ha as ->.
Qed.

(** What a step of a schedule is, for an invariant. *)
Lemma served_for_inv (P : state → Prop) st n :
  P st → (∀ st', P st' → ∀ i, P (serve_next h st' i)) → P (served_for n st).
Proof. intros H0 Hs. induction n as [|n IH]; [done|]. simpl. by apply Hs. Qed.
End fair.

(** Consume the calls of an [exec] hypothesis one by one, naming each answer. *)
Ltac exec_step H :=
  lazymatch type of H with
  | exec (Ret _) _ _ => destruct H as [-> H]
  | exec (Vis _ _) _ _ => let x := fresh "x" in destruct H as (x & ? & -> & H)
  | _ => cbn [exec pbind call] in H
  end.
