(* ===== verification/GoTime.v ===== *)
(** * Go's time package

    An instant is its nanoseconds since the Unix epoch.  Inside [time.Time]
    the seconds are an int64 counted from year 1, so [time.Unix] wraps far
    outside the calendar; [Time.Sub] saturates at the ends of [Duration]
    (int64 nanoseconds) and [Duration] arithmetic wraps. *)

From S2P Require Import Prelude.

Notation Second := 1000000000 (only parsing).
Notation Minute := 60000000000 (only parsing).
Notation Hour := 3600000000000 (only parsing).

Definition unix_to_internal : Z := 62135596800.

(** [time.Unix(s, 0)] *)
Definition TimeUnix (s : Z) : Z := (wrap64 (s + unix_to_internal) - unix_to_internal) * Second.
(** [t.Unix()] *)
Definition Unix (t : Z) : Z := t / Second.
(** [t.Sub(u)], also [time.Until(t)] at [u] and [time.Since(u)] at [t]. *)
Definition TimeSub (t u : Z) : Z := Z.max (- 2^63) (Z.min (2^63 - 1) (t - u)).
(** [d1 + d2] on durations. *)
Definition DurAdd (d1 d2 : Z) : Z := wrap64 (d1 + d2).
(** [time.Duration(n) * unit] *)
Definition DurMul (n unit : Z) : Z := wrap64 (n * unit).

(** The zero [time.Time], January 1 of year 1. *)
Definition zero_time : Z := - unix_to_internal * Second.
Definition IsZero (t : Z) : bool := t =? zero_time.

Lemma TimeUnix_in s : - unix_to_internal ≤ s < 2^62 → TimeUnix s = s * Second.
Proof.
  unfold TimeUnix, unix_to_internal. intros.
  rewrite wrap64_id by (unfold int64_range; lia). lia.
Qed.

Lemma TimeSub_in t u : - 2^63 ≤ t - u < 2^63 → TimeSub t u = t - u.
Proof. unfold TimeSub. lia. Qed.

Lemma Unix_le t s : Unix t ≤ s ↔ t < (s + 1) * Second.
Proof. unfold Unix. Z.to_euclidean_division_equations; lia. Qed.

Lemma Unix_mono t u : t ≤ u → Unix t ≤ Unix u.
Proof. intros. unfold Unix. by apply Z.div_le_mono. Qed.
