(* ===== verification/Base64.v ===== *)
(** * encoding/base64

    [URLEncoding] (padded) and [RawURLEncoding] (unpadded) of Go's
    encoding/base64, and [StdEncoding] for signatures.  Decoding ignores CR and LF anywhere and, as the
    package's default (non-strict) mode, does not look at the unused bits of
    the last digit. *)

From S2P Require Import Prelude.
From S2P Require Import GoStrings.

(** The alphabet: digits 62 and 63 are [-] and [_] in the URL variant, [+] and
    [/] in the standard one. *)
Inductive alphabet := UrlAlphabet | StdAlphabet.
Definition c62 (al : alphabet) : Z := match al with UrlAlphabet => 45 | StdAlphabet => 43 end.
Definition c63 (al : alphabet) : Z := match al with UrlAlphabet => 95 | StdAlphabet => 47 end.

Definition digit_char (al : alphabet) (d : Z) : Z :=
  if d <? 26 then 65 + d
  else if d <? 52 then 97 + (d - 26)
  else if d <? 62 then 48 + (d - 52)
  else if d =? 62 then c62 al else c63 al.

Definition char_digit (al : alphabet) (c : Z) : option Z :=
  if (65 <=? c) && (c <=? 90) then Some (c - 65)
  else if (97 <=? c) && (c <=? 122) then Some (c - 97 + 26)
  else if (48 <=? c) && (c <=? 57) then Some (c - 48 + 52)
  else if c =? c62 al then Some 62
  else if c =? c63 al then Some 63
  else None.

Definition pad_char : Z := 61.

Definition hi6 (v : Z) : Z := v / 262144.
Definition mh6 (v : Z) : Z := (v / 4096) `mod` 64.
Definition ml6 (v : Z) : Z := (v / 64) `mod` 64.
Definition lo6 (v : Z) : Z := v `mod` 64.
Definition quantum (d0 d1 d2 d3 : Z) : Z := d0 * 262144 + d1 * 4096 + d2 * 64 + d3.

Section encode.
Context (al : alphabet) (padded : bool).

Definition padding (n : nat) : list Z := if padded then replicate n pad_char else [].

Fixpoint enc (l : list Z) : list Z :=
  match l with
  | a :: b :: c :: r =>
      let v := a * 65536 + b * 256 + c in
      digit_char al (hi6 v) :: digit_char al (mh6 v) ::
      digit_char al (ml6 v) :: digit_char al (lo6 v) :: enc r
  | [a; b] =>
      let v := a * 65536 + b * 256 in
      [digit_char al (hi6 v); digit_char al (mh6 v); digit_char al (ml6 v)] ++ padding 1
  | [a] =>
      let v := a * 65536 in
      [digit_char al (hi6 v); digit_char al (mh6 v)] ++ padding 2
  | [] => []
  end.

Definition byte2 (v : Z) : Z := v / 65536.
Definition byte1 (v : Z) : Z := (v / 256) `mod` 256.
Definition byte0 (v : Z) : Z := v `mod` 256.

(** The last quantum, after two digits. *)
Definition dec_tail (d0 d1 : Z) (r : list Z) : option (list Z) :=
  match padded, r with
  | true, [c2; c3] =>
      if (c2 =? pad_char) && (c3 =? pad_char) then Some [byte2 (quantum d0 d1 0 0)]
      else if c3 =? pad_char then
        match char_digit al c2 with
        | Some d2 => let v := quantum d0 d1 d2 0 in Some [byte2 v; byte1 v]
        | None => None
        end
      else None
  | false, [] => Some [byte2 (quantum d0 d1 0 0)]
  | false, [c2] =>
      match char_digit al c2 with
      | Some d2 => let v := quantum d0 d1 d2 0 in Some [byte2 v; byte1 v]
      | None => None
      end
  | _, _ => None
  end.

Fixpoint dec (l : list Z) : option (list Z) :=
  match l with
  | [] => Some []
  | c0 :: c1 :: r =>
      match char_digit al c0, char_digit al c1 with
      | Some d0, Some d1 =>
          match r with
          | c2 :: c3 :: r' =>
              match char_digit al c2, char_digit al c3 with
              | Some d2, Some d3 =>
                  let v := quantum d0 d1 d2 d3 in
                  match dec r' with
                  | Some bs => Some (byte2 v :: byte1 v :: byte0 v :: bs)
                  | None => None
                  end
              | _, _ => dec_tail d0 d1 r
              end
          | _ => dec_tail d0 d1 r
          end
      | _, _ => None
      end
  | _ => None
  end.

Definition not_newline (c : Z) : bool := negb ((c =? 10) || (c =? 13)).

Definition EncodeToString (s : string) : string := of_bytes (enc (bytes_of s)).
Definition DecodeString (s : string) : option string :=
  of_bytes <$> dec (List.filter not_newline (bytes_of s)).
End encode.

Definition url_encode : string → string := EncodeToString UrlAlphabet true.
Definition url_decode : string → option string := DecodeString UrlAlphabet true.
Definition rawurl_encode : string → string := EncodeToString UrlAlphabet false.
Definition rawurl_decode : string → option string := DecodeString UrlAlphabet false.
Definition std_decode : string → option string := DecodeString StdAlphabet true.

(** ** Facts *)
Lemma char_digit_char al d : 0 ≤ d < 64 → char_digit al (digit_char al d) = Some d.
Proof.
  intros Hd. unfold digit_char, char_digit, c62, c63.
  destruct al; repeat (case_match; bool_prop; try (f_equal; lia)); lia.
Qed.

(** What the output is made of: visible ASCII characters, and no quote, dot,
    semicolon or backslash. *)
Definition b64_char (c : Z) : Prop :=
  32 < c < 127 ∧ (c ≠ 34 ∧ c ≠ 46 ∧ c ≠ 59 ∧ c ≠ 92) ∧ not_newline c = true.

Lemma digit_char_ok al d : 0 ≤ d < 64 → b64_char (digit_char al d).
Proof.
  intros Hd. unfold b64_char, not_newline, digit_char, c62, c63.
  rewrite negb_true_iff, orb_false_iff, !Z.eqb_neq.
  destruct al; repeat case_match; bool_prop; lia.
Qed.

Lemma not_pad al d : 0 ≤ d < 64 → (digit_char al d =? pad_char) = false.
Proof.
  intros Hd. unfold digit_char, c62, c63, pad_char. apply Z.eqb_neq.
  destruct al; repeat case_match; bool_prop; lia.
Qed.

Lemma char_digit_pad al : char_digit al pad_char = None.
Proof. by destruct al. Qed.

Section digits.
Context (a b c : Z) (Ha : 0 ≤ a < 256) (Hb : 0 ≤ b < 256) (Hc : 0 ≤ c < 256).
Let v := a * 65536 + b * 256 + c.

Lemma sextets_range :
  0 ≤ hi6 v < 64 ∧ 0 ≤ mh6 v < 64 ∧ 0 ≤ ml6 v < 64 ∧ 0 ≤ lo6 v < 64.
Proof. subst v. unfold hi6, mh6, ml6, lo6. Z.to_euclidean_division_equations; lia. Qed.

Lemma quantum_sextets : quantum (hi6 v) (mh6 v) (ml6 v) (lo6 v) = v.
Proof. subst v. unfold quantum, hi6, mh6, ml6, lo6. Z.to_euclidean_division_equations; lia. Qed.

Lemma octets : byte2 v = a ∧ byte1 v = b ∧ byte0 v = c.
Proof. subst v. unfold byte2, byte1, byte0. Z.to_euclidean_division_equations; lia. Qed.

Lemma quantum_short2 : c = 0 → quantum (hi6 v) (mh6 v) (ml6 v) 0 = v.
Proof. subst v. unfold quantum, hi6, mh6, ml6. Z.to_euclidean_division_equations; lia. Qed.

Lemma quantum_short1 : b = 0 → c = 0 → quantum (hi6 v) (mh6 v) 0 0 = v.
Proof. subst v. unfold quantum, hi6, mh6. Z.to_euclidean_division_equations; lia. Qed.
End digits.

Notation bytes l := (Forall (λ z, 0 ≤ z < 256) l).

(** Induction three bytes at a time. *)
Lemma list_ind3 (P : list Z → Prop) :
  P [] → (∀ a, P [a]) → (∀ a b, P [a; b]) →
  (∀ a b c l, P l → P (a :: b :: c :: l)) → ∀ l, P l.
Proof. intros H0 H1 H2 H3. fix IH 1. intros [|a [|b [|c l]]]; [done|done|done|]. apply H3, IH. Qed.

Lemma dec_enc al padded l : bytes l → dec al padded (enc al padded l) = Some l.
Proof.
  induction l as [|a|a b|a b c l IH] using list_ind3; intros H; [done|..];
    decompose_Forall_hyps.
  - destruct (sextets_range a 0 0) as (?&?&_&_); [lia..|].
    pose proof (quantum_short1 a 0 0 ltac:(lia) ltac:(lia) ltac:(lia) eq_refl eq_refl) as Hq.
    destruct (octets a 0 0) as (Ho&_&_); [lia..|].
    replace (a * 65536 + 0 * 256 + 0) with (a * 65536) in * by lia.
    cbn [enc app dec]. rewrite !char_digit_char by done.
    destruct padded; cbn [padding replicate]; rewrite ?char_digit_pad;
      unfold dec_tail; by rewrite Hq, Ho.
  - destruct (sextets_range a b 0) as (?&?&?&_); [lia..|].
    pose proof (quantum_short2 a b 0 ltac:(lia) ltac:(lia) ltac:(lia) eq_refl) as Hq.
    destruct (octets a b 0) as (Ho&Ho1&_); [lia..|].
    replace (a * 65536 + b * 256 + 0) with (a * 65536 + b * 256) in * by lia.
    cbn [enc app dec]. rewrite !char_digit_char by done.
    destruct padded; cbn [padding replicate]; rewrite ?char_digit_pad;
      unfold dec_tail; rewrite ?not_pad, ?char_digit_char by done; simpl;
      by rewrite Hq, Ho, Ho1.
  - destruct (sextets_range a b c) as (?&?&?&?); [lia..|].
    pose proof (quantum_sextets a b c ltac:(lia) ltac:(lia) ltac:(lia)) as Hq.
    destruct (octets a b c) as (Ho&Ho1&Ho2); [lia..|].
    cbn [enc dec]. rewrite !char_digit_char by done.
    rewrite Hq, Ho, Ho1, Ho2, IH by done. done.
Qed.

Lemma padding_chars padded n : Forall b64_char (padding padded n).
Proof.
  unfold padding. destruct padded; [|constructor].
  apply Forall_replicate. unfold b64_char, pad_char. simpl. done.
Qed.

Lemma enc_chars al padded l : bytes l → Forall b64_char (enc al padded l).
Proof.
  induction l as [|a|a b|a b c l IH] using list_ind3; intros H; [constructor|..];
    decompose_Forall_hyps.
  - destruct (sextets_range a 0 0) as (?&?&_&_); [lia..|].
    replace (a * 65536 + 0 * 256 + 0) with (a * 65536) in * by lia.
    cbn [enc app]. repeat (constructor; [by apply digit_char_ok|]). apply padding_chars.
  - destruct (sextets_range a b 0) as (?&?&?&_); [lia..|].
    replace (a * 65536 + b * 256 + 0) with (a * 65536 + b * 256) in * by lia.
    cbn [enc app]. repeat (constructor; [by apply digit_char_ok|]). apply padding_chars.
  - destruct (sextets_range a b c) as (?&?&?&?); [lia..|].
    cbn [enc]. repeat (constructor; [by apply digit_char_ok|]). auto.
Qed.

Lemma filter_all {A} (f : A → bool) l : Forall (λ x, f x = true) l → List.filter f l = l.
Proof. induction 1 as [|x l Hx _ IH]; simpl; [done|]. by rewrite Hx, IH. Qed.

(** Decoding an encoding gives the string back. *)
Lemma DecodeString_EncodeToString al padded s :
  DecodeString al padded (EncodeToString al padded s) = Some s.
Proof.
  unfold DecodeString, EncodeToString.
  pose proof (enc_chars al padded (bytes_of s) (bytes_of_range s)) as Hc.
  rewrite bytes_of_of by (eapply Forall_impl; [exact Hc|]; intros ? [? _]; cbn beta; lia).
  rewrite filter_all by (eapply Forall_impl; [exact Hc|]; intros ? (_&_&?); done).
  rewrite dec_enc by apply bytes_of_range. simpl. by rewrite of_bytes_of.
Qed.

Lemma EncodeToString_chars al padded s :
  Forall (λ c, b64_char (byte_of c)) (String.list_ascii_of_string (EncodeToString al padded s)).
Proof.
  unfold EncodeToString, of_bytes. rewrite String.list_ascii_of_string_of_list_ascii, Forall_fmap.
  eapply Forall_impl; [apply enc_chars, bytes_of_range|]. intros z Hz. cbn. rewrite byte_of_of; [done|].
  destruct Hz. lia.
Qed.

(** An encoding holds no dot, so it can be one field of a dotted value. *)
Lemma EncodeToString_no_dot al padded s : no_byte "."%char (EncodeToString al padded s).
Proof.
  intros Hin. pose proof (EncodeToString_chars al padded s) as Hc. rewrite Forall_forall in Hc.
  by destruct (Hc _ Hin) as (_ & (_ & H46 & _) & _).
Qed.

Lemma EncodeToString_inj al padded s t :
  EncodeToString al padded s = EncodeToString al padded t → s = t.
Proof.
  intros H. apply (f_equal (DecodeString al padded)) in H.
  rewrite !DecodeString_EncodeToString in H. congruence.
Qed.
