(* ===== verification/Sha256.v ===== *)
(** * crypto/sha256 and crypto/hmac

    SHA-256 (FIPS 180-4) on lists of bytes and HMAC (RFC 2104) over it: the
    two primitives the program signs cookies, handoff tickets and webhook
    bodies with.  Both are executable; the examples are the published test
    vectors. *)

From S2P Require Import Prelude.
From S2P Require Import GoStrings.

Definition mask32 (z : Z) : Z := Z.land z 0xFFFFFFFF.
Definition add32 (a b : Z) : Z := mask32 (a + b).
Definition rotr (n x : Z) : Z := mask32 (Z.lor (Z.shiftr x n) (Z.shiftl x (32 - n))).
Definition Ch (x y z : Z) : Z := Z.lxor (Z.land x y) (Z.land (Z.lxor x 0xFFFFFFFF) z).
Definition Maj (x y z : Z) : Z := Z.lxor (Z.lxor (Z.land x y) (Z.land x z)) (Z.land y z).
Definition big_sigma0 (x : Z) : Z := Z.lxor (Z.lxor (rotr 2 x) (rotr 13 x)) (rotr 22 x).
Definition big_sigma1 (x : Z) : Z := Z.lxor (Z.lxor (rotr 6 x) (rotr 11 x)) (rotr 25 x).
Definition small_sigma0 (x : Z) : Z := Z.lxor (Z.lxor (rotr 7 x) (rotr 18 x)) (Z.shiftr x 3).
Definition small_sigma1 (x : Z) : Z := Z.lxor (Z.lxor (rotr 17 x) (rotr 19 x)) (Z.shiftr x 10).

(** The constants are the first 32 bits of the fractional parts of the cube
    roots and square roots of the first primes; they are computed once, here. *)
Definition is_prime (n : nat) : bool :=
  forallb (λ d, negb (n mod d =? 0)%nat) (seq 2 (n - 2)).
Definition primes : list Z :=
  Eval vm_compute in Z.of_nat <$> List.filter is_prime (seq 2 310).

(** The integer cube root, by bisection on its bits. *)
Fixpoint icbrt (bits : nat) (z root : Z) : Z :=
  match bits with
  | O => root
  | S b => let r := root + 2 ^ Z.of_nat b in
           icbrt b z (if r * r * r <=? z then r else root)
  end.
Definition K256 : list Z :=
  Eval vm_compute in (λ p, mask32 (icbrt 40 (p * 2 ^ 96) 0)) <$> primes.
Definition H256 : list Z :=
  Eval vm_compute in (λ p, mask32 (Z.sqrt (p * 2 ^ 64))) <$> take 8 primes.

(** Big-endian words. *)
Fixpoint words_of (l : list Z) : list Z :=
  match l with
  | a :: b :: c :: d :: r => (a * 16777216 + b * 65536 + c * 256 + d) :: words_of r
  | _ => []
  end.
Definition be_bytes (n : nat) (z : Z) : list Z :=
  (λ i, Z.land (Z.shiftr z (8 * Z.of_nat i)) 0xFF) <$> rev (seq 0 n).

(** The message schedule, most recent word first. *)
Fixpoint schedule (n : nat) (w : list Z) : list Z :=
  match n with
  | O => w
  | S n' =>
      let at_ i := nth i w 0 in
      let x := add32 (add32 (small_sigma1 (at_ 1%nat)) (at_ 6%nat))
                     (add32 (small_sigma0 (at_ 14%nat)) (at_ 15%nat)) in
      schedule n' (x :: w)
  end.

Definition round (st : list Z) (kw : Z * Z) : list Z :=
  match st with
  | [a; b; c; d; e; f; g; h] =>
      let t1 := add32 (add32 h (big_sigma1 e)) (add32 (Ch e f g) (add32 kw.1 kw.2)) in
      let t2 := add32 (big_sigma0 a) (Maj a b c) in
      [add32 t1 t2; a; b; c; add32 d t1; e; f; g]
  | _ => st
  end.

Definition compress (st : list Z) (block : list Z) : list Z :=
  let w := rev (schedule 48 (rev (words_of block))) in
  zip_with add32 st (foldl round st (zip K256 w)).

Fixpoint blocks (n : nat) (st : list Z) (l : list Z) : list Z :=
  match n with
  | O => st
  | S n' => blocks n' (compress st (take 64 l)) (drop 64 l)
  end.

Definition sha256_pad (l : list Z) : list Z :=
  let n := length l in
  let zeros := Z.to_nat ((55 - Z.of_nat n) `mod` 64) in
  l ++ [0x80] ++ replicate zeros 0 ++ be_bytes 8 (8 * Z.of_nat n).

Definition Sum256 (l : list Z) : list Z :=
  let p := sha256_pad l in
  (blocks (length p / 64)%nat H256 p) ≫= be_bytes 4.

(** [hmac.New(sha256.New, key)], then [Write(data)] and [Sum(nil)]. *)
Definition hmac_block (key : list Z) : list Z :=
  let k := if (64 <? length key)%nat then Sum256 key else key in
  k ++ replicate (64 - length k) 0.
Definition hmac_sha256 (key data : list Z) : list Z :=
  let k := hmac_block key in
  Sum256 ((Z.lxor 0x5c <$> k) ++ Sum256 ((Z.lxor 0x36 <$> k) ++ data)).

(** The same on Go strings ([[]byte] conversions). *)
Definition sha256_string (s : string) : string := of_bytes (Sum256 (bytes_of s)).
Definition hmac_string (key data : string) : string :=
  of_bytes (hmac_sha256 (bytes_of key) (bytes_of data)).

Definition hex_digit (z : Z) : Z := if z <? 10 then 48 + z else 87 + z.
Definition hex (l : list Z) : string :=
  of_bytes (l ≫= λ z, [hex_digit (z / 16); hex_digit (z `mod` 16)]).

Example sha256_abc :
  hex (Sum256 (bytes_of "abc")) =
  "ba7816bf8f01cfea414140de5dae2223b00361a396177a9cb410ff61f20015ad".
Proof. vm_compute. reflexivity. Qed.

Example hmac_rfc4231_2 :
  hex (hmac_sha256 (bytes_of "Jefe") (bytes_of "what do ya want for nothing?")) =
  "5bdcc146bf60754e6a042426089575c75a003f089d2739839dec58b964ec3843".
Proof. vm_compute. reflexivity. Qed.

(** ** The digest is a string of bytes *)
Lemma be_bytes_range n z : Forall (λ b, 0 ≤ b < 256) (be_bytes n z).
Proof.
  unfold be_bytes. apply Forall_fmap, Forall_true. intros i. simpl.
  change 255 with (Z.ones 8). rewrite Z.land_ones by lia.
  apply Z.mod_pos_bound. lia.
Qed.

Lemma Sum256_range l : Forall (λ b, 0 ≤ b < 256) (Sum256 l).
Proof.
  unfold Sum256. generalize (blocks (length (sha256_pad l) / 64) H256 (sha256_pad l)).
  intros ws. induction ws as [|w ws IH]; [constructor|]. rewrite bind_cons.
  apply Forall_app. split; [apply be_bytes_range|done].
Qed.

(** A digest has 32 bytes. *)
Lemma round_length st kw : length st = 8%nat → length (round st kw) = 8%nat.
Proof. intros Hl. do 9 (destruct st as [|? st]; try done). Qed.
Lemma compress_length st block : length st = 8%nat → length (compress st block) = 8%nat.
Proof.
  intros Hl. unfold compress. set (l := zip _ _). clearbody l.
  assert (Hf : ∀ st', length st' = 8%nat → length (foldl round st' l) = 8%nat).
  { induction l as [|kw l IH]; intros st' Hl'; [done|]. apply IH. by apply round_length. }
  rewrite length_zip_with_l_eq; [done|]. by rewrite Hf.
Qed.
Lemma blocks_length n st l : length st = 8%nat → length (blocks n st l) = 8%nat.
Proof. revert st l. induction n as [|n IH]; intros st l Hl; [done|]. apply IH. by apply compress_length. Qed.
Lemma Sum256_length l : length (Sum256 l) = 32%nat.
Proof.
  unfold Sum256. pose proof (blocks_length (length (sha256_pad l) / 64) H256 (sha256_pad l) eq_refl) as Hl.
  revert Hl. generalize (blocks (length (sha256_pad l) / 64) H256 (sha256_pad l)) as ws. intros ws.
  do 9 (destruct ws as [|? ws]; try done).
Qed.

Lemma bytes_of_hmac k d : bytes_of (hmac_string k d) = hmac_sha256 (bytes_of k) (bytes_of d).
Proof. apply bytes_of_of. apply Sum256_range. Qed.
