(* ===== verification/GoAny.v ===== *)
(** * Go's [float64] and [any]

    [float64] is IEEE binary64, the [spec_float] of the Standard Library with
    [prec = 53], [emax = 1024].  [any] is the dynamic value a claim, a policy
    obligation or a configuration entry holds: the types encoding/json
    produces, plus the ones the program stores itself ([[]string], [int64]). *)

From Stdlib Require Import SpecFloat.
From S2P Require Import Prelude.
From S2P Require Import GoStrings.

(** ** float64 *)
Notation float64 := spec_float.
Definition prec64 : Z := 53.
Definition emax64 : Z := 1024.

#[global] Instance float64_eq_dec : EqDecision float64.
Proof. solve_decision. Defined.

Definition f64_of_Z (z : Z) : float64 :=
  match z with
  | 0 => S754_zero false
  | Z.pos p => binary_round prec64 emax64 false p 0
  | Z.neg p => binary_round prec64 emax64 true p 0
  end.
Definition f64_add : float64 → float64 → float64 := SFadd prec64 emax64.
Definition f64_sub : float64 → float64 → float64 := SFsub prec64 emax64.
Definition f64_mul : float64 → float64 → float64 := SFmul prec64 emax64.
Definition f64_div : float64 → float64 → float64 := SFdiv prec64 emax64.

(** The nearest [float64] to [d * 10^k]. *)
Definition f64_of_decimal (neg : bool) (d k : Z) : float64 :=
  match d with
  | Z.pos p =>
      if 0 <=? k then binary_round prec64 emax64 neg (Z.to_pos (d * 10 ^ k)) 0
      else
        let '(q, e, l) := SFdiv_core_binary prec64 emax64 d 0 (10 ^ (- k)) 0 in
        match q with
        | Z.pos q' => binary_round_aux prec64 emax64 neg q e l
        | _ => S754_zero neg
        end
  | _ => S754_zero neg
  end.

(** The integer part, as the conversion [int64(x)] of an in-range value. *)
Definition f64_trunc (x : float64) : Z :=
  match x with
  | S754_finite s m e =>
      let a := if 0 <=? e then Z.pos m * 2 ^ e else Z.pos m / 2 ^ (- e) in
      if s then - a else a
  | _ => 0
  end.

(** [strconv.FormatFloat(x, 'f', -1, 64)]: the fewest digits that read back as
    [x].  [dec_digits_of num den] is the number of digits before the decimal
    point of [num/den] (negative or zero below 1). *)
Fixpoint dec_point (n : nat) (num den e : Z) : Z :=
  match n with
  | O => e
  | S n' => if num <? den then dec_point n' (num * 10) den (e - 1)
            else if 10 * den <=? num then dec_point n' num (den * 10) (e + 1)
            else e
  end.

Definition scaled (num den k : Z) : Z * Z :=
  if 0 <=? k then (num, den * 10 ^ k) else (num * 10 ^ (- k), den).

Fixpoint shortest (fuel n : nat) (x : float64) (num den e : Z) : Z * Z :=
  let k := e - Z.of_nat n in
  let '(a, b) := scaled num den k in
  let lo := a / b in
  match fuel with
  | O => (lo, k)
  | S fuel' =>
      let down := bool_decide (f64_of_decimal false lo k = x) in
      let up := bool_decide (f64_of_decimal false (lo + 1) k = x) in
      let twice := 2 * (a `mod` b) in
      if down && up then
        ((if (twice <? b) || ((twice =? b) && Z.even lo) then lo else lo + 1), k)
      else if down then (lo, k)
      else if up then (lo + 1, k)
      else shortest fuel' (S n) x num den e
  end.

Fixpoint zeros (n : nat) : string := match n with O => "" | S n' => String "0" (zeros n') end.
Fixpoint drop_bytes (n : nat) (s : string) : string :=
  match n, s with S n', String _ s' => drop_bytes n' s' | _, _ => s end.
Fixpoint take_bytes (n : nat) (s : string) : string :=
  match n, s with S n', String c s' => String c (take_bytes n' s') | _, _ => "" end.

(** The decimal digits and point position of a finite positive value. *)
Definition f64_decimal (m : positive) (e : Z) : Z * Z :=
  let num := if 0 <=? e then Z.pos m * 2 ^ e else Z.pos m in
  let den := if 0 <=? e then 1 else 2 ^ (- e) in
  let p := dec_point 1100 num den 1 in
  shortest 17 1 (S754_finite false m e) num den p.

Definition FormatFloat_f (x : float64) : string :=
  match x with
  | S754_zero s => if s then "-0" else "0"
  | S754_infinity s => if s then "-Inf" else "+Inf"
  | S754_nan => "NaN"
  | S754_finite s m e =>
      let '(d, k) := f64_decimal m e in
      let ds := Itoa d in
      let n := String.length ds in
      let body :=
        if 0 <=? k then ds +:+ zeros (Z.to_nat k)
        else
          let frac := Z.to_nat (- k) in
          if (frac <? n)%nat then
            take_bytes (n - frac) ds +:+ "." +:+ drop_bytes (n - frac) ds
          else "0." +:+ zeros (frac - n) +:+ ds in
      if s then "-" +:+ body else body
  end.

Example FormatFloat_ex1 : FormatFloat_f (f64_of_Z 123456789) = "123456789".
Proof. vm_compute. reflexivity. Qed.
Example FormatFloat_ex2 : FormatFloat_f (f64_of_decimal false 15 (-1)) = "1.5".
Proof. vm_compute. reflexivity. Qed.
Example FormatFloat_ex3 : FormatFloat_f (f64_of_decimal false 1 (-1)) = "0.1".
Proof. vm_compute. reflexivity. Qed.
Example FormatFloat_ex4 :
  FormatFloat_f (f64_of_decimal true 123456789012345678 0) = "-123456789012345680".
Proof. vm_compute. reflexivity. Qed.

(** ** any *)
Inductive any : Type :=
| ANil
| ABool (b : bool)
| AInt (z : Z)                       (* int, int64 *)
| AFloat (f : float64)
| ANumber (lit : string)             (* json.Number *)
| AStr (s : string)
| AStrs (l : list string)            (* []string *)
| AList (l : list any)               (* []any *)
| AMap (m : list (string * any)).    (* map[string]any, keys distinct *)

Section any_ind.
Context (P : any → Prop)
  (Hnil : P ANil) (Hbool : ∀ b, P (ABool b)) (Hint : ∀ z, P (AInt z))
  (Hfloat : ∀ f, P (AFloat f)) (Hnum : ∀ l, P (ANumber l)) (Hstr : ∀ s, P (AStr s))
  (Hstrs : ∀ l, P (AStrs l)) (Hlist : ∀ l, Forall P l → P (AList l))
  (Hmap : ∀ m, Forall (λ kv, P kv.2) m → P (AMap m)).

Fixpoint any_strong_ind (v : any) : P v :=
  match v with
  | ANil => Hnil | ABool b => Hbool b | AInt z => Hint z | AFloat f => Hfloat f
  | ANumber l => Hnum l | AStr s => Hstr s | AStrs l => Hstrs l
  | AList l => Hlist l ((fix go l : Forall P l :=
      match l with
      | [] => @List.Forall_nil _ _
      | x :: l' => @List.Forall_cons _ _ x l' (any_strong_ind x) (go l')
      end) l)
  | AMap m => Hmap m ((fix go m : Forall (λ kv, P kv.2) m :=
      match m with
      | [] => @List.Forall_nil _ _
      | kv :: m' => @List.Forall_cons _ _ kv m' (any_strong_ind kv.2) (go m')
      end) m)
  end.
End any_ind.

(** Type assertions [v.(string)], [v.(map[string]any)]; a failed assertion of
    the two-value form is [None]. *)
Definition as_string (v : any) : option string :=
  match v with AStr s => Some s | _ => None end.
Definition as_map (v : any) : option (list (string * any)) :=
  match v with AMap m => Some m | _ => None end.
Definition as_list (v : any) : option (list any) :=
  match v with AList l => Some l | _ => None end.
Definition as_bool (v : any) : option bool :=
  match v with ABool b => Some b | _ => None end.

Fixpoint assoc {A} (k : string) (m : list (string * A)) : option A :=
  match m with
  | [] => None
  | (k', v) :: m' => if String.eqb k k' then Some v else assoc k m'
  end.
(** [m[k]] on a [map[string]any]: an absent key reads as nil. *)
Definition map_index (k : string) (m : list (string * any)) : any := default ANil (assoc k m).

(** A [map[string]any] variable: nil, or a map. *)
Notation claims := (option (gmap string any)).
Definition claim (k : string) (c : claims) : any :=
  match c with Some m => default ANil (m !! k) | None => ANil end.

(** The strings of a slice, the other elements skipped. *)
Definition strings_of (l : list any) : list string := omap as_string l.

Lemma strings_of_app l1 l2 : strings_of (l1 ++ l2) = strings_of l1 ++ strings_of l2.
Proof. apply omap_app. Qed.
