(* ===== verification/Json.v ===== *)
(** * encoding/json

    JSON texts as Go's encoding/json writes and reads them: [print] is
    [json.Marshal] on a value already in tree form (compact, HTML-escaped),
    [parse] is the checking and scanning [json.Unmarshal] does before it
    assigns anything.  Binding an object to a struct (exact field name first,
    then case-insensitive; later members override; [null] leaves the field
    alone; a wrong type is an error reported at the end) is [bound] and the
    [dec_*] functions.  The nesting limit (10000) is not modelled. *)

From S2P Require Import Prelude.
From S2P Require Import GoStrings.
From S2P Require Import GoAny.

Inductive json : Type :=
| JNull
| JBool (b : bool)
| JNum (lit : string)
| JStr (s : string)
| JArr (l : list json)
| JObj (m : list (string * json)).

Definition dquote : ascii := of_byte 34.
Definition backslash : ascii := of_byte 92.

(** ** Writing *)
Definition hexdig (z : Z) : ascii := of_byte (if z <? 10 then 48 + z else 87 + z).
Definition u4 (r : Z) : string :=
  String backslash (String "u" (String (hexdig (r / 4096)) (String (hexdig ((r / 256) `mod` 16))
    (String (hexdig ((r / 16) `mod` 16)) (str (hexdig (r `mod` 16))))))).

Definition esc_byte (c : ascii) : string :=
  let z := byte_of c in
  let bs d := String backslash (str d) in
  if z =? 34 then bs dquote else if z =? 92 then bs backslash
  else if z =? 8 then bs "b"%char else if z =? 12 then bs "f"%char
  else if z =? 10 then bs "n"%char else if z =? 13 then bs "r"%char
  else if z =? 9 then bs "t"%char
  else if (z <? 32) || (z =? 60) || (z =? 62) || (z =? 38) then u4 z
  else str c.

Fixpoint escape_aux (n : nat) (s : string) : string :=
  match n, s with
  | S n', String c s' =>
      if byte_of c <? 0x80 then esc_byte c +:+ escape_aux n' s'
      else
        let '(r, s'') := decode_rune c s' in
        let w := (String.length s' - String.length s'')%nat in
        (if (w =? 0)%nat then u4 RuneError
         else if (r =? 0x2028) || (r =? 0x2029) then u4 r
         else String c (take_bytes w s')) +:+ escape_aux n' s''
  | _, _ => ""
  end.
Definition escape (s : string) : string := escape_aux (String.length s) s.
Definition print_string (s : string) : string := String dquote (escape s +:+ str dquote).

Fixpoint print (v : json) : string :=
  match v with
  | JNull => "null"
  | JBool true => "true"
  | JBool false => "false"
  | JNum lit => lit
  | JStr s => print_string s
  | JArr l =>
      "[" +:+ (match l with
               | [] => ""
               | x :: l' => print x +:+ (fix go l := match l with
                                         | [] => ""
                                         | y :: l'' => "," +:+ print y +:+ go l''
                                         end) l'
               end) +:+ "]"
  | JObj m =>
      "{" +:+ (match m with
               | [] => ""
               | (k, x) :: m' =>
                   print_string k +:+ ":" +:+ print x +:+
                   (fix go m := match m with
                    | [] => ""
                    | (k, y) :: m'' => "," +:+ print_string k +:+ ":" +:+ print y +:+ go m''
                    end) m'
               end) +:+ "}"
  end.

(** ** Reading *)
Definition is_ws (c : ascii) : bool :=
  let z := byte_of c in (z =? 32) || (z =? 9) || (z =? 10) || (z =? 13).
Fixpoint skip_ws (s : string) : string :=
  match s with String c s' => if is_ws c then skip_ws s' else s | "" => "" end.

Definition hexval (c : ascii) : option Z :=
  let z := byte_of c in
  if (48 <=? z) && (z <=? 57) then Some (z - 48)
  else if (97 <=? z) && (z <=? 102) then Some (z - 87)
  else if (65 <=? z) && (z <=? 70) then Some (z - 55)
  else None.
Definition getu4 (s : string) : option (Z * string) :=
  match s with
  | String a (String b (String c (String d r))) =>
      match hexval a, hexval b, hexval c, hexval d with
      | Some a, Some b, Some c, Some d => Some (a * 4096 + b * 256 + c * 16 + d, r)
      | _, _, _, _ => None
      end
  | _ => None
  end.
Definition is_surrogate (r : Z) : bool := (0xD800 <=? r) && (r <? 0xE000).
Definition join_surrogates (r1 r2 : Z) : option Z :=
  if (0xD800 <=? r1) && (r1 <? 0xDC00) && (0xDC00 <=? r2) && (r2 <? 0xE000)
  then Some ((r1 - 0xD800) * 1024 + (r2 - 0xDC00) + 0x10000) else None.

(** One escape, after the backslash: the bytes it stands for and the rest. *)
Definition unescape (s : string) : option (string * string) :=
  match s with
  | String c r =>
      let z := byte_of c in
      if (z =? 34) || (z =? 92) || (z =? 47) then Some (str c, r)
      else if z =? 98 then Some (of_bytes [8], r)
      else if z =? 102 then Some (of_bytes [12], r)
      else if z =? 110 then Some (of_bytes [10], r)
      else if z =? 114 then Some (of_bytes [13], r)
      else if z =? 116 then Some (of_bytes [9], r)
      else if z =? 117 then
        match getu4 r with
        | None => None
        | Some (rr, r1) =>
            if is_surrogate rr then
              match r1 with
              | String b (String u r2) =>
                  if (byte_of b =? 92) && (byte_of u =? 117) then
                    match getu4 r2 with
                    | Some (rr1, r3) =>
                        match join_surrogates rr rr1 with
                        | Some x => Some (encode_rune x, r3)
                        | None => Some (encode_rune RuneError, r1)
                        end
                    | None => Some (encode_rune RuneError, r1)
                    end
                  else Some (encode_rune RuneError, r1)
              | _ => Some (encode_rune RuneError, r1)
              end
            else Some (encode_rune rr, r1)
        end
      else None
  | "" => None
  end.

(** A string body, after its opening quote. *)
Fixpoint parse_str (n : nat) (s : string) : option (string * string) :=
  match n, s with
  | S n', String c r =>
      let z := byte_of c in
      if z =? 34 then Some ("", r)
      else if z =? 92 then
        match unescape r with
        | Some (x, r') =>
            match parse_str n' r' with Some (t, q) => Some (x +:+ t, q) | None => None end
        | None => None
        end
      else if z <? 32 then None
      else if z <? 0x80 then
        match parse_str n' r with Some (t, q) => Some (String c t, q) | None => None end
      else
        let '(rr, r') := decode_rune c r in
        match parse_str n' r' with Some (t, q) => Some (encode_rune rr +:+ t, q) | None => None end
  | _, _ => None
  end.

Definition is_digit (c : ascii) : bool := let z := byte_of c in (48 <=? z) && (z <=? 57).
Fixpoint digits (s : string) : string * string :=
  match s with
  | String c r => if is_digit c then let '(d, q) := digits r in (String c d, q) else ("", s)
  | "" => ("", "")
  end.
Definition digits1 (s : string) : option (string * string) :=
  match digits s with ("", _) => None | dq => Some dq end.

(** The JSON number grammar. *)
Definition parse_int (s : string) : option (string * string) :=
  match s with
  | String c r =>
      if byte_of c =? 48 then Some (str c, r)
      else digits1 s
  | "" => None
  end.
Definition parse_frac (s : string) : option (string * string) :=
  match s with
  | String c r => if byte_of c =? 46 then
                    match digits1 r with Some (d, q) => Some (String c d, q) | None => None end
                  else Some ("", s)
  | "" => Some ("", "")
  end.
Definition parse_exp (s : string) : option (string * string) :=
  match s with
  | String c r =>
      if (byte_of c =? 101) || (byte_of c =? 69) then
        match r with
        | String sg r' =>
            if (byte_of sg =? 43) || (byte_of sg =? 45) then
              match digits1 r' with Some (d, q) => Some (String c (String sg d), q) | None => None end
            else match digits1 r with Some (d, q) => Some (String c d, q) | None => None end
        | "" => None
        end
      else Some ("", s)
  | "" => Some ("", "")
  end.
Definition parse_num (s : string) : option (string * string) :=
  let '(sign, s1) := match s with
                     | String c r => if byte_of c =? 45 then (str c, r) else ("", s)
                     | "" => ("", "") end in
  match parse_int s1 with
  | None => None
  | Some (i, s2) =>
      match parse_frac s2 with
      | None => None
      | Some (f, s3) =>
          match parse_exp s3 with
          | None => None
          | Some (x, s4) => Some (sign +:+ i +:+ f +:+ x, s4)
          end
      end
  end.

Fixpoint parse_value (n : nat) (s0 : string) : option (json * string) :=
  match n with
  | O => None
  | S n' =>
      match skip_ws s0 with
      | "" => None
      | String c r as s =>
          let z := byte_of c in
          if z =? 34 then
            match parse_str (S (String.length r)) r with
            | Some (t, q) => Some (JStr t, q) | None => None end
          else if z =? 91 then
            match skip_ws r with
            | String c1 r1 as r' =>
                if byte_of c1 =? 93 then Some (JArr [], r1)
                else match parse_elems n' r' with Some (l, q) => Some (JArr l, q) | None => None end
            | "" => None
            end
          else if z =? 123 then
            match skip_ws r with
            | String c1 r1 as r' =>
                if byte_of c1 =? 125 then Some (JObj [], r1)
                else match parse_members n' r' with Some (m, q) => Some (JObj m, q) | None => None end
            | "" => None
            end
          else match cut_prefix "null" s, cut_prefix "true" s, cut_prefix "false" s with
               | Some q, _, _ => Some (JNull, q)
               | _, Some q, _ => Some (JBool true, q)
               | _, _, Some q => Some (JBool false, q)
               | _, _, _ => match parse_num s with
                            | Some (lit, q) => Some (JNum lit, q) | None => None end
               end
      end
  end
with parse_elems (n : nat) (s : string) : option (list json * string) :=
  match n with
  | O => None
  | S n' =>
      match parse_value n' s with
      | None => None
      | Some (v, r) =>
          match skip_ws r with
          | String c q =>
              if byte_of c =? 93 then Some ([v], q)
              else if byte_of c =? 44 then
                match parse_elems n' q with Some (l, q') => Some (v :: l, q') | None => None end
              else None
          | "" => None
          end
      end
  end
with parse_members (n : nat) (s0 : string) : option (list (string * json) * string) :=
  match n with
  | O => None
  | S n' =>
      match skip_ws s0 with
      | String c r =>
          if byte_of c =? 34 then
            match parse_str (S (String.length r)) r with
            | None => None
            | Some (k, r1) =>
                match skip_ws r1 with
                | String c2 r2 =>
                    if byte_of c2 =? 58 then
                      match parse_value n' r2 with
                      | None => None
                      | Some (v, r3) =>
                          match skip_ws r3 with
                          | String c4 q =>
                              if byte_of c4 =? 125 then Some ([(k, v)], q)
                              else if byte_of c4 =? 44 then
                                match parse_members n' q with
                                | Some (m, q') => Some ((k, v) :: m, q') | None => None end
                              else None
                          | "" => None
                          end
                      end
                    else None
                | "" => None
                end
            end
          else None
      | "" => None
      end
  end.

(** A nesting step and an element each use one unit of fuel and at least one
    byte, two bytes for a nesting step inside an element. *)
Definition parse_fuel (s : string) : nat := S (2 * String.length s).

(** [json.NewDecoder(r).Decode]: the first value, whatever follows. *)
Definition parse_first (s : string) : option json :=
  match parse_value (parse_fuel s) s with Some (v, _) => Some v | None => None end.
(** [json.Unmarshal]: one value and only white space around it. *)
Definition parse (s : string) : option json :=
  match parse_value (parse_fuel s) s with
  | Some (v, r) => match skip_ws r with "" => Some v | _ => None end
  | None => None
  end.

(** ** Numbers *)
Fixpoint digits_value (acc : Z) (s : string) : Z :=
  match s with
  | String c r => if is_digit c then digits_value (acc * 10 + (byte_of c - 48)) r else acc
  | "" => acc
  end.

(** A literal of the grammar as [(-1)^neg * d * 10^k]. *)
Definition decimal_of_lit (lit : string) : bool * Z * Z :=
  let '(neg, s1) := match lit with
                    | String c r => if byte_of c =? 45 then (true, r) else (false, lit)
                    | "" => (false, "") end in
  let '(i, s2) := digits s1 in
  let '(f, s3) := match s2 with
                  | String c r => if byte_of c =? 46 then digits r else ("", s2)
                  | "" => ("", "") end in
  let x := match s3 with
           | String _ r =>
               match r with
               | String sg r' => if byte_of sg =? 45 then - digits_value 0 r'
                                 else if byte_of sg =? 43 then digits_value 0 r'
                                 else digits_value 0 r
               | "" => 0
               end
           | "" => 0
           end in
  (neg, digits_value 0 (i +:+ f), x - len f).

(** A literal as a [float64]; out of range is an error. *)
Definition f64_of_lit (lit : string) : option float64 :=
  let '(neg, d, k) := decimal_of_lit lit in
  match f64_of_decimal neg d k with
  | SpecFloat.S754_infinity _ => None
  | x => Some x
  end.

(** A literal as an [int64] field: only an integer literal in range. *)
Definition int_of_lit (lit : string) : option Z :=
  let '(neg, s1) := match lit with
                    | String c r => if byte_of c =? 45 then (true, r) else (false, lit)
                    | "" => (false, "") end in
  match digits s1 with
  | ("", _) => None
  | (_, String _ _) => None
  | (ds, "") =>
      let v := if neg then - digits_value 0 ds else digits_value 0 ds in
      if (- 2 ^ 63 <=? v) && (v <? 2 ^ 63) then Some v else None
  end.

(** How json.Marshal writes a [float64]. *)
Definition lit_of_f64 (x : float64) : option string :=
  match x with
  | SpecFloat.S754_finite s m e =>
      let '(d, k) := f64_decimal m e in
      let ds := Itoa d in
      let point := len ds + k in           (* value = 0.ds * 10^point *)
      if (point <? -5) || (21 <? point) then
        let mant := match ds with
                    | String c "" => str c
                    | String c r => String c ("." +:+ r)
                    | "" => "" end in
        let ex := point - 1 in
        let body := mant +:+ "e" +:+ (if ex <? 0 then Itoa ex else "+" +:+ Itoa ex) in
        Some (if s then "-" +:+ body else body)
      else Some (FormatFloat_f x)
  | SpecFloat.S754_zero _ => Some (FormatFloat_f x)
  | _ => None
  end.

(** ** any *)
Fixpoint insert_member {A} (k : string) (v : A) (m : list (string * A)) : list (string * A) :=
  match m with
  | [] => [(k, v)]
  | (k', v') :: m' => if String.ltb k k' then (k, v) :: m else (k', v') :: insert_member k v m'
  end.
(** Map keys are written in sorted order. *)
Definition sort_members {A} (m : list (string * A)) : list (string * A) :=
  foldr (λ kv, insert_member kv.1 kv.2) [] m.

(** A [map[string]any] has one entry per key: the first of the list. *)
Fixpoint nodup_keys {A} (seen : list string) (m : list (string * A)) : list (string * A) :=
  match m with
  | [] => []
  | (k, v) :: m' =>
      if existsb (String.eqb k) seen then nodup_keys seen m'
      else (k, v) :: nodup_keys (k :: seen) m'
  end.

(** [json.Marshal] of an [any]: [None] for the values it rejects (NaN, Inf). *)
Fixpoint json_of_any (v : any) : option json :=
  match v with
  | ANil => Some JNull
  | ABool b => Some (JBool b)
  | AInt z => Some (JNum (Itoa z))
  | AFloat f => JNum <$> lit_of_f64 f
  | ANumber lit => Some (JNum lit)
  | AStr s => Some (JStr s)
  | AStrs l => Some (JArr (JStr <$> l))
  | AList l => JArr <$> (fix go l := match l with
                          | [] => Some []
                          | x :: l' => match json_of_any x, go l' with
                                       | Some j, Some js => Some (j :: js)
                                       | _, _ => None end
                          end) l
  | AMap m => (λ m, JObj (sort_members (nodup_keys [] m))) <$>
      (fix go m := match m with
                   | [] => Some []
                   | (k, x) :: m' => match json_of_any x, go m' with
                                     | Some j, Some js => Some ((k, j) :: js)
                                     | _, _ => None end
                   end) m
  end.

(** [json.Unmarshal] into an [any]. *)
Fixpoint any_of_json (j : json) : option any :=
  match j with
  | JNull => Some ANil
  | JBool b => Some (ABool b)
  | JNum lit => AFloat <$> f64_of_lit lit
  | JStr s => Some (AStr s)
  | JArr l => AList <$> (fix go l := match l with
                          | [] => Some []
                          | x :: l' => match any_of_json x, go l' with
                                       | Some v, Some vs => Some (v :: vs)
                                       | _, _ => None end
                          end) l
  | JObj m => AMap <$> (fix go m := match m with
                         | [] => Some []
                         | (k, x) :: m' => match any_of_json x, go m' with
                                           | Some v, Some vs =>
                                               (* a later member overrides an earlier one *)
                                               Some (match assoc k vs with
                                                     | Some _ => vs | None => (k, v) :: vs end)
                                           | _, _ => None end
                         end) m
  end.

(** ** Structs *)
Section struct.
Context `{Unicode}.

(** The field a member name selects among the struct's fields. *)
Definition field_named (fields : list string) (k : string) : option string :=
  match List.find (String.eqb k) fields with
  | Some f => Some f
  | None => List.find (λ f, EqualFold k f) fields
  end.

(** The values the members of an object assign to field [f], in order. *)
Definition bound (fields : list string) (f : string) (m : list (string * json)) : list json :=
  omap (λ kv, if bool_decide (field_named fields kv.1 = Some f) then Some kv.2 else None) m.

(** Fold the assignments of a field: the value left in it, and whether every
    assignment had the right type. *)
Definition dec_field {A} (conv : json → option A) (zero : A) (vs : list json) : A * bool :=
  foldl (λ st v, match v with
                 | JNull => st
                 | _ => match conv v with Some a => (a, st.2) | None => (st.1, false) end
                 end) (zero, true) vs.

Definition conv_string (v : json) : option string := match v with JStr s => Some s | _ => None end.
Definition conv_int (v : json) : option Z := match v with JNum l => int_of_lit l | _ => None end.
Definition conv_bool (v : json) : option bool := match v with JBool b => Some b | _ => None end.
Definition dec_string := dec_field conv_string "".
Definition dec_int := dec_field conv_int 0.
Definition dec_bool := dec_field conv_bool false.
End struct.
