(* ===== verification/JsonFacts.v ===== *)
(** * Round trips of encoding/json

    A printed value reads back as itself ([parse_print]), for values whose
    strings are well-formed UTF-8 and whose number literals read back as themselves;
    integers written by strconv do ([num_ok_Itoa], [int_of_lit_Itoa]). *)

From S2P Require Import Prelude.
From S2P Require Import GoStrings.
From S2P Require Import Utf8Facts.
From S2P Require Import GoAny.
From S2P Require Import Json.

(** ** Strings *)
Definition ascii_str (s : string) : Prop :=
  Forall (λ c, byte_of c < 0x80) (String.list_ascii_of_string s).

Lemma ascii_str_cons c s : ascii_str (String c s) ↔ byte_of c < 0x80 ∧ ascii_str s.
Proof. unfold ascii_str. simpl. by rewrite Forall_cons. Qed.

Lemma ascii_utf8 s : ascii_str s → utf8_str s.
Proof.
  induction s as [|c s IH]; [intros; apply utf8_nil|]. intros [Hc Hs]%ascii_str_cons. apply utf8_ascii; auto.
Qed.
#[export] Hint Extern 1 (utf8_str _) => (apply ascii_utf8; assumption) : core.

Lemma esc_byte_parse c n rest :
  byte_of c < 0x80 →
  parse_str (S n) (esc_byte c +:+ rest) =
  match parse_str n rest with Some (t, q) => Some (String c t, q) | None => None end.
Proof.
  intros H%Z.ltb_lt.
  destruct c as [[] [] [] [] [] [] [] []]; vm_compute in H; try discriminate H; reflexivity.
Qed.

Lemma esc_byte_nonempty c : (1 ≤ String.length (esc_byte c))%nat.
Proof. destruct c as [[] [] [] [] [] [] [] []]; vm_compute; lia. Qed.

Lemma escape_cons c s : byte_of c < 0x80 → escape (String c s) = esc_byte c +:+ escape s.
Proof. intros H. unfold escape. simpl. by rewrite (proj2 (Z.ltb_lt _ _)). Qed.

(** The escape of a text, rune by rune: U+2028 and U+2029 are spelled out. *)
Lemma decode_rune_le c s : (String.length (decode_rune c s).2 ≤ String.length s)%nat.
Proof. unfold decode_rune. repeat case_match; cbn [snd String.length]; lia. Qed.

Lemma escape_fuel n m s : (String.length s ≤ n)%nat → (String.length s ≤ m)%nat → escape_aux n s = escape_aux m s.
Proof.
  revert m s. induction n as [|n IH]; intros [|m] [|c s] Hn Hm; cbn [String.length] in *; try done; try lia.
  cbn [escape_aux]. pose proof (decode_rune_le c s). destruct (decode_rune c s) as [r s'].
  destruct (byte_of c <? 0x80); f_equal; apply IH; simpl in *; lia.
Qed.

Lemma take_bytes_app x s : take_bytes (String.length x) (x +:+ s) = x.
Proof. induction x as [|c x IH]; [by destruct s|]. cbn. by rewrite IH. Qed.

Definition esc_rune (c : ascii) (x : string) (r : Z) : string :=
  if (r =? 0x2028) || (r =? 0x2029) then u4 r else String c x.

Lemma rune_of_nonempty c x r : rune_of c x r → (1 ≤ String.length x)%nat.
Proof.
  intros (Hr & Hok & He & _). destruct x; [|simpl; lia]. rewrite encode_rune_ok in He by done.
  exfalso. revert He. repeat (case_match; bool_prop; try lia; try discriminate).
Qed.
Lemma rune_of_high c x r : rune_of c x r → 128 ≤ byte_of c.
Proof.
  intros (Hr & _ & He & _). pose proof (encode_rune_high r ltac:(lia)) as Hh. rewrite <-He in Hh.
  by inversion Hh.
Qed.

Lemma escape_rune c x r s : rune_of c x r → escape (String c (x +:+ s)) = esc_rune c x r +:+ escape s.
Proof.
  intros Hx. pose proof (rune_of_nonempty _ _ _ Hx) as Hl. pose proof (rune_of_high _ _ _ Hx) as Hh.
  destruct Hx as (_ & _ & _ & Hd). unfold escape. cbn [String.length escape_aux].
  rewrite (proj2 (Z.ltb_ge _ _) Hh), Hd, length_app_str.
  rewrite (escape_fuel (String.length x + String.length s) (String.length s)) by lia.
  replace (String.length x + String.length s - String.length s)%nat with (String.length x) by lia.
  rewrite (proj2 (Nat.eqb_neq _ _)), take_bytes_app by lia. done.
Qed.

Lemma esc_rune_length c x r : rune_of c x r → (S (String.length x) ≤ String.length (esc_rune c x r))%nat.
Proof.
  intros (Hr & Hok & He & _). unfold esc_rune. case_match; [|done]. apply orb_true_iff in H as [->%Z.eqb_eq| ->%Z.eqb_eq];
    change (S (String.length x)) with (String.length (String c x)); rewrite He; vm_compute; lia.
Qed.

Lemma esc_rune_parse c x r n rest : rune_of c x r →
  parse_str (S n) (esc_rune c x r +:+ rest) =
  match parse_str n rest with Some (t, q) => Some (encode_rune r +:+ t, q) | None => None end.
Proof.
  intros Hx. pose proof (rune_of_high _ _ _ Hx) as Hh. destruct Hx as (Hr & Hok & He & Hd).
  unfold esc_rune. case_match.
  - apply orb_true_iff in H as [->%Z.eqb_eq| ->%Z.eqb_eq]; reflexivity.
  - cbn [String.append parse_str]. rewrite (proj2 (Z.eqb_neq (byte_of c) 34)), (proj2 (Z.eqb_neq (byte_of c) 92)),
      (proj2 (Z.ltb_ge (byte_of c) 32)), (proj2 (Z.ltb_ge (byte_of c) 0x80)), Hd by lia. done.
Qed.

Lemma escape_length s : utf8_str s → (String.length s ≤ String.length (escape s))%nat.
Proof.
  induction 1 as [|c s Hc Hs IH|c x r s Hx Hs IH]; [done| |].
  - rewrite escape_cons, length_app_str by done. pose proof (esc_byte_nonempty c). simpl. lia.
  - rewrite (escape_rune c x r s Hx), length_app_str. pose proof (esc_rune_length c x r Hx).
    cbn [String.length]. rewrite length_app_str. lia.
Qed.

Lemma parse_str_escape s n rest :
  utf8_str s → (String.length s < n)%nat →
  parse_str n (escape s +:+ String dquote rest) = Some (s, rest).
Proof.
  intros Hs. revert n. induction Hs as [|c s Hc Hs IH|c x r s Hx Hs IH]; intros [|n] Hn; cbn [String.length] in Hn; try lia.
  - done.
  - rewrite escape_cons, app_assoc_str, esc_byte_parse by done. by rewrite IH by lia.
  - rewrite (escape_rune c x r s Hx), app_assoc_str, esc_rune_parse by done. rewrite length_app_str in Hn.
    destruct Hx as (_ & _ & He & _). by rewrite IH, <-He by lia.
Qed.

(** ** Numbers *)
Definition follow (r : string) : Prop :=
  match r with "" => True | String c _ => byte_of c = 44 ∨ byte_of c = 93 ∨ byte_of c = 125 ∨ byte_of c = 10 end.

Definition num_start (lit : string) : Prop :=
  match lit with String c _ => is_digit c = true ∨ byte_of c = 45 | "" => False end.

Definition num_ok (lit : string) : Prop :=
  num_start lit ∧ ∀ rest, follow rest → parse_num (lit +:+ rest) = Some (lit, rest).

Definition all_digits (s : string) : Prop :=
  Forall (λ c, is_digit c = true) (String.list_ascii_of_string s).

Lemma follow_not_digit c r : follow (String c r) →
  is_digit c = false ∧ byte_of c ≠ 46 ∧ byte_of c ≠ 101 ∧ byte_of c ≠ 69 ∧ byte_of c ≠ 32.
Proof. unfold is_digit. simpl. rewrite andb_false_iff, !Z.leb_gt. lia. Qed.

Lemma digits_all d r : all_digits d → follow r → digits (d +:+ r) = (d, r).
Proof.
  unfold all_digits. induction d as [|c d IH]; simpl; intros Hd Hr.
  - destruct r as [|c r]; [done|].
    apply follow_not_digit in Hr as [Hc _]. simpl. by rewrite Hc.
  - apply Forall_cons in Hd as [Hc Hd]. by rewrite Hc, (IH Hd Hr).
Qed.

Lemma digit_byte z : 0 ≤ z < 10 →
  is_digit (of_byte (48 + z)) = true ∧ byte_of (of_byte (48 + z)) = 48 + z.
Proof.
  intros. assert (byte_of (of_byte (48 + z)) = 48 + z) as E by (apply byte_of_of; lia).
  split; [|done]. unfold is_digit. rewrite E.
  apply andb_true_iff. rewrite !Z.leb_le. lia.
Qed.

(** Digits produced from [z > 0]: no leading zero, and they denote [z]. *)
Lemma dec_digits_spec n z acc :
  0 < z < 2 ^ Z.of_nat n → all_digits acc →
  ∃ c r, dec_digits n z acc = String c (r +:+ acc) ∧ all_digits (String c r) ∧
    byte_of c ≠ 48 ∧ ∀ a, digits_value a (dec_digits n z acc) =
      digits_value (a * 10 ^ Z.of_nat (S (String.length r)) + z) acc.
Proof.
  revert z acc. induction n as [|n IH]; intros z acc Hz Hacc; [simpl in Hz; lia|].
  cbn [dec_digits]. pose proof (Z.mod_pos_bound z 10 ltac:(lia)) as Hm.
  destruct (digit_byte (z `mod` 10) Hm) as [Hd Hb].
  destruct (Z.eqb_spec (z / 10) 0) as [E|E].
  - exists (of_byte (48 + z `mod` 10)), "". split; [done|].
    assert (z = z `mod` 10) as Ez by (pose proof (Z.div_mod z 10); lia).
    split; [by repeat constructor|]. split; [lia|].
    intros a. simpl. rewrite Hd, Hb. f_equal. change (10 ^ 1) with 10. lia.
  - assert (0 < z / 10 < 2 ^ Z.of_nat n) as Hz'.
    { rewrite Nat2Z.inj_succ, Z.pow_succ_r in Hz by lia.
      pose proof (Z.div_pos z 10). split; [lia|].
      apply Z.div_lt_upper_bound; lia. }
    destruct (IH (z / 10) (String (of_byte (48 + z `mod` 10)) acc) Hz') as (c & r & -> & Hall & H0 & Hv).
    { unfold all_digits. simpl. by constructor. }
    exists c, (r +:+ str (of_byte (48 + z `mod` 10))).
    split; [by rewrite app_assoc_str|]. split; [|split; [done|]].
    + unfold all_digits in *. simpl in *. apply Forall_cons in Hall as [? Hr].
      constructor; [done|]. clear -Hr Hd. induction r; simpl in *; [by repeat constructor|].
      apply Forall_cons in Hr as [??]. constructor; auto.
    + intros a. rewrite Hv. simpl. rewrite Hd, Hb. f_equal.
      rewrite length_app_str. simpl.
      replace (S (String.length r + 1)) with (S (S (String.length r))) by lia.
      rewrite (Nat2Z.inj_succ (S _)), Z.pow_succ_r by lia.
      pose proof (Z.div_mod z 10). lia.
Qed.

Lemma Itoa_pos z : 0 < z →
  ∃ c r, Itoa z = String c r ∧ all_digits (String c r) ∧ byte_of c ≠ 48 ∧
    digits_value 0 (Itoa z) = z.
Proof.
  intros Hz. unfold Itoa. rewrite (proj2 (Z.ltb_ge z 0)), Z.abs_eq by lia.
  destruct (dec_digits_spec (S (Z.to_nat (Z.log2 z))) z "") as (c & r & E & Ha & Hc & Hv).
  - split; [done|]. rewrite Nat2Z.inj_succ, Z2Nat.id by apply Z.log2_nonneg.
    apply Z.log2_spec. done.
  - constructor.
  - rewrite app_empty_r in E. exists c, r. rewrite E in *. split_and!; [done..|].
    rewrite Hv. simpl. lia.
Qed.

Lemma Itoa_0 : Itoa 0 = "0".
Proof. reflexivity. Qed.

Lemma Itoa_neg z : z < 0 → Itoa z = String "-" (Itoa (- z)).
Proof.
  intros. unfold Itoa. rewrite (proj2 (Z.ltb_lt z 0)), (proj2 (Z.ltb_ge (-z) 0)) by lia.
  by rewrite Z.abs_opp.
Qed.

Lemma parse_frac_exp_follow r : follow r →
  parse_frac r = Some ("", r) ∧ parse_exp r = Some ("", r).
Proof.
  destruct r as [|c r]; [done|]. intros H.
  apply follow_not_digit in H as (_ & H1 & H2 & H3 & _).
  unfold parse_frac, parse_exp.
  by rewrite (proj2 (Z.eqb_neq _ _) H1), (proj2 (Z.eqb_neq _ _) H2), (proj2 (Z.eqb_neq _ _) H3).
Qed.

Lemma parse_int_digits c d r :
  all_digits (String c d) → byte_of c ≠ 48 → follow r →
  parse_int (String c d +:+ r) = Some (String c d, r).
Proof.
  intros Ha Hc Hr. unfold parse_int, digits1. cbn [String.append].
  rewrite (proj2 (Z.eqb_neq _ _) Hc).
  change (String c (d +:+ r)) with (String c d +:+ r).
  by rewrite digits_all.
Qed.

Lemma parse_num_pos z r : 0 ≤ z → follow r →
  num_start (Itoa z) ∧ parse_int (Itoa z +:+ r) = Some (Itoa z, r) ∧
  match Itoa z with String c _ => byte_of c ≠ 45 | "" => True end.
Proof.
  intros Hz Hr. destruct (decide (z = 0)) as [->|].
  - rewrite Itoa_0. simpl. split; [by left|]. done.
  - destruct (Itoa_pos z) as (c & d & E & Ha & Hc & _); [lia|]. rewrite E.
    split; [|split; [by apply parse_int_digits|]].
    + left. by apply Forall_cons in Ha as [? _].
    + apply Forall_cons in Ha as [Hd _]. unfold is_digit in Hd. bool_prop. lia.
Qed.

Lemma num_ok_Itoa z : num_ok (Itoa z).
Proof.
  destruct (decide (z < 0)) as [Hz|Hz].
  - rewrite Itoa_neg by done. split; [by right|]. intros rest Hr.
    destruct (parse_num_pos (- z) rest) as (_ & E & _); [lia|done|].
    destruct (parse_frac_exp_follow rest Hr) as [Ef Ee].
    unfold parse_num. cbn [String.append]. simpl (byte_of "-" =? 45). cbv iota beta.
    rewrite E, Ef, Ee. by rewrite !app_empty_r.
  - destruct (parse_num_pos z "") as (Hs & _); [lia|done|]. split; [done|].
    intros rest Hr. destruct (parse_num_pos z rest) as (_ & E & Hm); [lia|done|].
    destruct (parse_frac_exp_follow rest Hr) as [Ef Ee].
    unfold parse_num. destruct (Itoa z) as [|c d]; [done|]. cbn [String.append] in *.
    rewrite (proj2 (Z.eqb_neq _ _) Hm). rewrite E, Ef, Ee. by rewrite !app_empty_r.
Qed.

Lemma int_of_lit_Itoa z : int64_range z → int_of_lit (Itoa z) = Some z.
Proof.
  assert (∀ y, 0 ≤ y → match digits (Itoa y) with
                       | ("", _) => False | (ds, q) => q = "" ∧ digits_value 0 ds = y end) as Hd.
  { intros y Hy. destruct (decide (y = 0)) as [->|]; [done|].
    destruct (Itoa_pos y) as (c & d & E & Ha & _ & Hv); [lia|].
    rewrite E in *. pose proof (digits_all (String c d) "" Ha I) as Hdig.
    rewrite app_empty_r in Hdig. by rewrite Hdig. }
  unfold int64_range, int_of_lit. intros Hr.
  destruct (decide (z < 0)) as [Hz|Hz].
  - rewrite Itoa_neg by done. simpl (byte_of "-" =? 45). cbv iota beta.
    specialize (Hd (- z) ltac:(lia)).
    destruct (digits (Itoa (- z))) as [[|c ds] q]; [done|]. destruct Hd as [-> ->].
    rewrite (proj2 (Z.leb_le _ _)), (proj2 (Z.ltb_lt _ _)) by lia. simpl. f_equal. lia.
  - destruct (parse_num_pos z "" ltac:(lia) I) as (_ & _ & Hm).
    specialize (Hd z ltac:(lia)).
    destruct (Itoa z) as [|c d] eqn:E; [done|].
    rewrite (proj2 (Z.eqb_neq _ _) Hm).
    destruct (digits (String c d)) as [[|c' ds] q]; [done|]. destruct Hd as [-> ->].
    by rewrite (proj2 (Z.leb_le _ _)), (proj2 (Z.ltb_lt _ _)) by lia.
Qed.

(** ** Values *)
Fixpoint print_rest (l : list json) : string :=
  match l with [] => "" | y :: l' => "," +:+ print y +:+ print_rest l' end.
Fixpoint print_members (m : list (string * json)) : string :=
  match m with
  | [] => ""
  | (k, y) :: m' => "," +:+ print_string k +:+ ":" +:+ print y +:+ print_members m'
  end.

Lemma print_arr x l : print (JArr (x :: l)) = "[" +:+ print x +:+ print_rest l +:+ "]".
Proof.
  simpl. rewrite app_assoc_str. do 2 f_equal.
Qed.

Lemma print_obj k x m :
  print (JObj ((k, x) :: m)) =
  "{" +:+ print_string k +:+ ":" +:+ print x +:+ print_members m +:+ "}".
Proof. cbn [print]. unfold String.append at 1. fold String.append. by rewrite !app_assoc_str. Qed.

Fixpoint json_ok (v : json) : Prop :=
  match v with
  | JNull | JBool _ => True
  | JNum lit => num_ok lit
  | JStr s => utf8_str s
  | JArr l => (fix go l := match l with [] => True | x :: l' => json_ok x ∧ go l' end) l
  | JObj m => (fix go m := match m with [] => True
                           | (k, x) :: m' => utf8_str k ∧ json_ok x ∧ go m' end) m
  end.

(** The fuel reading a value takes. *)
Fixpoint json_fuel (v : json) : nat :=
  match v with
  | JArr l => S ((fix go l := match l with [] => O | x :: l' => S (json_fuel x + go l') end) l)
  | JObj m => S ((fix go m := match m with [] => O | (_, x) :: m' => S (json_fuel x + go m') end) m)
  | _ => 1
  end%nat.

Definition json_reads (v : json) : Prop :=
  ∀ n rest, (json_fuel v ≤ n)%nat → follow rest →
    parse_value n (print v +:+ rest) = Some (v, rest).

Fixpoint elems_fuel (l : list json) : nat :=
  match l with [] => O | x :: l' => S (json_fuel x + elems_fuel l') end.
Fixpoint members_fuel (m : list (string * json)) : nat :=
  match m with [] => O | (_, x) :: m' => S (json_fuel x + members_fuel m') end.

Lemma json_fuel_arr l : json_fuel (JArr l) = S (elems_fuel l).
Proof. reflexivity. Qed.
Lemma json_fuel_obj m : json_fuel (JObj m) = S (members_fuel m).
Proof. reflexivity. Qed.

Lemma json_ok_arr l : json_ok (JArr l) ↔ Forall json_ok l.
Proof. induction l as [|x l IH]; [by split|]. rewrite Forall_cons. simpl in *. by rewrite IH. Qed.
Lemma json_ok_obj m : json_ok (JObj m) ↔ Forall (λ kv, utf8_str kv.1 ∧ json_ok kv.2) m.
Proof.
  induction m as [|[k x] m IH]; [by split|]. rewrite Forall_cons. simpl in *. rewrite IH. tauto.
Qed.

Lemma is_ws_false c : 32 < byte_of c → is_ws c = false.
Proof. intros. unfold is_ws. rewrite !orb_false_iff, !Z.eqb_neq. lia. Qed.

(** The first byte a printed value starts with. *)
Lemma print_start v : json_ok v →
  ∃ c r, print v = String c r ∧ 32 < byte_of c ∧ byte_of c ≠ 93 ∧ byte_of c ≠ 125.
Proof.
  destruct v as [|[]|lit|s|l|m]; intros Hok; try (eexists _, _; split; [reflexivity|done]).
  - destruct Hok as [Hs _]. simpl. destruct lit as [|c r]; [done|].
    exists c, r. split; [done|]. destruct Hs as [Hd|Hd]; [|lia].
    unfold is_digit in Hd. bool_prop. lia.
Qed.

Lemma parse_str_print s rest : utf8_str s →
  parse_str (S (String.length (escape s +:+ String dquote rest))) (escape s +:+ String dquote rest)
  = Some (s, rest).
Proof.
  intros Hs. apply parse_str_escape; [done|].
  rewrite length_app_str. simpl. pose proof (escape_length s Hs). lia.
Qed.

Lemma parse_elems_print x l n rest :
  json_reads x → Forall json_reads l → (elems_fuel (x :: l) ≤ n)%nat →
  parse_elems n (print x +:+ print_rest l +:+ String "]" rest) = Some (x :: l, rest).
Proof.
  intros Hx Hl. revert x n Hx. induction Hl as [|y l Hy Hl IH]; intros x n Hx Hn;
    (destruct n as [|n]; [simpl in Hn; lia|]); cbn [parse_elems print_rest elems_fuel] in *.
  - rewrite Hx; [done|lia|]. simpl. auto.
  - rewrite Hx; [|lia|simpl; auto]. cbn [String.append]. simpl (skip_ws _).
    rewrite app_assoc_str, IH; [done|done|]. simpl in *. lia.
Qed.

Lemma parse_members_key n k s :
  utf8_str k →
  parse_members (S n) (print_string k +:+ ":" +:+ s) =
  match parse_value n s with
  | None => None
  | Some (v, r3) =>
      match skip_ws r3 with
      | String c4 q =>
          if byte_of c4 =? 125 then Some ([(k, v)], q)
          else if byte_of c4 =? 44 then
            match parse_members n q with Some (m, q') => Some ((k, v) :: m, q') | None => None end
          else None
      | "" => None
      end
  end.
Proof.
  intros Hk. unfold print_string. cbn [String.append]. rewrite app_assoc_str. cbn [String.append].
  pose proof (parse_str_print k (String ":" s) Hk) as E.
  change (str dquote +:+ String ":" s) with (String dquote (String ":" s)).
  cbn [parse_members]. change (skip_ws (String dquote ?x)) with (String dquote x).
  cbv iota beta. change (byte_of dquote =? 34) with true. cbv iota beta. rewrite E. reflexivity.
Qed.

Lemma print_rest_app x l r :
  print_rest (x :: l) +:+ r = String "," (print x +:+ print_rest l +:+ r).
Proof. cbn [print_rest String.append]. by rewrite !app_assoc_str. Qed.

Lemma print_members_app k y m r :
  print_members ((k, y) :: m) +:+ r =
  String "," (print_string k +:+ ":" +:+ print y +:+ print_members m +:+ r).
Proof.
  change (print_members ((k, y) :: m))
    with ("," +:+ print_string k +:+ ":" +:+ print y +:+ print_members m).
  by rewrite !app_assoc_str.
Qed.

Lemma skip_ws_comma s : skip_ws (String "," s) = String "," s.
Proof. reflexivity. Qed.

Lemma parse_members_print k x m n rest :
  utf8_str k → json_reads x →
  Forall (λ kv, utf8_str kv.1 ∧ json_reads kv.2) m → (members_fuel ((k, x) :: m) ≤ n)%nat →
  parse_members n (print_string k +:+ ":" +:+ print x +:+ print_members m +:+ String "}" rest)
  = Some ((k, x) :: m, rest).
Proof.
  intros Hk Hx Hm. revert k x n Hk Hx. induction Hm as [|[k' y] m [Hk' Hy] Hm IH];
    intros k x n Hk Hx Hn; (destruct n as [|n]; [simpl in Hn; lia|]);
    cbn [members_fuel] in Hn; rewrite parse_members_key by done.
  - rewrite Hx; [done|lia|]. simpl. auto.
  - cbn [fst snd] in *. rewrite print_members_app, Hx; [|lia|simpl; auto].
    rewrite skip_ws_comma. cbv iota beta.
    change (byte_of "," =? 125) with false. change (byte_of "," =? 44) with true.
    cbv iota beta. rewrite IH; [done|done..|]. simpl in *. lia.
Qed.

(** ** The round trip *)
Lemma parse_value_arr n c s : 32 < byte_of c → byte_of c ≠ 93 →
  parse_value (S n) (String "[" (String c s)) =
  match parse_elems n (String c s) with Some (l, q) => Some (JArr l, q) | None => None end.
Proof.
  intros Hc Hn. cbn [parse_value]. change (skip_ws (String "[" (String c s))) with (String "[" (String c s)).
  cbv iota beta. change (byte_of "[" =? 34) with false. change (byte_of "[" =? 91) with true.
  cbv iota beta. cbn [skip_ws]. rewrite is_ws_false by done.
  by rewrite (proj2 (Z.eqb_neq _ _) Hn).
Qed.

Lemma parse_value_obj n s :
  parse_value (S n) (String "{" (String dquote s)) =
  match parse_members n (String dquote s) with Some (m, q) => Some (JObj m, q) | None => None end.
Proof. reflexivity. Qed.

Section json_ind.
Context (P : json → Prop) (Hnull : P JNull) (Hbool : ∀ b, P (JBool b))
  (Hnum : ∀ l, P (JNum l)) (Hstr : ∀ s, P (JStr s))
  (Harr : ∀ l, Forall P l → P (JArr l))
  (Hobj : ∀ m, Forall (λ kv, P kv.2) m → P (JObj m)).
Fixpoint json_strong_ind (v : json) : P v :=
  match v with
  | JNull => Hnull
  | JBool b => Hbool b
  | JNum l => Hnum l
  | JStr s => Hstr s
  | JArr l => Harr l ((fix go l : Forall P l :=
                         match l with
                         | [] => List.Forall_nil _
                         | x :: l' => @List.Forall_cons _ _ x l' (json_strong_ind x) (go l')
                         end) l)
  | JObj m => Hobj m ((fix go m : Forall (λ kv : string * json, P kv.2) m :=
                         match m with
                         | [] => List.Forall_nil _
                         | (k, x) :: m' =>
                             @List.Forall_cons _ (λ kv : string * json, P kv.2) (k, x) m'
                               (json_strong_ind x) (go m')
                         end) m)
  end.
End json_ind.

Lemma parse_value_print v : json_ok v → json_reads v.
Proof.
  induction v as [|b|lit|s|l IH|m IH] using json_strong_ind; intros Hok n rest Hn Hr;
    (destruct n as [|n]; [simpl in Hn; lia|]).
  - done.
  - by destruct b.
  - destruct Hok as [Hs Hp]. specialize (Hp rest Hr). cbn [print parse_value].
    destruct lit as [|c d]; [done|]. cbn [String.append] in *.
    assert (48 ≤ byte_of c ≤ 57 ∨ byte_of c = 45) as Hc.
    { destruct Hs as [Hd|]; [|by right]. unfold is_digit in Hd. bool_prop. lia. }
    unfold skip_ws at 1. rewrite is_ws_false by lia.
    rewrite !(proj2 (Z.eqb_neq (byte_of c) _)) by lia.
    assert (∀ p q, cut_prefix (String p q) (String c (d +:+ rest)) = None
                   ∨ byte_of p = byte_of c) as Hcut.
    { intros p q. destruct (decide (byte_of p = byte_of c)); [by right|left].
      simpl. destruct (Ascii.eqb_spec p c) as [->|]; done. }
    rewrite Hp.
    destruct (Hcut "n"%char "ull") as [->|E]; [|vm_compute (byte_of "n") in E; lia].
    destruct (Hcut "t"%char "rue") as [->|E]; [|vm_compute (byte_of "t") in E; lia].
    destruct (Hcut "f"%char "alse") as [->|E]; [|vm_compute (byte_of "f") in E; lia]. done.
  - cbn [print parse_value]. unfold print_string. cbn [String.append]. rewrite app_assoc_str.
    simpl (skip_ws (String dquote _)). cbv iota beta. change (byte_of dquote =? 34) with true.
    cbv iota beta. change (str dquote +:+ rest) with (String dquote rest).
    by rewrite parse_str_print.
  - apply json_ok_arr in Hok. destruct l as [|x l]; [done|].
    assert (Forall json_reads (x :: l)) as Hreads.
    { rewrite Forall_forall in *. intros y Hy. auto. }
    apply Forall_cons in Hok as [Hx _]. apply Forall_cons in Hreads as [Rx Rl].
    rewrite print_arr, !app_assoc_str. change ("]" +:+ rest) with (String "]" rest).
    rewrite json_fuel_arr in Hn.
    pose proof (parse_elems_print x l n rest Rx Rl ltac:(lia)) as Hp.
    destruct (print_start x Hx) as (c & r & E & Hc & Hc' & _). rewrite E in *.
    cbn [String.append] in *. rewrite parse_value_arr by done. by rewrite Hp.
  - apply json_ok_obj in Hok. destruct m as [|[k x] m]; [done|].
    assert (Forall (λ kv, utf8_str kv.1 ∧ json_reads kv.2) ((k, x) :: m)) as Hreads.
    { rewrite Forall_forall in *. intros y Hy. specialize (Hok y Hy). naive_solver. }
    apply Forall_cons in Hreads as [[Rk Rx] Rl]. cbn [fst snd] in *.
    rewrite print_obj, !app_assoc_str. change ("}" +:+ rest) with (String "}" rest).
    rewrite json_fuel_obj in Hn.
    pose proof (parse_members_print k x m n rest Rk Rx Rl ltac:(lia)) as Hp.
    unfold print_string in *. cbn [String.append] in *.
    rewrite parse_value_obj by done. by rewrite Hp.
Qed.

(** ** The fuel [parse] gives is enough *)
Lemma json_fuel_bound v : json_ok v → (json_fuel v ≤ 2 * String.length (print v))%nat.
Proof.
  induction v as [|b|lit|s|l IH|m IH] using json_strong_ind; intros Hok.
  - simpl; lia.
  - destruct b; simpl; lia.
  - destruct Hok as [Hs _]. destruct lit; [done|]. simpl. lia.
  - simpl. lia.
  - rewrite json_fuel_arr. apply json_ok_arr in Hok. destruct l as [|x l]; [simpl; lia|].
    rewrite print_arr, !length_app_str. simpl (String.length "[").
    enough (elems_fuel (x :: l) ≤ 1 + 2 * (String.length (print x)
            + String.length (print_rest l)))%nat by lia.
    apply Forall_cons in IH as [IHx IHl]. apply Forall_cons in Hok as [Hx Hl].
    specialize (IHx Hx). cbn [elems_fuel].
    enough (elems_fuel l ≤ 2 * String.length (print_rest l))%nat by lia.
    clear IHx Hx. induction l as [|y l IHl']; [simpl; lia|].
    apply Forall_cons in IHl as [IHy IHl]. apply Forall_cons in Hl as [Hy Hl].
    specialize (IHl' IHl Hl). specialize (IHy Hy).
    cbn [elems_fuel print_rest]. rewrite !length_app_str. simpl (String.length ","). lia.
  - rewrite json_fuel_obj. apply json_ok_obj in Hok. destruct m as [|[k x] m]; [simpl; lia|].
    rewrite print_obj, !length_app_str. simpl (String.length "{").
    enough (members_fuel ((k, x) :: m) ≤ 1 + 2 * (String.length (print x)
            + String.length (print_members m)))%nat by lia.
    apply Forall_cons in IH as [IHx IHm]. apply Forall_cons in Hok as [[_ Hx] Hm].
    cbn [fst snd] in *. specialize (IHx Hx). cbn [members_fuel].
    enough (members_fuel m ≤ 2 * String.length (print_members m))%nat by lia.
    clear IHx Hx. induction m as [|[k' y] m IHm']; [simpl; lia|].
    apply Forall_cons in IHm as [IHy IHm]. apply Forall_cons in Hm as [[_ Hy] Hm].
    specialize (IHm' IHm Hm). specialize (IHy Hy). cbn [members_fuel print_members fst snd] in *.
    rewrite !length_app_str. simpl (String.length ","). lia.
Qed.

Lemma parse_print v : json_ok v → parse (print v) = Some v.
Proof.
  intros Hok. unfold parse. pose proof (json_fuel_bound v Hok).
  rewrite <-(app_empty_r (print v)) at 2.
  by rewrite (parse_value_print v Hok) by (unfold parse_fuel; simpl; lia || done).
Qed.

(** The decoder of a stream reads the first value of a body that ends its line. *)
Lemma parse_first_line v c : json_ok v → byte_of c = 10 → parse_first (print v +:+ str c) = Some v.
Proof.
  intros Hok Hc. unfold parse_first. pose proof (json_fuel_bound v Hok).
  rewrite (parse_value_print v Hok); [done| |simpl; tauto].
  unfold parse_fuel. rewrite length_app_str. lia.
Qed.

(** The members of a printed object: literal keys, and a goal per value. *)
Ltac obj_ok :=
  apply json_ok_obj;
  repeat (apply List.Forall_cons; [split; [solve [repeat constructor]|cbn [snd json_ok]]|]);
  try apply List.Forall_nil; try done; try apply num_ok_Itoa; try (apply ascii_utf8; assumption).
