(* ===== verification/FloatFacts.v ===== *)
(** * Exact arithmetic in [float64]

    The integers below [2^53] are represented exactly, subtracting one from
    them is exact, and a quotient or sum of values that are not positive is not
    positive. *)

From Stdlib Require Import SpecFloat.
From S2P Require Import Prelude.
From S2P Require Import GoStrings.
From S2P Require Import GoAny.

Lemma digits2_log2 p : Z.pos (digits2_pos p) = Z.log2 (Z.pos p) + 1.
Proof.
  assert (H : digits2_pos p = Pos.size p) by (induction p; simpl; congruence).
  rewrite H. destruct p as [p|p|]; simpl; lia.
Qed.

(** ** Alignment and rounding of exact values *)
Lemma iter_pos_nat {A} (f : A → A) n x : SpecFloat.iter_pos f n x = Nat.iter (Pos.to_nat n) f x.
Proof.
  revert x. induction n as [n IH|n IH|]; intros x; cbn [SpecFloat.iter_pos]; [| |done].
  - rewrite !IH, Pos2Nat.inj_xI, <-Nat.iter_succ_r, <-Nat.iter_add. f_equal. lia.
  - rewrite !IH, Pos2Nat.inj_xO, <-Nat.iter_add. f_equal. lia.
Qed.

Lemma shr_1_even z : 0 ≤ z → shr_1 (Build_shr_record (2 * z) false false) = Build_shr_record z false false.
Proof. destruct z; [done|done|lia]. Qed.

Lemma shr_exact k m :
  0 ≤ m → Nat.iter k shr_1 (Build_shr_record (m * 2 ^ Z.of_nat k) false false) = Build_shr_record m false false.
Proof.
  intros Hm. induction k as [|k IH]; [simpl; f_equal; lia|].
  rewrite Nat.iter_succ_r, Nat2Z.inj_succ, Z.pow_succ_r by lia.
  replace (m * (2 * 2 ^ Z.of_nat k)) with (2 * (m * 2 ^ Z.of_nat k)) by lia.
  rewrite shr_1_even by lia. apply IH.
Qed.

Lemma shl_align_spec m e e' : e' ≤ e → shl_align m e e' = (Z.to_pos (Z.pos m * 2 ^ (e - e')), e').
Proof.
  intros He. unfold shl_align. destruct (e' - e) as [|d|d] eqn:E; [|lia|].
  - replace (e - e') with 0 by lia. f_equal; [by rewrite Z.mul_1_r|lia].
  - f_equal. replace (e - e') with (Z.pos d) by lia.
    assert (Hi : Z.pos (Pos.iter xO m d) = Z.pos m * 2 ^ Z.pos d); [|by rewrite <-Hi].
    clear E. induction d as [|d IH] using Pos.peano_ind; [simpl; lia|].
    rewrite Pos.iter_succ, Pos2Z.inj_succ, Z.pow_succ_r, Pos2Z.inj_xO, IH by lia. lia.
Qed.

Lemma fexp64 d : -1021 ≤ d → fexp prec64 emax64 d = d - 53.
Proof. unfold fexp, emin, prec64, emax64. lia. Qed.

(** A 53-bit mantissa with [k] zeros below it rounds to itself. *)
Lemma round_exact m k e :
  0 ≤ k → 2 ^ 52 ≤ m < 2 ^ 53 → -1074 ≤ e + k ≤ 971 →
  binary_round_aux prec64 emax64 false (m * 2 ^ k) e loc_Exact = S754_finite false (Z.to_pos m) (e + k).
Proof.
  intros Hk Hm He. assert (Hlm : Z.log2 m = 52) by (apply Z.log2_unique; lia).
  assert (Hd : ∀ z, 0 < z → Zdigits2 z = Z.log2 z + 1) by (intros [|p|p] ?; [lia|apply digits2_log2|lia]).
  assert (Hpow : 0 < 2 ^ k) by (apply Z.pow_pos_nonneg; lia).
  unfold binary_round_aux, shr_fexp. rewrite Hd, Z.log2_mul_pow2, Hlm, fexp64 by lia.
  replace (k + 52 + 1 + e - 53 - e) with k by lia. cbn [shr_record_of_loc].
  assert (Hs : shr (Build_shr_record (m * 2 ^ k) false false) e k = (Build_shr_record m false false, e + k)).
  { unfold shr. destruct k as [|k|k]; [f_equal; [f_equal; lia|lia]| |lia].
    rewrite iter_pos_nat. rewrite <-(positive_nat_Z k), shr_exact by lia. done. }
  rewrite Hs. cbn [shr_m loc_of_shr_record round_nearest_even shr_record_of_loc].
  rewrite Hd, Hlm, fexp64 by lia. replace (52 + 1 + (e + k) - 53 - (e + k)) with 0 by lia.
  cbn [shr shr_m]. destruct m as [|p|p]; [lia| |lia]. unfold prec64, emax64. by rewrite (proj2 (Z.leb_le _ _)) by lia.
Qed.

(** ** Integers *)
Definition mant (n : Z) : Z := n * 2 ^ (52 - Z.log2 n).

Lemma log2_small n : 0 < n < 2 ^ 53 → 0 ≤ Z.log2 n ≤ 52.
Proof.
  intros Hn. split; [apply Z.log2_nonneg|]. assert (Z.log2 n < 53) by (apply Z.log2_lt_pow2; lia). lia.
Qed.

Lemma mant_range n : 0 < n < 2 ^ 53 → 2 ^ 52 ≤ mant n < 2 ^ 53.
Proof.
  intros Hn. pose proof (log2_small n Hn). pose proof (Z.log2_spec n ltac:(lia)) as [H1 H2]. unfold mant.
  assert (Hp : 0 < 2 ^ (52 - Z.log2 n)) by (apply Z.pow_pos_nonneg; lia).
  assert (E1 : 2 ^ 52 = 2 ^ Z.log2 n * 2 ^ (52 - Z.log2 n)) by (rewrite <-Z.pow_add_r by lia; f_equal; lia).
  assert (E2 : 2 ^ 53 = 2 ^ Z.succ (Z.log2 n) * 2 ^ (52 - Z.log2 n)) by (rewrite <-Z.pow_add_r by lia; f_equal; lia).
  rewrite E1, E2. nia.
Qed.

Lemma round_int n e :
  0 < n < 2 ^ 53 → -900 ≤ e ≤ 0 → ∀ p, Z.pos p = n * 2 ^ (- e) →
  binary_round prec64 emax64 false p e = S754_finite false (Z.to_pos (mant n)) (Z.log2 n - 52).
Proof.
  intros Hn He p Hp. pose proof (log2_small n Hn) as Hl. unfold binary_round.
  rewrite digits2_log2, Hp, Z.log2_mul_pow2, fexp64 by lia.
  replace (- e + Z.log2 n + 1 + e - 53) with (Z.log2 n - 52) by lia.
  destruct (Z.le_gt_cases (Z.log2 n - 52) e) as [Hle|Hgt].
  - rewrite shl_align_spec by done. rewrite Hp.
    replace (n * 2 ^ (- e) * 2 ^ (e - (Z.log2 n - 52))) with (mant n)
      by (unfold mant; rewrite <-Z.mul_assoc, <-Z.pow_add_r by lia; do 2 f_equal; lia).
    pose proof (mant_range n Hn). rewrite Z2Pos.id by lia.
    rewrite <-(Z.mul_1_r (mant n)) at 1. change 1 with (2 ^ 0) at 1. rewrite round_exact by lia.
    f_equal. lia.
  - assert (Hs : shl_align p e (Z.log2 n - 52) = (p, e)).
    { unfold shl_align. destruct (Z.log2 n - 52 - e) eqn:E; [done|done|lia]. }
    rewrite Hs, Hp.
    replace (n * 2 ^ (- e)) with (mant n * 2 ^ (Z.log2 n - 52 - e))
      by (unfold mant; rewrite <-Z.mul_assoc, <-Z.pow_add_r by lia; do 2 f_equal; lia).
    rewrite round_exact by (pose proof (mant_range n Hn); lia). f_equal. lia.
Qed.

Lemma f64_of_int n : 0 < n < 2 ^ 53 →
  f64_of_Z n = S754_finite false (Z.to_pos (mant n)) (Z.log2 n - 52).
Proof. intros Hn. destruct n as [|p|p]; [lia| |lia]. simpl. apply (round_int (Z.pos p) 0); lia. Qed.

Lemma f64_of_1 : f64_of_Z 1 = S754_finite false (Z.to_pos (2 ^ 52)) (-52).
Proof. reflexivity. Qed.

(** Subtracting one is exact. *)
Lemma f64_sub_1 n : 0 < n < 2 ^ 53 → f64_sub (f64_of_Z n) (f64_of_Z 1) = f64_of_Z (n - 1).
Proof.
  intros Hn. pose proof (log2_small n Hn) as Hl. pose proof (mant_range n Hn) as Hm.
  rewrite (f64_of_int n Hn), f64_of_1. unfold f64_sub, SFsub. cbn [cond_Zopp].
  rewrite Z.min_r by lia. rewrite !shl_align_spec by lia. cbn [fst].
  rewrite (Z2Pos.id (mant n)) by lia.
  replace (mant n * 2 ^ (Z.log2 n - 52 - -52)) with (n * 2 ^ 52)
    by (unfold mant; rewrite <-Z.mul_assoc, <-Z.pow_add_r by lia; do 2 f_equal; lia).
  change (Z.pos (Z.to_pos (Z.pos (Z.to_pos (2 ^ 52)) * 2 ^ (-52 - -52)))) with (1 * 2 ^ 52).
  rewrite Z2Pos.id by lia.
  rewrite <-Z.mul_sub_distr_r. destruct (Z.eq_dec n 1) as [->|Hne]; [reflexivity|].
  destruct ((n - 1) * 2 ^ 52) as [|p|p] eqn:E; [lia| |lia]. cbn [binary_normalize].
  rewrite (round_int (n - 1) (-52)) by (try lia; symmetry; exact E). symmetry. apply f64_of_int. lia.
Qed.

Lemma f64_ge_1 n : 0 ≤ n < 2 ^ 53 → SFleb (f64_of_Z 1) (f64_of_Z n) = (1 <=? n).
Proof.
  intros Hn. destruct (Z.eq_dec n 0) as [->|Hne]; [reflexivity|].
  rewrite (proj2 (Z.leb_le 1 n)) by lia. pose proof (log2_small n ltac:(lia)) as Hl.
  pose proof (mant_range n ltac:(lia)) as Hm. rewrite (f64_of_int n), f64_of_1 by lia.
  unfold SFleb, SFcompare. destruct (Z.compare_spec (-52) (Z.log2 n - 52)) as [E|E|E]; [|done|lia].
  change (Pos.compare_cont Eq (Z.to_pos (2 ^ 52)) (Z.to_pos (mant n))) with (Pos.compare (Z.to_pos (2 ^ 52)) (Z.to_pos (mant n))).
  destruct (Pos.compare_spec (Z.to_pos (2 ^ 52)) (Z.to_pos (mant n))) as [?|?|Hgt]; [done|done|].
  exfalso. assert (Hz : Z.pos (Z.to_pos (mant n)) < Z.pos (Z.to_pos (2 ^ 52))) by exact Hgt.
  rewrite !Z2Pos.id in Hz; lia.
Qed.

(** ** Signs *)
Definition nonpos (x : float64) : Prop :=
  match x with
  | S754_zero _ | S754_nan => True
  | S754_infinity s | S754_finite s _ _ => s = true
  end.

Lemma nonpos_compare x : nonpos x → SFltb (S754_zero false) x = false.
Proof. destruct x as [s|s| |s m e]; simpl; try done; by intros ->. Qed.

Lemma round_aux_nonpos m e l : nonpos (binary_round_aux prec64 emax64 true m e l).
Proof. unfold binary_round_aux. repeat case_match; done. Qed.

Lemma binary_round_nonpos m e : nonpos (binary_round prec64 emax64 true m e).
Proof. unfold binary_round. destruct (shl_align _ _ _). apply round_aux_nonpos. Qed.

Lemma f64_of_Z_nonpos z : z ≤ 0 → nonpos (f64_of_Z z).
Proof. destruct z; [done|lia|]. intros _. apply binary_round_nonpos. Qed.

Lemma f64_div_nonpos x m e : nonpos x → nonpos (f64_div x (S754_finite false m e)).
Proof.
  destruct x as [s|s| |s mx ex]; simpl; try done; intros ->; [done|]. unfold f64_div, SFdiv.
  destruct (SFdiv_core_binary _ _ _ _ _ _) as [[mz ez] lz]. apply round_aux_nonpos.
Qed.

Lemma f64_add_nonpos x y : nonpos x → nonpos y → nonpos (f64_add x y).
Proof.
  destruct x as [s|s| |s m e], y as [s'|s'| |s' m' e']; simpl; try done;
    repeat match goal with b : bool |- _ => destruct b end; simpl; try done.
  intros _ _. apply binary_round_nonpos.
Qed.
