(* ===== verification/FloatJson.v ===== *)
(** * Whole numbers through JSON

    encoding/json reads every number into a [float64] and writes a [float64]
    with the fewest digits that read back.  For the whole numbers a [float64]
    holds exactly (expiry times, numeric ids) the two meet: the text is the
    number's decimal digits, and it reads back as the same [float64]. *)

From Stdlib Require Import SpecFloat.
From S2P Require Import Prelude.
From S2P Require Import GoStrings.
From S2P Require Import GoAny.
From S2P Require Import Json.
From S2P Require Import JsonFacts.
From S2P Require Import FloatFacts.

Definition exact_int (n : Z) : Prop := - 2 ^ 53 < n < 2 ^ 53.

(** ** Only the number itself rounds to its [float64] *)
Lemma shr_exp mrs e n : snd (shr mrs e n) = e + Z.max n 0.
Proof. destruct n as [|p|p]; simpl; lia. Qed.

Lemma round_aux_exp m e l :
  match binary_round_aux prec64 emax64 false m e l with S754_finite _ _ e' => e ≤ e' | _ => True end.
Proof.
  unfold binary_round_aux, shr_fexp.
  pose proof (shr_exp (shr_record_of_loc m l) e (fexp prec64 emax64 (Zdigits2 m + e) - e)) as H1.
  destruct (shr _ e _) as [mrs' e'] eqn:E1. cbn [snd] in H1.
  match goal with |- context [shr ?r e' ?k] => pose proof (shr_exp r e' k) as H2; destruct (shr r e' k) as [mrs'' e''] eqn:E2 end.
  cbn [snd] in H2. destruct (shr_m mrs'') as [|p|p]; [done| |done]. destruct (_ <=? _); [lia|done].
Qed.

Lemma round_large n : 2 ^ 53 ≤ n →
  match f64_of_Z n with S754_finite _ _ e => 1 ≤ e | S754_zero _ => True | _ => True end.
Proof.
  intros Hn. destruct n as [|p|p]; [lia| |lia]. cbn [f64_of_Z]. unfold binary_round.
  assert (Hl : 53 ≤ Z.log2 (Z.pos p)) by (apply Z.log2_le_pow2; lia).
  rewrite digits2_log2, Z.add_0_r, fexp64 by lia.
  assert (Hs : shl_align p 0 (Z.log2 (Z.pos p) + 1 - 53) = (p, 0)).
  { unfold shl_align. destruct (_ - 0) eqn:Ez; [done|done|lia]. }
  rewrite Hs. unfold binary_round_aux, shr_fexp.
  pose proof (shr_exp (shr_record_of_loc (Z.pos p) loc_Exact) 0 (fexp prec64 emax64 (Zdigits2 (Z.pos p) + 0) - 0)) as H1.
  destruct (shr _ 0 _) as [mrs' e'] eqn:E1. cbn [snd] in H1. cbn [Zdigits2] in H1.
  rewrite digits2_log2, fexp64 in H1 by lia.
  match goal with |- context [shr ?r e' ?k] => pose proof (shr_exp r e' k) as H2; destruct (shr r e' k) as [mrs'' e''] eqn:E2 end.
  cbn [snd] in H2. destruct (shr_m mrs'') as [|q|q]; [done| |done]. destruct (_ <=? _); [lia|done].
Qed.

Lemma f64_of_Z_inj n z : 0 < n < 2 ^ 53 → 0 < z → f64_of_Z z = f64_of_Z n → z = n.
Proof.
  intros Hn Hz He. destruct (Z.lt_ge_cases z (2 ^ 53)) as [Hs|Hl].
  - rewrite !f64_of_int in He by lia. injection He as Hm Hl.
    pose proof (mant_range n Hn). pose proof (mant_range z ltac:(lia)).
    apply (f_equal Z.pos) in Hm. rewrite !Z2Pos.id in Hm by lia. unfold mant in Hm.
    replace (Z.log2 z) with (Z.log2 n) in Hm by lia. pose proof (log2_small n Hn).
    assert (0 < 2 ^ (52 - Z.log2 n)) by (apply Z.pow_pos_nonneg; lia). nia.
  - apply round_large in Hl. rewrite He, f64_of_int in Hl by done. pose proof (log2_small n Hn). lia.
Qed.

Lemma f64_of_decimal_int lo k : 0 < lo → 0 ≤ k → f64_of_decimal false lo k = f64_of_Z (lo * 10 ^ k).
Proof.
  intros Hlo Hk. unfold f64_of_decimal. destruct lo as [|p|p]; [lia| |lia]. rewrite (proj2 (Z.leb_le _ _)) by done.
  assert (0 < 10 ^ k) by (apply Z.pow_pos_nonneg; lia).
  destruct (Z.pos p * 10 ^ k) as [|q|q] eqn:E; [lia| |lia]. done.
Qed.

(** ** The shortest digits *)
Lemma dec_point_spec f n den j : 0 < n → 0 < den → 0 ≤ j → 10 ^ j ≤ n < 10 ^ (j + Z.of_nat f) →
  ∃ d, dec_point f (n * den) (den * 10 ^ j) (j + 1) = d ∧ 0 < d ∧ 10 ^ (d - 1) ≤ n < 10 ^ d.
Proof.
  revert j. induction f as [|f IH]; intros j Hn Hd Hj Hr; [simpl in Hr; rewrite Z.add_0_r in Hr; lia|].
  cbn [dec_point]. assert (Hp : 0 < 10 ^ j) by (apply Z.pow_pos_nonneg; lia).
  rewrite (proj2 (Z.ltb_ge _ _)) by nia.
  destruct (Z.leb_spec (10 * (den * 10 ^ j)) (n * den)) as [Hle|Hgt].
  - replace (den * 10 ^ j * 10) with (den * 10 ^ (j + 1)) by (rewrite Z.pow_add_r by lia; change (10 ^ 1) with 10; lia).
    apply IH; [lia..|]. rewrite Nat2Z.inj_succ in Hr. rewrite Z.pow_add_r by lia. change (10 ^ 1) with 10.
    replace (j + 1 + Z.of_nat f) with (j + Z.succ (Z.of_nat f)) by lia. nia.
  - exists (j + 1). split; [done|]. split; [lia|]. replace (j + 1 - 1) with j by lia.
    rewrite Z.pow_add_r by lia. change (10 ^ 1) with 10. nia.
Qed.

Lemma shortest_spec fuel i n den d : 0 < n < 2 ^ 53 → 0 < den → 10 ^ (d - 1) ≤ n < 10 ^ d →
  1 ≤ Z.of_nat i ≤ d → d - Z.of_nat i < Z.of_nat fuel →
  ∃ q k, shortest fuel i (f64_of_Z n) (n * den) den d = (q, k) ∧ 0 < q ∧ 0 ≤ k ∧ n = q * 10 ^ k.
Proof.
  intros Hn Hden Hd. revert i. induction fuel as [|fuel IH]; intros i Hi Hf; [simpl in Hf; lia|].
  cbn [shortest]. set (k := d - Z.of_nat i). assert (Hk : 0 ≤ k) by lia.
  assert (Hp : 0 < 10 ^ k) by (apply Z.pow_pos_nonneg; lia).
  unfold scaled. rewrite (proj2 (Z.leb_le _ _)) by done.
  replace (n * den / (den * 10 ^ k)) with (n / 10 ^ k)
    by (rewrite (Z.mul_comm n den), Z.div_mul_cancel_l by lia; done).
  assert (Hlo : 0 < n / 10 ^ k).
  { apply Z.div_str_pos. split; [lia|]. trans (10 ^ (d - 1)); [|lia]. apply Z.pow_le_mono_r; lia. }
  rewrite !f64_of_decimal_int by lia. pose proof (Z.div_mod n (10 ^ k) ltac:(lia)) as Hdm.
  pose proof (Z.mod_pos_bound n (10 ^ k) ltac:(lia)) as Hmb.
  assert (Hup : f64_of_Z ((n / 10 ^ k + 1) * 10 ^ k) ≠ f64_of_Z n) by (intros E%f64_of_Z_inj; lia || nia).
  rewrite (bool_decide_false _ Hup), andb_false_r.
  destruct (decide (n / 10 ^ k * 10 ^ k = n)) as [He|He].
  - rewrite bool_decide_true by by rewrite He. exists (n / 10 ^ k), k. split_and!; [done|lia|lia|lia].
  - rewrite bool_decide_false by (intros E%f64_of_Z_inj; [done|lia|nia]).
    apply IH; [|lia]. assert (Hk0 : k ≠ 0) by (intros ->; apply He; rewrite Z.pow_0_r, Z.div_1_r; lia). lia.
Qed.

Lemma f64_decimal_int n m e : 0 < n < 2 ^ 53 → f64_of_Z n = S754_finite false m e →
  ∃ q k, f64_decimal m e = (q, k) ∧ 0 < q ∧ 0 ≤ k ∧ n = q * 10 ^ k.
Proof.
  intros Hn Hf. pose proof Hf as Hx. rewrite f64_of_int in Hx by done. injection Hx as Hm He.
  pose proof (mant_range n Hn) as Hr. pose proof (log2_small n Hn) as Hl.
  apply (f_equal Z.pos) in Hm. rewrite Z2Pos.id in Hm by lia.
  assert (Hnd : ∃ den, 0 < den ∧ (if 0 <=? e then Z.pos m * 2 ^ e else Z.pos m) = n * den ∧
                       (if 0 <=? e then 1 else 2 ^ (- e)) = den).
  { destruct (Z.leb_spec 0 e) as [H0|H0].
    - assert (e = 0) as -> by lia. exists 1. unfold mant in Hm. replace (52 - Z.log2 n) with 0 in Hm by lia.
      rewrite Z.pow_0_r in *. lia.
    - exists (2 ^ (- e)). split; [apply Z.pow_pos_nonneg; lia|]. split; [|done]. rewrite <-Hm. unfold mant.
      do 2 f_equal. lia. }
  destruct Hnd as (den & Hden & En & Ed). unfold f64_decimal. rewrite En, Ed, <-Hf.
  destruct (dec_point_spec 1100 n den 0) as (d & Hdp & Hd0 & Hd); [lia..| |].
  { split; [rewrite Z.pow_0_r; lia|]. apply Z.lt_trans with (2 ^ 53); [lia|]. apply Z.lt_le_trans with (10 ^ 16); [done|].
    apply Z.pow_le_mono_r; lia. }
  rewrite Z.pow_0_r, Z.mul_1_r in Hdp. change (0 + 1) with 1 in Hdp. rewrite Hdp.
  assert (d ≤ 16).
  { destruct (Z.le_gt_cases d 16) as [|Hgt]; [done|]. exfalso. apply (Z.lt_irrefl n).
    apply Z.lt_le_trans with (2 ^ 53); [lia|]. trans (10 ^ 16); [done|]. trans (10 ^ (d - 1)); [|lia].
    apply Z.pow_le_mono_r; lia. }
  apply shortest_spec; simpl; lia.
Qed.

(** ** Decimal digits *)
Lemma dec_digits_app n z acc : dec_digits n z acc = dec_digits n z "" +:+ acc.
Proof.
  revert z acc. induction n as [|n IH]; intros z acc; [done|]. cbn [dec_digits]. destruct (_ =? 0); [done|].
  rewrite IH, (IH _ (String _ "")), app_assoc_str. done.
Qed.

Lemma dec_digits_fuel n m z acc : 0 ≤ z < 2 ^ Z.of_nat n → z < 2 ^ Z.of_nat m → (0 < n)%nat → (0 < m)%nat →
  dec_digits n z acc = dec_digits m z acc.
Proof.
  revert m z acc. induction n as [|n IH]; intros [|m] z acc Hn Hm Hn0 Hm0; [lia..|]. cbn [dec_digits].
  destruct (Z.eqb_spec (z / 10) 0) as [|Hz]; [done|].
  rewrite !Nat2Z.inj_succ, !Z.pow_succ_r in * by lia. pose proof (Z.div_pos z 10).
  assert (z / 10 < 2 ^ Z.of_nat n) by (apply Z.div_lt_upper_bound; lia).
  assert (z / 10 < 2 ^ Z.of_nat m) by (apply Z.div_lt_upper_bound; lia).
  apply IH; [lia|lia| |].
  - destruct n; [simpl in *; lia|lia].
  - destruct m; [simpl in *; lia|lia].
Qed.

Lemma Itoa_digits n z : 0 ≤ z < 2 ^ Z.of_nat n → (0 < n)%nat → Itoa z = dec_digits n z "".
Proof.
  intros Hz Hn. unfold Itoa. rewrite (proj2 (Z.ltb_ge _ _)), Z.abs_eq by lia.
  apply dec_digits_fuel; [|lia..]. split; [lia|]. rewrite Nat2Z.inj_succ, Z2Nat.id by apply Z.log2_nonneg.
  destruct (decide (z = 0)) as [->|]; [done|]. apply Z.log2_spec. lia.
Qed.

Lemma Itoa_times_10 q : 0 < q → Itoa (q * 10) = Itoa q +:+ "0".
Proof.
  intros Hq. set (n := S (Z.to_nat (Z.log2 q))).
  assert (Hn : q < 2 ^ Z.of_nat n).
  { unfold n. rewrite Nat2Z.inj_succ, Z2Nat.id by apply Z.log2_nonneg. apply Z.log2_spec. lia. }
  assert (Hn0 : (0 < n)%nat) by (unfold n; lia). clearbody n.
  assert (Hn4 : q * 10 < 2 ^ Z.of_nat (4 + n)).
  { rewrite Nat2Z.inj_add, Z.pow_add_r by lia. change (2 ^ Z.of_nat 4) with 16. lia. }
  rewrite (Itoa_digits (4 + n)), (Itoa_digits n q) by lia.
  change (4 + n)%nat with (S (3 + n)). cbn [dec_digits]. rewrite Z.mod_mul, Z.div_mul by lia.
  rewrite (proj2 (Z.eqb_neq _ _)) by lia. rewrite dec_digits_app. f_equal.
  apply dec_digits_fuel; [|lia..].
  change (S (S (S n))) with (3 + n)%nat. rewrite Nat2Z.inj_add, Z.pow_add_r by lia. change (2 ^ Z.of_nat 3) with 8. lia.
Qed.

Lemma zeros_snoc k : zeros (S k) = zeros k +:+ "0".
Proof. induction k as [|k IH]; [done|]. change (zeros (S (S k))) with (String "0" (zeros (S k))). by rewrite IH at 1. Qed.

Lemma Itoa_zeros q k : 0 < q → 0 ≤ k → Itoa (q * 10 ^ k) = Itoa q +:+ zeros (Z.to_nat k).
Proof.
  intros Hq Hk. rewrite <-(Z2Nat.id k) at 1 by done. generalize (Z.to_nat k) as j. clear k Hk. intros j.
  induction j as [|j IH]; [change (Z.of_nat 0) with 0; by rewrite Z.pow_0_r, Z.mul_1_r, app_empty_r|].
  rewrite Nat2Z.inj_succ, Z.pow_succ_r, zeros_snoc, <-app_assoc_str, <-IH by lia.
  assert (0 < 10 ^ Z.of_nat j) by (apply Z.pow_pos_nonneg; lia).
  rewrite <-Itoa_times_10 by nia. f_equal. lia.
Qed.

Lemma dec_digits_length n z acc j : 0 ≤ z < 10 ^ Z.of_nat j → (0 < j)%nat →
  (String.length (dec_digits n z acc) ≤ j + String.length acc)%nat.
Proof.
  revert z acc j. induction n as [|n IH]; intros z acc j Hz Hj; cbn [dec_digits]; [lia|].
  destruct (Z.eqb_spec (z / 10) 0) as [|Hne]; [simpl; lia|]. destruct j as [|j]; [lia|].
  rewrite Nat2Z.inj_succ, Z.pow_succ_r in Hz by lia.
  assert (0 ≤ z / 10 < 10 ^ Z.of_nat j) by (split; [apply Z.div_pos; lia|apply Z.div_lt_upper_bound; lia]).
  assert (0 < j)%nat by (destruct j; [simpl in *; lia|lia]).
  specialize (IH (z / 10) (String (of_byte (48 + z `mod` 10)) acc) j). simpl in IH. lia.
Qed.

Lemma zeros_length k : String.length (zeros k) = k.
Proof. induction k; simpl; congruence. Qed.

(** ** Through the text and back *)
Lemma f64_of_Z_opp n : 0 < n → f64_of_Z (- n) = SFopp (f64_of_Z n).
Proof.
  intros Hn. destruct n as [|p|p]; [lia| |lia]. change (- Z.pos p) with (Z.neg p). cbn [f64_of_Z].
  unfold binary_round. destruct (shl_align _ _ _) as [m e]. unfold binary_round_aux.
  destruct (shr_fexp _ _ _ _ _) as [mrs e']. destruct (shr_fexp _ _ (round_nearest_even _ _) _ _) as [mrs'' e''].
  destruct (shr_m mrs''); [done| |done]. by destruct (_ <=? _).
Qed.

Lemma lit_of_exact_pos n : 0 < n < 2 ^ 53 →
  ∃ m e q k, f64_of_Z n = S754_finite false m e ∧ f64_decimal m e = (q, k) ∧
    ¬ (len (Itoa q) + k < -5) ∧ ¬ (21 < len (Itoa q) + k) ∧ 0 ≤ k ∧ Itoa q +:+ zeros (Z.to_nat k) = Itoa n.
Proof.
  intros Hn. pose proof (f64_of_int n Hn) as Hf. destruct (f64_decimal_int n _ _ Hn Hf) as (q & k & Hd & Hq & Hk & He).
  eexists _, _, q, k. split; [exact Hf|]. split; [exact Hd|].
  assert (Hi : Itoa q +:+ zeros (Z.to_nat k) = Itoa n) by by rewrite <-Itoa_zeros, <-He by done.
  apply (f_equal String.length) in Hi as Hlen. rewrite length_app_str, zeros_length in Hlen.
  assert (String.length (Itoa n) ≤ 16)%nat.
  { rewrite (Itoa_digits 53) by (change (Z.of_nat 53) with 53; lia).
    apply (dec_digits_length 53 n "" 16); [|lia]. change (Z.of_nat 16) with 16. lia. }
  unfold len. split; [lia|]. split; [lia|]. done.
Qed.

Lemma lit_of_exact n : exact_int n → lit_of_f64 (f64_of_Z n) = Some (Itoa n).
Proof.
  unfold exact_int. intros Hn. destruct (Z.lt_trichotomy n 0) as [Hlt|[->|Hgt]]; [|done|].
  - destruct (lit_of_exact_pos (- n)) as (m & e & q & k & Hf & Hd & H1 & H2 & Hk & Hi); [lia|].
    rewrite <-(Z.opp_involutive n) at 1. rewrite f64_of_Z_opp, Hf by lia. cbn [SFopp lit_of_f64 negb].
    rewrite Hd. rewrite (proj2 (Z.ltb_ge _ _)), (proj2 (Z.ltb_ge _ _)) by lia. cbn [orb FormatFloat_f].
    rewrite Hd, (proj2 (Z.leb_le _ _)), Hi, (Itoa_neg n) by lia. done.
  - destruct (lit_of_exact_pos n) as (m & e & q & k & Hf & Hd & H1 & H2 & Hk & Hi); [lia|].
    rewrite Hf. cbn [lit_of_f64]. rewrite Hd. rewrite (proj2 (Z.ltb_ge _ _)), (proj2 (Z.ltb_ge _ _)) by lia.
    cbn [orb FormatFloat_f]. by rewrite Hd, (proj2 (Z.leb_le _ _)), Hi by lia.
Qed.

Lemma decimal_of_Itoa z : decimal_of_lit (Itoa z) = (z <? 0, Z.abs z, 0).
Proof.
  assert (Hd : ∀ y, 0 ≤ y → ∃ c d, Itoa y = String c d ∧ byte_of c ≠ 45 ∧ digits (Itoa y) = (Itoa y, "") ∧
                              digits_value 0 (Itoa y) = y).
  { intros y Hy. destruct (decide (y = 0)) as [->|]; [by exists "0"%char, ""|].
    destruct (Itoa_pos y) as (c & d & E & Ha & _ & Hv); [lia|]. exists c, d. split; [done|].
    pose proof (digits_all (String c d) "" Ha I) as Hdig. rewrite app_empty_r in Hdig. rewrite E in *.
    split; [|done]. apply Forall_cons in Ha as [Hc _]. unfold is_digit in Hc. bool_prop. lia. }
  unfold decimal_of_lit. destruct (Z.ltb_spec z 0) as [Hz|Hz].
  - rewrite Itoa_neg by done. simpl (byte_of "-" =? 45). cbv iota beta.
    destruct (Hd (- z)) as (c & d & _ & _ & -> & Hv); [lia|]. rewrite app_empty_r, Hv. by rewrite Z.abs_neq by lia.
  - destruct (Hd z Hz) as (c & d & E & Hc & Hg & Hv). rewrite E in *. rewrite (proj2 (Z.eqb_neq _ _) Hc).
    rewrite Hg, app_empty_r, Hv. by rewrite Z.abs_eq by lia.
Qed.

Lemma f64_of_Itoa n : exact_int n → f64_of_lit (Itoa n) = Some (f64_of_Z n).
Proof.
  unfold exact_int. intros Hn. unfold f64_of_lit. rewrite decimal_of_Itoa.
  assert (He : f64_of_decimal (n <? 0) (Z.abs n) 0 = f64_of_Z n).
  { unfold f64_of_decimal. rewrite Z.pow_0_r, Z.mul_1_r. destruct n as [|p|p]; done. }
  rewrite He. destruct (Z.lt_trichotomy n 0) as [Hlt|[->|Hgt]]; [|done|by rewrite f64_of_int by lia].
  rewrite <-(Z.opp_involutive n), f64_of_Z_opp, f64_of_int by lia. done.
Qed.
