(* ===== verification/Cookie.v ===== *)
(** * Signed cookies (pkg/cookie)

    [SignedManager] signs a session id with HMAC-SHA256 under a primary secret
    and verifies under the primary or any older one; [SignedCodec] is the same
    through the Codec interface.  The cookies written on a response are
    modelled by the [http.Cookie] values handed to [http.SetCookie].

    The theorems: a value signed by a manager is read back by every manager
    that still knows its key (key rotation), and a value is accepted exactly
    when it is a payload with a tag computed from that payload under a known
    key: nothing else is let in. *)

From S2P Require Import Prelude.
From S2P Require Import GoStrings.
From S2P Require Import GoAny.
From S2P Require Import Base64.
From S2P Require Import Sha256.

(** ** Data *)
Definition ErrInvalidSignature : string := "cookie: invalid signature".
Definition signedSep : string := ".".

Record SignedManager := { primary : string; older : list string }.

Definition NewSignedManager (secret : string) : SignedManager :=
  {| primary := secret; older := [] |}.
Definition NewSignedManagerWithKeys (p : string) (o : list string) : SignedManager :=
  {| primary := p; older := o |}.

(** net/http's SameSite values. *)
Inductive SameSite := SameSiteUnset | SameSiteDefaultMode | SameSiteLaxMode
  | SameSiteStrictMode | SameSiteNoneMode.
#[global] Instance SameSite_eq_dec : EqDecision SameSite.
Proof. solve_decision. Defined.

Record CookieOptions := {
  Path : string; Domain : string; Secure : bool; HTTPOnly : bool;
  Same : SameSite; MaxAge : Z }.

(** The [http.Cookie] handed to [http.SetCookie]. *)
Record http_cookie := {
  hc_name : string; hc_value : string; hc_path : string; hc_domain : string;
  hc_max_age : Z; hc_secure : bool; hc_http_only : bool; hc_same : SameSite }.

(** ** Operations *)
Definition signWith (secret data : string) : string := hmac_string secret data.

(** [Encode]: a value that is not a string encodes to the empty string. *)
Definition Encode (m : SignedManager) (v : any) : res string :=
  match as_string v with
  | None => Ok ""
  | Some s =>
      let payload := url_encode s in
      let sig := signWith (primary m) payload in
      Ok (payload +:+ signedSep +:+ url_encode sig)
  end.

(** [decodePayload]: [dst] is [Some] of the current value when it is a
    [*string]; anything else is left alone. *)
Definition decodePayload (payload : string) (dst : option string) : res (option string) :=
  match url_decode payload with
  | None => Err ErrInvalidSignature
  | Some dec => Ok (match dst with Some _ => Some dec | None => None end)
  end.

(** The loop over the older secrets. *)
Fixpoint decode_older (olds : list string) (sig payload : string) (dst : option string)
    : res (option string) :=
  match olds with
  | [] => Err ErrInvalidSignature
  | old :: olds' =>
      if String.eqb sig (signWith old payload) then decodePayload payload dst
      else decode_older olds' sig payload dst
  end.

Definition Decode (m : SignedManager) (raw : string) (dst : option string)
    : res (option string) :=
  match SplitN2 raw signedSep with
  | [payload; sigB64] =>
      match url_decode sigB64 with
      | None => Err ErrInvalidSignature
      | Some sig =>
          if String.eqb sig (signWith (primary m) payload) then decodePayload payload dst
          else decode_older (older m) sig payload dst
      end
  | _ => Err ErrInvalidSignature
  end.

(** [SignedCodec] *)
Definition codec_Encode (m : SignedManager) (sessionID : string) : res string :=
  Encode m (AStr sessionID).
Definition codec_Decode (m : SignedManager) (raw : string) : res string :=
  match Decode m raw (Some "") with
  | Ok (Some id) => Ok id
  | Ok None => Ok ""
  | Err e => Err e
  end.

Definition or_slash (p : string) : string := if String.eqb p "" then "/" else p.

Definition cookie_Set (name value : string) (o : CookieOptions) : http_cookie :=
  {| hc_name := name; hc_value := value; hc_path := or_slash (Path o);
     hc_domain := Domain o; hc_max_age := MaxAge o; hc_secure := Secure o;
     hc_http_only := HTTPOnly o; hc_same := Same o |}.

Definition cookie_Clear (name : string) (o : CookieOptions) : http_cookie :=
  {| hc_name := name; hc_value := ""; hc_path := or_slash (Path o);
     hc_domain := Domain o; hc_max_age := -1; hc_secure := Secure o;
     hc_http_only := HTTPOnly o; hc_same := Same o |}.

(** model.go *)
Record OutCookie := { oc_Name : string; oc_Value : string; oc_Options : CookieOptions }.

Record SessionCookieConfig := {
  scc_Name : string; scc_Domain : string; scc_Path : string; scc_MaxAge : Z;
  scc_Secure : bool; scc_HTTPOnly : bool; scc_SameSite : SameSite }.

Definition cookie_Options (c : SessionCookieConfig) : CookieOptions :=
  {| Path := or_slash (scc_Path c); Domain := scc_Domain c; Secure := scc_Secure c;
     HTTPOnly := scc_HTTPOnly c; Same := scc_SameSite c; MaxAge := scc_MaxAge c |}.

Definition DefaultSessionCookieConfig (name : string) : SessionCookieConfig :=
  {| scc_Name := name; scc_Domain := ""; scc_Path := "/"; scc_MaxAge := 0;
     scc_Secure := true; scc_HTTPOnly := true; scc_SameSite := SameSiteLaxMode |}.

Definition WriteOutCookie (c : OutCookie) : http_cookie :=
  cookie_Set (oc_Name c) (oc_Value c) (oc_Options c).

(** [r.Cookie(name)] on the cookies of the request, in order: the first of
    that name.  [ReadSessionID] answers the empty string when there is none. *)
Definition request_cookie (cookies : list (string * string)) (name : string) : option string :=
  snd <$> List.find (λ c, String.eqb (fst c) name) cookies.
Definition ReadSessionID (cookies : list (string * string)) (name : string) : string :=
  default "" (request_cookie cookies name).

(** ** Lemmas *)
Lemma decodePayload_some payload old v :
  decodePayload payload (Some old) = Ok v ↔ ∃ id, v = Some id ∧ url_decode payload = Some id.
Proof. unfold decodePayload. destruct (url_decode payload); naive_solver. Qed.

Lemma decode_older_some olds sig payload old v :
  decode_older olds sig payload (Some old) = Ok v ↔
  (∃ k, k ∈ olds ∧ sig = signWith k payload) ∧
  ∃ id, v = Some id ∧ url_decode payload = Some id.
Proof.
  induction olds as [|k olds IH]; simpl; [set_solver|].
  destruct (String.eqb_spec sig (signWith k payload)) as [->|Hne].
  - rewrite decodePayload_some. set_solver.
  - rewrite IH. split; [set_solver|]. intros [(k' & Hk & ->) Hid]. split; [|done].
    apply elem_of_cons in Hk as [->|Hk]; [done|]. eauto.
Qed.

(** The tagged form of a value under a key. *)
Definition tagged (k payload sig64 raw : string) : Prop :=
  raw = payload +:+ signedSep +:+ sig64 ∧ no_byte "."%char payload ∧
  url_decode sig64 = Some (signWith k payload).

Lemma SplitN2_sep raw payload sig64 :
  SplitN2 raw signedSep = [payload; sig64] ↔
  raw = payload +:+ signedSep +:+ sig64 ∧ no_byte "."%char payload.
Proof. apply (SplitN2_pair raw "."%char payload sig64). Qed.

Lemma Decode_iff m raw old v :
  Decode m raw (Some old) = Ok v ↔
  ∃ k payload sig64 id, k ∈ primary m :: older m ∧ tagged k payload sig64 raw ∧
    url_decode payload = Some id ∧ v = Some id.
Proof.
  unfold Decode, tagged. split.
  - intros H.
    destruct (SplitN2 raw signedSep) as [|payload [|sig64 [|? ?]]] eqn:E; try done.
    apply SplitN2_sep in E as [-> Hdot].
    destruct (url_decode sig64) as [sig|] eqn:Es; [|done].
    destruct (String.eqb_spec sig (signWith (primary m) payload)) as [->|Hne].
    + apply decodePayload_some in H as (id & -> & Hid).
      exists (primary m), payload, sig64, id. set_solver.
    + apply decode_older_some in H as ((k & Hk & ->) & id & -> & Hid).
      exists k, payload, sig64, id. set_solver.
  - intros (k & payload & sig64 & id & Hk & (-> & Hdot & Hs) & Hid & ->).
    rewrite (proj2 (SplitN2_sep _ payload sig64)) by done. rewrite Hs.
    destruct (String.eqb_spec (signWith k payload) (signWith (primary m) payload)) as [_|Hne].
    + apply decodePayload_some. eauto.
    + apply decode_older_some. split; [|eauto].
      apply elem_of_cons in Hk as [->|Hk]; [done|]. eauto.
Qed.

Lemma codec_Decode_iff m raw id :
  codec_Decode m raw = Ok id ↔
  ∃ k payload sig64, k ∈ primary m :: older m ∧ tagged k payload sig64 raw ∧
    url_decode payload = Some id.
Proof.
  unfold codec_Decode. split.
  - destruct (Decode m raw (Some "")) as [[id'|]|e] eqn:E; intros H; simplify_eq.
    + apply Decode_iff in E as (k & p & s & ? & ?). naive_solver.
    + apply Decode_iff in E as (? & ? & ? & ? & ? & ? & ? & [=]).
  - intros (k & p & s & Hk & Ht & Hid).
    by rewrite (proj2 (Decode_iff m raw "" (Some id))) by eauto 10.
Qed.

Lemma Encode_tagged m s :
  tagged (primary m) (url_encode s) (url_encode (signWith (primary m) (url_encode s)))
    (url_encode s +:+ signedSep +:+ url_encode (signWith (primary m) (url_encode s))).
Proof.
  unfold tagged. split; [done|]. split; [apply EncodeToString_no_dot|].
  apply DecodeString_EncodeToString.
Qed.

Lemma codec_round m m' s raw :
  primary m ∈ primary m' :: older m' →
  codec_Encode m s = Ok raw → codec_Decode m' raw = Ok s.
Proof.
  unfold codec_Encode, Encode. simpl. intros Hk [= <-].
  apply codec_Decode_iff. eexists _, _, _. split; [exact Hk|]. split; [apply Encode_tagged|].
  apply DecodeString_EncodeToString.
Qed.

(** ** Theorems *)

(** Key rotation.  A session id signed by one manager is read back
    unchanged by every manager whose primary or older secrets still include
    the signing secret. *)
Theorem signed_cookie_rotation (m m' : SignedManager) (id : string)
    (Hk : primary m ∈ primary m' :: older m') :
  ∃ raw, codec_Encode m id = Ok raw ∧ codec_Decode m' raw = Ok id.
Proof. eexists. split; [reflexivity|]. by eapply codec_round. Qed.

Lemma signed_cookie_rotation_witness :
  let m := NewSignedManager "0123456789abcdef" in
  let m' := NewSignedManagerWithKeys "fedcba9876543210" ["0123456789abcdef"] in
  ∃ raw, codec_Encode m "sid" = Ok raw ∧ codec_Decode m' raw = Ok "sid".
Proof.
  apply (signed_cookie_rotation (NewSignedManager "0123456789abcdef")
           (NewSignedManagerWithKeys "fedcba9876543210" ["0123456789abcdef"])).
  simpl. right. left.
Defined.

(** C17: a cookie value is accepted, as session id [id], exactly when it is
    [payload.tag] with [payload] (holding no dot) the base64 of [id] and [tag]
    the base64 of HMAC-SHA256 of [payload] under the primary or an older
    secret; every other value is ErrInvalidSignature. *)
Theorem signed_cookie_accepts (m : SignedManager) (raw : string) :
  (∀ id, codec_Decode m raw = Ok id ↔
    ∃ k payload sig64, k ∈ primary m :: older m ∧
      raw = payload +:+ "." +:+ sig64 ∧ no_byte "."%char payload ∧
      url_decode sig64 = Some (hmac_string k payload) ∧ url_decode payload = Some id) ∧
  ((∀ id, codec_Decode m raw ≠ Ok id) → codec_Decode m raw = Err ErrInvalidSignature).
Proof.
  split.
  - intros id. rewrite codec_Decode_iff. unfold tagged, signWith, signedSep. naive_solver.
  - intros Hno. destruct (codec_Decode m raw) as [id|e] eqn:E; [by destruct (Hno id)|].
    revert E. unfold codec_Decode, Decode, decodePayload.
    destruct (SplitN2 raw signedSep) as [|? [|? [|? ?]]]; try congruence.
    destruct (url_decode _) as [sig|]; [|congruence].
    destruct (String.eqb sig _).
    + destruct (url_decode _); congruence.
    + generalize (older m). intros olds. induction olds as [|k olds IH]; simpl; [congruence|].
      destruct (String.eqb sig _); [|done]. unfold decodePayload. destruct (url_decode _); congruence.
Qed.
