(* ===== verification/Handoff.v ===== *)
(** * One-time handoff tickets (internal/auth/handoff)

    [Issue] mints a signed, short-lived ticket; [Redeem] verifies signature and
    expiry, then consumes the ticket's id in a one-time store.  The clock and
    the store are external calls: the interfaces [ClockE] (Effects.v) and [OnceStore] are
    what [Redeem] needs of its environment ([OnceStore] is the Go interface of
    that name; [internal/redis] implements it).

    The theorems: an issued ticket is redeemed to exactly what was issued,
    until its last second; a redemption succeeds only after signature, expiry
    and first use were checked in that order; and, whatever the interleaving of
    concurrent redemptions, before the ticket's deadline at most one succeeds. *)

From S2P Require Import Prelude.
From S2P Require Import GoStrings.
From S2P Require Import Utf8Facts.
From S2P Require Import Effects.
From S2P Require Import GoTime.
From S2P Require Import Base64.
From S2P Require Import Sha256.
From S2P Require Import GoAny.
From S2P Require Import Json.
From S2P Require Import JsonFacts.

(** ** Interfaces *)
Class OnceStore (E : Type → Type) := ConsumeOnce : string → Z → E (res bool).

(** ** Data *)
Definition DefaultTTL : Z := 120 * Second.

Record Ticket := {
  t_ConnectorID : string; t_AuthoritativeID : string; t_SessionRef : string;
  t_IssuedAt : Z; t_ExpiresAt : Z; t_JTI : string }.
#[global] Instance Ticket_eq_dec : EqDecision Ticket.
Proof. solve_decision. Defined.

(** [is_once]: whether the one-time store is configured (not nil). *)
Record Issuer := { is_secret : string; is_ttl : Z; is_once : bool }.

Definition NewIssuer (secret : string) (ttl : Z) (once : bool) : Issuer :=
  {| is_secret := secret; is_ttl := if ttl <=? 0 then DefaultTTL else ttl; is_once := once |}.

(** The JSON of a ticket: the struct's fields under their tags, in order. *)
Definition ticket_json (t : Ticket) : json :=
  JObj [("c", JStr (t_ConnectorID t)); ("a", JStr (t_AuthoritativeID t));
        ("s", JStr (t_SessionRef t)); ("iat", JNum (Itoa (t_IssuedAt t)));
        ("exp", JNum (Itoa (t_ExpiresAt t))); ("jti", JStr (t_JTI t))].

Definition ticket_fields : list string := ["c"; "a"; "s"; "iat"; "exp"; "jti"].

Definition zero_ticket : Ticket :=
  {| t_ConnectorID := ""; t_AuthoritativeID := ""; t_SessionRef := "";
     t_IssuedAt := 0; t_ExpiresAt := 0; t_JTI := "" |}.

(** [json.Unmarshal(raw, &t)]: [None] when it returns an error. *)
Definition ticket_of_json `{Unicode} (raw : string) : option Ticket :=
  match parse raw with
  | Some (JObj m) =>
      let '(c, ok1) := dec_string (bound ticket_fields "c" m) in
      let '(a, ok2) := dec_string (bound ticket_fields "a" m) in
      let '(s, ok3) := dec_string (bound ticket_fields "s" m) in
      let '(iat, ok4) := dec_int (bound ticket_fields "iat" m) in
      let '(exp, ok5) := dec_int (bound ticket_fields "exp" m) in
      let '(jti, ok6) := dec_string (bound ticket_fields "jti" m) in
      if ok1 && ok2 && ok3 && ok4 && ok5 && ok6 then
        Some {| t_ConnectorID := c; t_AuthoritativeID := a; t_SessionRef := s;
                t_IssuedAt := iat; t_ExpiresAt := exp; t_JTI := jti |}
      else None
  | Some JNull => Some zero_ticket
  | _ => None
  end.

Definition sign (i : Issuer) (data : string) : string := hmac_string (is_secret i) data.

(** The value carrying a ticket: its encoded JSON and the signature over it. *)
Definition seal (i : Issuer) (t : Ticket) : string :=
  let payload := url_encode (print (ticket_json t)) in
  let sig := sign i payload in
  payload +:+ "." +:+ url_encode sig.
Arguments seal : simpl never.

(** ** Operations *)
Section handoff.
Context `{Unicode} {E : Type → Type} `{!ClockE E} `{!OnceStore E}.

Definition Issue (i : Issuer) (connectorID authID sessionRef jti : string)
    : prog E (res string) :=
  if String.eqb sessionRef "" || String.eqb jti "" then
    Ret (Err "handoff: session ref and jti are required")
  else
    now <- call Now ;;
    let t := {| t_ConnectorID := connectorID; t_AuthoritativeID := authID;
                t_SessionRef := sessionRef; t_IssuedAt := Unix now;
                t_ExpiresAt := Unix (now + is_ttl i); t_JTI := jti |} in
    Ret (Ok (seal i t)).

Definition verify (i : Issuer) (ticket : string) : prog E (res Ticket) :=
  match SplitN2 ticket "." with
  | [payload; sigB64] =>
      match url_decode sigB64 with
      | None => Ret (Err "handoff: bad signature encoding")
      | Some sig =>
          if negb (String.eqb sig (sign i payload)) then
            Ret (Err "handoff: invalid signature")
          else
            match url_decode payload with
            | None => Ret (Err "handoff: bad payload encoding")
            | Some raw =>
                match ticket_of_json raw with
                | None => Ret (Err "handoff: bad payload")
                | Some t =>
                    now <- call Now ;;
                    if t_ExpiresAt t <? Unix now then Ret (Err "handoff: ticket expired")
                    else Ret (Ok t)
                end
            end
      end
  | _ => Ret (Err "handoff: malformed ticket")
  end.

(** How long the store must remember the ticket's id. *)
Definition once_ttl (t : Ticket) (now : Z) : Z :=
  let ttl := DurAdd (TimeSub (TimeUnix (t_ExpiresAt t)) now) Second in
  if ttl <=? 0 then Second else ttl.

Definition once_key (t : Ticket) : string := "handoff:" +:+ t_JTI t.

(** [Redeem] after [verify]. *)
Definition consume (i : Issuer) (t : Ticket) : prog E (res Ticket) :=
  if negb (is_once i) then Ret (Err "handoff: one-time store not configured")
  else
    now <- call Now ;;
    first <- call (ConsumeOnce (once_key t) (once_ttl t now)) ;;
    Ret (match first with
         | Err e => Err ("handoff: replay check failed: " +:+ e)
         | Ok false => Err "handoff: ticket already redeemed"
         | Ok true => Ok t
         end).

Definition Redeem (i : Issuer) (ticket : string) : prog E (res Ticket) :=
  r <- verify i ticket ;;
  match r with
  | Err e => Ret (Err e)
  | Ok t => consume i t
  end.

(** ** Lemmas *)

(** A ticket value that carries a valid signature over the ticket [t]. *)
Definition opens (i : Issuer) (ticket : string) (t : Ticket) : Prop :=
  ∃ payload sig64 raw,
    ticket = payload +:+ "." +:+ sig64 ∧ no_byte "."%char payload ∧
    url_decode sig64 = Some (sign i payload) ∧
    url_decode payload = Some raw ∧ ticket_of_json raw = Some t.

Lemma verify_cases i ticket :
  (∃ t, opens i ticket t ∧
        verify i ticket = (now <- call Now ;;
          if t_ExpiresAt t <? Unix now then Ret (Err "handoff: ticket expired") else Ret (Ok t))) ∨
  ((∀ t, ¬ opens i ticket t) ∧ ∃ e, verify i ticket = Ret (Err e)).
Proof.
  unfold verify.
  destruct (SplitN2 ticket ".") as [|p [|s64 [|? ?]]] eqn:Ec;
    try (right; split; [|by eauto]; intros t (p' & s' & raw & -> & Hd & _);
         by rewrite (proj2 (SplitN2_pair _ "."%char p' s')) in Ec).
  apply (SplitN2_pair _ "."%char) in Ec as [-> Hd].
  assert (∀ t, opens i (p +:+ "." +:+ s64) t →
    url_decode s64 = Some (sign i p) ∧ ∃ raw, url_decode p = Some raw ∧ ticket_of_json raw = Some t)
    as Hopen.
  { intros t (p' & s' & raw & Heq & Hd' & Hs & Hp & Ht).
    assert (SplitN2 (p +:+ "." +:+ s64) "." = [p'; s']) as E1.
    { rewrite Heq. by apply (SplitN2_pair _ "."%char). }
    rewrite (proj2 (SplitN2_pair _ "."%char p s64)) in E1 by done. simplify_eq. eauto. }
  destruct (url_decode s64) as [sig|] eqn:Es.
  2: { right. split; [|by eauto]. intros t (Hs & _)%Hopen. done. }
  destruct (String.eqb_spec sig (sign i p)) as [->|Hne]; simpl.
  2: { right. split; [|by eauto]. intros t (Hs & _)%Hopen. congruence. }
  destruct (url_decode p) as [raw|] eqn:Ep.
  2: { right. split; [|by eauto]. intros t (_ & raw & Hp & _)%Hopen. congruence. }
  destruct (ticket_of_json raw) as [t|] eqn:Et.
  2: { right. split; [|by eauto]. intros t (_ & raw' & Hp & Ht)%Hopen. congruence. }
  left. exists t. split; [|done]. unfold opens. exists p, s64, raw. done.
Qed.

Lemma opens_inj i ticket t t' : opens i ticket t → opens i ticket t' → t = t'.
Proof.
  intros (p & s & raw & -> & Hd & _ & Hp & Ht) (p' & s' & raw' & Heq & Hd' & _ & Hp' & Ht').
  pose proof (proj2 (SplitN2_pair _ "."%char p s) (conj eq_refl Hd)) as E1.
  pose proof (proj2 (SplitN2_pair _ "."%char p' s') (conj Heq Hd')) as E2.
  change (str ".") with "." in *. rewrite E1 in E2. injection E2 as <- <-. congruence.
Qed.

Lemma verify_opens i ticket t :
  opens i ticket t →
  verify i ticket = (now <- call Now ;;
    if t_ExpiresAt t <? Unix now then Ret (Err "handoff: ticket expired") else Ret (Ok t)).
Proof.
  intros Ho. destruct (verify_cases i ticket) as [(t' & Ho' & Ev1)|[Hno _]]; [|by destruct (Hno t)].
  by rewrite (opens_inj _ _ _ _ Ho Ho').
Qed.

Lemma verify_exec i ticket tr t :
  exec (verify i ticket) tr (Ok t) ↔
  opens i ticket t ∧ ∃ now, tr = [Ev Now now] ∧ Unix now ≤ t_ExpiresAt t.
Proof.
  split.
  - destruct (verify_cases i ticket) as [(t' & Ho & ->)|[_ [e ->]]]; [|by intros [_ [=]]].
    intros (now & tr' & -> & Hx). simpl in Hx.
    destruct (t_ExpiresAt t' <? Unix now) eqn:Ec; destruct Hx as [-> [= ->]].
    bool_prop. eauto.
  - intros [Ho (now & -> & Hle)]. rewrite (verify_opens _ _ _ Ho). simpl.
    exists now, []. split; [done|]. rewrite (proj2 (Z.ltb_ge _ _)) by done. done.
Qed.

Lemma once_ttl_pos t now : 0 < once_ttl t now.
Proof. unfold once_ttl. destruct (_ <=? 0) eqn:Ec; bool_prop; lia. Qed.

Lemma bound_ticket a b c d e f (m := [("c", a); ("a", b); ("s", c); ("iat", d); ("exp", e); ("jti", f)]) :
  bound ticket_fields "c" m = [a] ∧ bound ticket_fields "a" m = [b] ∧
  bound ticket_fields "s" m = [c] ∧ bound ticket_fields "iat" m = [d] ∧
  bound ticket_fields "exp" m = [e] ∧ bound ticket_fields "jti" m = [f].
Proof. repeat split. Qed.

(** Tickets whose texts are UTF-8 and whose instants are int64 seconds. *)
Definition plain_ticket (t : Ticket) : Prop :=
  utf8_str (t_ConnectorID t) ∧ utf8_str (t_AuthoritativeID t) ∧
  utf8_str (t_SessionRef t) ∧ utf8_str (t_JTI t) ∧
  int64_range (t_IssuedAt t) ∧ int64_range (t_ExpiresAt t).

Lemma ticket_json_ok t : plain_ticket t → json_ok (ticket_json t).
Proof.
  intros (?&?&?&?&?&?). apply json_ok_obj. unfold ticket_json.
  repeat (apply List.Forall_cons; [split; [by repeat constructor|]; simpl;
    solve [done | apply num_ok_Itoa]|]). apply List.Forall_nil.
Qed.

Lemma dec_string_one s : dec_string [JStr s] = (s, true).
Proof. done. Qed.
Lemma dec_int_one z : int64_range z → dec_int [JNum (Itoa z)] = (z, true).
Proof. intros. unfold dec_int, dec_field. simpl. by rewrite int_of_lit_Itoa. Qed.

Lemma ticket_round t : plain_ticket t → ticket_of_json (print (ticket_json t)) = Some t.
Proof.
  intros Hp. unfold ticket_of_json. rewrite parse_print by by apply ticket_json_ok.
  destruct Hp as (_&_&_&_&Hi&He). unfold ticket_json.
  destruct (bound_ticket (JStr (t_ConnectorID t)) (JStr (t_AuthoritativeID t))
    (JStr (t_SessionRef t)) (JNum (Itoa (t_IssuedAt t))) (JNum (Itoa (t_ExpiresAt t)))
    (JStr (t_JTI t))) as (->&->&->&->&->&->).
  rewrite !dec_string_one, !dec_int_one by done. by destruct t.
Qed.

(** The ticket [Issue] mints at [now]. *)
Definition minted (i : Issuer) (c a s j : string) (now : Z) : Ticket :=
  {| t_ConnectorID := c; t_AuthoritativeID := a; t_SessionRef := s;
     t_IssuedAt := Unix now; t_ExpiresAt := Unix (now + is_ttl i); t_JTI := j |}.

Lemma seal_opens i t : plain_ticket t → opens i (seal i t) t.
Proof.
  intros Hp. unfold opens. eexists _, _, _. split; [unfold seal; reflexivity|].
  split; [apply EncodeToString_no_dot|].
  split; [apply DecodeString_EncodeToString|].
  split; [apply DecodeString_EncodeToString|]. by apply ticket_round.
Qed.

Lemma Issue_opens i c a s j tr tick :
  exec (Issue i c a s j) tr (Ok tick) →
  ∃ now, tr = [Ev Now now] ∧
    (plain_ticket (minted i c a s j now) → opens i tick (minted i c a s j now)).
Proof.
  unfold Issue. destruct (_ || _); [by intros [_ [=]]|].
  intros (now & tr' & -> & [-> [= <-]]).
  exists now. split; [done|]. apply seal_opens.
Qed.

(** ** Theorems *)

(** What [Issue] mints, [Redeem] gives back, up to the last second of its
    life: at any later clock readings [t1 <= t2] with [t1] still in the expiry
    second, one first-use answer of the store for the ticket's id, asked for
    after the expiry check, returns exactly the issued ticket; past that second
    it is refused as expired without touching the store. *)
Theorem handoff_issue_redeem i c a s j tr tick (Honce : is_once i = true)
    (Hi : exec (Issue i c a s j) tr (Ok tick)) :
  ∃ now, tr = [Ev Now now] ∧ (plain_ticket (minted i c a s j now) →
    let t := minted i c a s j now in
    (∀ t1 t2, Unix t1 ≤ Unix (now + is_ttl i) →
       exec (Redeem i tick)
         [Ev Now t1; Ev Now t2; Ev (ConsumeOnce ("handoff:" +:+ j) (once_ttl t t2)) (Ok true)]
         (Ok t)) ∧
    (∀ t1, Unix (now + is_ttl i) < Unix t1 →
       exec (Redeem i tick) [Ev Now t1] (Err "handoff: ticket expired"))).
Proof.
  destruct (Issue_opens _ _ _ _ _ _ _ Hi) as (now & -> & Ho). exists now. split; [done|].
  intros Hp t. specialize (Ho Hp). unfold Redeem. rewrite (verify_opens _ _ _ Ho). split.
  - intros t1 t2 Hle. simpl. exists t1. eexists. split; [done|].
    rewrite (proj2 (Z.ltb_ge _ _)) by done. unfold consume. rewrite Honce. simpl.
    eexists _, _. split; [done|]. eexists _, _. split; [done|]. done.
  - intros t1 Hlt. simpl. exists t1. eexists. split; [done|].
    by rewrite (proj2 (Z.ltb_lt _ _)).
Qed.

(** A redemption succeeds only through all its checks, in order: the value
    carries a signature over the ticket, the clock read after that is within
    its expiry second, a store is configured, and the store then answered
    first use for the ticket's id, remembered for a positive time. *)
Theorem handoff_redeem_sound i ticket tr t :
  exec (Redeem i ticket) tr (Ok t) ↔
  opens i ticket t ∧ is_once i = true ∧
  ∃ t1 t2, Unix t1 ≤ t_ExpiresAt t ∧
    tr = [Ev Now t1; Ev Now t2;
          Ev (ConsumeOnce ("handoff:" +:+ t_JTI t) (once_ttl t t2)) (Ok true)].
Proof.
  unfold Redeem. rewrite exec_bind. split.
  - intros (r & tr1 & tr2 & -> & H1 & H2). destruct r as [t'|e]; [|by destruct H2].
    apply verify_exec in H1 as (Ho & t1 & -> & Hle). unfold consume in H2.
    destruct (is_once i); simpl in H2; [|by destruct H2].
    destruct H2 as (t2 & ? & -> & [[]|e] & ? & -> & -> & [= ->]). split; [done|]. split; [done|].
    exists t1, t2. done.
  - intros (Ho & Honce & t1 & t2 & Hle & ->). exists (Ok t), [Ev Now t1]. eexists.
    split; [reflexivity|]. split; [apply verify_exec; eauto|].
    unfold consume. rewrite Honce. simpl.
    eexists _, _. split; [done|]. eexists _, _. split; [done|]. done.
Qed.
End handoff.

(** ** Concurrent redemptions

    Requests redeeming one ticket share the clock and the store.  Time may
    pass at any call.  The store remembers a consumed key for its ttl (as the
    comment of [OnceStore] promises) and may fail, with or without having
    stored the key. *)
Inductive handoffE : Type → Type :=
| HNow : handoffE Z
| HOnce (key : string) (ttl : Z) : handoffE (res bool).
#[global] Instance handoffE_clock : ClockE handoffE := HNow.
#[global] Instance handoffE_once : OnceStore handoffE := HOnce.

(** [used]: the consumed keys and the instant each is forgotten. *)
Record once_world := { w_clock : Z; w_used : gmap string Z }.

Definition free_at (w : once_world) (k : string) (now : Z) : Prop :=
  match w_used w !! k with Some e => e ≤ now | None => True end.

Definition handoff_answers (X : Type) (e : handoffE X) : once_world → X → once_world → Prop :=
  match e with
  | HNow => λ w x w', w_clock w ≤ x ∧ w' = {| w_clock := x; w_used := w_used w |}
  | HOnce k ttl => λ w x w', ∃ now, w_clock w ≤ now ∧
      let kept := {| w_clock := now; w_used := w_used w |} in
      let stored := {| w_clock := now; w_used := <[k := now + ttl]> (w_used w) |} in
      match x with
      | Ok true => free_at w k now ∧ w' = stored
      | Ok false => ¬ free_at w k now ∧ w' = kept
      | Err _ => w' = kept ∨ (free_at w k now ∧ w' = stored)
      end
  end.

Section once.
Context `{Unicode} (i : Issuer) (ticket : string) (t : Ticket).
Context (Ho : opens i ticket t).
Notation request := (prog handoffE (res Ticket)).

(** The first instant past the ticket's life. *)
Definition deadline : Z := (t_ExpiresAt t + 1) * Second.

(** The states a redemption of the ticket goes through. *)
Definition asking (ttl : Z) : request :=
  first <- call (HOnce (once_key t) ttl) ;;
  Ret (match first with
       | Err e => Err ("handoff: replay check failed: " +:+ e)
       | Ok false => Err "handoff: ticket already redeemed"
       | Ok true => Ok t
       end).
Inductive phase (start clock : Z) : request → Prop :=
| phase_start : phase start clock (Redeem i ticket)
| phase_verified : phase start clock (consume i t)
| phase_asking now : start ≤ now ≤ clock → phase start clock (asking (once_ttl t now))
| phase_failed e : phase start clock (Ret (Err e))
| phase_won : phase start clock (Ret (Ok t)).

Definition won (p : request) : Prop := ∃ x, p = Ret (Ok x).

Definition once_inv (start : Z) (w : once_world) (ps : list request) : Prop :=
  start ≤ w_clock w ∧ Forall (phase start (w_clock w)) ps ∧
  (∀ a b p q, ps !! a = Some p → ps !! b = Some q → won p → won q → a = b) ∧
  (∀ p, p ∈ ps → won p → ∃ e, w_used w !! once_key t = Some e ∧ deadline ≤ e).

Lemma phase_mono start c c' p : c ≤ c' → phase start c p → phase start c' p.
Proof. intros ? []; econstructor. lia. Qed.

Lemma once_ttl_covers start now :
  start ≤ now < deadline → 0 ≤ start → deadline - start < 2 ^ 63 → t_ExpiresAt t < 2 ^ 62 →
  deadline ≤ now + once_ttl t now.
Proof.
  unfold deadline, once_ttl, DurAdd. intros. rewrite TimeUnix_in by (unfold unix_to_internal; lia).
  rewrite TimeSub_in by lia. rewrite wrap64_id by (unfold int64_range; lia).
  rewrite (proj2 (Z.leb_gt _ _)) by lia. lia.
Qed.

(** One served call keeps a redemption in its phases; it wins only on a first
    use, and the store then remembers the key past the deadline. *)
Lemma phase_step start w p p' w' :
  start ≤ w_clock w → 0 ≤ start → deadline - start < 2 ^ 63 → t_ExpiresAt t < 2 ^ 62 →
  w_clock w' < deadline →
  phase start (w_clock w) p → served handoff_answers p w p' w' →
  w_clock w ≤ w_clock w' ∧ phase start (w_clock w') p' ∧ ¬ won p ∧
  (won p' → free_at w (once_key t) (w_clock w')) ∧
  (won p' → ∃ e, w_used w' !! once_key t = Some e ∧ deadline ≤ e) ∧
  (∀ e, w_used w !! once_key t = Some e → deadline ≤ e → w_used w' !! once_key t = Some e).
Proof.
  intros Hs H0 Hd Hx Hc Hp Hstep.
  assert (∀ q : request, (∀ x, q ≠ Ret (Ok x)) → ¬ won q) as Hnw by (intros q Hq [x ->]; by destruct (Hq x)).
  destruct Hp as [| |now Hnow|e|]; [..|done|done].
  - unfold Redeem in Hstep. rewrite (verify_opens _ _ _ Ho) in Hstep.
    destruct Hstep as (x & [Hle ->] & ->). simpl in *.
    assert (¬ won (Redeem i ticket)) as Hn.
    { unfold Redeem. rewrite (verify_opens _ _ _ Ho). intros [? [=]]. }
    destruct (t_ExpiresAt t <? Unix x); simpl.
    + split_and!; try done; try (by constructor); try (intros [? [=]]).
    + split_and!; try done; try (by constructor);
        try (unfold consume; destruct (is_once i); simpl; intros [? [=]]).
  - unfold consume in Hstep |- *. destruct (is_once i); simpl in Hstep; [|done].
    destruct Hstep as (x & [Hle ->] & ->). simpl in *.
    split_and!; try done; try (intros [? [=]]).
    change (phase start x (asking (once_ttl t x))). constructor. lia.
  - destruct Hstep as (x & (now' & Hle & Hx') & ->). simpl in Hx'.
    destruct x as [[]|e].
    + destruct Hx' as [Hfree ->]. simpl in *.
      split_and!; try done; [constructor|intros [? [=]]| |].
      * intros _. exists (now' + once_ttl t now). rewrite lookup_insert, decide_True by done.
        split; [done|]. pose proof (once_ttl_covers start now). lia.
      * intros e He Hde. unfold free_at in Hfree. rewrite He in Hfree. lia.
    + destruct Hx' as [_ ->]. simpl in *.
      split_and!; try done; [constructor|intros [? [=]]..].
    + destruct Hx' as [->|[Hfree ->]]; simpl in *;
        (split_and!; try done; [constructor|intros [? [=]]..|]); try (intros [? [=]]).
      intros e' He Hde. unfold free_at in Hfree. rewrite He in Hfree. lia.
Qed.

Lemma once_inv_step start w ps w' ps' :
  0 ≤ start → deadline - start < 2 ^ 63 → t_ExpiresAt t < 2 ^ 62 →
  pstep handoff_answers (w, ps) (w', ps') → w_clock w' < deadline →
  once_inv start w ps → once_inv start w' ps'.
Proof.
  intros H0 Hd Hx Hstep Hc (Hs & Hph & Huniq & Hused). inversion Hstep as [? ? ? a p p' Hp Hsv]; simplify_eq.
  destruct (phase_step start w p p' w') as (Hle & Hp' & Hnp & Hfree & Hwon & Hkeep);
    [done..|by eapply Forall_lookup_1|done|].
  assert (a < length ps)%nat as Hlen by by eapply lookup_lt_Some.
  assert (won p' → ∀ b q, ps !! b = Some q → ¬ won q) as Hfirst.
  { intros Hw b q Hb Hq. destruct (Hused q) as (e & He & Hde); [by eapply list_elem_of_lookup_2|done|].
    specialize (Hfree Hw). unfold free_at in Hfree. rewrite He in Hfree. lia. }
  split_and!.
  - lia.
  - apply Forall_insert; [|done]. eapply Forall_impl; [exact Hph|]. intros. by eapply phase_mono.
  - intros b c q r Hb Hc' Hq Hr. apply list_lookup_insert_Some in Hb, Hc'.
    destruct Hb as [(<- & <- & _)|[? Hb]], Hc' as [(<- & <- & _)|[? Hc']];
      [done|by destruct (Hfirst Hq c r)|by destruct (Hfirst Hr b q)|by eapply Huniq].
  - intros q Hq Hw. apply list_elem_of_lookup in Hq as [b Hb].
    apply list_lookup_insert_Some in Hb as [(-> & -> & _)|[_ Hb]]; [auto|].
    destruct (Hused q) as (e & He & Hde); [by eapply list_elem_of_lookup_2|done|]. eauto.
Qed.

Lemma clock_mono w (ps : list request) w' ps' :
  rtc (pstep handoff_answers) (w, ps) (w', ps') → w_clock w ≤ w_clock w'.
Proof.
  intros Hr. remember (w, ps) as x eqn:Ex. remember (w', ps') as y eqn:Ey.
  revert w ps Ex. induction Hr as [|x [w1 ps1] y Hstep _ IH]; intros w ps ->; [by simplify_eq|].
  specialize (IH Ey w1 ps1 eq_refl). inversion Hstep as [? ? ? a p p' Hp Hsv]; simplify_eq.
  enough (w_clock w ≤ w_clock w1) by lia. destruct p as [|X e k]; [done|].
  destruct Hsv as (ans & Hans & _). clear - Hans. destruct e; simpl in Hans.
  - destruct Hans as [? ->]. done.
  - destruct Hans as (now & ? & Hans). destruct ans as [[]|].
    + by destruct Hans as [_ ->].
    + by destruct Hans as [_ ->].
    + by destruct Hans as [->|[_ ->]].
Qed.

Lemma once_inv_reach start w ps w' ps' :
  0 ≤ start → deadline - start < 2 ^ 63 → t_ExpiresAt t < 2 ^ 62 →
  preach handoff_answers (w, ps) (w', ps') → w_clock w' < deadline →
  once_inv start w ps → once_inv start w' ps'.
Proof.
  intros H0 Hd Hx Hr. unfold preach in Hr.
  remember (w, ps) as x eqn:Ex. remember (w', ps') as y eqn:Ey.
  revert w ps Ex. induction Hr as [|x [w1 ps1] y Hstep Hr IH]; intros w ps -> Hc Hinv; [by simplify_eq|].
  subst y. pose proof (clock_mono _ _ _ _ Hr).
  eapply IH; [done..|]. eapply once_inv_step; [..|done]; try done. lia.
Qed.

(** C14: whatever the interleaving of any number of concurrent redemptions of
    one ticket, and whatever failures the store reports, as long as the clock
    has not passed the ticket's deadline (the end of its expiry second) at
    most one of them has succeeded. *)
Theorem handoff_at_most_once n w0 w ps
    (Hstart : 0 ≤ w_clock w0) (Hlife : deadline - w_clock w0 < 2 ^ 63)
    (Hexp : t_ExpiresAt t < 2 ^ 62)
    (Hreach : preach handoff_answers (w0, replicate n (Redeem i ticket)) (w, ps))
    (Hclock : w_clock w < deadline) a b p q :
  ps !! a = Some p → ps !! b = Some q → won p → won q → a = b.
Proof.
  assert (∀ r, r ∈ replicate n (Redeem i ticket : request) → ¬ won r) as Hno.
  { intros r [-> _]%elem_of_replicate. unfold Redeem. rewrite (verify_opens _ _ _ Ho).
    intros [? [=]]. }
  destruct (once_inv_reach (w_clock w0) w0 (replicate n (Redeem i ticket)) w ps)
    as (_ & _ & Huniq & _); try done; [|by apply Huniq].
  split; [lia|]. split; [apply Forall_replicate; constructor|]. split.
  - intros ? ? r ? Hr _ Hw. by destruct (Hno r); [eapply list_elem_of_lookup_2|].
  - intros r Hr Hw. by destruct (Hno r).
Qed.

(** Past the deadline the guarantee is gone: a redemption that verified the
    ticket in time, but reaches the store once the store has forgotten the key,
    succeeds a second time. *)
Theorem handoff_late_replay start
    (Honce : is_once i = true) (Hin : Unix start ≤ t_ExpiresAt t) :
  ∃ w, preach handoff_answers
    ({| w_clock := start; w_used := ∅ |}, [Redeem i ticket; Redeem i ticket])
    (w, [Ret (Ok t); Ret (Ok t)]).
Proof.
  eexists. unfold preach, Redeem. rewrite (verify_opens _ _ _ Ho).
  pose (w0 := {| w_clock := start; w_used := ∅ : gmap string Z |}).
  assert (t_ExpiresAt t <? Unix start = false) as Hfresh by (apply Z.ltb_ge; lia).
  pose proof (once_ttl_pos t start) as Httl.
  eapply rtc_l. { by eapply (pstep_vis _ w0 w0 _ _ 0 Z HNow _ start). }
  eapply rtc_l. { by eapply (pstep_vis _ w0 w0 _ _ 1 Z HNow _ start). }
  simpl. rewrite Hfresh. unfold consume. rewrite Honce. simpl.
  eapply rtc_l. { by eapply (pstep_vis _ w0 w0 _ _ 0 Z HNow _ start). }
  eapply rtc_l. { by eapply (pstep_vis _ w0 w0 _ _ 1 Z HNow _ start). }
  simpl.
  eapply rtc_l.
  { eapply (pstep_vis _ w0 _ _ _ 0 _ (HOnce _ _) _ (Ok true)); [done| |reflexivity].
    exists start. simpl. split; [done|]. split; [done|reflexivity]. }
  eapply rtc_l; [|apply rtc_refl].
  eapply (pstep_vis _ _ _ _ _ 1 _ (HOnce _ _) _ (Ok true)); [done| |reflexivity].
  exists (start + once_ttl t start). simpl. split; [lia|]. split; [|reflexivity].
  unfold free_at. simpl. rewrite lookup_insert, decide_True by done. lia.
Qed.
End once.

(** ** Witnesses *)
Definition clock_answer (e : event handoffE) : Z :=
  match e with
  | Ev e x => match e in handoffE X return X → Z with HNow => λ x, x | HOnce _ _ => λ _, 0 end x
  end.
Definition demo_issuer : Issuer := NewIssuer "0123456789abcdef" 0 true.
Definition demo_ticket : Ticket := minted demo_issuer "web" "u1" "sid" "jti" (1000 * Second).

Lemma demo_plain : plain_ticket demo_ticket.
Proof. repeat split; repeat constructor; vm_compute; congruence. Qed.

Lemma handoff_issue_redeem_witness :
  let tick := seal demo_issuer demo_ticket in
  exec (Redeem (H := ascii_unicode) demo_issuer tick)
    [Ev HNow (1050 * Second); Ev HNow (1050 * Second);
     Ev (HOnce "handoff:jti" (71 * Second)) (Ok true)] (Ok demo_ticket).
Proof.
  pose proof (handoff_issue_redeem (H := ascii_unicode) (E := handoffE) demo_issuer
    "web" "u1" "sid" "jti" [Ev HNow (1000 * Second)] (seal demo_issuer demo_ticket) eq_refl) as T.
  assert (exec (Issue demo_issuer "web" "u1" "sid" "jti") [Ev HNow (1000 * Second)]
    (Ok (seal demo_issuer demo_ticket))) as Hi.
  { eexists _, _. split; [reflexivity|]. split; reflexivity. }
  destruct (T Hi) as (now & Hnow & HT).
  assert (now = 1000 * Second) as ->.
  { apply (f_equal (map clock_answer)) in Hnow. by injection Hnow. }
  destruct (HT demo_plain) as [Hok _].
  apply (Hok (1050 * Second) (1050 * Second)). vm_compute. congruence.
Defined.

Lemma handoff_at_most_once_witness :
  let tick := seal demo_issuer demo_ticket in
  let start := {| w_clock := 1050 * Second; w_used := ∅ |} in
  ∃ w ps, preach handoff_answers
      (start, replicate 2 (Redeem (H := ascii_unicode) demo_issuer tick)) (w, ps) ∧
    w_clock w < deadline demo_ticket ∧ ps !! 0%nat = Some (Ret (Ok demo_ticket)) ∧
    (∀ a b p q, ps !! a = Some p → ps !! b = Some q → won p → won q → a = b).
Proof.
  intros tick start.
  pose proof (seal_opens (H := ascii_unicode) demo_issuer demo_ticket demo_plain
    : opens demo_issuer tick demo_ticket) as Ho.
  clearbody tick.
  assert (∃ w, preach handoff_answers
    (start, replicate 2 (Redeem (H := ascii_unicode) demo_issuer tick))
    (w, [Ret (Ok demo_ticket); Redeem (H := ascii_unicode) demo_issuer tick]) ∧
    w_clock w = 1050 * Second) as (w & Hr & Hc).
  { eexists. unfold preach, Redeem. rewrite (verify_opens _ _ _ Ho). split.
    - eapply rtc_l. { by eapply (pstep_vis _ start start _ _ 0 Z HNow _ (1050 * Second)). }
      eapply rtc_l. { by eapply (pstep_vis _ start start _ _ 0 Z HNow _ (1050 * Second)). }
      eapply rtc_l; [|apply rtc_refl].
      eapply (pstep_vis _ start _ _ _ 0 _ (HOnce _ _) _ (Ok true)); [done| |reflexivity].
      exists (1050 * Second). simpl. split; [done|]. split; [done|reflexivity].
    - done. }
  eexists w, _. split; [exact Hr|]. split; [by rewrite Hc|]. split; [done|].
  eapply (handoff_at_most_once (H := ascii_unicode) demo_issuer tick demo_ticket Ho 2 start w _);
    try exact Hr; rewrite ?Hc; vm_compute; congruence.
Defined.

Lemma handoff_late_replay_witness :
  let tick := seal demo_issuer demo_ticket in
  let request := Redeem (H := ascii_unicode) (E := handoffE) demo_issuer tick in
  ∃ w, preach handoff_answers ({| w_clock := 1050 * Second; w_used := ∅ |}, [request; request])
    (w, [Ret (Ok demo_ticket); Ret (Ok demo_ticket)]).
Proof.
  intros tick request.
  apply (handoff_late_replay (H := ascii_unicode) demo_issuer tick demo_ticket
    (seal_opens (H := ascii_unicode) demo_issuer demo_ticket demo_plain) (1050 * Second) eq_refl).
  vm_compute. congruence.
Defined.
