(* ===== verification/SessionFacts.v ===== *)
(** * Sessions: expiry boundaries, key separation, storage round trips *)

From Stdlib Require Import Sorted.
From S2P Require Import Prelude.
From S2P Require Import GoStrings.
From S2P Require Import Utf8Facts.
From S2P Require Import GoTime.
From S2P Require Import GoAny.
From S2P Require Import Json.
From S2P Require Import JsonFacts.
From S2P Require Import FloatJson.
From S2P Require Import Session.

(** ** Claims survive storage

    What a claim is when its JSON is read back: numbers are [float64], lists
    are [[]any], and a map lists its keys in order. *)
Fixpoint as_read (v : any) : any :=
  match v with
  | AInt z => AFloat (f64_of_Z z)
  | AStrs l => AList (AStr <$> l)
  | AList l => AList (List.map as_read l)
  | AMap m => AMap (sort_members (List.map (λ kv, (kv.1, as_read kv.2)) m))
  | _ => v
  end.

(** Values that survive: null, booleans, UTF-8 texts, whole numbers a [float64]
    holds exactly (expiry times, numeric ids), and lists and maps of these. *)
Fixpoint plain_any (v : any) : Prop :=
  match v with
  | ANil | ABool _ => True
  | AInt z => exact_int z
  | AFloat f => ∃ n, exact_int n ∧ f = f64_of_Z n
  | ANumber _ => False
  | AStr s => utf8_str s
  | AStrs l => Forall utf8_str l
  | AList l => (fix go l := match l with [] => True | x :: l' => plain_any x ∧ go l' end) l
  | AMap m => NoDup m.*1 ∧
      (fix go m := match m with [] => True | (k, x) :: m' => utf8_str k ∧ plain_any x ∧ go m' end) m
  end.

Lemma plain_list l : plain_any (AList l) ↔ Forall plain_any l.
Proof. simpl. induction l as [|x l IH]; [by split|]. by rewrite Forall_cons, IH. Qed.
Lemma plain_map m : plain_any (AMap m) ↔ NoDup m.*1 ∧ Forall (λ kv, utf8_str kv.1 ∧ plain_any kv.2) m.
Proof.
  cbn [plain_any]. apply and_iff_compat_l. induction m as [|[k x] m IH]; [by split|].
  rewrite Forall_cons, <-IH. cbn [fst snd]. tauto.
Qed.

Definition stored_as (v : any) (j : json) : Prop :=
  json_of_any v = Some j ∧ json_ok j ∧ any_of_json j = Some (as_read v).

(** *** Lists *)
Lemma list_stored l js :
  Forall2 stored_as l js → stored_as (AList l) (JArr js).
Proof.
  intros H.
  enough ((fix go l := match l with
             | [] => Some []
             | x :: l' => match json_of_any x, go l' with Some j, Some js => Some (j :: js) | _, _ => None end
           end) l = Some js ∧ Forall json_ok js ∧
          (fix go l := match l with
             | [] => Some []
             | x :: l' => match any_of_json x, go l' with Some j, Some js => Some (j :: js) | _, _ => None end
           end) js = Some (List.map as_read l)) as (E1 & Hok & E2).
  { unfold stored_as. rewrite json_ok_arr. split_and!; [|done|].
    - cbn [json_of_any]. by rewrite E1.
    - cbn [any_of_json as_read]. by rewrite E2. }
  induction H as [|x j l js (Ej & Hj & Ej') _ (E1 & Hok & E2)]; [by split_and!|].
  rewrite Ej, E1, Ej', E2. split; [done|]. split; [by constructor|done].
Qed.

(** *** Maps *)
Lemma nodup_keys_id {A} seen (m : list (string * A)) :
  NoDup m.*1 → (∀ k, k ∈ seen → k ∉ m.*1) → nodup_keys seen m = m.
Proof.
  revert seen. induction m as [|[k x] m IH]; intros seen Hnd Hseen; [done|].
  apply NoDup_cons in Hnd as [Hk Hnd]. simpl in *.
  rewrite (proj2 (existsb_false_iff _ _)).
  - f_equal. apply IH; [done|]. intros k' [->|Hk']%elem_of_cons; [done|].
    specialize (Hseen k' Hk'). set_solver.
  - intros k' Hk'. apply String.eqb_neq. intros ->. specialize (Hseen k' Hk'). set_solver.
Qed.

Lemma insert_member_perm {A} k (v : A) m : insert_member k v m ≡ₚ (k, v) :: m.
Proof.
  induction m as [|[k' v'] m IH]; simpl; [done|].
  destruct (String.ltb k k'); [done|]. rewrite IH. by constructor.
Qed.

Lemma sort_members_perm {A} (m : list (string * A)) : sort_members m ≡ₚ m.
Proof.
  induction m as [|[k v] m IH]; [done|]. unfold sort_members in *. simpl.
  by rewrite insert_member_perm, IH.
Qed.

(** Members with the same keys, and values in some relation. *)
Definition members_rel {A B} (R : A → B → Prop) (m : list (string * A)) (n : list (string * B)) : Prop :=
  Forall2 (λ kv kw, kv.1 = kw.1 ∧ R kv.2 kw.2) m n.

Lemma members_rel_keys {A B} (R : A → B → Prop) m n : members_rel R m n → m.*1 = n.*1.
Proof. induction 1 as [|[k v] [k' j] m js [Hk _] _ IH]; [done|]. cbn in *. by f_equal. Qed.

Lemma sort_members_rel {A B} (R : A → B → Prop) m n : members_rel R m n → members_rel R (sort_members m) (sort_members n).
Proof.
  assert (Hi : ∀ k v w m n, R v w → members_rel R m n → members_rel R (insert_member k v m) (insert_member k w n)).
  { intros k v w m' n' Hvw Hmn. induction Hmn as [|[k1 v1] [k2 v2] m' n' [Hk Hv] Hmn IH]; [by repeat constructor|].
    simpl in *. subst k2. destruct (String.ltb k k1); constructor; try done. by constructor. }
  induction 1 as [|[k v] [k' w] m n [Hk Hv] _ IH]; [constructor|]. simpl in *. subst k'. by apply Hi.
Qed.

Lemma members_encode m js :
  members_rel (λ v j, json_of_any v = Some j) m js → NoDup m.*1 →
  json_of_any (AMap m) = Some (JObj (sort_members js)).
Proof.
  intros H Hnd. cbn [json_of_any].
  enough ((fix go m := match m with
             | [] => Some []
             | (k, x) :: m' => match json_of_any x, go m' with
                               | Some j, Some js => Some ((k, j) :: js) | _, _ => None end
             end) m = Some js) as ->.
  { rewrite (members_rel_keys _ _ _ H) in Hnd. simpl. by rewrite nodup_keys_id by (done || set_solver). }
  clear Hnd. induction H as [|[k v] [k' j] m js [Hk E] _ IH]; [done|]. simpl in *. subst k'.
  by rewrite E, IH.
Qed.

Lemma members_decode m js :
  members_rel (λ v j, any_of_json j = Some v) m js → NoDup m.*1 → any_of_json (JObj js) = Some (AMap m).
Proof.
  intros H Hnd. cbn [any_of_json].
  enough ((fix go m := match m with
             | [] => Some []
             | (k, x) :: m' => match any_of_json x, go m' with
                               | Some v, Some vs =>
                                   Some (match assoc k vs with Some _ => vs | None => (k, v) :: vs end)
                               | _, _ => None end
             end) js = Some m) as -> by done.
  induction H as [|[k v] [k' j] m js [Hk E] _ IH]; [done|]. simpl in *. subst k'.
  apply NoDup_cons in Hnd as [Hk Hnd]. rewrite E, (IH Hnd).
  enough (assoc k m = None) as -> by done.
  clear - Hk. induction m as [|[k' v'] m IH]; [done|]. simpl in *.
  destruct (String.eqb_spec k k'); set_solver.
Qed.

Definition read_members (m : list (string * any)) : list (string * any) :=
  List.map (λ kv, (kv.1, as_read kv.2)) m.
Lemma read_members_keys m : (read_members m).*1 = m.*1.
Proof. induction m as [|[k v] m IH]; simpl; [done|]. by f_equal. Qed.

Lemma map_stored m js :
  members_rel stored_as m js → NoDup m.*1 → Forall utf8_str m.*1 →
  json_of_any (AMap m) = Some (JObj (sort_members js)) ∧ json_ok (JObj (sort_members js)) ∧
  any_of_json (JObj (sort_members js)) = Some (AMap (sort_members (read_members m))).
Proof.
  intros H Hnd Ha. split_and!.
  - apply members_encode; [|done]. eapply Forall2_impl; [exact H|]. by intros [] [] [? (?&?&?)].
  - apply json_ok_obj. rewrite sort_members_perm. clear Hnd.
    induction H as [|[k v] [k' j] m js [Hk (_ & Hj & _)] _ IH]; [constructor|]. simpl in *. subst k'.
    apply Forall_cons in Ha as [??]. constructor; auto.
  - apply members_decode; [|by rewrite sort_members_perm, read_members_keys].
    apply sort_members_rel. clear Hnd Ha.
    induction H as [|[k v] [k' j] m js [Hk (_ & _ & E)] _ IH]; [constructor|]. simpl in *. by constructor.
Qed.

Lemma plain_members (P : any → Prop) m :
  Forall (λ kv, P kv.2 → ∃ j, stored_as kv.2 j) m → Forall (λ kv, utf8_str kv.1 ∧ P kv.2) m →
  Forall utf8_str m.*1 ∧ ∃ js, members_rel stored_as m js.
Proof.
  intros IH Hp. induction m as [|[k x] m IHm]; [split; [constructor|by exists []; constructor]|].
  apply Forall_cons in IH as [Hx IH]. apply Forall_cons in Hp as [[Hk Hpx] Hp].
  destruct (IHm IH Hp) as (Ha & js & Hjs). destruct (Hx Hpx) as [j Hj].
  split; [by constructor|]. exists ((k, j) :: js). by constructor.
Qed.

Lemma plain_any_stored v : plain_any v → ∃ j, stored_as v j.
Proof.
  induction v as [|b|z|f|l|s|l|l IH|m IH] using any_strong_ind; intros Hp.
  - by exists JNull.
  - by exists (JBool b).
  - exists (JNum (Itoa z)). split_and!; [done|apply num_ok_Itoa|]. cbn [any_of_json as_read]. by rewrite f64_of_Itoa.
  - destruct Hp as (n & Hn & ->). exists (JNum (Itoa n)). split_and!; [|apply num_ok_Itoa|].
    + cbn [json_of_any]. by rewrite lit_of_exact.
    + cbn [any_of_json as_read]. by rewrite f64_of_Itoa.
  - done.
  - by exists (JStr s).
  - cbn [plain_any] in Hp. destruct (list_stored (AStr <$> l) (JStr <$> l)) as (E1 & Hok & E2).
    { induction Hp; constructor; done. }
    exists (JArr (JStr <$> l)). split_and!; [done|done|]. rewrite E2. cbn [as_read]. do 2 f_equal.
    clear. induction l as [|x l IHl]; [done|]. cbn. f_equal. exact IHl.
  - apply plain_list in Hp. enough (∃ js, Forall2 stored_as l js) as (js & Hjs) by (exists (JArr js); by apply list_stored).
    induction l as [|x l IHl]; [by exists []|].
    apply Forall_cons in IH as [Hx IH]. apply Forall_cons in Hp as [Hpx Hpl].
    destruct (IHl IH Hpl) as (js & Hjs). destruct (Hx Hpx) as (j & Hj). exists (j :: js). by constructor.
  - apply plain_map in Hp as [Hnd Hp]. destruct (plain_members plain_any m IH Hp) as (Ha & js & Hjs).
    exists (JObj (sort_members js)). destruct (map_stored m js Hjs Hnd Ha) as (?&?&?). done.
Qed.

(** Claims maps with UTF-8 keys and plain values. *)
Definition plain_claims (m : gmap string any) : Prop :=
  map_Forall (λ k v, utf8_str k ∧ plain_any v) m.

Definition read_claims (c : claims) : claims := (λ m : gmap string any, as_read <$> m) <$> c.

Lemma claims_stored m :
  plain_claims m →
  ∃ js, claims_json (Some m) = Some (JObj js) ∧ json_ok (JObj js) ∧
    dec_claims [JObj js] = (Some (as_read <$> m), true).
Proof.
  intros Hm.
  assert (Forall (λ kv, utf8_str kv.1 ∧ plain_any kv.2) (map_to_list m)) as Hall.
  { apply Forall_forall. intros [k v] Hkv%elem_of_map_to_list. by apply (Hm k v). }
  pose proof (NoDup_fst_map_to_list m) as Hnd.
  destruct (plain_members plain_any (map_to_list m)) as (Ha & js & Hjs);
    [apply Forall_forall; intros kv _; apply plain_any_stored|done|].
  destruct (map_stored _ _ Hjs Hnd Ha) as (E1 & Hok & E2). exists (sort_members js).
  split; [exact E1|]. split; [done|]. unfold dec_claims. cbn [foldl]. rewrite E2. simpl.
  rewrite (right_id_L ∅ (∪)). do 2 f_equal.
  rewrite (list_to_map_proper _ (read_members (map_to_list m)));
    [|by rewrite sort_members_perm, read_members_keys|apply sort_members_perm].
  apply map_eq. intros k. rewrite lookup_fmap. apply option_eq. intros v.
  rewrite <-elem_of_list_to_map by by rewrite read_members_keys. unfold read_members.
  rewrite fmap_Some. setoid_rewrite <-elem_of_map_to_list. rewrite list_elem_of_In, in_map_iff.
  setoid_rewrite <-list_elem_of_In. split.
  - intros ([k' v'] & [= <- <-] & Hin). by exists v'.
  - intros (v' & Hin & ->). by exists (k, v').
Qed.

(** What was read once is read back unchanged from then on. *)
Lemma insert_member_sorted {A} k (v : A) m :
  k ∉ m.*1 → Sorted (λ a b, String.ltb a.1 b.1 = true) m → Sorted (λ a b, String.ltb a.1 b.1 = true) (insert_member k v m).
Proof.
  induction m as [|[k' v'] m IH]; intros Hk Hs; [by repeat constructor|]. simpl. apply Sorted_inv in Hs as [Hs Hh].
  destruct (String.ltb k k') eqn:E; [by repeat constructor|].
  assert (Hlt : String.ltb k' k = true).
  { unfold String.ltb in *. rewrite String.compare_antisym. destruct (String.compare k k') eqn:Ec; [|done|done].
    apply String.compare_eq_iff in Ec. set_solver. }
  constructor; [apply IH; [set_solver|done]|].
  destruct m as [|[k2 v2] m]; simpl; [by constructor|]. destruct (String.ltb k k2); constructor; [done|].
  by inversion Hh.
Qed.
Lemma sort_members_sorted {A} (m : list (string * A)) :
  NoDup m.*1 → Sorted (λ a b, String.ltb a.1 b.1 = true) (sort_members m).
Proof.
  induction m as [|[k v] m IH]; [constructor|]. cbn [fmap list_fmap fst]. intros [Hk Hnd]%NoDup_cons.
  change (sort_members ((k, v) :: m)) with (insert_member k v (sort_members m)).
  apply insert_member_sorted; [|by apply IH]. by rewrite sort_members_perm.
Qed.
Lemma sort_sorted {A} (m : list (string * A)) : Sorted (λ a b, String.ltb a.1 b.1 = true) m → sort_members m = m.
Proof.
  induction 1 as [|[k v] m Hs IH Hh]; [done|]. unfold sort_members in *. cbn [foldr fst snd]. rewrite IH.
  destruct Hh as [|[k' v'] m Hlt]; [done|]. simpl in *. by rewrite Hlt.
Qed.

Lemma as_read_again v : plain_any v → as_read (as_read v) = as_read v ∧ plain_any (as_read v).
Proof.
  induction v as [|b|z|f|l|s|l|l IH|m IH] using any_strong_ind; intros Hp; try done.
  - split; [done|]. by exists z.
  - split; [cbn [as_read]; f_equal; induction l; simpl; [done|]; f_equal; inversion Hp; auto|].
    apply plain_list. by apply Forall_fmap.
  - apply plain_list in Hp. cbn [as_read].
    assert (Hl : List.map as_read (List.map as_read l) = List.map as_read l ∧ Forall plain_any (List.map as_read l)).
    { induction l as [|x l IHl]; [by split|]. apply Forall_cons in IH as [Hx IH]. apply Forall_cons in Hp as [Hpx Hp].
      destruct (IHl IH Hp) as [El ?], (Hx Hpx) as [E ?]. simpl. rewrite E, El. split; [done|by constructor]. }
    destruct Hl as [-> Hl]. split; [done|]. by apply plain_list.
  - apply plain_map in Hp as [Hnd Hp]. cbn [as_read]. fold (read_members m).
    assert (Hm : ∀ n, n ≡ₚ read_members m → read_members n = n ∧ Forall (λ kv, utf8_str kv.1 ∧ plain_any kv.2) n).
    { intros n Hn. assert (Hall : Forall (λ kv, as_read kv.2 = kv.2 ∧ utf8_str kv.1 ∧ plain_any kv.2) n).
      { rewrite Hn. clear Hn Hnd. induction m as [|[k x] m IHm]; [constructor|]. apply Forall_cons in IH as [Hx IH].
        apply Forall_cons in Hp as [[Hk Hpx] Hp]. destruct (Hx Hpx) as [E Hr]. constructor; [done|by apply IHm]. }
      clear Hn. induction Hall as [|[k x] n [E ?] _ [IHn ?]]; [by split|]. simpl in *. rewrite IHn, E.
      split; [done|by constructor]. }
    destruct (Hm (sort_members (read_members m))) as [E Hall]; [apply sort_members_perm|].
    fold (read_members (sort_members (read_members m))). rewrite E, sort_sorted
      by (apply sort_members_sorted; by rewrite read_members_keys). split; [done|].
    apply plain_map. split; [|done]. by rewrite sort_members_perm, read_members_keys.
Qed.

Lemma claims_again m : plain_claims m → as_read <$> (as_read <$> m) = as_read <$> m ∧ plain_claims (as_read <$> m).
Proof.
  intros Hm. split.
  - rewrite <-map_fmap_compose. apply map_fmap_ext. intros k v Hk. simpl. by apply as_read_again, (Hm k v).
  - apply map_Forall_fmap. intros k v Hk. destruct (Hm k v Hk). split; [done|]. by apply as_read_again.
Qed.

(** ** The stored forms read back *)
Section round.
Context `{Unicode}.

Definition plain_tenant (t : TenantContext) : Prop :=
  utf8_str (TenantID t) ∧ utf8_str (TenantSlug t) ∧ utf8_str (tc_Status t) ∧
  utf8_str (Locale t) ∧ utf8_str (Timezone t).

(** Sessions whose texts are UTF-8, whose expiry is an int64 and whose claims
    survive storage. *)
Definition plain_session (s : Session) : Prop :=
  utf8_str (s_ID s) ∧ utf8_str (AccessToken s) ∧ utf8_str (RefreshToken s) ∧
  utf8_str (IDToken s) ∧ int64_range (ExpiresAt s) ∧
  match Claims s with Some m => plain_claims m | None => True end ∧
  match s_Tenant s with Some t => plain_tenant t | None => True end.

Lemma json_ok_app m1 m2 : json_ok (JObj (m1 ++ m2)) ↔ json_ok (JObj m1) ∧ json_ok (JObj m2).
Proof. by rewrite !json_ok_obj, Forall_app. Qed.

Lemma json_ok_omit k v : utf8_str k → utf8_str v → json_ok (JObj (omit_empty k v)).
Proof.
  intros. apply json_ok_obj. unfold omit_empty. case_match; [constructor|].
  apply List.Forall_cons; [done|constructor].
Qed.

(** What an omitted or written field assigns. *)
Lemma dec_string_omit v : dec_field conv_string "" (if String.eqb v "" then [] else [JStr v]) = (v, true).
Proof. destruct (String.eqb_spec v "") as [->|]; done. Qed.

Lemma tenant_round t : tenant_assign zero_tenant
    (match tenant_json t with JObj m => m | _ => [] end) = (t, true).
Proof.
  destruct t as [a b c d e]. unfold tenant_assign, tenant_json, omit_empty. simpl.
  destruct (String.eqb_spec b "") as [->|], (String.eqb_spec c "") as [->|],
    (String.eqb_spec d "") as [->|], (String.eqb_spec e "") as [->|]; reflexivity.
Qed.

Lemma dec_tenant_one t : dec_tenant [tenant_json t] = (Some t, true).
Proof.
  pose proof (tenant_round t) as Ht. unfold tenant_json in *.
  match type of Ht with tenant_assign _ ?m = _ => generalize dependent m end.
  intros m Ht. unfold dec_tenant. cbn [foldl]. simpl default. by rewrite Ht.
Qed.

Lemma tenant_ok t : plain_tenant t → json_ok (tenant_json t).
Proof.
  intros (?&?&?&?&?). unfold tenant_json. rewrite !json_ok_app.
  split_and!; try (apply json_ok_omit; [repeat constructor|done]).
  obj_ok.
Qed.

Definition session_members (s : Session) (c : json) : list (string * json) :=
  [("id", JStr (s_ID s)); ("access_token", JStr (AccessToken s))] ++
  omit_empty "refresh_token" (RefreshToken s) ++ omit_empty "id_token" (IDToken s) ++
  [("expires_at", JNum (Itoa (ExpiresAt s))); ("claims", c)] ++
  match s_Tenant s with Some t => [("tenant_context", tenant_json t)] | None => [] end.

Definition opt_field (v : string) : list json := if String.eqb v "" then [] else [JStr v].

Lemma bound_session s c (m := session_members s c) :
  bound session_fields "id" m = [JStr (s_ID s)] ∧
  bound session_fields "access_token" m = [JStr (AccessToken s)] ∧
  bound session_fields "refresh_token" m = opt_field (RefreshToken s) ∧
  bound session_fields "id_token" m = opt_field (IDToken s) ∧
  bound session_fields "expires_at" m = [JNum (Itoa (ExpiresAt s))] ∧
  bound session_fields "claims" m = [c] ∧
  bound session_fields "tenant_context" m = (tenant_json <$> option_list (s_Tenant s)).
Proof.
  subst m. destruct s as [id at_ rt it exp cl tc]. unfold session_members, opt_field, omit_empty.
  cbn [s_ID AccessToken RefreshToken IDToken ExpiresAt s_Tenant].
  destruct (String.eqb rt ""), (String.eqb it ""), tc; repeat split.
Qed.

Lemma session_members_ok s c : plain_session s → json_ok c → json_ok (JObj (session_members s c)).
Proof.
  intros (?&?&?&?&?&_&Ht) Hc. unfold session_members. rewrite !json_ok_app. split_and!.
  - obj_ok.
  - apply json_ok_omit; [repeat constructor|done].
  - apply json_ok_omit; [repeat constructor|done].
  - obj_ok.
  - destruct (s_Tenant s); [|done]. obj_ok. by apply tenant_ok.
Qed.

(** A session as it comes back from its stored form. *)
Definition read_back (s : Session) : Session :=
  {| s_ID := s_ID s; AccessToken := AccessToken s; RefreshToken := RefreshToken s; IDToken := IDToken s;
     ExpiresAt := ExpiresAt s; Claims := read_claims (Claims s); s_Tenant := s_Tenant s |}.
Lemma read_back_again s : plain_session s → read_back (read_back s) = read_back s ∧ plain_session (read_back s).
Proof.
  intros (?&?&?&?&?&Hc&?). unfold read_back, plain_session. cbn [Claims s_ID AccessToken RefreshToken IDToken ExpiresAt s_Tenant].
  destruct (Claims s) as [m|]; [|done]. destruct (claims_again m Hc) as [E ?]. simpl. by rewrite E.
Qed.

Lemma session_round s : plain_session s →
  ∃ j, session_json s = Some j ∧ session_of_json (print j) = Some (read_back s).
Proof.
  intros Hs.
  assert (∃ j, claims_json (Claims s) = Some j ∧ json_ok j ∧ dec_claims [j] = (read_claims (Claims s), true))
    as (jc & Ec & Hjc & Hdc).
  { destruct Hs as (_&_&_&_&_&Hcl&_). destruct (Claims s) as [m|]; [|by exists JNull].
    destruct (claims_stored m Hcl) as (js & ? & ? & ?). eauto. }
  exists (JObj (session_members s jc)). unfold session_json. rewrite Ec. split; [done|].
  unfold session_of_json. rewrite parse_print by by apply session_members_ok.
  destruct (bound_session s jc) as (->&->&->&->&->&->&->).
  destruct Hs as (_&_&_&_&Hexp&_&_). rewrite Hdc.
  assert (dec_int [JNum (Itoa (ExpiresAt s))] = (ExpiresAt s, true)) as ->.
  { unfold dec_int, dec_field. simpl. by rewrite int_of_lit_Itoa. }
  assert (∀ v, dec_string (opt_field v) = (v, true)) as Hopt by apply dec_string_omit.
  rewrite !Hopt.
  assert (dec_tenant (tenant_json <$> option_list (s_Tenant s)) = (s_Tenant s, true)) as ->.
  { destruct (s_Tenant s) as [t|]; [apply dec_tenant_one|done]. }
  by destruct s.
Qed.

Definition plain_pkce (p : PKCEState) : Prop :=
  utf8_str (State p) ∧ utf8_str (CodeVerifier p) ∧ utf8_str (CodeChallenge p) ∧
  utf8_str (Nonce p) ∧ utf8_str (RedirectTo p).

Lemma pkce_round p : plain_pkce p → pkce_of_json (print (pkce_json p)) = Some p.
Proof.
  intros (?&?&?&?&?). unfold pkce_of_json. rewrite parse_print.
  - by destruct p.
  - obj_ok.
Qed.
End round.
