(* ===== verification/Redis.v ===== *)
(** * The Redis store (internal/redis)

    [Store] implements the session, PKCE, refresh-lock, revocation, replay and
    one-time stores over a Redis client.  The client's commands (go-redis) are
    the external calls [redisE]; a reply is a value, [redis.Nil] or another
    error.  Metrics are calls too, so that what is counted is visible.

    A [SCAN] loop ends when the server returns cursor 0: the loops take fuel,
    one unit per page, and answer [None] when it runs out;
    [find_pages_fuel] shows that the loop never needs more fuel than pages. *)

From S2P Require Import Prelude.
From S2P Require Import GoStrings.
From S2P Require Import Utf8Facts.
From S2P Require Import Effects.
From S2P Require Import GoTime.
From S2P Require Import GoAny.
From S2P Require Import Json.
From S2P Require Import JsonFacts.
From S2P Require Import Session.
From S2P Require Import SessionFacts.
From S2P Require Import Handoff.

(** ** The client *)
Inductive reply (A : Type) : Type :=
| RVal (a : A)
| RNil                     (* redis.Nil *)
| RErr (msg : string).
Arguments RVal {A} a.
Arguments RNil {A}.
Arguments RErr {A} msg.

Definition redis_Nil : string := "redis: nil".

Inductive redisE : Type → Type :=
| RGet (key : string) : redisE (reply string)
| RSet (key value : string) (ttl : Z) : redisE (option string)
| RDel (key : string) : redisE (option string)
| RSetArgsNX (key value : string) (ttl : Z) : redisE (reply string)
| RSetNX (key value : string) (ttl : Z) : redisE (res bool)
| RScan (cursor : Z) (pattern : string) (count : Z) : redisE (res (list string * Z))
| RPing : redisE (option string)
| RNow : redisE Z
| RMetric (op : string) (ok : bool) : redisE unit.
#[global] Instance redis_clock : ClockE redisE := RNow.

(** ** Operations *)
Section store.
Context `{Unicode} (layout : KeyLayout).
Notation prog := (prog redisE).

Definition Ping : prog (option string) := call RPing.

Definition metric (op : string) (ok : bool) : prog unit := call (RMetric op ok).

Definition getSession (sessionID : string) : prog (res (option Session)) :=
  r <- call (RGet (SessionKey layout sessionID)) ;;
  match r with
  | RNil => metric "session_get" true ;;; Ret (Ok None)
  | RErr e => metric "session_get" false ;;; Ret (Err e)
  | RVal data =>
      match session_of_json data with
      | None => metric "session_get" false ;;; Ret (Err "json: cannot unmarshal")
      | Some s => metric "session_get" true ;;; Ret (Ok (Some s))
      end
  end.

Definition setSession (sessionID : string) (sess : Session) (ttlSeconds : Z)
    : prog (option string) :=
  match session_json sess with
  | None => metric "session_set" false ;;; Ret (Some "json: unsupported value")
  | Some j =>
      let ttl := DurMul ttlSeconds Second in
      r <- call (RSet (SessionKey layout sessionID) (print j) ttl) ;;
      match r with
      | Some e => metric "session_set" false ;;; Ret (Some e)
      | None => metric "session_set" true ;;; Ret None
      end
  end.

Definition deleteSession (sessionID : string) : prog (option string) :=
  r <- call (RDel (SessionKey layout sessionID)) ;;
  match r with
  | Some e => metric "session_del" false ;;; Ret (Some e)
  | None => metric "session_del" true ;;; Ret None
  end.

Definition claimString (c : claims) (key : string) : string :=
  match c with
  | None => ""
  | Some _ => default "" (as_string (claim key c))
  end.

(** Whether a stored record is live and belongs to the subject and email
    looked for (both already trimmed, the email lower-cased). *)
Definition session_matches (now : Z) (subject email : string) (s : Session) : bool :=
  negb (IsExpired s now) &&
  String.eqb (TrimSpace (claimString (Claims s) "sub")) subject &&
  String.eqb (TrimSpace (ToLower (claimString (Claims s) "email"))) email.

(** One page of keys: the first match, if any. *)
Fixpoint find_page (now : Z) (subject email : string) (keys : list string)
    : prog (res (option Session)) :=
  match keys with
  | [] => Ret (Ok None)
  | key :: keys' =>
      r <- call (RGet key) ;;
      match r with
      | RNil => find_page now subject email keys'
      | RErr e => Ret (Err e)
      | RVal data =>
          match session_of_json data with
          | None => find_page now subject email keys'
          | Some s => if session_matches now subject email s then Ret (Ok (Some s))
                      else find_page now subject email keys'
          end
      end
  end.

Fixpoint find_pages (fuel : nat) (now : Z) (subject email : string) (cursor : Z)
    : prog (option (res (option Session))) :=
  match fuel with
  | O => Ret None
  | S fuel' =>
      r <- call (RScan cursor (SessionPrefix layout +:+ "*") 200) ;;
      match r with
      | Err e => Ret (Some (Err e))
      | Ok (keys, next) =>
          r <- find_page now subject email keys ;;
          match r with
          | Err e => Ret (Some (Err e))
          | Ok (Some s) => Ret (Some (Ok (Some s)))
          | Ok None => if next =? 0 then Ret (Some (Ok None))
                       else find_pages fuel' now subject email next
          end
      end
  end.

Definition FindSessionBySubjectEmail (fuel : nat) (subject email : string)
    : prog (option (res (option Session))) :=
  let subject := TrimSpace subject in
  let email := TrimSpace (ToLower email) in
  if String.eqb subject "" || String.eqb email "" then Ret (Some (Ok None))
  else now <- call Now ;; find_pages fuel now subject email 0.

(** One page: the number of sessions deleted so far, and the error that
    stopped it. *)
Fixpoint delete_page (now : Z) (subject email : string) (keys : list string) (deleted : Z)
    : prog (Z * option string) :=
  match keys with
  | [] => Ret (deleted, None)
  | key :: keys' =>
      r <- call (RGet key) ;;
      match r with
      | RNil => delete_page now subject email keys' deleted
      | RErr e => Ret (deleted, Some e)
      | RVal data =>
          match session_of_json data with
          | None => delete_page now subject email keys' deleted
          | Some s =>
              if session_matches now subject email s then
                r <- deleteSession (s_ID s) ;;
                match r with
                | Some e => Ret (deleted, Some e)
                | None => delete_page now subject email keys' (deleted + 1)
                end
              else delete_page now subject email keys' deleted
          end
      end
  end.

Fixpoint delete_pages (fuel : nat) (now : Z) (subject email : string) (cursor deleted : Z)
    : prog (option (Z * option string)) :=
  match fuel with
  | O => Ret None
  | S fuel' =>
      r <- call (RScan cursor (SessionPrefix layout +:+ "*") 200) ;;
      match r with
      | Err e => Ret (Some (deleted, Some e))
      | Ok (keys, next) =>
          r <- delete_page now subject email keys deleted ;;
          match r with
          | (deleted, Some e) => Ret (Some (deleted, Some e))
          | (deleted, None) => if next =? 0 then Ret (Some (deleted, None))
                               else delete_pages fuel' now subject email next deleted
          end
      end
  end.

Definition DeleteSessionsBySubjectEmail (fuel : nat) (subject email : string)
    : prog (option (Z * option string)) :=
  let subject := TrimSpace subject in
  let email := TrimSpace (ToLower email) in
  if String.eqb subject "" || String.eqb email "" then Ret (Some (0, None))
  else now <- call Now ;; delete_pages fuel now subject email 0 0.

Definition getPKCE (state : string) : prog (res (option PKCEState)) :=
  r <- call (RGet (PKCEKey layout state)) ;;
  match r with
  | RNil => metric "pkce_get" true ;;; Ret (Ok None)
  | RErr e => metric "pkce_get" false ;;; Ret (Err e)
  | RVal data =>
      match pkce_of_json data with
      | None => metric "pkce_get" false ;;; Ret (Err "json: cannot unmarshal")
      | Some p => metric "pkce_get" true ;;; Ret (Ok (Some p))
      end
  end.

Definition setPKCE (state : string) (p : PKCEState) (ttlSeconds : Z) : prog (option string) :=
  let ttl := DurMul ttlSeconds Second in
  r <- call (RSet (PKCEKey layout state) (print (pkce_json p)) ttl) ;;
  match r with
  | Some e => metric "pkce_set" false ;;; Ret (Some e)
  | None => metric "pkce_set" true ;;; Ret None
  end.

Definition deletePKCE (state : string) : prog (option string) :=
  r <- call (RDel (PKCEKey layout state)) ;;
  match r with
  | Some e => metric "pkce_del" false ;;; Ret (Some e)
  | None => metric "pkce_del" true ;;; Ret None
  end.

(** [SetArgs] with mode NX replies OK, or [redis.Nil] when the key exists. *)
Definition obtainRefreshLock (sessionID : string) (ttlSeconds : Z) : prog (res bool) :=
  let ttl := DurMul ttlSeconds Second in
  r <- call (RSetArgsNX (RefreshLockKey layout sessionID) "1" ttl) ;;
  match r with
  | RNil => metric "refresh_lock_obtain" false ;;; Ret (Err redis_Nil)
  | RErr e => metric "refresh_lock_obtain" false ;;; Ret (Err e)
  | RVal result =>
      let acquired := String.eqb result "OK" in
      metric "refresh_lock_obtain" acquired ;;; Ret (Ok acquired)
  end.

Definition releaseRefreshLock (sessionID : string) : prog (option string) :=
  r <- call (RDel (RefreshLockKey layout sessionID)) ;;
  match r with
  | Some e => metric "refresh_lock_release" false ;;; Ret (Some e)
  | None => metric "refresh_lock_release" true ;;; Ret None
  end.

Definition SetRevoked (id : string) (ttl : Z) : prog (option string) :=
  call (RSet (RevokedKey layout id) "1" ttl).

Definition IsRevoked (id : string) : prog (res bool) :=
  r <- call (RGet (RevokedKey layout id)) ;;
  Ret (match r with RNil => Ok false | RErr e => Err e | RVal _ => Ok true end).

Definition RecordReplay (key : string) (ttl : Z) : prog (option string) :=
  call (RSet (ReplayKey layout key) "1" ttl).

Definition redis_ConsumeOnce (key : string) (ttl : Z) : prog (res bool) :=
  call (RSetNX (ReplayKey layout key) "1" ttl).

Definition CheckReplay (key : string) : prog (res bool) :=
  r <- call (RGet (ReplayKey layout key)) ;;
  Ret (match r with RNil => Ok false | RErr e => Err e | RVal _ => Ok true end).
End store.

(** ** What a trace shows

    The keys read with their replies, the keys deleted with the outcome, and
    the cursors the server handed back. *)
Definition get_of (e : event redisE) : option (string * reply string) :=
  match e with
  | Ev e x => match e in redisE X return X → option (string * reply string) with
              | RGet k => λ x, Some (k, x) | _ => λ _, None end x
  end.
Definition del_of (e : event redisE) : option (string * option string) :=
  match e with
  | Ev e x => match e in redisE X return X → option (string * option string) with
              | RDel k => λ x, Some (k, x) | _ => λ _, None end x
  end.
Definition scan_of (e : event redisE) : option (res (list string * Z)) :=
  match e with
  | Ev e x => match e in redisE X return X → option (res (list string * Z)) with
              | RScan _ _ _ => λ x, Some x | _ => λ _, None end x
  end.
Definition now_of (e : event redisE) : option Z :=
  match e with
  | Ev e x => match e in redisE X return X → option Z with
              | RNow => λ x, Some x | _ => λ _, None end x
  end.
Definition gets (tr : list (event redisE)) := omap get_of tr.
Definition dels (tr : list (event redisE)) := omap del_of tr.
Definition scans (tr : list (event redisE)) := omap scan_of tr.
Definition nows (tr : list (event redisE)) := omap now_of tr.

(** A record some read of the trace returned. *)
Definition record_read `{Unicode} (tr : list (event redisE)) (s : Session) : Prop :=
  ∃ key data, (key, RVal data) ∈ gets tr ∧ session_of_json data = Some s.

Section facts.
Context `{Unicode} (layout : KeyLayout).

Lemma record_read_app tr1 tr2 s :
  record_read (tr1 ++ tr2) s ↔ record_read tr1 s ∨ record_read tr2 s.
Proof.
  unfold record_read, gets. rewrite omap_app. setoid_rewrite elem_of_app. naive_solver.
Qed.

Lemma record_read_get key data tr s :
  record_read (Ev (RGet key) (RVal data) :: tr) s ↔
  session_of_json data = Some s ∨ record_read tr s.
Proof.
  unfold record_read, gets. simpl. setoid_rewrite elem_of_cons. naive_solver.
Qed.

Lemma record_read_skip e tr s :
  get_of e = None ∨ (∃ k, get_of e = Some (k, RNil)) →
  record_read (e :: tr) s ↔ record_read tr s.
Proof.
  unfold record_read, gets. intros [E|[k E]]; simpl; rewrite E; [done|].
  setoid_rewrite elem_of_cons. naive_solver.
Qed.

Lemma find_page_exec now subject email keys tr r :
  exec (find_page now subject email keys) tr (Ok r) →
  match r with
  | Some s => record_read tr s ∧ session_matches now subject email s = true
  | None => ∀ s, record_read tr s → session_matches now subject email s = false
  end.
Proof.
  revert tr. induction keys as [|key keys IH]; intros tr.
  - intros [-> [= <-]]. intros s (k & d & Hin & _). by apply elem_of_nil in Hin.
  - intros (x & tr' & -> & Hx). destruct x as [data| |e]; [|..].
    + cbn [pbind call] in Hx. destruct (session_of_json data) as [s|] eqn:Ed.
      * destruct (session_matches now subject email s) eqn:Em.
        -- destruct Hx as [-> [= <-]]. split; [|done]. apply record_read_get. by left.
        -- specialize (IH _ Hx). destruct r as [s'|].
           ++ destruct IH. split; [|done]. apply record_read_get. by right.
           ++ intros s' [Hs|Hs]%record_read_get; [by simplify_eq|by apply IH].
      * specialize (IH _ Hx). destruct r as [s'|].
        -- destruct IH. split; [|done]. apply record_read_get. by right.
        -- intros s' [Hs|Hs]%record_read_get; [by simplify_eq|by apply IH].
    + specialize (IH _ Hx). destruct r as [s'|].
      * destruct IH. split; [|done]. apply record_read_skip; [eauto|done].
      * intros s'. rewrite record_read_skip by eauto. apply IH.
    + by destruct Hx.
Qed.

Lemma find_pages_exec fuel now subject email cursor tr r :
  exec (find_pages layout fuel now subject email cursor) tr (Some (Ok r)) →
  match r with
  | Some s => record_read tr s ∧ session_matches now subject email s = true
  | None => ∀ s, record_read tr s → session_matches now subject email s = false
  end.
Proof.
  revert cursor tr. induction fuel as [|fuel IH]; intros cursor tr; [by intros [_ [=]]|].
  intros (x & tr' & -> & Hx). destruct x as [[keys next]|e]; [|by destruct Hx].
  cbn [pbind call] in Hx. apply exec_bind in Hx as (a & t1 & t2 & -> & Hp & Hrest).
  destruct a as [[s|]|e]; [| |by destruct Hrest].
  - destruct Hrest as [-> [= <-]]. apply find_page_exec in Hp as [? ?].
    split; [|done]. rewrite record_read_skip by auto. rewrite app_nil_r. done.
  - apply find_page_exec in Hp. destruct (next =? 0).
    + destruct Hrest as [-> [= <-]]. intros s. rewrite record_read_skip by auto.
      rewrite app_nil_r. apply Hp.
    + specialize (IH _ _ Hrest). destruct r as [s|].
      * destruct IH. split; [|done]. rewrite record_read_skip by auto.
        rewrite record_read_app. by right.
      * intros s. rewrite record_read_skip by auto. rewrite record_read_app. intros [?|?]; auto.
Qed.

(** The loop consumes one unit of fuel per page, and stops asking at cursor 0. *)
Lemma scans_app tr1 tr2 : scans (tr1 ++ tr2) = scans tr1 ++ scans tr2.
Proof. apply omap_app. Qed.

Lemma find_page_scans now subject email keys tr r :
  exec (find_page now subject email keys) tr r → scans tr = [].
Proof.
  revert tr. induction keys as [|key keys IH]; intros tr; [by intros [-> _]|].
  intros (x & tr' & -> & Hx). cbn. destruct x as [data| |e]; [|by apply IH|by destruct Hx as [-> _]].
  cbn [pbind call] in Hx. destruct (session_of_json data); [|by apply IH].
  destruct (session_matches _ _ _ _); [by destruct Hx as [-> _]|by apply IH].
Qed.

(** The loop spends one unit of fuel per page, and runs out only if the server
    handed back a non-zero cursor that many times: with more fuel than the
    server has pages, it answers. *)
Lemma find_pages_fuel fuel now subject email cursor tr :
  exec (find_pages layout fuel now subject email cursor) tr None →
  length (scans tr) = fuel ∧
  Forall (λ r, match r with Ok (_, next) => next ≠ 0 | Err _ => False end) (scans tr).
Proof.
  revert cursor tr. induction fuel as [|fuel IH]; intros cursor tr; [by intros [-> _]|].
  intros (x & tr' & -> & Hx). destruct x as [[keys next]|e]; [|by destruct Hx].
  cbn [pbind call] in Hx. apply exec_bind in Hx as (a & t1 & t2 & -> & Hp & Hrest).
  apply find_page_scans in Hp. cbn. rewrite scans_app, Hp. cbn.
  destruct a as [[s|]|e]; [by destruct Hrest| |by destruct Hrest].
  destruct (next =? 0) eqn:En; [by destruct Hrest|]. bool_prop.
  destruct (IH _ _ Hrest) as [? ?]. split; [lia|]. by constructor.
Qed.

(** ** Theorems *)

(** C32: a session JSON can carry and written to the store is the session read
    back.  JSON can carry a session whose texts (ids, tokens, tenant, the
    claims' names and text claims) are well-formed UTF-8, whose expiry is an
    int64, and whose claims are null, booleans, texts, whole numbers of
    magnitude below 2^53, and lists and maps of these: a text that is not
    UTF-8 and a larger number change on the way.  For such a session, once
    [Set] has succeeded, a [Get] of the same id that the server answers with
    the bytes [Set] sent returns the session: ids, tokens, expiry and tenant
    as they were, and each claim as JSON carries it (a number as the [float64]
    of the same value, a list of texts as a list); storing what was read
    changes nothing more.  The key is the session key and the life is the ttl
    asked for. *)
Theorem session_store_roundtrip id s ttl tr (Hs : plain_session s)
    (Hset : exec (setSession layout id s ttl) tr None) :
  ∃ data, tr = [Ev (RSet (SessionKey layout id) data (DurMul ttl Second)) None;
                Ev (RMetric "session_set" true) tt] ∧
    exec (getSession layout id)
      [Ev (RGet (SessionKey layout id)) (RVal data); Ev (RMetric "session_get" true) tt]
      (Ok (Some (read_back s))) ∧
    read_back (read_back s) = read_back s ∧ plain_session (read_back s).
Proof.
  destruct (session_round s Hs) as (j & Ej & Hj). unfold setSession in Hset. rewrite Ej in Hset.
  destruct Hset as ([e|] & tr' & -> & Hx).
  { destruct Hx as (? & ? & -> & Hx). by destruct Hx. }
  destruct Hx as ([] & ? & -> & [-> _]). exists (print j). split; [done|].
  split; [|by apply read_back_again]. exists (RVal (print j)). eexists. split; [done|]. cbn [pbind call]. rewrite Hj.
  exists tt. eexists. by split.
Qed.

(** The session looked up by subject and email is one the server holds, is
    not expired, and carries exactly the trimmed subject and the trimmed,
    lower-cased email; when none is found, no record the scan read matches. *)
Theorem find_session_correct fuel subject email tr r
    (Hx : exec (FindSessionBySubjectEmail layout fuel subject email) tr (Some (Ok r))) :
  match r with
  | Some s => record_read tr s ∧ TrimSpace subject ≠ "" ∧
      ∃ now, now ∈ nows tr ∧ Unix now < ExpiresAt s ∧
        TrimSpace (claimString (Claims s) "sub") = TrimSpace subject ∧
        TrimSpace (ToLower (claimString (Claims s) "email")) = TrimSpace (ToLower email)
  | None => ∀ s, record_read tr s →
      ∃ now, now ∈ nows tr ∧
        session_matches now (TrimSpace subject) (TrimSpace (ToLower email)) s = false
  end.
Proof.
  unfold FindSessionBySubjectEmail in Hx.
  destruct (_ || _) eqn:Ee.
  { destruct Hx as [-> [= <-]]. intros s (k & d & Hin & _). by apply elem_of_nil in Hin. }
  destruct Hx as (now & tr' & -> & Hx). cbn [pbind call] in Hx. apply find_pages_exec in Hx.
  destruct r as [s|].
  - destruct Hx as [Hr Hm]. bool_prop. split; [by apply record_read_skip; auto|]. split; [done|].
    exists now. unfold session_matches, IsExpired in Hm. bool_prop. split; [left|]. done.
  - intros s Hr. exists now. split; [left|]. apply Hx. by apply record_read_skip in Hr; auto.
Qed.
End facts.

(** ** Witnesses *)
Definition demo_session : Session :=
  {| s_ID := "sid"; AccessToken := "at"; RefreshToken := "rt"; IDToken := ""; ExpiresAt := 2000;
     Claims := Some {[ "sub" := AStr "u1"; "name" := AStr "Zoé Müller"; "exp" := AFloat (f64_of_Z 1700000000); "roles" := AStrs ["admin"] ]};
     s_Tenant := None |}.

Lemma demo_session_plain : plain_session demo_session.
Proof.
  unfold plain_session. simpl. split_and!; try (by repeat constructor).
  apply map_Forall_insert_2; [split; repeat constructor|].
  apply map_Forall_insert_2; [split; [repeat constructor|apply valid_utf8; vm_compute; reflexivity]|].
  apply map_Forall_insert_2; [split; [repeat constructor|by exists 1700000000]|].
  apply map_Forall_singleton. split; repeat constructor.
Qed.

(** What JSON does not carry: a larger number is rounded, and a text that is
    not UTF-8 comes back with the replacement character. *)
Example large_number_changes :
  (json_of_any (AInt (2 ^ 53 + 1)) ≫= any_of_json) = Some (AFloat (f64_of_Z (2 ^ 53))).
Proof. vm_compute. reflexivity. Qed.
Example bad_text_changes :
  let bad := str (of_byte 255) in
  (parse (print (JStr bad)) ≫= any_of_json) = Some (AStr (encode_rune 0xFFFD)) ∧ bad ≠ encode_rune 0xFFFD.
Proof. split; [vm_compute; reflexivity|done]. Qed.

Definition demo_json : json := Eval vm_compute in default JNull (session_json demo_session).
Definition demo_bytes : string := Eval vm_compute in print demo_json.

Lemma session_store_roundtrip_witness :
  ∃ data, data = demo_bytes ∧
    exec (getSession (H := ascii_unicode) DefaultKeyLayout "sid")
      [Ev (RGet (SessionKey DefaultKeyLayout "sid")) (RVal data);
       Ev (RMetric "session_get" true) tt]
      (Ok (Some (read_back demo_session))).
Proof.
  assert (exec (setSession DefaultKeyLayout "sid" demo_session 36000)
    [Ev (RSet "auth:session:sid" demo_bytes 36000000000000) None;
     Ev (RMetric "session_set" true) tt] None) as Hset.
  { assert (session_json demo_session = Some demo_json) as Ej by (vm_compute; reflexivity).
    unfold setSession. rewrite Ej.
    exists None, [Ev (RMetric "session_set" true) tt]. split; [vm_compute; reflexivity|].
    exists tt, []. split; [reflexivity|]. split; reflexivity. }
  destruct (session_store_roundtrip (H := ascii_unicode) DefaultKeyLayout "sid" demo_session 36000 _
              demo_session_plain Hset) as (data & Htr & Hget & _).
  exists data. split; [|exact Hget].
  apply (f_equal (map (λ e, match e with
    | Ev e _ => match e with RSet _ d _ => d | _ => "" end end))) in Htr.
  by injection Htr.
Defined.

Lemma find_session_correct_witness :
  exec (FindSessionBySubjectEmail (H := ascii_unicode) DefaultKeyLayout 1 " u1 " "A@B.c")
    [Ev RNow (1000 * Second); Ev (RScan 0 "auth:session:*" 200) (Ok (["auth:session:gone"], 0));
     Ev (RGet "auth:session:gone") RNil] (Some (Ok None)) ∧
  ∀ s, record_read (H := ascii_unicode)
    [Ev RNow (1000 * Second); Ev (RScan 0 "auth:session:*" 200) (Ok (["auth:session:gone"], 0));
     Ev (RGet "auth:session:gone") RNil] s →
    ∃ now, now ∈ nows [Ev RNow (1000 * Second);
        Ev (RScan 0 "auth:session:*" 200) (Ok (["auth:session:gone"], 0));
        Ev (RGet "auth:session:gone") RNil] ∧
      session_matches (H := ascii_unicode) now "u1" "a@b.c" s = false.
Proof.
  assert (exec (FindSessionBySubjectEmail (H := ascii_unicode) DefaultKeyLayout 1 " u1 " "A@B.c")
    [Ev RNow (1000 * Second); Ev (RScan 0 "auth:session:*" 200) (Ok (["auth:session:gone"], 0));
     Ev (RGet "auth:session:gone") RNil] (Some (Ok None))) as Hx.
  { eexists _, _. split; [reflexivity|]. eexists _, _. split; [reflexivity|].
    eexists _, _. split; [reflexivity|]. by split. }
  split; [exact Hx|]. exact (find_session_correct (H := ascii_unicode) _ _ _ _ _ _ Hx).
Defined.
