(* ===== verification/AuthConfig.v ===== *)
(** * Configuration of the auth server (internal/auth/config)

    The configuration record, its defaults, the normalisation of the connector
    list, validation, connector lookup and the per-connector Redis key layout.
    Files and the environment are read by ConfigLoad and the go-config library
    under it: [Load] takes their outcome.

    The theorems: normalisation is idempotent; a loaded configuration has
    uniquely named connectors with exactly one default, which lookup falls back
    to; and connectors whose namespaces are derived from their ids never share
    a Redis key or a cookie name. *)

From S2P Require Import Prelude.
From S2P Require Import GoStrings.
From S2P Require Import Json.
From S2P Require Import Cookie.
From S2P Require Import Session.

(** ** Data *)
Record ClaimMappingConfig := {
  AuthoritativeIDClaim : string; IDKind : string; EmailClaim : string; NameClaim : string;
  RolesClaim : string }.

Record ConnectorConfig := {
  cc_ID : string; cc_Default : bool; cc_ProviderPluginID : string;
  cc_OIDCIssuer : string; cc_OIDCRedirectURI : string; cc_OIDCClientID : string;
  cc_OIDCClientSecret : string; cc_OIDCScopes : list string; cc_OIDCAudience : string;
  cc_OIDCClaimsSource : string; cc_SessionRedisPrefix : string; cc_CookieName : string;
  cc_SessionTTLSeconds : Z; cc_SessionPKCETTLSeconds : Z;
  cc_SessionRefreshLockTTLSeconds : Z; cc_ClaimMapping : ClaimMappingConfig }.

Record Config := {
  OIDCIssuer : string; OIDCRedirectURI : string; OIDCClientID : string;
  OIDCClientSecret : string; OIDCScopes : list string; OIDCAudience : string;
  OIDCClaimsSource : string; RedisURL : string; SessionRedisPrefix : string;
  c_SessionTTLSeconds : Z; c_SessionPKCETTLSeconds : Z; c_SessionRefreshLockTTLSeconds : Z;
  SessionRefreshEarlySeconds : Z; CookieName : string; CookieSigningSecret : string;
  CookieSecure : bool; CookieSameSiteStr : string; CookieDomain : string;
  CookieSameSite : SameSite; AppBaseURL : string; LoginErrorRedirectPath : string;
  AllowedRedirectOrigins : list string; AllowedRedirectPaths : list string;
  HTTPPort : string; AdminSecret : string; PostLoginWebhookURL : string;
  CORSAllowedOrigins : list string; ProviderPluginID : string;
  Connectors : list ConnectorConfig }.

(** ** Reading values *)
Definition or_str (a b : string) : string := if String.eqb a "" then b else a.
Definition or_int (a b : Z) : Z := if a =? 0 then b else a.

Definition splitTrim (s sep : string) : list string :=
  if String.eqb s "" then []
  else List.filter (λ t, negb (String.eqb t "")) (TrimSpace <$> Split s sep).

Section reading.
Context `{Unicode}.

(** [FlexibleBool.UnmarshalJSON]: a boolean (null reads as false) or one of
    the accepted strings. *)
Definition FlexibleBool_UnmarshalJSON (v : json) : res bool :=
  match v with
  | JBool b => Ok b
  | JNull => Ok false
  | JStr s =>
      let t := ToLower (TrimSpace s) in
      if existsb (String.eqb t) ["true"; "1"; "yes"; "y"] then Ok true
      else if existsb (String.eqb t) ["false"; "0"; "no"; "n"] then Ok false
      else Err ("invalid flexible bool " +:+ Quote s)
  | _ => Err ("flexible bool: unsupported value " +:+ print v)
  end.

(** [CommaStrings.UnmarshalJSON]: a comma-separated string or an array of
    strings (a null element is the empty string). *)
Definition CommaStrings_UnmarshalJSON (v : json) : res (list string) :=
  match v with
  | JStr s => Ok (splitTrim s ",")
  | JNull => Ok []
  | JArr l =>
      foldr (λ x acc, match x, acc with
                      | JStr s, Ok r => Ok (s :: r)
                      | JNull, Ok r => Ok ("" :: r)
                      | _, Err e => Err e
                      | _, _ => Err "json: cannot unmarshal"
                      end) (Ok []) l
  | _ => Err "json: cannot unmarshal"
  end.

Definition parseSameSite (s : string) : SameSite :=
  let t := ToLower s in
  if String.eqb t "strict" then SameSiteStrictMode
  else if String.eqb t "none" then SameSiteNoneMode
  else SameSiteLaxMode.
End reading.

(** ** Defaults *)
Definition ApplyDefaults (c : Config) : Config :=
  {| OIDCIssuer := OIDCIssuer c; OIDCRedirectURI := OIDCRedirectURI c;
     OIDCClientID := OIDCClientID c; OIDCClientSecret := OIDCClientSecret c;
     OIDCScopes := OIDCScopes c; OIDCAudience := OIDCAudience c;
     OIDCClaimsSource := or_str (OIDCClaimsSource c) "id_token"; RedisURL := RedisURL c;
     SessionRedisPrefix := or_str (SessionRedisPrefix c) "auth";
     c_SessionTTLSeconds := or_int (c_SessionTTLSeconds c) 36000;
     c_SessionPKCETTLSeconds := or_int (c_SessionPKCETTLSeconds c) 300;
     c_SessionRefreshLockTTLSeconds := or_int (c_SessionRefreshLockTTLSeconds c) 15;
     SessionRefreshEarlySeconds := or_int (SessionRefreshEarlySeconds c) 60;
     CookieName := or_str (CookieName c) "__Host-ess_session";
     CookieSigningSecret := CookieSigningSecret c; CookieSecure := CookieSecure c;
     CookieSameSiteStr := CookieSameSiteStr c; CookieDomain := CookieDomain c;
     CookieSameSite := CookieSameSite c; AppBaseURL := AppBaseURL c;
     LoginErrorRedirectPath := or_str (LoginErrorRedirectPath c) "/login?error=oidc_error";
     AllowedRedirectOrigins := AllowedRedirectOrigins c;
     AllowedRedirectPaths := AllowedRedirectPaths c; HTTPPort := or_str (HTTPPort c) "8080";
     AdminSecret := AdminSecret c; PostLoginWebhookURL := PostLoginWebhookURL c;
     CORSAllowedOrigins := CORSAllowedOrigins c; ProviderPluginID := ProviderPluginID c;
     Connectors := Connectors c |}.

(** ** Normalize *)
Definition claims_source (s : string) : string :=
  if String.eqb s "id_token" || String.eqb s "access_token" then s else "id_token".
Definition default_scopes (l : list string) : list string :=
  match l with [] => ["openid"; "profile"] | _ => l end.

(** The connector made of the legacy top-level fields. *)
Definition legacy_connector (c : Config) : ConnectorConfig :=
  {| cc_ID := "default"; cc_Default := true; cc_ProviderPluginID := ProviderPluginID c;
     cc_OIDCIssuer := OIDCIssuer c; cc_OIDCRedirectURI := OIDCRedirectURI c;
     cc_OIDCClientID := OIDCClientID c; cc_OIDCClientSecret := OIDCClientSecret c;
     cc_OIDCScopes := OIDCScopes c; cc_OIDCAudience := OIDCAudience c;
     cc_OIDCClaimsSource := OIDCClaimsSource c; cc_SessionRedisPrefix := ""; cc_CookieName := "";
     cc_SessionTTLSeconds := 0; cc_SessionPKCETTLSeconds := 0;
     cc_SessionRefreshLockTTLSeconds := 0;
     cc_ClaimMapping := {| AuthoritativeIDClaim := ""; IDKind := ""; EmailClaim := "";
                           NameClaim := ""; RolesClaim := "" |} |}.

Definition set_default (conn : ConnectorConfig) : ConnectorConfig :=
  {| cc_ID := cc_ID conn; cc_Default := true; cc_ProviderPluginID := cc_ProviderPluginID conn;
     cc_OIDCIssuer := cc_OIDCIssuer conn; cc_OIDCRedirectURI := cc_OIDCRedirectURI conn;
     cc_OIDCClientID := cc_OIDCClientID conn; cc_OIDCClientSecret := cc_OIDCClientSecret conn;
     cc_OIDCScopes := cc_OIDCScopes conn; cc_OIDCAudience := cc_OIDCAudience conn;
     cc_OIDCClaimsSource := cc_OIDCClaimsSource conn;
     cc_SessionRedisPrefix := cc_SessionRedisPrefix conn; cc_CookieName := cc_CookieName conn;
     cc_SessionTTLSeconds := cc_SessionTTLSeconds conn;
     cc_SessionPKCETTLSeconds := cc_SessionPKCETTLSeconds conn;
     cc_SessionRefreshLockTTLSeconds := cc_SessionRefreshLockTTLSeconds conn;
     cc_ClaimMapping := cc_ClaimMapping conn |}.

Definition fill_mapping (id : string) (m : ClaimMappingConfig) : ClaimMappingConfig :=
  let claim := or_str (AuthoritativeIDClaim m) "sub" in
  {| AuthoritativeIDClaim := claim;
     IDKind := or_str (IDKind m) (if String.eqb claim "sub" then "oidc_sub" else id);
     EmailClaim := EmailClaim m; NameClaim := NameClaim m; RolesClaim := RolesClaim m |}.

(** The body of the loop over the connectors. *)
Definition fill_connector (c : Config) (base legacyCookie : string) (conn : ConnectorConfig)
    : ConnectorConfig :=
  {| cc_ID := cc_ID conn; cc_Default := cc_Default conn;
     cc_ProviderPluginID := or_str (cc_ProviderPluginID conn) (ProviderPluginID c);
     cc_OIDCIssuer := cc_OIDCIssuer conn; cc_OIDCRedirectURI := cc_OIDCRedirectURI conn;
     cc_OIDCClientID := cc_OIDCClientID conn; cc_OIDCClientSecret := cc_OIDCClientSecret conn;
     cc_OIDCScopes := default_scopes (cc_OIDCScopes conn);
     cc_OIDCAudience := cc_OIDCAudience conn;
     cc_OIDCClaimsSource := claims_source (cc_OIDCClaimsSource conn);
     cc_SessionRedisPrefix := or_str (cc_SessionRedisPrefix conn)
       (if cc_Default conn then base else base +:+ ":" +:+ cc_ID conn);
     cc_CookieName := or_str (cc_CookieName conn)
       (if cc_Default conn then legacyCookie else legacyCookie +:+ "_" +:+ cc_ID conn);
     cc_SessionTTLSeconds := or_int (cc_SessionTTLSeconds conn) (c_SessionTTLSeconds c);
     cc_SessionPKCETTLSeconds :=
       or_int (cc_SessionPKCETTLSeconds conn) (c_SessionPKCETTLSeconds c);
     cc_SessionRefreshLockTTLSeconds :=
       or_int (cc_SessionRefreshLockTTLSeconds conn) (c_SessionRefreshLockTTLSeconds c);
     cc_ClaimMapping := fill_mapping (cc_ID conn) (cc_ClaimMapping conn) |}.

Definition set_connectors (c : Config) (l : list ConnectorConfig) : Config :=
  {| OIDCIssuer := OIDCIssuer c; OIDCRedirectURI := OIDCRedirectURI c;
     OIDCClientID := OIDCClientID c; OIDCClientSecret := OIDCClientSecret c;
     OIDCScopes := OIDCScopes c; OIDCAudience := OIDCAudience c;
     OIDCClaimsSource := OIDCClaimsSource c; RedisURL := RedisURL c;
     SessionRedisPrefix := SessionRedisPrefix c; c_SessionTTLSeconds := c_SessionTTLSeconds c;
     c_SessionPKCETTLSeconds := c_SessionPKCETTLSeconds c;
     c_SessionRefreshLockTTLSeconds := c_SessionRefreshLockTTLSeconds c;
     SessionRefreshEarlySeconds := SessionRefreshEarlySeconds c; CookieName := CookieName c;
     CookieSigningSecret := CookieSigningSecret c; CookieSecure := CookieSecure c;
     CookieSameSiteStr := CookieSameSiteStr c; CookieDomain := CookieDomain c;
     CookieSameSite := CookieSameSite c; AppBaseURL := AppBaseURL c;
     LoginErrorRedirectPath := LoginErrorRedirectPath c;
     AllowedRedirectOrigins := AllowedRedirectOrigins c;
     AllowedRedirectPaths := AllowedRedirectPaths c; HTTPPort := HTTPPort c;
     AdminSecret := AdminSecret c; PostLoginWebhookURL := PostLoginWebhookURL c;
     CORSAllowedOrigins := CORSAllowedOrigins c; ProviderPluginID := ProviderPluginID c;
     Connectors := l |}.

Definition Normalize (c : Config) : Config :=
  let l := match Connectors c with [] => [legacy_connector c] | l => l end in
  let l := match l with [conn] => [set_default conn] | l => l end in
  let base := or_str (SessionRedisPrefix c) "auth" in
  let legacyCookie := or_str (CookieName c) "__Host-ess_session" in
  set_connectors c (fill_connector c base legacyCookie <$> l).

(** ** Validate *)
Definition connector_id_byte (c : ascii) : bool :=
  let z := byte_of c in
  ((65 <=? z) && (z <=? 90)) || ((97 <=? z) && (z <=? 122)) || ((48 <=? z) && (z <=? 57))
  || (z =? 95) || (z =? 45).
(** [^[A-Za-z0-9_-]+$] *)
Definition connectorIDRe (id : string) : bool :=
  negb (String.eqb id "") && forallb connector_id_byte (String.list_ascii_of_string id).

Definition errMissing (name : string) : string := "config: missing " +:+ name.

Section validate.
Context `{Unicode}.

(** The loop of [validateConnectors]: ids seen so far, defaults counted so
    far, index. *)
Fixpoint validate_loop (l : list ConnectorConfig) (i : Z) (seen : gset string) (defaults : Z)
    : option string :=
  match l with
  | [] =>
      if defaults =? 1 then None
      else Some ("config: exactly one connector must be marked default (found "
                 +:+ Itoa defaults +:+ ")")
  | conn :: l' =>
      let id := cc_ID conn in
      if String.eqb id "" then Some ("config: connector[" +:+ Itoa i +:+ "] missing id")
      else if negb (connectorIDRe id) then
        Some ("config: connector id " +:+ Quote id +:+ " must match [A-Za-z0-9_-]+")
      else if bool_decide (id ∈ seen) then Some ("config: duplicate connector id " +:+ Quote id)
      else if String.eqb (cc_OIDCIssuer conn) "" then
        Some ("config: connector " +:+ Quote id +:+ " missing oidc_issuer")
      else if String.eqb (cc_OIDCRedirectURI conn) "" then
        Some ("config: connector " +:+ Quote id +:+ " missing oidc_redirect_uri")
      else if String.eqb (cc_OIDCClientID conn) "" then
        Some ("config: connector " +:+ Quote id +:+ " missing oidc_client_id")
      else validate_loop l' (i + 1) ({[id]} ∪ seen)
             (if cc_Default conn then defaults + 1 else defaults)
  end.
Definition validateConnectors (c : Config) : option string :=
  validate_loop (Connectors c) 0 ∅ 0.

Definition with_validated (c : Config) (same : SameSite) (paths scopes : list string)
    (source : string) : Config :=
  {| OIDCIssuer := OIDCIssuer c; OIDCRedirectURI := OIDCRedirectURI c;
     OIDCClientID := OIDCClientID c; OIDCClientSecret := OIDCClientSecret c;
     OIDCScopes := scopes; OIDCAudience := OIDCAudience c;
     OIDCClaimsSource := source; RedisURL := RedisURL c;
     SessionRedisPrefix := SessionRedisPrefix c; c_SessionTTLSeconds := c_SessionTTLSeconds c;
     c_SessionPKCETTLSeconds := c_SessionPKCETTLSeconds c;
     c_SessionRefreshLockTTLSeconds := c_SessionRefreshLockTTLSeconds c;
     SessionRefreshEarlySeconds := SessionRefreshEarlySeconds c; CookieName := CookieName c;
     CookieSigningSecret := CookieSigningSecret c; CookieSecure := CookieSecure c;
     CookieSameSiteStr := CookieSameSiteStr c; CookieDomain := CookieDomain c;
     CookieSameSite := same; AppBaseURL := AppBaseURL c;
     LoginErrorRedirectPath := LoginErrorRedirectPath c;
     AllowedRedirectOrigins := AllowedRedirectOrigins c;
     AllowedRedirectPaths := paths; HTTPPort := HTTPPort c;
     AdminSecret := AdminSecret c; PostLoginWebhookURL := PostLoginWebhookURL c;
     CORSAllowedOrigins := CORSAllowedOrigins c; ProviderPluginID := ProviderPluginID c;
     Connectors := Connectors c |}.

(** The configuration after the call, and the error. *)
Definition Validate (c : Config) : Config * option string :=
  if String.eqb (RedisURL c) "" then (c, Some (errMissing "REDIS_URL"))
  else if String.eqb (CookieSigningSecret c) "" then (c, Some (errMissing "COOKIE_SIGNING_SECRET"))
  else if String.eqb (OIDCClientSecret c) "your-client-secret"
          || String.eqb (CookieSigningSecret c) "CHANGE-ME-in-production" then
    (c, Some (concat_strings ["config: placeholder secret detected "; of_bytes [0xE2; 0x80; 0x94];
                " set real secrets via environment variables"]))
  else if String.eqb (AppBaseURL c) "" then (c, Some (errMissing "APP_BASE_URL"))
  else
    let same := parseSameSite (CookieSameSiteStr c) in
    let paths := match AllowedRedirectPaths c with [] => ["/"] | l => l end in
    let c1 := with_validated c same paths (OIDCScopes c) (OIDCClaimsSource c) in
    match Connectors c with
    | [] =>
        if String.eqb (OIDCIssuer c) "" then (c1, Some (errMissing "OIDC_ISSUER"))
        else if String.eqb (OIDCRedirectURI c) "" then (c1, Some (errMissing "OIDC_REDIRECT_URI"))
        else if String.eqb (OIDCClientID c) "" then (c1, Some (errMissing "OIDC_CLIENT_ID"))
        else (with_validated c same paths (default_scopes (OIDCScopes c))
                (claims_source (OIDCClaimsSource c)), None)
    | _ => (c1, validateConnectors c1)
    end.

(** [Load], from what configload read. *)
Definition Load (read : res Config) : res Config :=
  try cfg <- read ;
  let cfg := Normalize (ApplyDefaults cfg) in
  match Validate cfg with
  | (cfg, None) => Ok cfg
  | (_, Some e) => Err e
  end.
End validate.

(** ** Lookup and key layout *)
Definition DefaultConnector (c : Config) : option ConnectorConfig :=
  match List.find cc_Default (Connectors c) with
  | Some conn => Some conn
  | None => head (Connectors c)
  end.

Definition ConnectorByID (c : Config) (id : string) : option ConnectorConfig :=
  if String.eqb id "" then DefaultConnector c
  else match List.find (λ conn, String.eqb (cc_ID conn) id) (Connectors c) with
       | Some conn => Some conn
       | None => DefaultConnector c
       end.

Definition layout_of (prefix : string) (sess pkce lock : Z) : KeyLayout :=
  let p := or_str prefix "auth" in
  {| SessionPrefix := p +:+ ":session:"; PKCEPrefix := p +:+ ":pkce:";
     RefreshLockPrefix := p +:+ ":refresh_lock:"; RevokedPrefix := p +:+ ":revoked:";
     ReplayPrefix := p +:+ ":replay:"; SessionTTLSeconds := sess; PKCETTLSeconds := pkce;
     RefreshLockTTLSeconds := lock |}.

Definition config_KeyLayout (c : Config) : KeyLayout :=
  layout_of (SessionRedisPrefix c) (c_SessionTTLSeconds c) (c_SessionPKCETTLSeconds c)
    (c_SessionRefreshLockTTLSeconds c).
Definition connector_KeyLayout (cc : ConnectorConfig) : KeyLayout :=
  layout_of (cc_SessionRedisPrefix cc) (cc_SessionTTLSeconds cc) (cc_SessionPKCETTLSeconds cc)
    (cc_SessionRefreshLockTTLSeconds cc).

(** ** Lemmas *)
Lemma or_str_idem a b : or_str (or_str a b) b = or_str a b.
Proof. unfold or_str. destruct (String.eqb_spec a "") as [->|]; [by destruct (String.eqb_spec b "") as [->|]|].
  by rewrite (proj2 (String.eqb_neq _ _)). Qed.
Lemma or_int_idem a b : or_int (or_int a b) b = or_int a b.
Proof. unfold or_int. destruct (Z.eqb_spec a 0) as [->|]; [by destruct (Z.eqb_spec b 0) as [->|]|].
  by rewrite (proj2 (Z.eqb_neq _ _)). Qed.
Lemma or_str_nonempty a b : b ≠ "" → or_str a b ≠ "".
Proof. unfold or_str. by destruct (String.eqb_spec a ""). Qed.

Lemma claims_source_idem s : claims_source (claims_source s) = claims_source s.
Proof.
  unfold claims_source at 2 3. destruct (String.eqb s _ || _) eqn:E; [|done].
  unfold claims_source. by rewrite E.
Qed.
Lemma default_scopes_idem l : default_scopes (default_scopes l) = default_scopes l.
Proof. by destruct l. Qed.

Lemma fill_mapping_idem id m : fill_mapping id (fill_mapping id m) = fill_mapping id m.
Proof. unfold fill_mapping. simpl. by rewrite !or_str_idem. Qed.

Lemma fill_connector_idem c base legacy conn l :
  fill_connector (set_connectors c l) base legacy (fill_connector c base legacy conn) =
  fill_connector c base legacy conn.
Proof.
  unfold fill_connector. simpl.
  by rewrite !or_str_idem, !or_int_idem, claims_source_idem, default_scopes_idem, fill_mapping_idem.
Qed.

(** The connectors [Normalize] starts from. *)
Definition start_connectors (c : Config) : list ConnectorConfig :=
  let l := match Connectors c with [] => [legacy_connector c] | l => l end in
  match l with [conn] => [set_default conn] | l => l end.

Lemma Normalize_connectors c :
  Connectors (Normalize c) =
  fill_connector c (or_str (SessionRedisPrefix c) "auth")
    (or_str (CookieName c) "__Host-ess_session") <$> start_connectors c.
Proof. done. Qed.

(** [validate_loop] accepts exactly the lists of complete, distinctly named
    connectors with the right number of defaults. *)
Definition complete (conn : ConnectorConfig) : Prop :=
  connectorIDRe (cc_ID conn) = true ∧ cc_OIDCIssuer conn ≠ "" ∧
  cc_OIDCRedirectURI conn ≠ "" ∧ cc_OIDCClientID conn ≠ "".

Lemma validate_loop_none `{Unicode} l i seen d :
  validate_loop l i seen d = None ↔
  Forall complete l ∧ NoDup (cc_ID <$> l) ∧ (∀ id, id ∈ cc_ID <$> l → id ∉ seen) ∧
  d + Z.of_nat (length (List.filter cc_Default l)) = 1.
Proof.
  revert i seen d. induction l as [|conn l IH]; intros i seen d; simpl.
  - destruct (Z.eqb_spec d 1); split; try done; [|intros (_&_&_&?); lia].
    intros _. split_and!; [constructor..| |lia]. intros ? []%elem_of_nil.
  - destruct (String.eqb_spec (cc_ID conn) "") as [E|_].
    { split; [done|]. intros (Hc&_). apply Forall_cons in Hc as [(Hre&_) _]. by rewrite E in Hre. }
    destruct (connectorIDRe (cc_ID conn)) eqn:Hre; simpl.
    2: { split; [done|]. intros (Hc&_). apply Forall_cons in Hc as [(?&_) _]. congruence. }
    case_bool_decide as Hseen.
    { split; [done|]. intros (_&_&Hn&_). destruct (Hn (cc_ID conn)); [left|done]. }
    destruct (String.eqb_spec (cc_OIDCIssuer conn) "") as [E|Hi].
    { split; [done|]. intros (Hc&_). apply Forall_cons in Hc as [(_&?&_) _]. done. }
    destruct (String.eqb_spec (cc_OIDCRedirectURI conn) "") as [E|Hr].
    { split; [done|]. intros (Hc&_). apply Forall_cons in Hc as [(_&_&?&_) _]. done. }
    destruct (String.eqb_spec (cc_OIDCClientID conn) "") as [E|Hci].
    { split; [done|]. intros (Hc&_). apply Forall_cons in Hc as [(_&_&_&?) _]. done. }
    rewrite IH, Forall_cons, NoDup_cons. unfold complete at 2.
    assert ((if cc_Default conn then d + 1 else d) + Z.of_nat (length (List.filter cc_Default l))
      = d + Z.of_nat (length (if cc_Default conn then conn :: List.filter cc_Default l
                              else List.filter cc_Default l))) as ->.
    { destruct (cc_Default conn); simpl; lia. }
    set_solver.
Qed.

(** ** Keys *)
Inductive key_kind := KSession | KPKCE | KRefreshLock | KRevoked | KReplay.
Definition store_key (l : KeyLayout) (k : key_kind) (id : string) : string :=
  match k with
  | KSession => SessionKey l id
  | KPKCE => PKCEKey l id
  | KRefreshLock => RefreshLockKey l id
  | KRevoked => RevokedKey l id
  | KReplay => ReplayKey l id
  end.
Definition kind_name (k : key_kind) : string :=
  match k with
  | KSession => "session" | KPKCE => "pkce" | KRefreshLock => "refresh_lock"
  | KRevoked => "revoked" | KReplay => "replay"
  end.

Lemma store_key_spec p a b c k id :
  store_key (layout_of p a b c) k id =
  or_str p "auth" +:+ ":" +:+ kind_name k +:+ ":" +:+ id.
Proof.
  assert (or_str p "auth" ≠ "") as Hp by by apply or_str_nonempty.
  destruct k; unfold store_key, layout_of, SessionKey, PKCEKey, RefreshLockKey, RevokedKey, ReplayKey;
    simpl; destruct (or_str p "auth"); try done; simpl; by rewrite app_assoc_str.
Qed.

Lemma kind_name_inj k k' : kind_name k = kind_name k' → k = k'.
Proof. by destruct k, k'. Qed.
Lemma kind_name_no_colon k : no_byte ":"%char (kind_name k).
Proof.
  apply cut_none. by destruct k.
Qed.

Lemma store_key_inj p p' a b c a' b' c' k k' id id' :
  no_byte ":"%char id → no_byte ":"%char id' →
  store_key (layout_of p a b c) k id = store_key (layout_of p' a' b' c') k' id' →
  or_str p "auth" = or_str p' "auth" ∧ k = k' ∧ id = id'.
Proof.
  intros Hid Hid'. rewrite !store_key_spec.
  assert (∀ x y z, x +:+ ":" +:+ y +:+ ":" +:+ z = (x +:+ str ":" +:+ y) +:+ str ":" +:+ z) as Hassoc.
  { intros. by rewrite !app_assoc_str. }
  rewrite !Hassoc. intros [E ->]%last_sep_inj; [|done..].
  apply last_sep_inj in E as [-> ?%kind_name_inj]; [done|apply kind_name_no_colon..].
Qed.

(** Connectors whose namespace is derived, not configured. *)
Definition derived (conn : ConnectorConfig) : Prop :=
  cc_SessionRedisPrefix conn = "" ∧ cc_CookieName conn = "".

Lemma app_ne_l p c s : p ≠ p +:+ String c s.
Proof. intros E%(f_equal len). rewrite len_app in E. unfold len in E. simpl in E. lia. Qed.

(** What [Normalize] derives for two connectors of different names, at most one
    of them the default, is different. *)
Lemma derived_distinct c base legacy x y :
  derived x → derived y → cc_ID x ≠ cc_ID y → cc_Default x = false ∨ cc_Default y = false →
  let x' := fill_connector c base legacy x in
  let y' := fill_connector c base legacy y in
  cc_SessionRedisPrefix x' ≠ cc_SessionRedisPrefix y' ∧ cc_CookieName x' ≠ cc_CookieName y'.
Proof.
  intros [Hx1 Hx2] [Hy1 Hy2] Hid Hd. simpl. rewrite Hx1, Hx2, Hy1, Hy2. unfold or_str. simpl.
  destruct (cc_Default x), (cc_Default y); [by destruct Hd|..].
  - split; apply app_ne_l.
  - split; intros E; symmetry in E; by apply app_ne_l in E.
  - split; intros E; apply app_inj_l in E; by injection E.
Qed.

Lemma Load_ok `{Unicode} c0 c :
  Load (Ok c0) = Ok c →
  Connectors c = Connectors (Normalize (ApplyDefaults c0)) ∧
  Forall complete (Connectors c) ∧ NoDup (cc_ID <$> Connectors c) ∧
  length (List.filter cc_Default (Connectors c)) = 1%nat.
Proof.
  unfold Load. cbn [res_bind]. generalize (Normalize_connectors (ApplyDefaults c0)).
  set (n := Normalize (ApplyDefaults c0)). clearbody n. intros Hn Hl.
  destruct (Validate n) as [c' [e|]] eqn:Ev; simplify_eq.
  assert (Connectors n ≠ []) as Hne.
  { rewrite Hn. unfold start_connectors. destruct (Connectors (ApplyDefaults c0)) as [|? [|? ?]]; done. }
  unfold Validate in Ev.
  destruct (String.eqb (RedisURL n) ""); [done|].
  destruct (String.eqb (CookieSigningSecret n) ""); [done|].
  destruct (_ || _); [done|]. destruct (String.eqb (AppBaseURL n) ""); [done|].
  destruct (Connectors n) as [|x l] eqn:El; [done|]. injection Ev as <- Ev.
  unfold validateConnectors in Ev. simpl Connectors in *. rewrite El in *.
  apply validate_loop_none in Ev as (Hc & Hnd & _ & Hd). split; [done|]. split; [done|].
  split; [done|]. lia.
Qed.

Lemma filter_one {A} (f : A → bool) l :
  length (List.filter f l) = 1%nat →
  ∃ d, List.find f l = Some d ∧ d ∈ l ∧ f d = true ∧ ∀ x, x ∈ l → f x = true → x = d.
Proof.
  induction l as [|x l IH]; simpl; [done|]. destruct (f x) eqn:Ef; simpl.
  - intros Hl. exists x. split; [done|]. split; [left|]. split; [done|].
    intros y [->|Hy]%elem_of_cons Hfy; [done|].
    assert (y ∈ List.filter f l) as Hin by (apply list_elem_of_In, filter_In; by rewrite <-list_elem_of_In).
    destruct (List.filter f l); [by apply elem_of_nil in Hin|done].
  - intros (d & ? & ? & ? & Hu)%IH. exists d. split; [done|]. split; [by right|]. split; [done|].
    intros y [->|Hy]%elem_of_cons Hfy; [congruence|by apply Hu].
Qed.

Lemma find_unique (l : list ConnectorConfig) x :
  NoDup (cc_ID <$> l) → x ∈ l → List.find (λ conn, String.eqb (cc_ID conn) (cc_ID x)) l = Some x.
Proof.
  induction l as [|y l IH]; intros Hnd Hx; [by apply elem_of_nil in Hx|].
  apply NoDup_cons in Hnd as [Hy Hnd]. simpl. destruct (String.eqb_spec (cc_ID y) (cc_ID x)) as [E|Hne].
  - apply elem_of_cons in Hx as [->|Hx]; [done|]. destruct Hy. rewrite E.
    by apply list_elem_of_fmap_2.
  - apply elem_of_cons in Hx as [->|Hx]; [done|]. by apply IH.
Qed.

(** The [i]-th connector of the configuration is derived: a configuration that
    lists none has the one the legacy fields describe. *)
Definition derived_at (c : Config) (i : nat) : Prop :=
  ∀ x, Connectors c !! i = Some x → derived x.

Lemma start_derived c i x : derived_at c i → start_connectors c !! i = Some x → derived x.
Proof.
  unfold derived_at, start_connectors. intros Hd.
  destruct (Connectors c) as [|y [|z l]].
  - destruct i as [|i]; [|done]. by intros [= <-].
  - destruct i as [|i]; [|done]. intros [= <-]. by apply (Hd y).
  - apply Hd.
Qed.

(** ** Theorems *)

(** Normalising a configuration twice is normalising it once, whatever
    the configuration. *)
Theorem normalize_idempotent c : Normalize (Normalize c) = Normalize c.
Proof.
  assert (start_connectors (Normalize c) = Connectors (Normalize c)) as E.
  { rewrite Normalize_connectors. unfold start_connectors at 1. rewrite Normalize_connectors.
    unfold start_connectors. by destruct (Connectors c) as [|x [|y l]]. }
  change (Normalize (Normalize c)) with (set_connectors c
    (fill_connector (Normalize c) (or_str (SessionRedisPrefix c) "auth")
       (or_str (CookieName c) "__Host-ess_session") <$> start_connectors (Normalize c))).
  change (Normalize c) with (set_connectors c (Connectors (Normalize c))) at 3.
  rewrite E. f_equal. rewrite Normalize_connectors, <-list_fmap_compose.
  apply list_fmap_ext. intros i x _. apply fill_connector_idem.
Qed.

(** In a loaded configuration every connector is found by its name, there
    is exactly one default connector, and an empty or unknown name falls back
    to it. *)
Theorem load_lookup `{Unicode} c0 c (Hl : Load (Ok c0) = Ok c) :
  (∀ x, x ∈ Connectors c → ConnectorByID c (cc_ID x) = Some x) ∧
  ∃ d, DefaultConnector c = Some d ∧ d ∈ Connectors c ∧ cc_Default d = true ∧
    (∀ x, x ∈ Connectors c → cc_Default x = true → x = d) ∧
    ∀ id, id ∉ cc_ID <$> Connectors c → ConnectorByID c id = Some d.
Proof.
  destruct (Load_ok c0 c Hl) as (_ & Hc & Hnd & Hone).
  apply filter_one in Hone as (d & Hf & Hd & Hdef & Huniq).
  assert (DefaultConnector c = Some d) as HD by (unfold DefaultConnector; by rewrite Hf).
  split.
  - intros x Hx. unfold ConnectorByID. rewrite Forall_forall in Hc.
    destruct (Hc x Hx) as [Hre _]. destruct (String.eqb_spec (cc_ID x) "") as [E|_].
    { by rewrite E in Hre. }
    by rewrite find_unique.
  - exists d. split_and!; try done. intros id Hid. unfold ConnectorByID.
    destruct (String.eqb id ""); [done|].
    destruct (List.find (λ conn, String.eqb (cc_ID conn) id) _) as [x|] eqn:Ef; [|done].
    apply find_some in Ef as [Hin E%String.eqb_eq]. destruct Hid. rewrite <-E.
    apply list_elem_of_fmap_2. by apply list_elem_of_In.
Qed.

(** C30: any two connectors of a loaded configuration that leave prefix and
    cookie name to be derived, whatever the others do, share neither: their cookie names differ, and no two of
    their Redis keys, of whatever kinds, coincide for colon-free ids; within a
    connector, keys coincide only for the same kind and id. *)
Theorem connector_isolation `{Unicode} c0 c i j x y
    (Hl : Load (Ok c0) = Ok c) (Hi : derived_at c0 i) (Hj : derived_at c0 j)
    (Hx : Connectors c !! i = Some x) (Hy : Connectors c !! j = Some y) :
  (i ≠ j → cc_CookieName x ≠ cc_CookieName y) ∧
  ∀ k id k' id', no_byte ":"%char id → no_byte ":"%char id' →
    store_key (connector_KeyLayout x) k id = store_key (connector_KeyLayout y) k' id' →
    i = j ∧ k = k' ∧ id = id'.
Proof.
  destruct (Load_ok c0 c Hl) as (Hn & Hc & Hnd & Hone).
  assert (i ≠ j → cc_ID x ≠ cc_ID y) as Hids.
  { intros Hne E. apply Hne. eapply (NoDup_lookup _ i j (cc_ID x) Hnd); rewrite list_lookup_fmap.
    - by rewrite Hx. - by rewrite Hy, E. }
  assert (i ≠ j → cc_Default x = false ∨ cc_Default y = false) as Hdefs.
  { intros Hne. destruct (cc_Default x) eqn:Dx, (cc_Default y) eqn:Dy; auto.
    apply filter_one in Hone as (d & _ & _ & _ & Hu). destruct (Hids Hne).
    rewrite (Hu x), (Hu y); eauto using list_elem_of_lookup_2. }
  rewrite Hn, Normalize_connectors, list_lookup_fmap in Hx, Hy.
  set (c1 := ApplyDefaults c0) in *.
  change (derived_at c1 i) in Hi. change (derived_at c1 j) in Hj.
  set (f := fill_connector c1 _ _) in *.
  destruct (start_connectors c1 !! i) as [x0|] eqn:Ex; [|done].
  destruct (start_connectors c1 !! j) as [y0|] eqn:Ey; [|done].
  assert (x = f x0) as -> by by injection Hx.
  assert (y = f y0) as -> by by injection Hy.
  assert (i ≠ j → cc_SessionRedisPrefix (f x0) ≠ cc_SessionRedisPrefix (f y0) ∧
    cc_CookieName (f x0) ≠ cc_CookieName (f y0)) as Hdist.
  { intros Hne. apply derived_distinct;
      [by apply (start_derived c1 i)|by apply (start_derived c1 j)|by apply Hids|by apply Hdefs]. }
  split; [intros Hne; by apply Hdist|].
  intros k id k' id' Hid Hid' E. apply store_key_inj in E as (E & -> & ->); [|done..].
  split; [|done]. destruct (decide (i = j)) as [|Hne]; [done|]. destruct (Hdist Hne) as [Hp _].
  assert (∀ z, or_str (cc_SessionRedisPrefix (f z)) "auth" = cc_SessionRedisPrefix (f z)) as Hfix.
  { intros z. simpl. unfold or_str at 1. rewrite (proj2 (String.eqb_neq _ _)); [done|].
    apply or_str_nonempty. destruct (cc_Default z); [by apply or_str_nonempty|].
    intros [_ [=]]%app_nil_inv. }
  rewrite !Hfix in E. done.
Qed.

(** A connector may be called "session": its keys then fall under the pattern
    the default connector's subject/email scan uses. *)
Theorem scan_pattern_overlap :
  connectorIDRe "session" = true ∧
  ∀ base id, base ≠ "" →
    HasPrefix (SessionKey (layout_of (base +:+ ":" +:+ "session") 0 0 0) id)
      (SessionPrefix (layout_of base 0 0 0)) = true.
Proof.
  split; [done|]. intros base id Hb. unfold SessionKey, layout_of, or_str. simpl.
  destruct (String.eqb_spec base "") as [|_]; [done|].
  destruct (String.eqb_spec (base +:+ ":session") "") as [[_ [=]]%app_nil_inv|_].
  apply HasPrefix_spec. exists ("session:" +:+ id). by rewrite !app_assoc_str.
Qed.

(** ** Witnesses *)
Definition demo_connector (id : string) (dflt : bool) : ConnectorConfig :=
  {| cc_ID := id; cc_Default := dflt; cc_ProviderPluginID := "";
     cc_OIDCIssuer := "https://idp"; cc_OIDCRedirectURI := "https://app/cb";
     cc_OIDCClientID := "client"; cc_OIDCClientSecret := ""; cc_OIDCScopes := [];
     cc_OIDCAudience := ""; cc_OIDCClaimsSource := ""; cc_SessionRedisPrefix := "";
     cc_CookieName := ""; cc_SessionTTLSeconds := 0; cc_SessionPKCETTLSeconds := 0;
     cc_SessionRefreshLockTTLSeconds := 0;
     cc_ClaimMapping := {| AuthoritativeIDClaim := ""; IDKind := ""; EmailClaim := "";
                           NameClaim := ""; RolesClaim := "" |} |}.

Definition demo_config : Config :=
  {| OIDCIssuer := ""; OIDCRedirectURI := ""; OIDCClientID := ""; OIDCClientSecret := "";
     OIDCScopes := []; OIDCAudience := ""; OIDCClaimsSource := ""; RedisURL := "redis://r";
     SessionRedisPrefix := ""; c_SessionTTLSeconds := 0; c_SessionPKCETTLSeconds := 0;
     c_SessionRefreshLockTTLSeconds := 0; SessionRefreshEarlySeconds := 0; CookieName := "";
     CookieSigningSecret := "0123456789abcdef"; CookieSecure := true; CookieSameSiteStr := "";
     CookieDomain := ""; CookieSameSite := SameSiteUnset; AppBaseURL := "https://app.example";
     LoginErrorRedirectPath := ""; AllowedRedirectOrigins := []; AllowedRedirectPaths := [];
     HTTPPort := ""; AdminSecret := ""; PostLoginWebhookURL := ""; CORSAllowedOrigins := [];
     ProviderPluginID := "";
     Connectors := [demo_connector "web" true; demo_connector "telegram" false] |}.

Definition demo_loaded : Config :=
  Eval vm_compute in (Validate (H := ascii_unicode) (Normalize (ApplyDefaults demo_config))).1.

Lemma demo_load : Load (H := ascii_unicode) (Ok demo_config) = Ok demo_loaded.
Proof. vm_compute. reflexivity. Qed.

Lemma load_lookup_witness :
  Load (H := ascii_unicode) (Ok demo_config) = Ok demo_loaded ∧
  ConnectorByID demo_loaded "telegram" = Connectors demo_loaded !! 1%nat ∧
  ∃ d, DefaultConnector demo_loaded = Some d.
Proof.
  split; [apply demo_load|].
  destruct (load_lookup (H := ascii_unicode) demo_config demo_loaded demo_load) as [Hf (d & Hd & _)].
  split; [|by exists d].
  destruct (Connectors demo_loaded !! 1%nat) as [x|] eqn:Ex; [|vm_compute in Ex; discriminate].
  rewrite <-(Hf x) by by eapply list_elem_of_lookup_2.
  vm_compute in Ex. injection Ex as <-. reflexivity.
Defined.

(** Two derived connectors beside one with a prefix of its own. *)
Definition named_connector : ConnectorConfig :=
  let d := demo_connector "partner" false in
  {| cc_ID := cc_ID d; cc_Default := cc_Default d; cc_ProviderPluginID := cc_ProviderPluginID d;
     cc_OIDCIssuer := cc_OIDCIssuer d; cc_OIDCRedirectURI := cc_OIDCRedirectURI d;
     cc_OIDCClientID := cc_OIDCClientID d; cc_OIDCClientSecret := ""; cc_OIDCScopes := [];
     cc_OIDCAudience := ""; cc_OIDCClaimsSource := ""; cc_SessionRedisPrefix := "partners";
     cc_CookieName := "partner_session"; cc_SessionTTLSeconds := 0; cc_SessionPKCETTLSeconds := 0;
     cc_SessionRefreshLockTTLSeconds := 0; cc_ClaimMapping := cc_ClaimMapping d |}.
Definition mixed_config : Config := set_connectors demo_config (Connectors demo_config ++ [named_connector]).
Definition mixed_loaded : Config :=
  Eval vm_compute in (Validate (H := ascii_unicode) (Normalize (ApplyDefaults mixed_config))).1.
Lemma mixed_load : Load (H := ascii_unicode) (Ok mixed_config) = Ok mixed_loaded.
Proof. vm_compute. reflexivity. Qed.

Lemma connector_isolation_witness :
  ∃ x y, Connectors mixed_loaded !! 0%nat = Some x ∧ Connectors mixed_loaded !! 1%nat = Some y ∧
    cc_CookieName x ≠ cc_CookieName y.
Proof.
  destruct (Connectors mixed_loaded !! 0%nat) as [x|] eqn:Ex; [|vm_compute in Ex; discriminate].
  destruct (Connectors mixed_loaded !! 1%nat) as [y|] eqn:Ey; [|vm_compute in Ey; discriminate].
  exists x, y. split; [done|]. split; [done|].
  assert (derived_at mixed_config 0 ∧ derived_at mixed_config 1) as [H0 H1].
  { split; intros z [= <-]; by split. }
  destruct (connector_isolation (H := ascii_unicode) mixed_config mixed_loaded 0 1 x y mixed_load H0 H1 Ex Ey)
    as [Hne _]. by apply Hne.
Defined.
