(* ===== verification/GoDuration.v ===== *)
(** * Durations as text (time.ParseDuration) *)

From S2P Require Import Prelude.
From S2P Require Import GoStrings.
From S2P Require Import GoAny.
From S2P Require Import GoTime.

Definition is_dec (c : ascii) : bool := (48 <=? byte_of c) && (byte_of c <=? 57).

(** The leading digits as a number; [None] on overflow. *)
Fixpoint leadingInt (s : string) (x : Z) : option (Z * string) :=
  match s with
  | String c r =>
      if is_dec c then
        if 2^63 / 10 <? x then None
        else let y := x * 10 + (byte_of c - 48) in
             if 2^63 <? y then None else leadingInt r y
      else Some (x, s)
  | "" => Some (x, "")
  end.

(** The digits of a fraction; digits beyond the 63 bits are dropped. *)
Fixpoint leadingFraction (s : string) (x : Z) (scale : float64) (overflow : bool)
    : Z * float64 * string :=
  match s with
  | String c r =>
      if is_dec c then
        let y := x * 10 + (byte_of c - 48) in
        if overflow || ((2^63 - 1) / 10 <? x) || (2^63 <? y) then leadingFraction r x scale true
        else leadingFraction r y (f64_mul scale (f64_of_Z 10)) false
      else (x, scale, s)
  | "" => (x, scale, "")
  end.

(** The unit: up to the next digit or dot. *)
Fixpoint take_unit (s : string) : string * string :=
  match s with
  | String c r => if is_dec c || (byte_of c =? 46) then ("", s)
                  else let '(u, rest) := take_unit r in (String c u, rest)
  | "" => ("", "")
  end.

Definition unit_of (u : string) : option Z :=
  if String.eqb u "ns" then Some 1
  else if String.eqb u "us" || String.eqb u (of_bytes [0xC2; 0xB5; 0x73])
       || String.eqb u (of_bytes [0xCE; 0xBC; 0x73]) then Some 1000
  else if String.eqb u "ms" then Some 1000000
  else if String.eqb u "s" then Some Second
  else if String.eqb u "m" then Some Minute
  else if String.eqb u "h" then Some Hour
  else None.

(** The quoting of package time: bytes outside printable ASCII in hexadecimal. *)
Definition time_quote (s : string) : string :=
  let esc z := if (128 <=? z) || (z <? 32)
               then [92; 120; byte_of (lowhex (z / 16)); byte_of (lowhex (z `mod` 16))]
               else if (z =? 34) || (z =? 92) then [92; z] else [z] in
  of_bytes (34 :: concat (esc <$> bytes_of s) ++ [34]).

Definition invalid_duration (orig : string) : string := "time: invalid duration " +:+ time_quote orig.

(** The loop over [number unit] parts. *)
Fixpoint duration_loop (n : nat) (orig s : string) (d : Z) : res Z :=
  match n, s with
  | _, "" => Ok d
  | O, _ => Err (invalid_duration orig)
  | S n', String c0 _ =>
      if negb ((byte_of c0 =? 46) || is_dec c0) then Err (invalid_duration orig)
      else
        match leadingInt s 0 with
        | None => Err (invalid_duration orig)
        | Some (v, s1) =>
            let pre := negb (String.length s =? String.length s1)%nat in
            let '(f, scale, s2, post) :=
              match s1 with
              | String c r => if byte_of c =? 46 then
                                let '(f, scale, r') := leadingFraction r 0 (f64_of_Z 1) false in
                                (f, scale, r', negb (String.length r =? String.length r')%nat)
                              else (0, f64_of_Z 1, s1, false)
              | "" => (0, f64_of_Z 1, s1, false)
              end in
            if negb pre && negb post then Err (invalid_duration orig)
            else
              let '(u, s3) := take_unit s2 in
              if String.eqb u "" then Err ("time: missing unit in duration " +:+ time_quote orig)
              else
                match unit_of u with
                | None => Err ("time: unknown unit " +:+ time_quote u +:+ " in duration " +:+ time_quote orig)
                | Some unit =>
                    if 2^63 / unit <? v then Err (invalid_duration orig)
                    else
                      let v := v * unit +
                        (if 0 <? f then f64_trunc (f64_mul (f64_of_Z f) (f64_div (f64_of_Z unit) scale)) else 0) in
                      if 2^63 <? v then Err (invalid_duration orig)
                      else if 2^63 <? d + v then Err (invalid_duration orig)
                      else duration_loop n' orig s3 (d + v)
                end
        end
  end.

Definition ParseDuration (orig : string) : res Z :=
  let '(neg, s) := match orig with
                   | String c r => if byte_of c =? 45 then (true, r)
                                   else if byte_of c =? 43 then (false, r) else (false, orig)
                   | "" => (false, "")
                   end in
  if String.eqb s "0" then Ok 0
  else if String.eqb s "" then Err (invalid_duration orig)
  else
    try d <- duration_loop (String.length s) orig s 0 ;
    if neg then Ok (- d)
    else if 2^63 - 1 <? d then Err (invalid_duration orig)
    else Ok d.

Example ParseDuration_ex1 : ParseDuration "1m30.5s" = Ok 90500000000.
Proof. vm_compute. reflexivity. Qed.
Example ParseDuration_ex2 : ParseDuration "-.5h" = Ok (-1800000000000).
Proof. vm_compute. reflexivity. Qed.
Example ParseDuration_ex3 : is_ok (ParseDuration "10") = false.
Proof. vm_compute. reflexivity. Qed.
