(* ===== verification/GoUrl.v ===== *)
(** * net/url

    [Parse] as Go 1.26's net/url does it: scheme, query and fragment cut off,
    the authority checked (user info, port, IP literals) and unescaped, the
    path unescaped; the escaping functions and the query codec. *)

From S2P Require Import Prelude.
From S2P Require Import GoStrings.

(** ** Bytes and escapes *)
Definition unhex (c : ascii) : option Z :=
  let z := byte_of c in
  if (48 <=? z) && (z <=? 57) then Some (z - 48)
  else if (97 <=? z) && (z <=? 102) then Some (z - 87)
  else if (65 <=? z) && (z <=? 70) then Some (z - 55)
  else None.

Inductive encoding := EncPath | EncPathSegment | EncHost | EncZone | EncUserPassword
  | EncQueryComponent | EncFragment.
#[global] Instance encoding_eq_dec : EqDecision encoding.
Proof. solve_decision. Defined.

Definition byte_in (l : list Z) (z : Z) : bool := existsb (Z.eqb z) l.

Definition is_alnum (z : Z) : bool :=
  ((97 <=? z) && (z <=? 122)) || ((65 <=? z) && (z <=? 90)) || ((48 <=? z) && (z <=? 57)).

Definition shouldEscape (z : Z) (mode : encoding) : bool :=
  if is_alnum z then false
  else if (match mode with EncHost | EncZone => true | _ => false end) &&
          byte_in [33; 36; 38; 39; 40; 41; 42; 43; 44; 59; 61; 58; 91; 93; 60; 62; 34] z then false
  else if byte_in [45; 95; 46; 126] z then false                       (* - _ . ~ *)
  else if byte_in [36; 38; 43; 44; 47; 58; 59; 61; 63; 64] z then      (* $ & + , / : ; = ? @ *)
    match mode with
    | EncPath => z =? 63
    | EncPathSegment => byte_in [47; 59; 44; 63] z
    | EncUserPassword => byte_in [64; 47; 63; 58] z
    | EncQueryComponent => true
    | EncFragment => false
    | _ => true
    end
  else match mode with
       | EncFragment => negb (byte_in [33; 40; 41; 42] z)
       | _ => true
       end.

Definition err_escape (s : string) : string := "invalid URL escape".

(** [unescape]: the whole string is checked first, so an error anywhere fails
    it; [None] is an error. *)
Fixpoint unescape (mode : encoding) (s : string) : option string :=
  match s with
  | "" => Some ""
  | String c r =>
      if byte_of c =? 37 then
        match r with
        | String a (String b r') =>
            match unhex a, unhex b with
            | Some x, Some y =>
                let v := x * 16 + y in
                let pct := (x =? 2) && (y =? 5) in
                let bad :=
                  match mode with
                  | EncHost => (x <? 8) && negb pct
                  | EncZone => negb pct && negb (v =? 32) && shouldEscape v EncHost
                  | _ => false
                  end in
                if bad then None
                else match unescape mode r' with
                     | Some t => Some (String (of_byte v) t) | None => None end
            | _, _ => None
            end
        | _ => None
        end
      else if (match mode with EncHost | EncZone => true | _ => false end) &&
              (byte_of c <? 0x80) && shouldEscape (byte_of c) mode then None
      else
        let c' := if (byte_of c =? 43) && bool_decide (mode = EncQueryComponent)
                  then " "%char else c in
        match unescape mode r with Some t => Some (String c' t) | None => None end
  end.

Definition upperhex (z : Z) : ascii := of_byte (if z <? 10 then 48 + z else 55 + z).
Fixpoint escape (mode : encoding) (s : string) : string :=
  match s with
  | "" => ""
  | String c r =>
      let z := byte_of c in
      (if (z =? 32) && bool_decide (mode = EncQueryComponent) then "+"
       else if shouldEscape z mode then
         String (of_byte 37) (String (upperhex (z / 16)) (str (upperhex (z `mod` 16))))
       else str c) +:+ escape mode r
  end.

Definition QueryEscape (s : string) : string := escape EncQueryComponent s.
Definition PathEscape (s : string) : string := escape EncPathSegment s.

(** ** IP addresses (net/netip) *)
Fixpoint dec_field_aux (n : nat) (s : string) (acc : Z) (len : nat) : option (Z * string) :=
  match n, s with
  | S n', String c r =>
      let z := byte_of c in
      if (48 <=? z) && (z <=? 57) then
        (* no leading zero, at most 255 *)
        if (len =? 1)%nat && (acc =? 0) then None
        else let acc' := acc * 10 + (z - 48) in
             if 255 <? acc' then None else dec_field_aux n' r acc' (S len)
      else if (len =? 0)%nat then None else Some (acc, s)
  | _, _ => if (len =? 0)%nat then None else Some (acc, s)
  end.
(** The four fields of a dotted IPv4 address. *)
Definition ParseIPv4 (s : string) : option (list Z) :=
  match (λ p, dec_field_aux (S (String.length p)) p 0 0) <$> Split s "." with
  | [Some (a, ""); Some (b, ""); Some (c, ""); Some (d, "")] => Some [a; b; c; d]
  | _ => None
  end.

Fixpoint hex_group (n : nat) (s : string) (acc : Z) (len : nat) : option (Z * nat * string) :=
  match s with
  | String c r =>
      match unhex c with
      | Some d => match n with O => None | S n' => hex_group n' r (acc * 16 + d) (S len) end
      | None => Some (acc, len, s)
      end
  | "" => Some (acc, len, "")
  end.

(** The loop over colon-separated groups: bytes so far, position of the
    ellipsis. *)
Fixpoint v6_loop (n : nat) (s : string) (ip : list Z) (ellipsis : option nat)
    : option (list Z * option nat) :=
  match n with
  | O => if String.eqb s "" then Some (ip, ellipsis) else None
  | S n' =>
      match hex_group 4 s 0 0 with
      | None | Some (_, O, _) => None
      | Some (acc, _, r) =>
          if HasPrefix r "." then
            if (match ellipsis with None => true | _ => false end) && negb (length ip =? 12)%nat
            then None
            else if (16 <? length ip + 4)%nat then None
            else match ParseIPv4 s with
                 | Some l => Some (ip ++ l, ellipsis) | None => None end
          else
            let ip := ip ++ [acc / 256; acc `mod` 256] in
            match r with
            | "" => Some (ip, ellipsis)
            | String c r1 =>
                if negb (byte_of c =? 58) then None
                else match r1 with
                     | "" => None
                     | String c1 r2 =>
                         if byte_of c1 =? 58 then
                           match ellipsis with
                           | Some _ => None
                           | None => if String.eqb r2 "" then Some (ip, Some (length ip))
                                     else v6_loop n' r2 ip (Some (length ip))
                           end
                         else v6_loop n' r1 ip ellipsis
                     end
            end
      end
  end.

(** An IPv6 address without zone: its 16 bytes. *)
Definition parse_v6 (s : string) : option (list Z) :=
  let '(s, ellipsis) := match cut_prefix "::" s with
                        | Some r => (r, Some O) | None => (s, None) end in
  if (match ellipsis with Some _ => true | None => false end) && String.eqb s ""
  then Some (replicate 16 0)
  else
    match v6_loop 8 s [] ellipsis with
    | None => None
    | Some (ip, e) =>
        let n := (16 - length ip)%nat in
        match e with
        | None => if (n =? 0)%nat then Some ip else None
        | Some k => if (n =? 0)%nat then None
                    else Some (take k ip ++ replicate n 0 ++ drop k ip)
        end
    end.

Definition ParseIPv6 (s : string) : option (list Z) :=
  match cut "%" s with
  | Some (s, zone) => if String.eqb zone "" then None else parse_v6 s
  | None => parse_v6 s
  end.

(** The first 12 bytes of the IPv4-mapped addresses. *)
Definition v4_in_v6 (ip : list Z) : bool :=
  bool_decide (take 12 ip = replicate 10 0 ++ [255; 255]).

Example parse_v6_ex1 : ParseIPv6 "2001:db8::1" =
  Some [0x20; 0x01; 0x0d; 0xb8; 0; 0; 0; 0; 0; 0; 0; 0; 0; 0; 0; 1].
Proof. vm_compute. reflexivity. Qed.
Example parse_v6_ex2 : ParseIPv6 "::ffff:10.0.0.1" =
  Some [0; 0; 0; 0; 0; 0; 0; 0; 0; 0; 255; 255; 10; 0; 0; 1].
Proof. vm_compute. reflexivity. Qed.
Example parse_v6_ex3 : ParseIPv6 "1::2::3" = None.
Proof. vm_compute. reflexivity. Qed.

(** ** URLs *)
Record URL := {
  Scheme : string; Opaque : string; User : option string; Host : string; Path : string;
  RawPath : string; ForceQuery : bool; RawQuery : string; Fragment : string }.

Definition empty_url : URL :=
  {| Scheme := ""; Opaque := ""; User := None; Host := ""; Path := ""; RawPath := "";
     ForceQuery := false; RawQuery := ""; Fragment := "" |}.

(** The scheme of a URL and what follows it. *)
Fixpoint scheme_loop (s acc : string) : option (string * string) :=
  match s with
  | "" => None
  | String c r =>
      let z := byte_of c in
      if ((97 <=? z) && (z <=? 122)) || ((65 <=? z) && (z <=? 90)) then scheme_loop r (acc +:+ str c)
      else if ((48 <=? z) && (z <=? 57)) || byte_in [43; 45; 46] z then
        if String.eqb acc "" then None else scheme_loop r (acc +:+ str c)
      else if z =? 58 then Some (acc, r)
      else None
  end.
Definition getScheme (s : string) : res (string * string) :=
  match scheme_loop s "" with
  | None => Ok ("", s)
  | Some ("", _) => Err "missing protocol scheme"
  | Some (sch, r) => Ok (sch, r)
  end.

Definition validOptionalPort (p : string) : bool :=
  match p with
  | "" => true
  | String c r => (byte_of c =? 58) &&
      forallb (λ c, let z := byte_of c in (48 <=? z) && (z <=? 57)) (String.list_ascii_of_string r)
  end.

Definition validUserinfo (s : string) : bool :=
  forallb (λ c, let z := byte_of c in
    is_alnum z || byte_in [45; 46; 95; 58; 126; 33; 36; 38; 39; 40; 41; 42; 43; 44; 59; 61; 37; 64] z)
    (String.list_ascii_of_string s).

Definition parseHost (host : string) : res string :=
  match cut_last "[" host with
  | Some (String _ _, _) => Err "invalid IP-literal"
  | Some ("", inner) =>
      match cut_last "]" inner with
      | None => Err "missing ']' in host"
      | Some (hostname, colonPort) =>
          if negb (validOptionalPort colonPort) then Err "invalid port after host"
          else
            let un := match cut "%25" hostname with
                      | Some (h, z) =>
                          match unescape EncHost h, unescape EncZone ("%25" +:+ z) with
                          | Some a, Some b => Some (a +:+ b) | _, _ => None end
                      | None => unescape EncHost hostname
                      end in
            match un with
            | None => Err "invalid URL escape"
            | Some h =>
                match ParseIPv6 h with
                | Some ip => if v4_in_v6 ip then Err "invalid IP-literal"
                             else Ok ("[" +:+ h +:+ "]" +:+ colonPort)
                | None => Err "invalid host"
                end
            end
      end
  | None =>
      let chk := match cut ":" host with
                 | None => true
                 | Some (_, p) => validOptionalPort (":" +:+ p)
                 end in
      if negb chk then Err "invalid port after host"
      else match unescape EncHost host with
           | Some h => Ok h
           | None => Err "invalid character in host name"
           end
  end.

Definition parseAuthority (a : string) : res (option string * string) :=
  match cut_last "@" a with
  | None => try h <- parseHost a ; Ok (None, h)
  | Some (userinfo, host) =>
      try h <- parseHost host ;
      if negb (validUserinfo userinfo) then Err "net/url: invalid userinfo"
      else match unescape EncUserPassword userinfo with
           | Some _ => Ok (Some userinfo, h)
           | None => Err "invalid URL escape"
           end
  end.

Definition has_ctl (s : string) : bool :=
  existsb (λ z, (z <? 32) || (z =? 127)) (bytes_of s).

(** [setPath]: the decoded path, and the raw one when re-escaping the decoded
    path would not give it back. *)
Definition set_path (u : URL) (p : string) : res URL :=
  match unescape EncPath p with
  | None => Err "invalid URL escape"
  | Some path =>
      Ok {| Scheme := Scheme u; Opaque := Opaque u; User := User u; Host := Host u; Path := path;
            RawPath := if String.eqb (escape EncPath path) p then "" else p;
            ForceQuery := ForceQuery u; RawQuery := RawQuery u; Fragment := Fragment u |}
  end.

(** [validEncoded] and [EscapedPath] *)
Definition validEncoded (s : string) (mode : encoding) : bool :=
  forallb (λ c, let z := byte_of c in
    byte_in [33; 36; 38; 39; 40; 41; 42; 43; 44; 59; 61; 58; 64; 91; 93; 37] z || negb (shouldEscape z mode))
    (String.list_ascii_of_string s).
Definition EscapedPath (u : URL) : string :=
  if negb (String.eqb (RawPath u) "") && validEncoded (RawPath u) EncPath
     && bool_decide (unescape EncPath (RawPath u) = Some (Path u)) then RawPath u
  else if String.eqb (Path u) "*" then "*"
  else escape EncPath (Path u).

(** The path part of a URL up to the authority: the authority, if the text
    starts with one, and the rest. *)
Definition split_authority (scheme rest : string) : option string * string :=
  if (negb (String.eqb scheme "") || negb (HasPrefix rest "///")) && HasPrefix rest "//" then
    match cut "/" (TrimPrefix rest "//") with
    | Some (a, r) => (Some a, "/" +:+ r)
    | None => (Some (TrimPrefix rest "//"), "")
    end
  else (None, rest).

Section parse.
Context `{Unicode}.

Definition parse_url (s : string) : res URL :=
  if has_ctl s then Err "net/url: invalid control character in URL"
  else if String.eqb s "*" then
    Ok {| Scheme := ""; Opaque := ""; User := None; Host := ""; Path := "*"; RawPath := "";
          ForceQuery := false; RawQuery := ""; Fragment := "" |}
  else
    try sr <- getScheme s ;
    let scheme := ToLower (fst sr) in
    let '(rest, force, query) :=
      match cut "?" (snd sr) with
      | Some (r, "") => (r, true, "")
      | Some (r, q) => (r, false, q)
      | None => (snd sr, false, "")
      end in
    let u host user opaque :=
      {| Scheme := scheme; Opaque := opaque; User := user; Host := host; Path := ""; RawPath := "";
         ForceQuery := force; RawQuery := query; Fragment := "" |} in
    if negb (HasPrefix rest "/") && negb (String.eqb scheme "") then Ok (u "" None rest)
    else if negb (HasPrefix rest "/") &&
            Contains (match cut "/" rest with Some (seg, _) => seg | None => rest end) ":" then
      Err "first path segment in URL cannot contain colon"
    else
      match split_authority scheme rest with
      | (Some authority, rest') =>
          try uh <- parseAuthority authority ;
          set_path (u (snd uh) (fst uh) "") rest'
      | (None, rest') => set_path (u "" None "") rest'
      end.

(** [url.Parse] *)
Definition Parse (rawURL : string) : res URL :=
  let '(s, frag) := match cut "#" rawURL with Some (a, b) => (a, b) | None => (rawURL, "") end in
  match parse_url s with
  | Err e => Err ("parse " +:+ Quote s +:+ ": " +:+ e)
  | Ok u =>
      if String.eqb frag "" then Ok u
      else match unescape EncFragment frag with
           | None => Err ("parse " +:+ Quote rawURL +:+ ": invalid URL escape")
           | Some f =>
               Ok {| Scheme := Scheme u; Opaque := Opaque u; User := User u; Host := Host u;
                     Path := Path u; RawPath := RawPath u; ForceQuery := ForceQuery u;
                     RawQuery := RawQuery u; Fragment := f |}
           end
  end.
End parse.

Example Parse_ex1 :
  (λ r, match r with Ok u => Some (Scheme u, Host u, Path u, RawQuery u, Fragment u) | Err _ => None end)
    (Parse (H := ascii_unicode) "HTTPS://me@App.Example:8443/a%20b?q=1#f") =
  Some ("https", "App.Example:8443", "/a b", "q=1", "f").
Proof. vm_compute. reflexivity. Qed.
Example Parse_ex2 : is_ok (Parse (H := ascii_unicode) "https://app.example\@evil.example/") = false.
Proof. vm_compute. reflexivity. Qed.

(** ** What an accepted host is made of *)
Definition host_byte (c : ascii) : Prop :=
  0x80 ≤ byte_of c ∨ byte_of c = 37 ∨ shouldEscape (byte_of c) EncHost = false.

Lemma hex_host_byte h v : unhex h = Some v → host_byte h.
Proof.
  unfold unhex, host_byte, shouldEscape, is_alnum. intros Hh. right. right.
  destruct ((48 <=? byte_of h) && (byte_of h <=? 57)) eqn:E1; [by rewrite !orb_true_r|].
  destruct ((97 <=? byte_of h) && (byte_of h <=? 102)) eqn:E2.
  { bool_prop. by rewrite (proj2 (Z.leb_le 97 _)), (proj2 (Z.leb_le _ 122)) by lia. }
  destruct ((65 <=? byte_of h) && (byte_of h <=? 70)) eqn:E3; [|done].
  bool_prop. rewrite (proj2 (Z.leb_le 65 _)), (proj2 (Z.leb_le _ 90)) by lia.
  by rewrite orb_true_r.
Qed.

Definition host_string (s : string) : Prop := Forall host_byte (String.list_ascii_of_string s).

Lemma host_string_app s t : host_string (s +:+ t) ↔ host_string s ∧ host_string t.
Proof.
  unfold host_string. induction s as [|c s IH]; simpl; [rewrite Forall_nil; tauto|].
  rewrite !Forall_cons, IH. tauto.
Qed.

Lemma unescape_host_bytes mode s t :
  mode = EncHost ∨ mode = EncZone → unescape mode s = Some t → host_string s.
Proof.
  intros Hm. revert t. induction (Wf_nat.well_founded_ltof _ String.length s) as [s _ IH]. intros t.
  destruct s as [|c r]; [constructor|]. cbn [unescape]. intros Hu.
  destruct (byte_of c =? 37) eqn:Hc.
  - destruct r as [|a [|b r']]; [done..|].
    destruct (unhex a) as [x|] eqn:Ha; [|done]. destruct (unhex b) as [y|] eqn:Hb; [|done].
    assert (∃ t', unescape mode r' = Some t') as [t' Hr].
    { destruct (unescape mode r'); [eauto|]. by destruct Hm as [-> | ->]; go_case_in Hu. }
    apply List.Forall_cons; [right; left; by apply Z.eqb_eq|].
    apply List.Forall_cons; [by eapply hex_host_byte|].
    apply List.Forall_cons; [by eapply hex_host_byte|].
    eapply IH; [|done]. unfold Wf_nat.ltof. simpl. lia.
  - assert (host_byte c ∧ ∃ t', unescape mode r = Some t') as [Hb [t' Hr]].
    { destruct (unescape mode r); [|by destruct Hm as [-> | ->]; go_case_in Hu]. split; [|eauto].
      unfold host_byte. destruct (byte_of c <? 0x80) eqn:Hlt; [|left; by apply Z.ltb_ge].
      right. right. destruct Hm as [-> | ->]; simpl in Hu.
      - by destruct (shouldEscape (byte_of c) EncHost).
      - change (shouldEscape (byte_of c) EncZone) with (shouldEscape (byte_of c) EncHost) in Hu.
        by destruct (shouldEscape (byte_of c) EncHost). }
    apply List.Forall_cons; [done|]. eapply IH; [|done]. unfold Wf_nat.ltof. simpl. lia.
Qed.

Lemma digits_host r :
  forallb (λ c, let z := byte_of c in (48 <=? z) && (z <=? 57)) (String.list_ascii_of_string r) = true →
  host_string r.
Proof.
  intros Hd. apply Forall_forall. intros c Hc. apply forallb_forall with (x := c) in Hd.
  - right. right. unfold shouldEscape, is_alnum. cbv zeta in Hd. rewrite Hd. by rewrite !orb_true_r.
  - by apply list_elem_of_In.
Qed.

Lemma port_host p : validOptionalPort p = true → host_string p.
Proof.
  destruct p as [|c r]; [constructor|]. simpl. intros [Hc Hd]%andb_true_iff.
  apply List.Forall_cons; [|by apply digits_host]. right. right. apply Z.eqb_eq in Hc. by rewrite Hc.
Qed.

Lemma parseHost_bytes host h : parseHost host = Ok h → host_string host.
Proof.
  unfold parseHost. destruct (cut_last "[" host) as [[[|? ?] inner]|] eqn:El; [|done|].
  - apply cut_last_sound in El as ->. destruct (cut_last "]" inner) as [[hn p]|] eqn:Er; [|done].
    apply cut_last_sound in Er as ->. destruct (validOptionalPort p) eqn:Hp; [|done]. simpl negb. cbv iota.
    intros Hx. rewrite !host_string_app. split; [constructor|].
    assert (host_string "[" ∧ host_string "]") as [??].
    { split; (apply List.Forall_cons; [right; right; reflexivity|constructor]). }
    split; [done|]. split; [|split; [done|by apply port_host]].
    destruct (cut "%25" hn) as [[a z]|] eqn:Ez.
    + apply cut_sound in Ez as ->. rewrite <-app_assoc_str, host_string_app.
      destruct (unescape EncHost a) eqn:Ea; [|done].
      destruct (unescape EncZone ("%25" +:+ z)) eqn:Eb; [|done].
      apply unescape_host_bytes in Ea, Eb; auto. rewrite host_string_app in Eb.
      rewrite host_string_app. tauto.
    + destruct (unescape EncHost hn) eqn:Ea; [|done]. by eapply unescape_host_bytes in Ea; auto.
  - destruct (negb _); [done|]. destruct (unescape EncHost host) eqn:Eu; [|done].
    intros _. by eapply unescape_host_bytes in Eu; auto.
Qed.

(** ** Where the authority lies in the text *)
Lemma scheme_loop_sound s acc sch r :
  scheme_loop s acc = Some (sch, r) → acc +:+ s = sch +:+ ":" +:+ r.
Proof.
  revert acc. induction s as [|c s IH]; intros acc; simpl; [done|].
  assert (acc +:+ String c s = (acc +:+ str c) +:+ s) as E by by rewrite app_assoc_str.
  go_case; [rewrite E; apply IH|]. go_case.
  - destruct (String.eqb acc ""); [done|]. rewrite E. apply IH.
  - destruct (byte_of c =? 58) eqn:Ec; [|done]. intros [= <- <-].
    apply Z.eqb_eq in Ec. by rewrite (byte_of_inj c ":" Ec).
Qed.

(** [rest] starts what follows an authority. *)
Definition after_authority (rest : string) : Prop :=
  rest = "" ∨ ∃ c r, rest = String c r ∧ (c = "/" ∨ c = "?" ∨ c = "#")%char.

Section parse_facts.
Context `{Unicode}.

Lemma set_path_ok u p u' : set_path u p = Ok u' →
  Scheme u' = Scheme u ∧ Host u' = Host u ∧ User u' = User u ∧ unescape EncPath p = Some (Path u').
Proof. unfold set_path. destruct (unescape EncPath p); [|done]. by intros [= <-]. Qed.

Lemma no_byte_sub c a s t : no_byte c (a +:+ s +:+ t) → no_byte c s.
Proof. rewrite !no_byte_app. tauto. Qed.

(** A parsed URL with a scheme and a host is [scheme://authority rest] in the
    text, the authority ending at the first slash, question mark or hash. *)
Lemma parse_url_authority s u :
  parse_url s = Ok u → Scheme u ≠ "" → Host u ≠ "" →
  ∃ sch a rest, s = sch +:+ "://" +:+ a +:+ rest ∧ Scheme u = ToLower sch ∧
    no_byte "/"%char a ∧ no_byte "?"%char a ∧ after_authority rest ∧
    parseAuthority a = Ok (User u, Host u).
Proof.
  unfold parse_url. destruct (has_ctl s); [done|].
  destruct (String.eqb s "*"); [by intros [= <-]|].
  unfold getScheme. destruct (scheme_loop s "") as [[sch r]|] eqn:Es.
  - destruct sch as [|c0 sch0]; [done|]. set (sch := String c0 sch0) in *. clearbody sch.
    apply scheme_loop_sound in Es. simpl in Es. subst s. cbn [res_bind fst snd].
    set (cutq := match cut "?" r with Some (r, "") => (r, true, "") | Some (r, q) => (r, false, q)
                 | None => (r, false, "") end).
    assert (∃ tail, r = cutq.1.1 +:+ tail ∧ no_byte "?"%char cutq.1.1 ∧
                    (tail = "" ∨ ∃ q, tail = String "?" q)) as (tail & Hr & Hq & Htail).
    { subst cutq. destruct (cut "?" r) as [[x y]|] eqn:Ec.
      - pose proof (cut_some_no_byte "?"%char r x y Ec). apply cut_sound in Ec.
        exists ("?" +:+ y). destruct y; (split; [done|]; split; [done|]; right; by eexists).
      - exists "". apply (cut_none "?"%char) in Ec. rewrite app_empty_r. auto. }
    destruct cutq as [[rest force] query]. cbn [fst snd] in Hr, Hq.
    destruct (negb (HasPrefix rest "/") && _); [by intros [= <-]|].
    destruct (_ && _); [done|].
    unfold split_authority. destruct ((_ || _) && HasPrefix rest "//") eqn:Hpre.
    2: { intros Hp _ Hh. apply set_path_ok in Hp as (_ & Hh' & _). by rewrite Hh' in Hh. }
    apply andb_true_iff in Hpre as [_ Hpre]. apply HasPrefix_spec in Hpre as [r0 ->].
    rewrite TrimPrefix_app.
    assert (∃ a rest', r0 = a +:+ rest' ∧ no_byte "/"%char a ∧ (rest' = "" ∨ ∃ q, rest' = String "/" q) ∧
      match cut "/" r0 with Some (a, r) => (Some a, "/" +:+ r) | None => (Some r0, "") end = (Some a, rest'))
      as (a & rest' & -> & Ha & Hrest' & ->).
    { destruct (cut "/" r0) as [[x y]|] eqn:Ec.
      - exists x, ("/" +:+ y). split; [by apply cut_sound in Ec|].
        split; [by eapply (cut_some_no_byte "/"%char)|]. split; [right; by eexists|done].
      - exists r0, "". rewrite app_empty_r. split; [done|]. split; [by apply (cut_none "/"%char)|]. auto. }
    destruct (parseAuthority a) as [[user host]|e] eqn:Ea; [|done]. cbn [res_bind fst snd].
    intros Hp _ _. apply set_path_ok in Hp as (Hs' & Hh' & Hu' & _). simpl in Hs', Hh', Hu'.
    exists sch, a, (rest' +:+ tail). rewrite Hr, Hs', Hh', Hu'.
    split; [by rewrite !app_assoc_str|]. split; [done|]. split; [done|]. split.
    { by eapply (no_byte_sub _ "//"). }
    split; [|done].
    destruct Hrest' as [->|[q ->]]; [|right; by eexists _, _; auto].
    destruct Htail as [->|[q ->]]; [by left|right; eexists _, _; auto].
  - cbn [res_bind fst snd]. intros Hp Hsch. destruct Hsch. revert Hp.
    destruct (match cut "?" s with Some (r, "") => (r, true, "") | Some (r, q) => (r, false, q)
              | None => (s, false, "") end) as [[rest force] query].
    go_case; [by intros [= <-]|]. go_case; [done|].
    destruct (split_authority _ rest) as [[a|] rest'].
    + destruct (parseAuthority a); [|done]. cbn [res_bind fst snd].
      by intros (-> & _)%set_path_ok.
    + by intros (-> & _)%set_path_ok.
Qed.

Lemma Parse_authority s u :
  Parse s = Ok u → Scheme u ≠ "" → Host u ≠ "" →
  ∃ sch a rest, s = sch +:+ "://" +:+ a +:+ rest ∧ Scheme u = ToLower sch ∧
    no_byte "/"%char a ∧ no_byte "?"%char a ∧ no_byte "#"%char a ∧ after_authority rest ∧
    parseAuthority a = Ok (User u, Host u).
Proof.
  unfold Parse. destruct (cut "#" s) as [[s1 frag]|] eqn:Ec.
  - pose proof (cut_some_no_byte "#"%char s s1 frag Ec) as Hno. apply cut_sound in Ec as ->.
    destruct (parse_url s1) as [u1|e] eqn:Ep; [|done]. intros Hp Hsch Hh.
    assert (Scheme u = Scheme u1 ∧ Host u = Host u1 ∧ User u = User u1) as (E1 & E2 & E3).
    { destruct (String.eqb frag ""); [by simplify_eq|].
      destruct (unescape EncFragment frag); by simplify_eq. }
    rewrite E1, E2, E3 in *.
    destruct (parse_url_authority s1 u1 Ep Hsch Hh) as (sch & a & rest & -> & ? & ? & ? & Hr & ?).
    exists sch, a, (rest +:+ "#" +:+ frag). split; [by rewrite !app_assoc_str|]. split_and!; try done.
    + by eapply (no_byte_sub _ (sch +:+ "://")); rewrite !app_assoc_str.
    + destruct Hr as [->|(c & r & -> & Hc)]; right; eexists _, _; split; try reflexivity; auto.
  - apply (cut_none "#"%char) in Ec.
    destruct (parse_url s) as [u1|e] eqn:Ep; [|done]. intros [= <-] Hsch Hh.
    destruct (parse_url_authority s u1 Ep Hsch Hh) as (sch & a & rest & -> & ? & ? & ? & Hr & ?).
    exists sch, a, rest. split_and!; try done.
    by eapply (no_byte_sub _ (sch +:+ "://")); rewrite !app_assoc_str.
Qed.

(** The authority is optional user info and the host text. *)
Lemma parseAuthority_ok a user host :
  parseAuthority a = Ok (user, host) →
  ∃ ui h, a = ui +:+ h ∧ parseHost h = Ok host ∧ host_string h ∧
    (ui = "" ∨ ∃ x, ui = x +:+ "@" ∧ validUserinfo x = true).
Proof.
  unfold parseAuthority. destruct (cut_last "@" a) as [[x h]|] eqn:Ec.
  - apply cut_last_sound in Ec as ->. destruct (parseHost h) as [h'|] eqn:Eh; [|done].
    cbn [res_bind]. destruct (validUserinfo x) eqn:Ev; [|done]. simpl negb. cbv iota.
    destruct (unescape EncUserPassword x); [|done]. intros [= <- <-].
    exists (x +:+ "@"), h. split; [by rewrite app_assoc_str|]. split; [done|].
    split; [by eapply parseHost_bytes|]. eauto.
  - destruct (parseHost a) as [h'|] eqn:Eh; [|done]. intros [= <- <-].
    exists "", a. split; [done|]. split; [done|]. split; [by eapply parseHost_bytes|]. by left.
Qed.
End parse_facts.
