(* ===== verification/GoNet.v ===== *)
(** * Addresses (package net)

    [ParseIP], the textual form of an address, CIDR ranges, and host and port
    splitting.  An address is its 16 bytes, IPv4 in its IPv6-mapped form. *)

From S2P Require Import Prelude.
From S2P Require Import GoStrings.
From S2P Require Import GoUrl.

Definition v4_prefix : list Z := replicate 10 0 ++ [255; 255].

(** The address, and whether its text was IPv4. *)
Definition ParseAddr (s : string) : option (list Z * bool) :=
  match List.find (λ c, byte_in [46; 58; 37] (byte_of c)) (String.list_ascii_of_string s) with
  | Some c =>
      if byte_of c =? 46 then (λ ip, (v4_prefix ++ ip, true)) <$> ParseIPv4 s
      else if byte_of c =? 58 then
        if Contains s "%" then None else (λ ip, (ip, false)) <$> parse_v6 s
      else None
  | None => None
  end.
Definition ParseIP (s : string) : option (list Z) := fst <$> ParseAddr s.

Definition To4 (ip : list Z) : option (list Z) :=
  if v4_in_v6 ip then Some (drop 12 ip) else None.

(** ** Text *)
Definition hex_of_group (z : Z) : string :=
  let ds := [z / 4096; (z / 256) `mod` 16; (z / 16) `mod` 16; z `mod` 16] in
  let fix strip l := match l with [] => [0] | [d] => [d] | d :: l' => if d =? 0 then strip l' else d :: l' end in
  of_bytes ((λ d, if d <? 10 then 48 + d else 87 + d) <$> strip ds).

Fixpoint groups_of (l : list Z) : list Z :=
  match l with a :: b :: l' => a * 256 + b :: groups_of l' | _ => [] end.

(** The length of the run of zero groups at the front. *)
Fixpoint zero_run (l : list Z) : nat :=
  match l with z :: l' => if z =? 0 then S (zero_run l') else O | [] => O end.
(** The first longest run of at least two zero groups: position and length. *)
Fixpoint longest_run (i : nat) (l : list Z) (best : nat * nat) : nat * nat :=
  match l with
  | [] => best
  | _ :: l' => let n := zero_run l in
               longest_run (S i) l' (if (2 <=? n)%nat && (snd best <? n)%nat then (i, n) else best)
  end.

Definition String6 (ip : list Z) : string :=
  let g := groups_of ip in
  let '(i, n) := longest_run 0 g (O, O) in
  if (n =? 0)%nat then Join (hex_of_group <$> g) ":"
  else Join (hex_of_group <$> take i g) ":" +:+ "::" +:+ Join (hex_of_group <$> drop (i + n) g) ":".

Definition IP_String (ip : list Z) : string :=
  match To4 ip with
  | Some ip4 => Join (Itoa <$> ip4) "."
  | None => String6 ip
  end.

Example IP_String_ex1 : IP_String <$> ParseIP "2001:db8:0:0:1:0:0:1" = Some "2001:db8::1:0:0:1".
Proof. vm_compute. reflexivity. Qed.
Example IP_String_ex2 : IP_String <$> ParseIP "::ffff:10.1.2.3" = Some "10.1.2.3".
Proof. vm_compute. reflexivity. Qed.
Example IP_String_ex3 : IP_String <$> ParseIP "::" = Some "::".
Proof. vm_compute. reflexivity. Qed.

(** ** Ranges *)
Record IPNet := { n_IP : list Z; n_Mask : list Z }.

(** A mask of [n] leading ones over [len] bytes. *)
Definition CIDRMask (n : Z) (bytes : nat) : list Z :=
  (λ i, let k := n - 8 * Z.of_nat i in
        if 8 <=? k then 255 else if k <=? 0 then 0 else 256 - 2 ^ (8 - k)) <$> seq 0 bytes.

Definition mask_ip (ip m : list Z) : list Z := zip_with Z.land ip m.

Fixpoint dtoi_loop (s : string) (n : Z) (i : nat) : Z * nat * bool * string :=
  match s with
  | String c r =>
      let d := byte_of c - 48 in
      if (0 <=? d) && (d <=? 9) then
        let n' := n * 10 + d in
        if 0xFFFFFF <=? n' then (0xFFFFFF, i, false, s) else dtoi_loop r n' (S i)
      else (n, i, true, s)
  | "" => (n, i, true, "")
  end.

(** The number of a mask length: decimal digits and nothing else. *)
Definition mask_len (s : string) : option Z :=
  let '(n, i, ok, rest) := dtoi_loop s 0 0 in
  if ok && negb (i =? 0)%nat && String.eqb rest "" then Some n else None.

Definition ParseCIDR (s : string) : option IPNet :=
  match cut "/" s with
  | None => None
  | Some (addr, m) =>
      match ParseAddr addr, mask_len m with
      | Some (ip, v4), Some n =>
          if (if v4 : bool then 32 else 128) <? n then None
          else
            let mask := CIDRMask n (if v4 then 4%nat else 16%nat) in
            Some {| n_IP := mask_ip (if v4 then drop 12 ip else ip) mask; n_Mask := mask |}
      | _, _ => None
      end
  end.

Definition Contains_ip (n : IPNet) (ip : list Z) : bool :=
  let short l := match (if (length l =? 16)%nat then To4 l else Some l) with
                 | Some l4 => l4 | None => l end in
  let nn := short (n_IP n) in
  let m := if (length (n_Mask n) =? 16)%nat && (length nn =? 4)%nat
           then drop 12 (n_Mask n) else n_Mask n in
  let x := short ip in
  (length x =? length nn)%nat && bool_decide (mask_ip nn m = mask_ip x m).

Definition in_range (cidr ip : string) : bool :=
  match ParseCIDR cidr, ParseIP ip with Some n, Some i => Contains_ip n i | _, _ => false end.

Example Contains_ex1 : in_range "172.16.0.0/12" "172.31.255.1" = true.
Proof. vm_compute. reflexivity. Qed.
Example Contains_ex2 : in_range "fe80::/10" "feb0::1" = true.
Proof. vm_compute. reflexivity. Qed.

(** ** Hosts and ports *)
Definition addr_err (addr why : string) : string :=
  if String.eqb addr "" then why else "address " +:+ addr +:+ ": " +:+ why.

Definition SplitHostPort (hostport : string) : res (string * string) :=
  match cut_last ":" hostport with
  | None => Err (addr_err hostport "missing port in address")
  | Some (before, port) =>
      let check host tail1 tail2 :=
        if Contains tail1 "[" then Err (addr_err hostport "unexpected '[' in address")
        else if Contains tail2 "]" then Err (addr_err hostport "unexpected ']' in address")
        else Ok (host, port) in
      match hostport with
      | String c r =>
          if byte_of c =? 91 then
            match cut "]" r with
            | None => Err (addr_err hostport "missing ']' in address")
            | Some (host, rest) =>
                if String.eqb rest "" then Err (addr_err hostport "missing port in address")
                else if String.eqb rest (":" +:+ port) then check host r rest
                else if HasPrefix rest ":" then Err (addr_err hostport "too many colons in address")
                else Err (addr_err hostport "missing port in address")
            end
          else if Contains before ":" then Err (addr_err hostport "too many colons in address")
          else check before hostport hostport
      | "" => Err (addr_err hostport "missing port in address")
      end
  end.

Example SplitHostPort_ex1 : SplitHostPort "[::1]:443" = Ok ("::1", "443").
Proof. vm_compute. reflexivity. Qed.
Example SplitHostPort_ex2 : SplitHostPort "10.0.0.1:80" = Ok ("10.0.0.1", "80").
Proof. vm_compute. reflexivity. Qed.
Example SplitHostPort_ex3 : is_ok (SplitHostPort "::1:80") = false.
Proof. vm_compute. reflexivity. Qed.

(** [URL.Hostname]. *)
Definition Hostname (u : URL) : string :=
  let host := match cut_last ":" (Host u) with
              | Some (h, port) => if validOptionalPort (":" +:+ port) then h else Host u
              | None => Host u
              end in
  if HasPrefix host "[" && HasSuffix host "]" then TrimSuffix (TrimPrefix host "[") "]" else host.

(** The ranges forbidden as upstreams (internal/authz/http.go). *)
Definition blocked_ranges : list string :=
  ["127.0.0.0/8"; "::1/128"; "10.0.0.0/8"; "172.16.0.0/12"; "192.168.0.0/16"; "169.254.0.0/16";
   "fe80::/10"; "fc00::/7"; "0.0.0.0/8"].
Definition blockedCIDRs : list IPNet := omap ParseCIDR blocked_ranges.

Example blockedCIDRs_all : length blockedCIDRs = length blocked_ranges.
Proof. vm_compute. reflexivity. Qed.
