(* ===== verification/Redirect.v ===== *)
(** * Redirect validation (internal/auth/service/redirect.go)

    [ValidateRedirect] decides where a browser may be sent after login, logout
    or a handoff.  The theorem is about the returned text as a browser reads
    it: either it stays on the base URL's origin, or its authority is that of
    the base URL or of an allowed origin, spelled with nothing that could move
    the end of the authority (no backslash, slash, question mark, hash or at
    sign in the host). *)

From S2P Require Import Prelude.
From S2P Require Import GoStrings.
From S2P Require Import GoUrl.

Section redirect.
Context `{Unicode}.

Definition sameOrigin (origin baseURL : string) : bool :=
  match Parse (TrimSpace baseURL) with
  | Err _ => false
  | Ok base =>
      if String.eqb (Scheme base) "" || String.eqb (Host base) "" then false
      else String.eqb origin (Scheme base +:+ "://" +:+ Host base)
  end.

(** The loops over the allowed path prefixes. *)
Definition prefix_allowed (path : string) (prefixes : list string) : bool :=
  existsb (λ p, String.eqb p "/" || HasPrefix path p) prefixes.

Definition second_byte_slash (s : string) : bool :=
  match s with
  | String _ (String c _) => (byte_of c =? 47) || (byte_of c =? 92)
  | _ => false
  end.

Definition ValidateRedirect (redirectTo baseURL : string)
    (allowedOrigins allowedPathPrefixes : list string) : string :=
  let redirectTo := TrimSpace redirectTo in
  if String.eqb redirectTo "" then baseURL
  else if HasPrefix redirectTo "/" then
    if second_byte_slash redirectTo then ""
    else
      let pathAllowed := match allowedPathPrefixes with [] => true | _ => false end
                         || prefix_allowed redirectTo allowedPathPrefixes in
      if negb pathAllowed then "" else TrimSuffix baseURL "/" +:+ redirectTo
  else
    match Parse redirectTo with
    | Err _ => ""
    | Ok u =>
        if negb (String.eqb (Scheme u) "https") && negb (String.eqb (Scheme u) "http") then ""
        else
          let origin := Scheme u +:+ "://" +:+ Host u in
          let allowed := sameOrigin origin baseURL || existsb (λ o, String.eqb o origin) allowedOrigins in
          if negb allowed then ""
          else match allowedPathPrefixes with
               | [] => redirectTo
               | _ => if prefix_allowed (Path u) allowedPathPrefixes then redirectTo else ""
               end
    end.

(** ** What an allowed result is *)
Definition path_ok (path : string) (prefixes : list string) : Prop :=
  prefixes = [] ∨ ∃ p, p ∈ prefixes ∧ (p = "/" ∨ HasPrefix path p = true).

Lemma prefix_allowed_ok path prefixes : prefix_allowed path prefixes = true → path_ok path prefixes.
Proof.
  unfold prefix_allowed. intros (p & Hin & Hp)%existsb_true_iff. right. exists p. split; [done|].
  apply orb_true_iff in Hp as [Hp|Hp]; [left; by apply String.eqb_eq|by right].
Qed.

(** A path on the base URL's own origin: one slash, then neither a slash nor a
    backslash. *)
Definition local_path (p : string) : Prop :=
  ∃ q, p = "/" +:+ q ∧
    match q with String c _ => c ≠ "/"%char ∧ c ≠ of_byte 92 | "" => True end.

(** The text [r] is a URL of scheme http or https whose authority is
    [user@host], with the host text decoding to [h]. *)
Definition browser_origin (r scheme h : string) : Prop :=
  ∃ sch ui host rest, r = sch +:+ "://" +:+ ui +:+ host +:+ rest ∧
    ToLower sch = scheme ∧ (scheme = "https" ∨ scheme = "http") ∧
    (ui = "" ∨ ∃ x, ui = x +:+ "@" ∧ validUserinfo x = true) ∧
    host_string host ∧ parseHost host = Ok h ∧ after_authority rest.

Definition origin_allowed (origin baseURL : string) (origins : list string) : Prop :=
  sameOrigin origin baseURL = true ∨ origin ∈ origins.

(** An origin with an empty host is no [scheme://host]. *)
Lemma bare_origin (s s' h : string) :
  s = "https" ∨ s = "http" → s +:+ "://" = s' +:+ "://" +:+ h → h = "".
Proof.
  intros Hs E. pose proof (f_equal String.length E) as El. rewrite !length_app_str in El.
  destruct h as [|c h]; [done|]. exfalso. cbn in El.
  destruct Hs as [-> | ->]; cbn in El;
    destruct s' as [|? [|? [|? [|? [|? ?]]]]]; cbn in El; try lia; simpl in E; discriminate E.
Qed.

(** C29: wherever [ValidateRedirect] sends a browser, it is the base URL, or a
    local path appended to it, or the (trimmed) target itself, whose path
    carries an allowed prefix and whose authority as it stands in the text is
    that of the base URL or of an allowed origin.  The only way past this is
    an operator who lists the bare origin [http://] or [https://]: then a
    target whose URL has no host is let through, and where a browser takes
    that one is open ([bare_origin_lets_out]); without such an entry no other
    host can be reached. *)
Theorem redirect_safe redirectTo baseURL origins prefixes r
    (Hr : ValidateRedirect redirectTo baseURL origins prefixes = r) (Hne : r ≠ "") :
  (TrimSpace redirectTo = "" ∧ r = baseURL) ∨
  (∃ p, r = TrimSuffix baseURL "/" +:+ p ∧ local_path p ∧ path_ok p prefixes) ∨
  (r = TrimSpace redirectTo ∧ ∃ u, Parse r = Ok u ∧
     origin_allowed (Scheme u +:+ "://" +:+ Host u) baseURL origins ∧ path_ok (Path u) prefixes ∧
     ((Host u ≠ "" ∧ browser_origin r (Scheme u) (Host u)) ∨
      (Host u = "" ∧ (Scheme u = "http" ∧ "http://" ∈ origins ∨ Scheme u = "https" ∧ "https://" ∈ origins)))).
Proof.
  unfold ValidateRedirect in Hr. set (t := TrimSpace redirectTo) in *.
  destruct (String.eqb_spec t "") as [E|Ht]; [left; by subst|right].
  destruct (HasPrefix t "/") eqn:Hslash.
  - left. apply HasPrefix_spec in Hslash as [q Hq]. rewrite Hq in Hr.
    destruct (second_byte_slash ("/" +:+ q)) eqn:H2; [by subst|].
    destruct (match prefixes with [] => true | _ => false end || _) eqn:Hp; [|by subst].
    simpl negb in Hr. cbv iota in Hr. subst r. eexists. split; [reflexivity|]. split.
    + exists q. split; [done|]. destruct q as [|c q]; [done|]. simpl in H2.
      apply orb_false_iff in H2 as [H47 H92]. bool_prop. by split; intros ->.
    + apply orb_true_iff in Hp as [Hp|Hp]; [left; by destruct prefixes|by apply prefix_allowed_ok].
  - right. destruct (Parse t) as [u|e] eqn:Ep; [|by subst].
    destruct (negb _ && negb _) eqn:Hsch; [by subst|].
    assert (Scheme u = "https" ∨ Scheme u = "http") as Hs.
    { apply andb_false_iff in Hsch as [Hs|Hs]; bool_prop; auto. }
    destruct (sameOrigin _ baseURL || _) eqn:Ho; [|by subst]. simpl negb in Hr. cbv iota in Hr.
    assert (origin_allowed (Scheme u +:+ "://" +:+ Host u) baseURL origins) as Hoa.
    { apply orb_true_iff in Ho as [Ho|(o & Hin & ->%String.eqb_eq)%existsb_true_iff]; [by left|by right]. }
    assert (Host u = "" →
      Scheme u = "http" ∧ "http://" ∈ origins ∨ Scheme u = "https" ∧ "https://" ∈ origins) as Hh.
    { intros E0. rewrite E0, app_empty_r in Hoa. destruct Hoa as [Hso|Hin].
      - unfold sameOrigin in Hso. destruct (Parse (TrimSpace baseURL)) as [b|]; [|done].
        destruct (String.eqb_spec (Scheme b) ""); [done|].
        destruct (String.eqb_spec (Host b) "") as [|Hb]; [done|]. simpl in Hso.
        apply String.eqb_eq, bare_origin in Hso; done.
      - destruct Hs as [Es|Es]; rewrite Es in Hin; auto. }
    assert (r = t ∧ path_ok (Path u) prefixes) as [-> Hpath].
    { destruct prefixes as [|p ps]; [subst; split; [done|by left]|].
      destruct (prefix_allowed (Path u) (p :: ps)) eqn:Hpa; [|by subst].
      subst. split; [done|]. by apply prefix_allowed_ok. }
    split; [done|]. exists u. do 3 (split; [done|]).
    destruct (decide (Host u = "")) as [E0|Hne0]; [right; auto|left; split; [done|]].
    destruct (Parse_authority t u Ep) as (sch & a & rest & Et & Els & _ & _ & _ & Hrest & Ha).
    { destruct Hs as [Es|Es]; by rewrite Es. } { done. }
    apply parseAuthority_ok in Ha as (ui & h & -> & Hph & Hhs & Hui).
    exists sch, ui, h, rest. rewrite Et. split; [by rewrite !app_assoc_str|]. by rewrite <-Els.
Qed.
End redirect.

(** The witness: an allowed foreign origin, spelled with an upper-case scheme. *)
Lemma redirect_safe_witness :
  let r := "HTTPS://partner.example:8443/app?x=1" in
  let u := {| Scheme := "https"; Opaque := ""; User := None; Host := "partner.example:8443";
              Path := "/app"; RawPath := ""; ForceQuery := false; RawQuery := "x=1"; Fragment := "" |} in
  ValidateRedirect (H := ascii_unicode) (" " +:+ r) "https://app.example"
    ["https://partner.example:8443"] ["/app"] = r ∧
  browser_origin (H := ascii_unicode) r "https" "partner.example:8443".
Proof.
  intros r u.
  assert (ValidateRedirect (H := ascii_unicode) (" " +:+ r) "https://app.example"
    ["https://partner.example:8443"] ["/app"] = r) as Hr by (vm_compute; reflexivity).
  split; [exact Hr|].
  destruct (redirect_safe (H := ascii_unicode) _ _ _ _ _ Hr ltac:(discriminate))
    as [[Hx _]|[(p & Hx & _)|(_ & u' & Hp & _ & _ & Ho)]].
  - vm_compute in Hx. discriminate Hx.
  - vm_compute in Hx. discriminate Hx.
  - assert (Parse (H := ascii_unicode) r = Ok u) as Hp' by (vm_compute; reflexivity).
    rewrite Hp' in Hp. injection Hp as <-.
    destruct Ho as [[_ Ho]|[Eh _]]; [exact Ho|discriminate Eh].
Defined.

(** An operator who lists the bare scheme lets any host through: a browser
    reads three slashes as two. *)
Example bare_origin_lets_out :
  ValidateRedirect (H := ascii_unicode) "https:///evil.example/" "https://app.example" ["https://"] [] =
    "https:///evil.example/".
Proof. vm_compute. reflexivity. Qed.
