(* ===== verification/Token.v ===== *)
(** * ID tokens (pkg/token)

    [ValidateIDToken] and what it builds a [Principal] from, the key selection
    from a JWKS document, the claims normalisation, and the cached JWKS source.
    The JWT library (golang-jwt) is an external call: [JwtParse] is given the
    raw token, the key function and the parser options, and answers a token or
    an error.  HTTP fetches are external calls too. *)

From S2P Require Import Prelude.
From S2P Require Import GoStrings.
From S2P Require Import Effects.
From S2P Require Import GoTime.
From S2P Require Import GoAny.
From S2P Require Import Base64.
From S2P Require Import Json.

(** ** Data *)
Record Principal := {
  Subject : string; Scopes : list string; Roles : list string; p_Claims : claims;
  p_ExpiresAt : Z; p_AccessToken : string; p_TenantContext : claims }.

Record jwkKey := {
  Kid : string; Kty : string; jN : string; jE : string; Crv : string; jX : string; jY : string }.

Inductive curve := P256 | P384 | P521.
Inductive pubkey :=
| RSAPublicKey (n e : Z)
| ECPublicKey (c : curve) (x y : Z).

Definition keyfunc : Type := gmap string any → res pubkey.

(** What jwt.Parse answers: the claims, when they are a [MapClaims], and the
    Valid flag. *)
Record jwt_token := { jt_claims : option (gmap string any); jt_valid : bool }.

Class JWKSSource (E : Type → Type) := GetJWKS : string → E (res string).
(** The parser options of a call. *)
Record jwt_options := { WithIssuer : string; WithExpirationRequired : bool; WithIssuedAt : bool }.
Definition id_token_options (issuer : string) : jwt_options :=
  {| WithIssuer := issuer; WithExpirationRequired := true; WithIssuedAt := true |}.

Class JwtLib (E : Type → Type) := JwtParse : string → keyfunc → jwt_options → E (res jwt_token).
(** A GET by the source's HTTP client: status and body. *)
Class HttpGetE (E : Type → Type) := HttpGet : string → E (res (Z * string)).
Class JWKSMetrics (E : Type → Type) := JWKSCache : bool → string → E unit.

(** ** Keys *)
Definition jwk_fields : list string := ["kid"; "kty"; "n"; "e"; "crv"; "x"; "y"].

(** [big.Int.SetBytes]. *)
Definition int_of_bytes (s : string) : Z := foldl (λ acc b, acc * 256 + b) 0 (bytes_of s).
(** [big.Int.BitLen]. *)
Definition BitLen (z : Z) : Z := if z =? 0 then 0 else Z.log2 z + 1.

Definition field_bytes (c : curve) : Z := match c with P256 => 32 | P384 => 48 | P521 => 66 end.
Definition curve_p (c : curve) : Z :=
  match c with
  | P256 => 2^256 - 2^224 + 2^192 + 2^96 - 1
  | P384 => 2^384 - 2^128 - 2^96 + 2^32 - 1
  | P521 => 2^521 - 1
  end.
Definition curve_b (c : curve) : Z :=
  match c with
  | P256 => 0x5ac635d8aa3a93e7b3ebbd55769886bc651d06b0cc53b0f63bce3c3e27d2604b
  | P384 => 0xb3312fa7e23ee7e4988e056be3f82d19181d9c6efe8141120314088f5013875ac656398d8a2ed19d2a85c8edd3ec2aef
  | P521 => 0x51953eb9618e1c9a1f929a21a0b68540eea2da725b99b315f3b8b489918ef109e156193951ec7e937b1652c0bd3bb1bf073573df883d2c34f1ef451fd46b503f00
  end.
(** What [ecdh.Curve.NewPublicKey] accepts of an uncompressed point: reduced
    coordinates on [y^2 = x^3 - 3x + b]. *)
Definition on_curve (c : curve) (x y : Z) : bool :=
  let p := curve_p c in
  (x <? p) && (y <? p) && ((y * y) `mod` p =? (x * x * x - 3 * x + curve_b c) `mod` p).

Example generator_P256 : on_curve P256
  0x6b17d1f2e12c4247f8bce6e563a440f277037d812deb33a0f4a13945d898c296
  0x4fe342e2fe1a7f9b8ee7eb4a7c0f9e162bce33576b315ececbb6406837bf51f5 = true.
Proof. vm_compute. reflexivity. Qed.
Example generator_P384 : on_curve P384
  0xaa87ca22be8b05378eb1c71ef320ad746e1d3b628ba79b9859f741e082542a385502f25dbf55296c3a545e3872760ab7
  0x3617de4a96262c6f5d9e98bf9292dc29f8f41dbd289a147ce9da3113b5f0b8c00a60b1ce1d7e819d7a431d7c90ea0e5f = true.
Proof. vm_compute. reflexivity. Qed.

Definition curve_named (crv : string) : option curve :=
  if String.eqb crv "P-256" then Some P256
  else if String.eqb crv "P-384" then Some P384
  else if String.eqb crv "P-521" then Some P521
  else None.

Definition ecPubKeyFromJWK (crv xB64 yB64 : string) : res pubkey :=
  match curve_named crv with
  | None => Err ("token: unsupported EC curve " +:+ crv)
  | Some c =>
      match rawurl_decode xB64 with
      | None => Err "illegal base64 data"
      | Some xBytes =>
          match rawurl_decode yB64 with
          | None => Err "illegal base64 data"
          | Some yBytes =>
              if (field_bytes c <? len xBytes) || (field_bytes c <? len yBytes) then
                Err ("token: EC coordinate too large for " +:+ crv)
              else
                let x := int_of_bytes xBytes in
                let y := int_of_bytes yBytes in
                if on_curve c x y then Ok (ECPublicKey c x y)
                else Err ("token: EC public key point is not on curve " +:+ crv)
          end
      end
  end.

(** The loop over the keys of the set. *)
Fixpoint find_key (kid : string) (keys : list jwkKey) : res pubkey :=
  match keys with
  | [] => Err ("token: no key found for kid " +:+ kid)
  | k :: keys' =>
      if negb (String.eqb (Kid k) kid) then find_key kid keys'
      else if String.eqb (Kty k) "RSA" then
        if String.eqb (jN k) "" || String.eqb (jE k) "" then find_key kid keys'
        else
          match rawurl_decode (jN k) with
          | None => Err "illegal base64 data"
          | Some nBytes =>
              match rawurl_decode (jE k) with
              | None => Err "illegal base64 data"
              | Some eBytes =>
                  let n := int_of_bytes nBytes in
                  if BitLen n <? 2048 then
                    Err ("token: RSA key too small: " +:+ Itoa (BitLen n) +:+ " bits (minimum 2048)")
                  else
                    let e := int_of_bytes eBytes in
                    if (2 ^ 63 <=? e) || (2 ^ 31 - 1 <? e) then Err "token: exponent too large"
                    else Ok (RSAPublicKey n e)
              end
          end
      else if String.eqb (Kty k) "EC" then
        if String.eqb (Crv k) "" || String.eqb (jX k) "" || String.eqb (jY k) "" then
          find_key kid keys'
        else ecPubKeyFromJWK (Crv k) (jX k) (jY k)
      else find_key kid keys'
  end.

Section keys.
Context `{Unicode}.

Definition jwk_of_members (m : list (string * json)) : jwkKey * bool :=
  let f k := dec_string (bound jwk_fields k m) in
  let '(a, o1) := f "kid" in let '(b, o2) := f "kty" in let '(c, o3) := f "n" in
  let '(d, o4) := f "e" in let '(e, o5) := f "crv" in let '(x, o6) := f "x" in
  let '(y, o7) := f "y" in
  ({| Kid := a; Kty := b; jN := c; jE := d; Crv := e; jX := x; jY := y |},
   o1 && o2 && o3 && o4 && o5 && o6 && o7).

Definition zero_jwk : jwkKey :=
  {| Kid := ""; Kty := ""; jN := ""; jE := ""; Crv := ""; jX := ""; jY := "" |}.

Definition conv_keys (v : json) : option (list jwkKey) :=
  match v with
  | JArr l => foldr (λ x acc, match x, acc with
                              | JObj m, Some r => let '(k, ok) := jwk_of_members m in
                                                  if ok then Some (k :: r) else None
                              | JNull, Some r => Some (zero_jwk :: r)
                              | _, _ => None end) (Some []) l
  | _ => None
  end.

(** The set the JWKS document unmarshals to; [None] is an error. *)
Definition jwks_keys (data : string) : option (list jwkKey) :=
  match parse data with
  | Some (JObj m) =>
      let '(ks, ok) := dec_field conv_keys [] (bound ["keys"] "keys" m) in
      if ok then Some ks else None
  | Some JNull => Some []
  | _ => None
  end.

Definition keyFuncFromJWKS (jwksData : string) : keyfunc :=
  match jwks_keys jwksData with
  | None => λ _, Err "json: cannot unmarshal"
  | Some keys =>
      λ header,
        match header !! "kid" ≫= as_string with
        | None => Err "token: missing kid in header"
        | Some kid => find_key kid keys
        end
  end.
End keys.

(** ** Claims *)

(** Whether the audience claim names the audience. *)
Definition audience_ok (aud : any) (audience : string) : bool :=
  match aud with
  | AStr v => String.eqb v audience
  | AList l => existsb (String.eqb audience) (strings_of l)
  | _ => false
  end.

Definition list_strings (v : any) : list string :=
  match v with AList l => strings_of l | _ => [] end.

(** The roles: [realm_access.roles], or else [roles]. *)
Definition roles_of (c : gmap string any) : list string :=
  let realm := match claim "realm_access" (Some c) with
               | AMap r => list_strings (map_index "roles" r) | _ => [] end in
  match realm with
  | [] => list_strings (claim "roles" (Some c))
  | _ => realm
  end.

(** [json.Number.Int64] with its error ignored: 0 for a literal that is no
    integer, the nearest int64 for one out of range. *)
Definition number_int64 (lit : string) : Z :=
  let '(neg, s) := match lit with
                   | String c r => if byte_of c =? 45 then (true, r) else (false, lit)
                   | "" => (false, "") end in
  match digits s with
  | ("", _) | (_, String _ _) => 0
  | (ds, "") =>
      let v := if neg : bool then - digits_value 0 ds else digits_value 0 ds in
      Z.max (- 2 ^ 63) (Z.min v (2 ^ 63 - 1))
  end.

(** The expiry of the claims; a [float64] beyond int64 converts in a way Go
    leaves to the machine. *)
Definition exp_of (c : gmap string any) : Z :=
  match c !! "exp" with
  | Some (AFloat f) => TimeUnix (f64_trunc f)
  | Some (ANumber lit) => TimeUnix (number_int64 lit)
  | _ => zero_time
  end.

Definition principal_of (c : gmap string any) : Principal :=
  {| Subject := default "" (as_string (claim "sub" (Some c))); Scopes := [];
     Roles := roles_of c; p_Claims := Some c; p_ExpiresAt := exp_of c; p_AccessToken := "";
     p_TenantContext := None |}.

Definition NormalizeClaims (c : claims) : claims :=
  match c with
  | None => None
  | Some m => match roles_of m with
              | [] => Some m
              | roles => Some (<["roles" := AStrs roles]> m)
              end
  end.

(** Header, payload and signature; nil segments without error when there are
    not three of them. *)
Definition ParseJWT (raw : string) : res (option (string * string * string)) :=
  match Split raw "." with
  | [h; p; s] =>
      match rawurl_decode h, rawurl_decode p, rawurl_decode s with
      | Some h, Some p, Some s => Ok (Some (h, p, s))
      | _, _, _ => Err "illegal base64 data"
      end
  | _ => Ok None
  end.

(** ** Validation *)
Section validate.
Context `{Unicode} {E : Type → Type} `{!JWKSSource E} `{!JwtLib E}.

(** [src]: whether a JWKS source is configured. *)
Definition ValidateIDToken (raw : string) (src : bool) (issuer audience expectedNonce : string)
    : prog E (res Principal) :=
  if negb src then Ret (Err "token: JWKSSource is nil")
  else
    jwks <- call (GetJWKS issuer) ;;
    match jwks with
    | Err e => Ret (Err ("token: get jwks: " +:+ e))
    | Ok jwksData =>
        tok <- call (JwtParse raw (keyFuncFromJWKS jwksData) (id_token_options issuer)) ;;
        Ret match tok with
            | Err e => Err ("token: parse: " +:+ e)
            | Ok {| jt_claims := Some c; jt_valid := true |} =>
                if negb (String.eqb audience "") && negb (audience_ok (claim "aud" (Some c)) audience)
                then Err "token: audience mismatch"
                else if negb (String.eqb expectedNonce "") &&
                        negb (String.eqb (default "" (as_string (claim "nonce" (Some c)))) expectedNonce)
                then Err "token: nonce mismatch"
                else Ok (principal_of c)
            | Ok _ => Err "token: invalid claims"
            end
    end.

Definition ValidateJWT (src : bool) (issuer audience raw : string) : prog E (res Principal) :=
  ValidateIDToken raw src issuer audience "".

Definition ErrIntrospectNotSupported : string := "token: opaque introspection not supported".
Definition IntrospectOpaque (raw : string) : res Principal := Err ErrIntrospectNotSupported.

(** The claims satisfy the audience and nonce asked for. *)
Definition claims_match (c : gmap string any) (audience nonce : string) : Prop :=
  (audience = "" ∨ audience_ok (claim "aud" (Some c)) audience = true) ∧
  (nonce = "" ∨ claim "nonce" (Some c) = AStr nonce).

Lemma audience_check aud a :
  negb (String.eqb a "") && negb (audience_ok aud a) = false ↔ a = "" ∨ audience_ok aud a = true.
Proof. rewrite andb_false_iff, !negb_false_iff, String.eqb_eq. done. Qed.

Lemma nonce_check v n :
  negb (String.eqb n "") && negb (String.eqb (default "" (as_string v)) n) = false ↔
  n = "" ∨ v = AStr n.
Proof.
  rewrite andb_false_iff, !negb_false_iff, !String.eqb_eq.
  destruct (decide (n = "")) as [->|Hn]; [tauto|].
  split; (intros [?|Hv]; [done|right]); [|by rewrite Hv].
  destruct v; simpl in Hv; congruence.
Qed.

Lemma ValidateIDToken_exec raw src issuer audience nonce tr p :
  exec (ValidateIDToken raw src issuer audience nonce) tr (Ok p) ↔
  src = true ∧ ∃ jwks c,
    tr = [Ev (GetJWKS issuer) (Ok jwks);
          Ev (JwtParse raw (keyFuncFromJWKS jwks) (id_token_options issuer))
            (Ok {| jt_claims := Some c; jt_valid := true |})] ∧
    claims_match c audience nonce ∧ p = principal_of c.
Proof.
  unfold ValidateIDToken, claims_match.
  destruct src; cbn [negb]; [|split; [by intros [_ [=]]|by intros [[=] _]]].
  split.
  - intros ([jwks|e] & tr1 & -> & Hx); [|by destruct Hx].
    destruct Hx as (tok & tr2 & -> & -> & Hr). split; [done|].
    destruct tok as [[[c|] []]|e]; try done.
    destruct (negb (String.eqb audience "") && _) eqn:E1; [done|].
    destruct (negb (String.eqb nonce "") && _) eqn:E2; [done|]. injection Hr as <-.
    apply audience_check in E1. apply nonce_check in E2. eauto 10.
  - intros [_ (jwks & c & -> & [Ha%audience_check Hn%nonce_check] & ->)].
    eexists _, _. split; [done|]. eexists _, _. split; [done|]. split; [done|].
    by rewrite Ha, Hn.
Qed.
Lemma audience_ok_spec v a :
  audience_ok v a = true ↔ v = AStr a ∨ ∃ l, v = AList l ∧ AStr a ∈ l.
Proof.
  unfold audience_ok. destruct v as [| | | | |s| |l|]; try (split; [done|naive_solver]).
  - rewrite String.eqb_eq. naive_solver.
  - rewrite existsb_true_iff. setoid_rewrite String.eqb_eq. unfold strings_of. split.
    + intros (s & Hin & <-). right. exists l. split; [done|].
      apply list_elem_of_omap in Hin as (x & Hx & Hs). destruct x; simplify_eq/=; done.
    + intros [[=]|(l' & [= <-] & Hin)]. exists a. split; [|done].
      apply list_elem_of_omap. by exists (AStr a).
Qed.

(** C16: a principal comes only out of a token the JWT library accepted, for
    the issuer asked for, with an expiry required and the time of issue checked,
    and under a key function made of the JWKS document the
    source answered for that issuer, whose audience claim is the audience or a
    list that holds it and whose nonce is the one expected (when one is); it is
    the principal of those claims, and nothing else was asked. *)
Theorem id_token_validated raw src issuer audience nonce tr p :
  exec (ValidateIDToken raw src issuer audience nonce) tr (Ok p) ↔
  src = true ∧ ∃ jwks c,
    tr = [Ev (GetJWKS issuer) (Ok jwks);
          Ev (JwtParse raw (keyFuncFromJWKS jwks) (id_token_options issuer))
            (Ok {| jt_claims := Some c; jt_valid := true |})] ∧
    (audience = "" ∨ claim "aud" (Some c) = AStr audience ∨
     ∃ l, claim "aud" (Some c) = AList l ∧ AStr audience ∈ l) ∧
    (nonce = "" ∨ claim "nonce" (Some c) = AStr nonce) ∧ p = principal_of c.
Proof.
  rewrite ValidateIDToken_exec. unfold claims_match. setoid_rewrite audience_ok_spec. naive_solver.
Qed.
End validate.

(** ** Which keys a JWKS document yields *)

(** A key good for verifying: an RSA modulus of at least 2048 bits with a
    31-bit exponent, or a point of its curve. *)
Definition strong_key (k : pubkey) : Prop :=
  match k with
  | RSAPublicKey n e => 2048 ≤ BitLen n ∧ 0 ≤ e < 2 ^ 31
  | ECPublicKey c x y => on_curve c x y = true
  end.

(** The entry a key was read from. *)
Definition key_of (j : jwkKey) (k : pubkey) : Prop :=
  match k with
  | RSAPublicKey n e => Kty j = "RSA" ∧ int_of_bytes <$> rawurl_decode (jN j) = Some n ∧
                        int_of_bytes <$> rawurl_decode (jE j) = Some e
  | ECPublicKey c x y => Kty j = "EC" ∧ curve_named (Crv j) = Some c ∧
                         int_of_bytes <$> rawurl_decode (jX j) = Some x ∧
                         int_of_bytes <$> rawurl_decode (jY j) = Some y
  end.

Lemma int_of_bytes_nonneg s : 0 ≤ int_of_bytes s.
Proof.
  assert (∀ l z, 0 ≤ z → bytes l → 0 ≤ foldl (λ acc b, acc * 256 + b) z l) as Hl.
  { induction l as [|b l IH]; intros z Hz Hb; simpl; [done|].
    apply Forall_cons in Hb as [? Hb]. apply IH; [lia|done]. }
  apply Hl; [lia|apply bytes_of_range].
Qed.

Lemma ec_key_sound crv x y k j :
  Kty j = "EC" → Crv j = crv → jX j = x → jY j = y →
  ecPubKeyFromJWK crv x y = Ok k → key_of j k ∧ strong_key k.
Proof.
  intros Hk <- <- <-. unfold ecPubKeyFromJWK.
  destruct (curve_named (Crv j)) as [c|] eqn:Ec; [|done].
  destruct (rawurl_decode (jX j)) as [xb|] eqn:Ex; [|done].
  destruct (rawurl_decode (jY j)) as [yb|] eqn:Ey; [|done].
  destruct (_ || _); [done|]. destruct (on_curve _ _ _) eqn:Eo; [|done].
  intros [= <-]. simpl. by rewrite Ec, Ex, Ey.
Qed.

Lemma find_key_sound kid keys k :
  find_key kid keys = Ok k → ∃ j, j ∈ keys ∧ Kid j = kid ∧ key_of j k ∧ strong_key k.
Proof.
  induction keys as [|j keys IH]; [done|]. cbn [find_key].
  assert (find_key kid keys = Ok k →
    ∃ j', j' ∈ j :: keys ∧ Kid j' = kid ∧ key_of j' k ∧ strong_key k) as Hrest.
  { intros (j' & Hj' & Hrest)%IH. exists j'. split; [by right|done]. }
  destruct (String.eqb_spec (Kid j) kid) as [Hkid|]; cbn [negb]; [|done].
  destruct (String.eqb_spec (Kty j) "RSA") as [Hrsa|Hnrsa].
  - destruct (_ || _); [done|].
    destruct (rawurl_decode (jN j)) as [nb|] eqn:En; [|done].
    destruct (rawurl_decode (jE j)) as [eb|] eqn:Ee; [|done].
    destruct (BitLen (int_of_bytes nb) <? 2048) eqn:Hn; [done|].
    destruct (_ || _) eqn:He; [done|]. intros [= <-]. exists j. split; [left|]. split; [done|].
    bool_prop. pose proof (int_of_bytes_nonneg eb). split; simpl; [by rewrite En, Ee|lia].
  - destruct (String.eqb_spec (Kty j) "EC") as [Hec|]; [|done].
    destruct (_ || _ || _); [done|]. intros Hk. exists j. split; [left|]. split; [done|].
    by eapply ec_key_sound.
Qed.

(** The key function of a JWKS document yields only a key of an entry of
    the document whose kid is the token's, decoded from that entry, and only a
    key fit for verification: RSA of at least 2048 bits with an exponent below
    [2^31], or a point on its curve. *)
Theorem jwks_key_sound `{Unicode} jwks header k
    (Hk : keyFuncFromJWKS jwks header = Ok k) :
  ∃ keys j kid, jwks_keys jwks = Some keys ∧ j ∈ keys ∧ header !! "kid" = Some (AStr kid) ∧
    Kid j = kid ∧ key_of j k ∧ strong_key k.
Proof.
  unfold keyFuncFromJWKS in Hk. destruct (jwks_keys jwks) as [keys|]; [|done].
  destruct (header !! "kid") as [v|] eqn:Eh; [|done]. simpl in Hk.
  destruct v; try done. simpl in Hk. apply find_key_sound in Hk as (j & Hj & Hkid & Hko & Hs).
  exists keys, j, s. done.
Qed.

Lemma jwks_key_sound_witness :
  let jwks := print (JObj [("keys", JArr [JObj [("kid", JStr "k1"); ("kty", JStr "EC");
    ("crv", JStr "P-256");
    ("x", JStr "axfR8uEsQkf4vOblY6RA8ncDfYEt6zOg9KE5RdiYwpY");
    ("y", JStr "T-NC4v4af5uO5-tKfA-eFivOM1drMV7Oy7ZAaDe_UfU")]])]) in
  ∃ k, keyFuncFromJWKS (H := ascii_unicode) jwks {[ "kid" := AStr "k1" ]} = Ok k ∧ strong_key k.
Proof.
  intros jwks.
  destruct (keyFuncFromJWKS (H := ascii_unicode) jwks {[ "kid" := AStr "k1" ]}) as [k|e] eqn:E;
    [|vm_compute in E; discriminate E].
  exists k. split; [reflexivity|].
  destruct (jwks_key_sound (H := ascii_unicode) _ _ _ E) as (_ & _ & _ & _ & _ & _ & _ & _ & Hs).
  exact Hs.
Defined.

(** ** The cached source *)
Definition maxJWKSBytes : Z := 512 * 1024.
(** [io.ReadAll] of the limited body. *)
Definition read_limited (body : string) : string := take_bytes (Z.to_nat maxJWKSBytes) body.
#[global] Opaque read_limited.

Record HTTPJWKSSource := { js_cache : gmap string (string * Z); js_ttl : Z }.

Definition NewHTTPJWKSSource (cacheTTL : Z) : HTTPJWKSSource :=
  {| js_cache := ∅; js_ttl := if cacheTTL <=? 0 then 5 * Minute else cacheTTL |}.

Section source.
Context `{Unicode} {E : Type → Type} `{!ClockE E} `{!HttpGetE E} `{!JWKSMetrics E}.

Definition fetchURL (url : string) : prog E (res string) :=
  r <- call (HttpGet url) ;;
  Ret match r with
      | Err e => Err e
      | Ok (status, body) =>
          if negb (status =? 200) then Err ("get " +:+ url +:+ ": status " +:+ Itoa status)
          else Ok (read_limited body)
      end.

(** The [jwks_uri] of a discovery document. *)
Definition discovery_uri (data : string) : res string :=
  match parse data with
  | Some (JObj m) =>
      let '(uri, ok) := dec_string (bound ["jwks_uri"] "jwks_uri" m) in
      if negb ok then Err "oidc discovery parse: json: cannot unmarshal"
      else if String.eqb uri "" then Err "oidc discovery: missing jwks_uri"
      else Ok uri
  | Some JNull => Err "oidc discovery: missing jwks_uri"
  | _ => Err "oidc discovery parse: json: cannot unmarshal"
  end.

Definition fetchJWKSURI (issuer : string) : prog E (res string) :=
  data <- fetchURL (issuer +:+ "/.well-known/openid-configuration") ;;
  Ret match data with
      | Err e => Err ("oidc discovery: " +:+ e)
      | Ok d => discovery_uri d
      end.

(** The source is used under its mutex: one call at a time, from cache to
    cache. *)
Definition source_GetJWKS (s : HTTPJWKSSource) (issuer0 : string)
    : prog E (res string * HTTPJWKSSource) :=
  let issuer := TrimSuffix issuer0 "/" in
  let miss :=
    call (JWKSCache false issuer) ;;;
    uri <- fetchJWKSURI issuer ;;
    match uri with
    | Err e => Ret (Err e, s)
    | Ok jwksURI =>
        data <- fetchURL jwksURI ;;
        match data with
        | Err e => Ret (Err e, s)
        | Ok d =>
            now <- call Now ;;
            Ret (Ok d, {| js_cache := <[issuer := (d, now + js_ttl s)]> (js_cache s);
                          js_ttl := js_ttl s |})
        end
    end in
  match js_cache s !! issuer with
  | Some (data, exp) =>
      now <- call Now ;;
      if now <? exp then call (JWKSCache true issuer) ;;; Ret (Ok data, s) else miss
  | None => miss
  end.

(** The HTTP exchange of a successful fetch: the issuer's discovery document
    names the URI the keys come from. *)
Definition fetched (issuer d : string) (tr : list (event E)) : Prop :=
  ∃ doc uri body now, discovery_uri (read_limited doc) = Ok uri ∧
    d = read_limited body ∧
    tr = [Ev (JWKSCache false issuer) tt;
          Ev (HttpGet (issuer +:+ "/.well-known/openid-configuration")) (Ok (200, doc));
          Ev (HttpGet uri) (Ok (200, body)); Ev Now now].

Lemma fetchURL_exec url tr d :
  exec (fetchURL url) tr (Ok d) →
  ∃ body, tr = [Ev (HttpGet url) (Ok (200, body))] ∧ d = read_limited body.
Proof.
  intros ([[st body]|e] & tr' & -> & [-> Hr]); [|done].
  destruct (Z.eqb_spec st 200) as [->|]; cbn [negb] in Hr; [|done].
  injection Hr as <-. eauto.
Qed.

Lemma miss_exec s issuer tr r s' :
  exec (call (JWKSCache false issuer) ;;;
    uri <- fetchJWKSURI issuer ;;
    match uri with
    | Err e => Ret (Err e, s)
    | Ok jwksURI =>
        data <- fetchURL jwksURI ;;
        match data with
        | Err e => Ret (Err e, s)
        | Ok d =>
            now <- call Now ;;
            Ret (Ok d, {| js_cache := <[issuer := (d, now + js_ttl s)]> (js_cache s);
                          js_ttl := js_ttl s |})
        end
    end) tr (r, s') →
  match r with
  | Ok d => fetched issuer d tr ∧ js_ttl s' = js_ttl s ∧
            ∃ exp, js_cache s' = <[issuer := (d, exp)]> (js_cache s)
  | Err _ => s' = s
  end.
Proof.
  intros ([] & tr1 & -> & Hx). cbn [pbind call] in Hx.
  apply exec_bind in Hx as (uri & t1 & t2 & -> & Hu & Hx).
  destruct uri as [uri|e]; [|by destruct Hx as [_ [= <- <-]]].
  apply exec_bind in Hx as (data & t3 & t4 & -> & Hd & Hx).
  destruct data as [d|e]; [|by destruct Hx as [_ [= <- <-]]].
  destruct Hx as (now & ? & -> & [-> [= <- <-]]).
  apply fetchURL_exec in Hd as (body & -> & ->).
  apply exec_bind in Hu as (doc & t5 & t6 & -> & Hdoc & [-> Hu]).
  destruct doc as [doc|e]; [|done]. apply fetchURL_exec in Hdoc as (doc' & -> & ->).
  split; [|split; [done|by eexists]]. exists doc', uri, body, now. done.
Qed.

(** The JWKS source answers from its cache only while the entry's life
    lasts, without any request; otherwise what it answers is what the URI of
    the issuer's own discovery document served with status 200 (cut at 512 KB),
    which it then caches under that issuer alone; a failed fetch leaves the
    cache as it was. *)
Theorem jwks_source_correct s issuer0 tr r s' (issuer := TrimSuffix issuer0 "/")
    (Hx : exec (source_GetJWKS s issuer0) tr (r, s')) :
  (∃ d exp now, js_cache s !! issuer = Some (d, exp) ∧ now < exp ∧ r = Ok d ∧ s' = s ∧
     tr = [Ev Now now; Ev (JWKSCache true issuer) tt]) ∨
  match r with
  | Ok d => (∃ pre tl, tr = pre ++ tl ∧ fetched issuer d tl ∧
       (pre = [] ∧ js_cache s !! issuer = None ∨
        ∃ d' exp now, pre = [Ev Now now] ∧ js_cache s !! issuer = Some (d', exp) ∧ exp ≤ now)) ∧
      ∃ exp, js_cache s' = <[issuer := (d, exp)]> (js_cache s)
  | Err _ => s' = s
  end.
Proof.
  unfold source_GetJWKS in Hx. cbv zeta in Hx. fold issuer in Hx.
  destruct (js_cache s !! issuer) as [[d exp]|] eqn:Ec.
  - destruct Hx as (now & tr1 & -> & Hx). cbn [pbind call] in Hx. destruct (now <? exp) eqn:Hn.
    + left. destruct Hx as ([] & ? & -> & [-> [= <- <-]]). bool_prop. eauto 10.
    + right. apply miss_exec in Hx. destruct r; [|done]. destruct Hx as (Hf & _ & He).
      split; [|done]. exists [Ev Now now], tr1. split; [done|]. split; [done|]. right.
      bool_prop. eauto 10.
  - right. apply miss_exec in Hx. destruct r; [|done]. destruct Hx as (Hf & _ & He).
    split; [|done]. exists [], tr. split; [done|]. split; [done|]. by left.
Qed.
End source.

(** A concrete signature for the source alone. *)
Inductive jwksE : Type → Type :=
| JNow : jwksE Z
| JGet (url : string) : jwksE (res (Z * string))
| JCache (hit : bool) (issuer : string) : jwksE unit.
#[global] Instance jwksE_clock : ClockE jwksE := JNow.
#[global] Instance jwksE_get : HttpGetE jwksE := JGet.
#[global] Instance jwksE_metrics : JWKSMetrics jwksE := JCache.

(** The witness: an expired entry is fetched again. *)
Lemma jwks_source_correct_witness :
  let s := {| js_cache := {[ "https://idp" := ("old", 10) ]}; js_ttl := 5 |} in
  let doc := print (JObj [("jwks_uri", JStr "https://idp/keys")]) in
  ∃ s', exec (source_GetJWKS (H := ascii_unicode) (E := jwksE) s "https://idp/")
    [Ev JNow 10; Ev (JCache false "https://idp") tt;
     Ev (JGet "https://idp/.well-known/openid-configuration") (Ok (200, doc));
     Ev (JGet "https://idp/keys") (Ok (500, "")) ] (Err "get https://idp/keys: status 500", s') ∧ s' = s.
Proof.
  intros s doc. exists s.
  assert (discovery_uri (H := ascii_unicode) (read_limited doc) = Ok "https://idp/keys") as Hd
    by (vm_compute; reflexivity).
  assert (exec (source_GetJWKS (H := ascii_unicode) (E := jwksE) s "https://idp/")
    [Ev JNow 10; Ev (JCache false "https://idp") tt;
     Ev (JGet "https://idp/.well-known/openid-configuration") (Ok (200, doc));
     Ev (JGet "https://idp/keys") (Ok (500, "")) ] (Err "get https://idp/keys: status 500", s)) as Hx.
  { exists 10. eexists. split; [reflexivity|]. exists tt. eexists. split; [reflexivity|].
    exists (Ok (200, doc)). eexists. split; [reflexivity|]. cbn [negb Z.eqb Pos.eqb pbind].
    rewrite Hd. exists (Ok (500, "")), []. split; [reflexivity|]. split; reflexivity. }
  split; [exact Hx|].
  destruct (jwks_source_correct (H := ascii_unicode) s "https://idp/" _ _ _ Hx)
    as [(? & ? & ? & _ & _ & E & _)|E]; [discriminate E|exact E].
Defined.
