(* ===== verification/Sdk.v ===== *)
(** * The SDK's view of a session (pkg/sdk)

    How a stored session becomes the user object the auth server returns: a
    principal derived from the claims, both carried through the protobuf
    AuthContext, and the user read off it.  protobuf's structpb is a parameter:
    [NewStruct] may reject a map, [AsMap] gives a map back. *)

From S2P Require Import Prelude.
From S2P Require Import GoStrings.
From S2P Require Import GoTime.
From S2P Require Import GoAny.
From S2P Require Import Session.
From S2P Require Import Token.

Class StructPB := {
  pb_struct : Type;
  NewStruct : gmap string any → res pb_struct;
  AsMap : pb_struct → gmap string any }.

(** ** Data *)
Section sdk.
Context `{StructPB}.

Record pbPrincipal := {
  pp_Subject : string; pp_Scopes : list string; pp_Roles : list string;
  pp_Claims : pb_struct; pp_TenantContext : pb_struct; pp_AccessToken : string;
  pp_ExpiresAt : Z }.
Record pbSession := {
  ps_Id : string; ps_AccessToken : string; ps_RefreshToken : string; ps_IdToken : string;
  ps_ExpiresAt : Z; ps_Claims : pb_struct; ps_TenantContext : pb_struct }.
Record AuthContext := { ac_Principal : option pbPrincipal; ac_Session : option pbSession }.

Record SessionUser := {
  su_Sub : string; su_Email : string; su_PreferredUsername : string; su_Name : string;
  su_Roles : list string; su_Groups : list string; su_IsAdmin : bool;
  su_TenantContext : option (gmap string any); su_Claims : gmap string any }.
Record SessionResponse := { IsAuthenticated : bool; sr_User : option SessionUser }.

(** ** Claims *)
Definition cloneMap (c : claims) : gmap string any := default ∅ c.

Definition stringFromMap (c : claims) (key : string) : string :=
  default "" (as_string (claim key c)).

Definition stringsFromAny (l : list string) : list string :=
  List.filter (λ s, negb (String.eqb s "")) l.

Definition stringSliceFromValue (v : any) : list string :=
  match v with
  | AStrs l => l
  | AList l => stringsFromAny (strings_of l)
  | _ => []
  end.

Definition scopesFromClaims (c : claims) : list string :=
  match c with
  | None => []
  | Some _ =>
      match match claim "scope" c with AStr raw => Fields raw | _ => [] end with
      | [] => stringSliceFromValue (claim "scopes" c)
      | parts => parts
      end
  end.

Definition rolesFromClaims (c : claims) : list string :=
  match c with
  | None => []
  | Some _ =>
      match match claim "realm_access" c with
            | AMap m => stringSliceFromValue (map_index "roles" m) | _ => [] end with
      | [] => stringSliceFromValue (claim "roles" c)
      | roles => roles
      end
  end.

Definition groupsFromClaims (c : claims) : list string :=
  match c with None => [] | Some _ => stringSliceFromValue (claim "groups" c) end.

Definition tenantContextToMap (tc : option TenantContext) : gmap string any :=
  match tc with
  | None => ∅
  | Some t =>
      let put k v (m : gmap string any) := if String.eqb v "" then m else <[k := AStr v]> m in
      put "timezone" (Timezone t) (put "locale" (Locale t) (put "status" (tc_Status t)
        (put "tenant_slug" (TenantSlug t) (put "tenant_id" (TenantID t) ∅))))
  end.

(** ** Conversions *)
Definition principalFromSession (sess : option Session) : option Principal :=
  match sess with
  | None => None
  | Some s =>
      let c := Some (cloneMap (Claims s)) in
      Some {| Subject := stringFromMap c "sub"; Scopes := scopesFromClaims c;
              Roles := rolesFromClaims c; p_Claims := c; p_ExpiresAt := TimeUnix (ExpiresAt s);
              p_AccessToken := AccessToken s;
              p_TenantContext := Some (tenantContextToMap (s_Tenant s)) |}
  end.

Definition principalToProto (p : option Principal) : res (option pbPrincipal) :=
  match p with
  | None => Ok None
  | Some p =>
      try c <- NewStruct (cloneMap (p_Claims p)) ;
      try t <- NewStruct (cloneMap (p_TenantContext p)) ;
      Ok (Some {| pp_Subject := Subject p; pp_Scopes := Scopes p; pp_Roles := Roles p;
                  pp_Claims := c; pp_TenantContext := t; pp_AccessToken := p_AccessToken p;
                  pp_ExpiresAt := Unix (p_ExpiresAt p) |})
  end.

Definition sessionToProto (s : option Session) : res (option pbSession) :=
  match s with
  | None => Ok None
  | Some s =>
      try c <- NewStruct (cloneMap (Claims s)) ;
      try t <- NewStruct (tenantContextToMap (s_Tenant s)) ;
      Ok (Some {| ps_Id := s_ID s; ps_AccessToken := AccessToken s;
                  ps_RefreshToken := RefreshToken s; ps_IdToken := IDToken s;
                  ps_ExpiresAt := ExpiresAt s; ps_Claims := c; ps_TenantContext := t |})
  end.

Definition AuthContextFromPrincipalAndSession (p : option Principal) (s : option Session)
    : res AuthContext :=
  let p := match p with None => principalFromSession s | _ => p end in
  try pp <- principalToProto p ;
  try ps <- sessionToProto s ;
  Ok {| ac_Principal := pp; ac_Session := ps |}.

Definition AuthContextFromSession (s : option Session) : res AuthContext :=
  AuthContextFromPrincipalAndSession None s.

(** A map read from a struct of an absent message is empty. *)
Definition struct_map (o : option pb_struct) : gmap string any :=
  match o with Some s => AsMap s | None => ∅ end.

Definition is_admin_role (r : string) : bool :=
  String.eqb r "admin" || String.eqb r "administrator".

Definition sessionUserFromAuthContext (ctx : AuthContext) : option SessionUser :=
  let pr := ac_Principal ctx in
  let ss := ac_Session ctx in
  let c := struct_map (pp_Claims <$> pr) in
  let c := if decide (c = ∅) then struct_map (ps_Claims <$> ss) else c in
  let tc := struct_map (pp_TenantContext <$> pr) in
  let tc := if decide (tc = ∅) then struct_map (ps_TenantContext <$> ss) else tc in
  let roles := match stringsFromAny (from_option pp_Roles [] pr) with
               | [] => rolesFromClaims (Some c) | l => l end in
  let groups := groupsFromClaims (Some c) in
  let sub0 := from_option pp_Subject "" pr in
  let sub := if String.eqb sub0 "" then stringFromMap (Some c) "sub" else sub0 in
  if String.eqb sub "" && bool_decide (c = ∅) &&
     match roles with [] => true | _ => false end && match groups with [] => true | _ => false end
  then None
  else Some {| su_Sub := sub; su_Email := stringFromMap (Some c) "email";
               su_PreferredUsername := stringFromMap (Some c) "preferred_username";
               su_Name := stringFromMap (Some c) "name"; su_Roles := roles; su_Groups := groups;
               su_IsAdmin := existsb is_admin_role roles;
               su_TenantContext := if decide (tc = ∅) then None else Some tc; su_Claims := c |}.

Definition SessionResponseFromAuthContext (ctx : option AuthContext) : SessionResponse :=
  let no := {| IsAuthenticated := false; sr_User := None |} in
  match ctx with
  | None => no
  | Some ctx =>
      match ac_Principal ctx, ac_Session ctx with
      | None, None => no
      | _, _ => match sessionUserFromAuthContext ctx with
                | None => no
                | Some u => {| IsAuthenticated := true; sr_User := Some u |}
                end
      end
  end.

Definition SessionUserFromSession (s : option Session) : option SessionUser :=
  match s with
  | None => None
  | Some _ => match AuthContextFromSession s with
              | Err _ => None
              | Ok ctx => sr_User (SessionResponseFromAuthContext (Some ctx))
              end
  end.

(** ** The user is the session's user *)
Section correct.
Context (Hround : ∀ m p, NewStruct m = Ok p → AsMap p = m).

Lemma default_some_id (c : claims) : claim "sub" (Some (cloneMap c)) = claim "sub" c.
Proof. destruct c; [done|]. simpl. by rewrite lookup_empty. Qed.

Lemma user_of_context pp ps c tm u :
  AsMap (pp_Claims pp) = c → AsMap (ps_Claims ps) = c →
  AsMap (pp_TenantContext pp) = tm → AsMap (ps_TenantContext ps) = tm →
  pp_Subject pp = stringFromMap (Some c) "sub" →
  sessionUserFromAuthContext {| ac_Principal := Some pp; ac_Session := Some ps |} = Some u →
  su_Claims u = c ∧ su_Sub u = stringFromMap (Some c) "sub" ∧
  su_Groups u = groupsFromClaims (Some c) ∧ default ∅ (su_TenantContext u) = tm ∧
  su_IsAdmin u = existsb is_admin_role (su_Roles u).
Proof.
  intros Hc Hc' Ht Ht' Hsub Hu. unfold sessionUserFromAuthContext in Hu.
  cbn [ac_Principal ac_Session fmap option_fmap option_map struct_map from_option] in Hu.
  rewrite Hc, Hc', Ht, Ht', Hsub in Hu.
  assert (∀ m : gmap string any, (if decide (m = ∅) then m else m) = m) as Hif
    by (intros m; destruct (decide (m = ∅)); reflexivity).
  rewrite !Hif in Hu.
  match type of Hu with (if ?b then _ else _) = _ => destruct b; [done|] end.
  injection Hu as <-. cbn [su_Claims su_Sub su_Groups su_TenantContext su_IsAdmin su_Roles].
  split; [done|]. split; [by case_match|]. split; [done|]. split; [|done].
  destruct (decide (tm = ∅)) as [Etm|]; [by rewrite Etm|done].
Qed.

(** Whenever the session yields a user at all, it is the session's own:
    its claims are the session's claims, its subject the claim sub, its tenant
    the session's tenant context, its groups the claims' groups, and it is an
    administrator exactly when one of its roles says so. *)
Theorem session_user_correct s u (Hu : SessionUserFromSession (Some s) = Some u) :
  su_Claims u = cloneMap (Claims s) ∧ su_Sub u = stringFromMap (Claims s) "sub" ∧
  su_Groups u = groupsFromClaims (Some (cloneMap (Claims s))) ∧
  default ∅ (su_TenantContext u) = tenantContextToMap (s_Tenant s) ∧
  (su_IsAdmin u = true ↔ "admin" ∈ su_Roles u ∨ "administrator" ∈ su_Roles u).
Proof.
  unfold SessionUserFromSession, AuthContextFromSession, AuthContextFromPrincipalAndSession in Hu.
  cbn [principalFromSession principalToProto sessionToProto p_Claims p_TenantContext cloneMap
       default from_option id] in Hu.
  destruct (NewStruct (cloneMap (Claims s))) as [pc|e] eqn:Ec; [|discriminate Hu].
  cbn [res_bind] in Hu.
  destruct (NewStruct (tenantContextToMap (s_Tenant s))) as [pt|e] eqn:Et; [|discriminate Hu].
  cbn [res_bind SessionResponseFromAuthContext ac_Principal ac_Session] in Hu.
  apply Hround in Ec. apply Hround in Et.
  match type of Hu with sr_User match ?x with _ => _ end = _ => destruct x as [u'|] eqn:Eu; [|done] end.
  simpl in Hu. injection Hu as ->.
  eapply user_of_context in Eu as (-> & -> & -> & -> & ->); [|done..].
  split; [done|]. split; [unfold stringFromMap; by rewrite default_some_id|]. split; [done|].
  split; [done|]. rewrite existsb_true_iff. unfold is_admin_role.
  setoid_rewrite orb_true_iff. setoid_rewrite String.eqb_eq. naive_solver.
Qed.
End correct.
End sdk.

#[local] Instance identity_pb : StructPB :=
  {| pb_struct := gmap string any; NewStruct := Ok; AsMap := id |}.

Lemma session_user_correct_witness :
  let s := {| s_ID := "sid"; AccessToken := ""; RefreshToken := ""; IDToken := ""; ExpiresAt := 1;
              Claims := Some {[ "sub" := AStr "u1"; "roles" := AList [AStr "admin"] ]};
              s_Tenant := None |} in
  ∃ u, SessionUserFromSession (Some s) = Some u ∧ su_Sub u = "u1" ∧
    (su_IsAdmin u = true ↔ "admin" ∈ su_Roles u ∨ "administrator" ∈ su_Roles u).
Proof.
  intros s. destruct (SessionUserFromSession (Some s)) as [u|] eqn:E; [|vm_compute in E; discriminate E].
  assert (∀ m p, NewStruct m = Ok p → AsMap p = m) as Hround by (intros m p [= ->]; reflexivity).
  exists u. split; [reflexivity|].
  destruct (session_user_correct Hround s u E) as (_ & Hsub & _ & _ & Hadm).
  split; [rewrite Hsub; vm_compute; reflexivity|exact Hadm].
Defined.
