(* ===== verification/AuthService.v ===== *)
(** * The auth service (internal/auth/service)

    [Service] drives login, refresh, logout, session resolution and handoff
    over its connectors.  Each connector carries its stores and its identity
    provider as records of calls (the Go interfaces of the same names); the
    clock, the random source, the JWKS source, the JWT library, the webhook
    client, the log and the metrics are the call interfaces of the section.
    Deferred calls run where Go runs them: after the result is fixed, last
    deferred first.  Tracing spans have no effect on the service and are left
    out. *)

From S2P Require Import Prelude.
From S2P Require Import GoStrings.
From S2P Require Import Effects.
From S2P Require Import GoTime.
From S2P Require Import GoAny.
From S2P Require Import Base64.
From S2P Require Import Sha256.
From S2P Require Import Json.
From S2P Require Import GoUrl.
From S2P Require Import Cookie.
From S2P Require Import Session.
From S2P Require Import AuthConfig.
From S2P Require Import Handoff.
From S2P Require Import Redirect.
From S2P Require Import Token.
From S2P Require Import Sdk.

(** ** Interfaces *)
Class RandE (E : Type → Type) := RandRead : Z → E (res string).
Class LogE (E : Type → Type) := Log : string → E unit.
Class WebhookE (E : Type → Type) := WebhookPost : string → string → string → E (res Z).

Inductive auth_metric :=
| LoginStarted
| LoginCompleted (success : bool)
| RefreshCompleted (success : bool)
| LogoutCompleted
| ConnectorCallback (id : string) (success : bool)
| HandoffIssued (id : string) (success : bool)
| HandoffRedeemed (id : string) (success : bool).
Class AuthMetricsE (E : Type → Type) := Metric : auth_metric → E unit.

Record ProviderTokens := {
  pt_AccessToken : string; pt_RefreshToken : string; pt_IDToken : string; pt_ExpiresIn : Z }.

Record ProviderPlugin (E : Type → Type) := {
  AuthorizationURL : string → string → string → list (string * string) → E (res string);
  ExchangeCode : string → string → string → E (res ProviderTokens);
  ProviderRefresh : string → E (res ProviderTokens);
  EndSessionURL : string → string → E (res string) }.
Arguments AuthorizationURL {E}.
Arguments ExchangeCode {E}.
Arguments ProviderRefresh {E}.
Arguments EndSessionURL {E}.

(** ** Requests and responses (pkg/auth) *)
Record LoginStartRequest := { ls_Connector : string; ls_RedirectTo : string; ls_Prompt : string }.
Record LoginStartResponse := { lsr_RedirectURL : string }.
Record LoginEndRequest := {
  le_Connector : string; le_Code : string; le_State : string; le_Error : string;
  le_ErrorDescription : string; le_Host : string }.
Record LoginEndResponse := {
  ler_RedirectURL : string; ler_SetCookieValue : string; ler_ClearCookie : bool }.
Record SessionRequest := { sr_SessionCookie : string; sr_Connector : string }.
Record RefreshRequest := { rf_SessionCookie : string; rf_Connector : string }.
Record RefreshResponse := { rfr_SetCookieValue : string; rfr_Refreshed : bool }.
Record LogoutRequest := {
  lo_SessionCookie : string; lo_Connector : string; lo_RedirectTo : string; lo_Origin : string;
  lo_Referer : string }.
Record LogoutResponse := { lor_RedirectURL : string; lor_ClearCookie : bool }.

(** ** State *)
Record connector (E : Type → Type) := {
  k_cfg : ConnectorConfig; k_provider : ProviderPlugin E; k_sessions : SessionStore E;
  k_pkce : PKCEStore E; k_lock : RefreshLockStore E;
  k_finder : option (string → string → E (res (option Session)));
  k_cookieName : string; k_cookieOpts : CookieOptions }.
Arguments k_cfg {E}.
Arguments k_provider {E}.
Arguments k_sessions {E}.
Arguments k_pkce {E}.
Arguments k_lock {E}.
Arguments k_finder {E}.
Arguments k_cookieName {E}.
Arguments k_cookieOpts {E}.

(** The wiring of one connector given to the constructors. *)
Record Connector (E : Type → Type) := {
  K_Config : ConnectorConfig; K_Provider : option (ProviderPlugin E);
  K_Sessions : SessionStore E; K_PKCE : PKCEStore E; K_RefreshLock : RefreshLockStore E;
  K_Finder : option (string → string → E (res (option Session))) }.
Arguments K_Config {E}.
Arguments K_Provider {E}.
Arguments K_Sessions {E}.
Arguments K_PKCE {E}.
Arguments K_RefreshLock {E}.
Arguments K_Finder {E}.

Record Service (E : Type → Type) := {
  s_cfg : Config; s_connectors : gmap string (connector E); s_defaultID : string;
  s_jwks : bool; s_cookie : SignedManager; s_handoff : option Issuer }.
Arguments s_cfg {E}.
Arguments s_connectors {E}.
Arguments s_defaultID {E}.
Arguments s_jwks {E}.
Arguments s_cookie {E}.
Arguments s_handoff {E}.

(** ** Identity *)

(** A claim value as a string; empty for a value that is not a scalar. *)
Definition claimToString (v : any) : string :=
  match v with
  | AStr s => s
  | ANumber lit => lit
  | AFloat f => FormatFloat_f f
  | AInt z => Itoa z
  | _ => ""
  end.

Definition getClaimString (c : claims) (key : string) : string :=
  default "" (as_string (claim key c)).

Definition authoritativeID (cfg : ConnectorConfig) (c : claims) : string :=
  let key := AuthoritativeIDClaim (cc_ClaimMapping cfg) in
  match c with
  | None => ""
  | Some _ => if String.eqb key "" || String.eqb key "sub" then ""
              else claimToString (claim key c)
  end.

(** The claims a new session keeps. *)
Definition session_claims (cfg : ConnectorConfig) (p : Principal) : gmap string any :=
  let c := default ∅ (p_Claims p) in
  let mapped := authoritativeID cfg (p_Claims p) in
  let authID := if String.eqb mapped "" then Subject p else mapped in
  let c := <["sub" := AStr authID]> c in
  let kind := IDKind (cc_ClaimMapping cfg) in
  let c := if String.eqb kind "" then c else <["authoritative_id_kind" := AStr kind]> c in
  match Roles p with [] => c | roles => <["roles" := AStrs roles]> c end.

(** [applyRefreshedClaims]: the claims of the session after a refresh. *)
Definition applyRefreshedClaims (cfg : ConnectorConfig) (old : claims) (new : gmap string any)
    : gmap string any :=
  let prevSub := getClaimString old "sub" in
  let prevKind := getClaimString old "authoritative_id_kind" in
  let key := AuthoritativeIDClaim (cc_ClaimMapping cfg) in
  let mapped := authoritativeID cfg (Some new) in
  let authID :=
    if negb (String.eqb mapped "") then mapped
    else if negb (String.eqb key "") && negb (String.eqb key "sub") && negb (String.eqb prevSub "")
    then prevSub
    else getClaimString (Some new) "sub" in
  let new := if String.eqb authID "" then new else <["sub" := AStr authID]> new in
  let kind := IDKind (cc_ClaimMapping cfg) in
  if negb (String.eqb kind "") then <["authoritative_id_kind" := AStr kind]> new
  else if negb (String.eqb prevKind "") then <["authoritative_id_kind" := AStr prevKind]> new
  else new.

Definition set_claims (s : Session) (c : claims) : Session :=
  {| s_ID := s_ID s; AccessToken := AccessToken s; RefreshToken := RefreshToken s;
     IDToken := IDToken s; ExpiresAt := ExpiresAt s; Claims := c; s_Tenant := s_Tenant s |}.
Definition set_tenant (s : Session) (t : option TenantContext) : Session :=
  {| s_ID := s_ID s; AccessToken := AccessToken s; RefreshToken := RefreshToken s;
     IDToken := IDToken s; ExpiresAt := ExpiresAt s; Claims := Claims s; s_Tenant := t |}.
(** The assignments a refresh makes from the provider's tokens. *)
Definition set_tokens (s : Session) (t : ProviderTokens) (expiresAt : Z) : Session :=
  {| s_ID := s_ID s; AccessToken := pt_AccessToken t;
     RefreshToken := or_str (pt_RefreshToken t) (RefreshToken s);
     IDToken := or_str (pt_IDToken t) (IDToken s);
     ExpiresAt := expiresAt; Claims := Claims s; s_Tenant := s_Tenant s |}.

Definition audience_of (cfg : ConnectorConfig) : string :=
  or_str (cc_OIDCAudience cfg) (cc_OIDCClientID cfg).

(** ** Construction *)
Section construct.
Context `{Unicode} {E : Type → Type}.

Definition connector_of (cfg : Config) (c : Connector E) (p : ProviderPlugin E) : connector E :=
  let cc := K_Config c in
  {| k_cfg := cc; k_provider := p; k_sessions := K_Sessions c; k_pkce := K_PKCE c;
     k_lock := K_RefreshLock c; k_finder := K_Finder c;
     k_cookieName := or_str (cc_CookieName cc) (CookieName cfg);
     k_cookieOpts :=
       {| Path := "/"; Domain := CookieDomain cfg; Secure := CookieSecure cfg; HTTPOnly := true;
          Same := CookieSameSite cfg;
          MaxAge := or_int (cc_SessionTTLSeconds cc) (c_SessionTTLSeconds cfg) |} |}.

(** The loop over the connectors: the map so far and the default so far. *)
Fixpoint add_connectors (cfg : Config) (l : list (Connector E))
    (m : gmap string (connector E)) (defaultID : string)
    : res (gmap string (connector E) * string) :=
  match l with
  | [] => Ok (m, defaultID)
  | c :: l' =>
      match K_Provider c with
      | None => Err ("connector " +:+ Quote (cc_ID (K_Config c)) +:+ ": provider is required")
      | Some p =>
          let id := or_str (cc_ID (K_Config c)) "default" in
          add_connectors cfg l' (<[id := connector_of cfg c p]> m)
            (if cc_Default (K_Config c) || String.eqb defaultID "" then id else defaultID)
      end
  end.

Definition newService (cfg : Config) (l : list (Connector E)) (cookie : SignedManager) (jwks : bool)
    : res (Service E) :=
  try md <- add_connectors cfg l ∅ "" ;
  Ok {| s_cfg := cfg; s_connectors := fst md; s_defaultID := snd md; s_jwks := jwks;
        s_cookie := cookie; s_handoff := None |}.

Definition defaultConnectorConfig (cfg : Config) : ConnectorConfig :=
  match DefaultConnector cfg with
  | Some dc => dc
  | None =>
      {| cc_ID := "default"; cc_Default := true; cc_ProviderPluginID := ProviderPluginID cfg;
         cc_OIDCIssuer := OIDCIssuer cfg; cc_OIDCRedirectURI := OIDCRedirectURI cfg;
         cc_OIDCClientID := OIDCClientID cfg; cc_OIDCClientSecret := OIDCClientSecret cfg;
         cc_OIDCScopes := OIDCScopes cfg; cc_OIDCAudience := OIDCAudience cfg;
         cc_OIDCClaimsSource := OIDCClaimsSource cfg;
         cc_SessionRedisPrefix := SessionRedisPrefix cfg; cc_CookieName := CookieName cfg;
         cc_SessionTTLSeconds := c_SessionTTLSeconds cfg;
         cc_SessionPKCETTLSeconds := c_SessionPKCETTLSeconds cfg;
         cc_SessionRefreshLockTTLSeconds := c_SessionRefreshLockTTLSeconds cfg;
         cc_ClaimMapping := {| AuthoritativeIDClaim := "sub"; IDKind := "oidc_sub";
                               EmailClaim := ""; NameClaim := ""; RolesClaim := "" |} |}
  end.

(** The constructors validate the configuration first (which fills its
    derived fields). *)
Definition NewMultiConnector (cfg : Config) (l : list (Connector E)) (cookie : SignedManager)
    (jwks : bool) : res (Service E) :=
  match Validate cfg with
  | (_, Some e) => Err e
  | (cfg, None) =>
      match l with
      | [] => Err "at least one connector is required"
      | _ => newService cfg l cookie jwks
      end
  end.

Definition New (cfg : Config) (sessions : SessionStore E) (pkce : PKCEStore E)
    (lock : RefreshLockStore E) (cookie : SignedManager) (jwks : bool)
    (provider : option (ProviderPlugin E)) : res (Service E) :=
  match Validate cfg with
  | (_, Some e) => Err e
  | (cfg, None) =>
      match provider with
      | None => Err "provider is required"
      | Some _ =>
          newService cfg
            [{| K_Config := defaultConnectorConfig cfg; K_Provider := provider;
                K_Sessions := sessions; K_PKCE := pkce; K_RefreshLock := lock;
                K_Finder := None |}] cookie jwks
      end
  end.

(** [stores]: the runtime store provider, when there is one. *)
Definition NewWithRuntimeStoreProvider (cfg : Config)
    (stores : option (SessionStore E * PKCEStore E * RefreshLockStore E)) (cookie : SignedManager)
    (jwks : bool) (provider : option (ProviderPlugin E)) : res (Service E) :=
  match stores with
  | None => Err "runtime stores are required"
  | Some (sessions, pkce, lock) => New cfg sessions pkce lock cookie jwks provider
  end.

Definition EnableHandoff (s : Service E) (once : bool) (ttlSeconds : Z) : Service E :=
  {| s_cfg := s_cfg s; s_connectors := s_connectors s; s_defaultID := s_defaultID s;
     s_jwks := s_jwks s; s_cookie := s_cookie s;
     s_handoff := Some (NewIssuer (CookieSigningSecret (s_cfg s)) (DurMul ttlSeconds Second) once) |}.

Definition HandoffEnabled (s : Service E) : bool :=
  match s_handoff s with Some _ => true | None => false end.

Definition conn (s : Service E) (id : string) : res (connector E) :=
  let id := or_str id (s_defaultID s) in
  match s_connectors s !! id with
  | Some c => Ok c
  | None => Err ("unknown connector " +:+ Quote id)
  end.

Definition ConnectorCookieName (s : Service E) (id : string) : string :=
  match conn s id with Ok c => k_cookieName c | Err _ => CookieName (s_cfg s) end.

Definition validate_target (s : Service E) (target : string) : string :=
  ValidateRedirect target (AppBaseURL (s_cfg s)) (AllowedRedirectOrigins (s_cfg s))
    (AllowedRedirectPaths (s_cfg s)).

Definition ValidateRedirectURL (s : Service E) (redirectTo : string) : string :=
  or_str (validate_target s redirectTo) (AppBaseURL (s_cfg s)).
End construct.

(** ** Randomness (pkg/oidc/pkce.go and generateSessionID) *)
Section random.
Context {E : Type → Type} `{!RandE E}.

Definition random_id (n : Z) : prog E (res string) :=
  b <- call (RandRead n) ;;
  Ret match b with Err e => Err e | Ok b => Ok (rawurl_encode b) end.

Definition generateSessionID : prog E (res string) := random_id 32.
Definition GenerateState : prog E (res string) := random_id 24.

(** The S256 challenge of a verifier. *)
Definition code_challenge (verifier : string) : string := rawurl_encode (sha256_string verifier).

Definition GeneratePKCE : prog E (res (string * string * string)) :=
  v <- random_id 32 ;;
  match v with
  | Err e => Ret (Err e)
  | Ok verifier =>
      n <- random_id 16 ;;
      Ret match n with
          | Err e => Err e
          | Ok nonce => Ok (verifier, code_challenge verifier, nonce)
          end
  end.
End random.
