(* ===== verification/AuthFlows.v ===== *)
(** * The flows of the auth service (internal/auth/service/service.go)

    Login start and end, session lookup, refresh, logout, resolution for the
    proxy, tenant context and handoff, as programs over the call interfaces. *)

From S2P Require Import Prelude.
From S2P Require Import GoStrings.
From S2P Require Import Effects.
From S2P Require Import GoTime.
From S2P Require Import GoAny.
From S2P Require Import Sha256.
From S2P Require Import Json.
From S2P Require Import GoUrl.
From S2P Require Import Cookie.
From S2P Require Import Session.
From S2P Require Import AuthConfig.
From S2P Require Import Handoff.
From S2P Require Import Redirect.
From S2P Require Import Token.
From S2P Require Import Sdk.
From S2P Require Import AuthService.

Section flows.
Context `{Unicode} `{StructPB} {E : Type → Type}.
Context `{!ClockE E} `{!RandE E} `{!LogE E} `{!WebhookE E} `{!AuthMetricsE E}.
Context `{!JWKSSource E} `{!JwtLib E} `{!OnceStore E}.
Notation Service := (Service E).
Notation connector := (connector E).

Definition log (msg : string) : prog E unit := call (Log msg).

(** ** Session *)
Definition no_session : SessionResponse := {| IsAuthenticated := false; sr_User := None |}.

Definition auth_Session (s : Service) (req : SessionRequest) : prog E (res SessionResponse) :=
  if String.eqb (sr_SessionCookie req) "" then Ret (Ok no_session)
  else
    match conn s (sr_Connector req) with
    | Err _ => Ret (Ok no_session)
    | Ok c =>
        match codec_Decode (s_cookie s) (sr_SessionCookie req) with
        | Err _ => Ret (Ok no_session)
        | Ok sessionID =>
            r <- call (@SS_Get E (k_sessions c) sessionID) ;;
            Ret match r with
                | Ok (Some sess) =>
                    Ok {| IsAuthenticated := true; sr_User := SessionUserFromSession (Some sess) |}
                | _ => Ok no_session
                end
        end
    end.

(** ** Login *)
Definition LoginStart (s : Service) (req : LoginStartRequest) : prog E (res LoginStartResponse) :=
  call (Metric LoginStarted) ;;;
  match conn s (ls_Connector req) with
  | Err e => Ret (Err e)
  | Ok c =>
      let redirectTo := or_str (validate_target s (ls_RedirectTo req)) (AppBaseURL (s_cfg s)) in
      pkce <- GeneratePKCE ;;
      match pkce with
      | Err e => Ret (Err e)
      | Ok (verifier, challenge, nonce) =>
          st <- GenerateState ;;
          match st with
          | Err e => Ret (Err e)
          | Ok state =>
              err <- call (@PS_Set E (k_pkce c) state
                {| State := state; CodeVerifier := verifier; CodeChallenge := challenge;
                   Nonce := nonce; RedirectTo := redirectTo |}
                (cc_SessionPKCETTLSeconds (k_cfg c))) ;;
              match err with
              | Some e => Ret (Err e)
              | None =>
                  let prompt := TrimSpace (ls_Prompt req) in
                  let extra := if String.eqb prompt "" then [] else [("prompt", prompt)] in
                  url <- call (AuthorizationURL (k_provider c) state challenge nonce extra) ;;
                  Ret match url with
                      | Err e => Err e
                      | Ok u => Ok {| lsr_RedirectURL := u |}
                      end
              end
          end
      end
  end.

(** [callPostLoginWebhook]: the signed POST, and the error it reports. *)
Definition webhook_body (sessionID subject email : string) (c : gmap string any) (host : string)
    : string :=
  match json_of_any (AMap (map_to_list c)) with
  | None => ""
  | Some cj => print (JObj [("claims", cj); ("email", JStr email); ("host", JStr host);
                            ("session_id", JStr sessionID); ("subject", JStr subject)])
  end.

Definition callPostLoginWebhook (s : Service) (webhookURL sessionID subject email : string)
    (c : gmap string any) (host : string) : prog E (option string) :=
  match Parse webhookURL with
  | Err e => Ret (Some ("webhook: invalid URL: " +:+ e))
  | Ok u =>
      if negb (String.eqb (Scheme u) "https") then
        Ret (Some ("webhook: URL scheme " +:+ Quote (Scheme u) +:+ " not allowed (must be https)"))
      else
        let data := webhook_body sessionID subject email c host in
        let sig := hex (hmac_sha256 (bytes_of (CookieSigningSecret (s_cfg s))) (bytes_of data)) in
        r <- call (WebhookPost webhookURL data ("sha256=" +:+ sig)) ;;
        Ret match r with
            | Err e => Some e
            | Ok status => if (status <? 200) || (300 <=? status)
                           then Some ("webhook status " +:+ Itoa status) else None
            end
  end.

Definition login_failed (s : Service) : LoginEndResponse :=
  {| ler_RedirectURL := AppBaseURL (s_cfg s) +:+ LoginErrorRedirectPath (s_cfg s);
     ler_SetCookieValue := ""; ler_ClearCookie := true |}.

(** The expiry of a session from the provider's lifetime: an hour when it
    gives none. *)
Definition token_expiry (expiresIn : Z) (warning : string) : prog E Z :=
  now <- call Now ;;
  if expiresIn <=? 0 then
    log warning ;;;
    now <- call Now ;;
    Ret (Unix (now + Hour))
  else Ret (wrap64 (Unix now + expiresIn)).

(** The last steps of a login: session, webhook, cookie. *)
Definition establish (s : Service) (c : connector) (req : LoginEndRequest) (p : PKCEState)
    (tr : ProviderTokens) (pr : Principal) : prog E (res LoginEndResponse * bool) :=
  expiresAt <- token_expiry (pt_ExpiresIn tr)
    ("warn: IdP omitted expires_in for subject=" +:+ Subject pr +:+ ", defaulting to 1 hour") ;;
  let claims := session_claims (k_cfg c) pr in
  id <- generateSessionID ;;
  match id with
  | Err e => Ret (Err e, false)
  | Ok sessID =>
      let sess := {| s_ID := sessID; AccessToken := pt_AccessToken tr;
                     RefreshToken := pt_RefreshToken tr; IDToken := pt_IDToken tr;
                     ExpiresAt := expiresAt; Claims := Some claims; s_Tenant := None |} in
      err <- call (@SS_Set E (k_sessions c) sessID sess (cc_SessionTTLSeconds (k_cfg c))) ;;
      match err with
      | Some e => Ret (Err e, false)
      | None =>
          log ("audit: login_success subject=" +:+ Subject pr +:+ " session_id=" +:+ sessID
               +:+ " host=" +:+ le_Host req) ;;;
          (if String.eqb (PostLoginWebhookURL (s_cfg s)) "" then Ret tt
           else
             werr <- callPostLoginWebhook s (PostLoginWebhookURL (s_cfg s)) sessID (Subject pr)
                       (getClaimString (Some claims) "email") claims (le_Host req) ;;
             match werr with
             | Some e => log ("warn: post_login_webhook failed: " +:+ e)
             | None => Ret tt
             end) ;;;
          match codec_Encode (s_cookie s) sessID with
          | Err e => Ret (Err e, false)
          | Ok cookieValue =>
              Ret (Ok {| ler_RedirectURL := or_str (validate_target s (RedirectTo p)) (AppBaseURL (s_cfg s));
                         ler_SetCookieValue := cookieValue; ler_ClearCookie := false |}, true)
          end
      end
  end.

Definition login_end (s : Service) (c : connector) (req : LoginEndRequest)
    : prog E (res LoginEndResponse * bool) :=
  if negb (String.eqb (le_Error req) "") then Ret (Ok (login_failed s), false)
  else if String.eqb (le_State req) "" || String.eqb (le_Code req) "" then
    Ret (Ok (login_failed s), false)
  else
    r <- call (@PS_Get E (k_pkce c) (le_State req)) ;;
    match r with
    | Ok (Some p) =>
        call (@PS_Delete E (k_pkce c) (le_State req)) ;;;
        t <- call (ExchangeCode (k_provider c) (le_Code req) (CodeVerifier p)
                     (cc_OIDCRedirectURI (k_cfg c))) ;;
        match t with
        | Err _ =>
            log ("audit: login_end exchange_failed connector=" +:+ cc_ID (k_cfg c) +:+ " host="
                 +:+ le_Host req) ;;;
            Ret (Ok (login_failed s), false)
        | Ok tr =>
            v <- ValidateIDToken (pt_IDToken tr) (s_jwks s) (cc_OIDCIssuer (k_cfg c))
                   (audience_of (k_cfg c)) (Nonce p) ;;
            match v with
            | Err e =>
                log ("audit: login_end token_invalid host=" +:+ le_Host req +:+ " reason=" +:+ e) ;;;
                Ret (Ok (login_failed s), false)
            | Ok pr => establish s c req p tr pr
            end
        end
    | _ =>
        log ("audit: login_end pkce_miss connector=" +:+ cc_ID (k_cfg c) +:+ " host="
             +:+ le_Host req) ;;;
        Ret (Ok (login_failed s), false)
    end.

Definition LoginEnd (s : Service) (req : LoginEndRequest) : prog E (res LoginEndResponse) :=
  match conn s (le_Connector req) with
  | Err e => call (Metric (LoginCompleted false)) ;;; Ret (Err e)
  | Ok c =>
      r <- login_end s c req ;;
      call (Metric (ConnectorCallback (cc_ID (k_cfg c)) (snd r))) ;;;
      call (Metric (LoginCompleted (snd r))) ;;;
      Ret (fst r)
  end.

(** ** Refresh *)

(** The session after the provider's answer, before it is stored. *)
Definition renew (s : Service) (c : connector) (sessionID : string) (sess : Session)
    (tr : ProviderTokens) : prog E Session :=
  expiresAt <- token_expiry (pt_ExpiresIn tr)
    ("warn: IdP omitted expires_in on refresh for session_id=" +:+ sessionID
     +:+ ", defaulting to 1 hour") ;;
  (if String.eqb (pt_RefreshToken tr) "" then Ret tt
   else log ("audit: refresh_token_rotated session_id=" +:+ sessionID)) ;;;
  let sess := set_tokens sess tr expiresAt in
  if String.eqb (pt_IDToken tr) "" then Ret sess
  else
    v <- ValidateIDToken (pt_IDToken tr) (s_jwks s) (cc_OIDCIssuer (k_cfg c))
           (audience_of (k_cfg c)) "" ;;
    Ret match v with
        | Ok pr => match p_Claims pr with
                   | Some new => set_claims sess (Some (applyRefreshedClaims (k_cfg c) (Claims sess) new))
                   | None => sess
                   end
        | Err _ => sess
        end.

(** The part of [Refresh] that runs under the lock. *)
Definition refresh_locked (s : Service) (c : connector) (sessionID : string) (sess : Session)
    : prog E (res RefreshResponse * bool) :=
  t <- call (ProviderRefresh (k_provider c) (RefreshToken sess)) ;;
  match t with
  | Err e =>
      log ("audit: refresh_failed session_id=" +:+ sessionID +:+ " reason=" +:+ e) ;;;
      Ret (Err ("refresh failed: " +:+ e), false)
  | Ok tr =>
      sess <- renew s c sessionID sess tr ;;
      err <- call (@SS_Set E (k_sessions c) sessionID sess (cc_SessionTTLSeconds (k_cfg c))) ;;
      match err with
      | Some e => Ret (Err e, false)
      | None =>
          log ("audit: refresh_success session_id=" +:+ sessionID) ;;;
          match codec_Encode (s_cookie s) sessionID with
          | Err e => Ret (Err e, false)
          | Ok v => Ret (Ok {| rfr_SetCookieValue := v; rfr_Refreshed := true |}, true)
          end
      end
  end.

Definition not_refreshed : RefreshResponse :=
  {| rfr_SetCookieValue := ""; rfr_Refreshed := false |}.

Definition refresh_body (s : Service) (req : RefreshRequest) : prog E (res RefreshResponse * bool) :=
  match conn s (rf_Connector req) with
  | Err e => Ret (Err e, false)
  | Ok c =>
      if String.eqb (rf_SessionCookie req) "" then Ret (Err "no session cookie", false)
      else
        match codec_Decode (s_cookie s) (rf_SessionCookie req) with
        | Err _ => Ret (Err "invalid cookie", false)
        | Ok sessionID =>
            r <- call (@SS_Get E (k_sessions c) sessionID) ;;
            match r with
            | Ok (Some sess) =>
                if String.eqb (RefreshToken sess) "" then Ret (Err "no refresh token", false)
                else
                  now <- call Now ;;
                  if negb (NeedsRefresh sess now (SessionRefreshEarlySeconds (s_cfg s))) then
                    Ret (Ok not_refreshed, false)
                  else
                    l <- call (@RL_Obtain E (k_lock c) sessionID
                                 (cc_SessionRefreshLockTTLSeconds (k_cfg c))) ;;
                    match l with
                    | Ok true =>
                        r <- refresh_locked s c sessionID sess ;;
                        call (@RL_Release E (k_lock c) sessionID) ;;;
                        Ret r
                    | _ => Ret (Ok not_refreshed, false)
                    end
            | _ => Ret (Err "session not found", false)
            end
        end
  end.

Definition Refresh (s : Service) (req : RefreshRequest) : prog E (res RefreshResponse) :=
  r <- refresh_body s req ;;
  call (Metric (RefreshCompleted (snd r))) ;;;
  Ret (fst r).

(** The part of [ensureFresh] that runs under the lock. *)
Definition ensure_locked (s : Service) (c : connector) (sessionID : string)
    : prog E (res (Session * bool)) :=
  r <- call (@SS_Get E (k_sessions c) sessionID) ;;
  match r with
  | Ok (Some sess) =>
      let renewal :=
        t <- call (ProviderRefresh (k_provider c) (RefreshToken sess)) ;;
        match t with
        | Err e =>
            log ("audit: refresh_failed session_id=" +:+ sessionID +:+ " reason=" +:+ e) ;;;
            Ret (Err ("refresh failed: " +:+ e))
        | Ok tr =>
            sess <- renew s c sessionID sess tr ;;
            err <- call (@SS_Set E (k_sessions c) sessionID sess (cc_SessionTTLSeconds (k_cfg c))) ;;
            match err with
            | Some e => Ret (Err e)
            | None =>
                log ("audit: refresh_success session_id=" +:+ sessionID) ;;;
                Ret (Ok (sess, true))
            end
        end in
      if String.eqb (RefreshToken sess) "" then Ret (Ok (sess, false))
      else
        now <- call Now ;;
        if negb (NeedsRefresh sess now (SessionRefreshEarlySeconds (s_cfg s)))
        then Ret (Ok (sess, false))
        else renewal
  | _ => Ret (Err "session not found")
  end.

Definition ensureFresh (s : Service) (c : connector) (sessionID : string)
    : prog E (res (Session * bool)) :=
  if String.eqb sessionID "" then Ret (Err "session id required")
  else
    r <- call (@SS_Get E (k_sessions c) sessionID) ;;
    match r with
    | Ok (Some sess) =>
        let locked :=
          l <- call (@RL_Obtain E (k_lock c) sessionID
                       (cc_SessionRefreshLockTTLSeconds (k_cfg c))) ;;
          match l with
          | Err e => Ret (Err ("refresh lock obtain failed: " +:+ e))
          | Ok false =>
              r <- call (@SS_Get E (k_sessions c) sessionID) ;;
              Ret match r with
                  | Ok (Some sess) => Ok (sess, false)
                  | _ => Err "session not found"
                  end
          | Ok true =>
              r <- ensure_locked s c sessionID ;;
              call (@RL_Release E (k_lock c) sessionID) ;;;
              Ret r
          end in
        if String.eqb (RefreshToken sess) "" then Ret (Ok (sess, false))
        else
          now <- call Now ;;
          if negb (NeedsRefresh sess now (SessionRefreshEarlySeconds (s_cfg s)))
          then Ret (Ok (sess, false))
          else locked
    | _ => Ret (Err "session not found")
    end.

Definition EnsureFreshSessionForConnector (s : Service) (connectorID sessionID : string)
    : prog E (res (Session * bool)) :=
  match conn s connectorID with
  | Err e => Ret (Err e)
  | Ok c => ensureFresh s c sessionID
  end.
Definition EnsureFreshSessionByID (s : Service) (sessionID : string)
    : prog E (res (Session * bool)) :=
  EnsureFreshSessionForConnector s "" sessionID.

(** ** Logout *)

(** The CSRF check: whether the request is refused. *)
Definition csrf_refused (s : Service) (origin referer : string) : bool :=
  if String.eqb origin "" && String.eqb referer "" then false
  else
    let baseURL := TrimSuffix (AppBaseURL (s_cfg s)) "/" in
    let allowed :=
      existsb (λ o, String.eqb origin o || String.eqb referer o
                    || String.eqb referer (baseURL +:+ "/") || HasPrefix referer (baseURL +:+ "/"))
        (AllowedRedirectOrigins (s_cfg s)) in
    negb allowed && negb (String.eqb origin baseURL) && negb (String.eqb origin "").

Definition logout_body (s : Service) (req : LogoutRequest) : prog E (res LogoutResponse) :=
  match conn s (lo_Connector req) with
  | Err e => Ret (Err e)
  | Ok c =>
      if csrf_refused s (lo_Origin req) (lo_Referer req) then Ret (Err "csrf: origin not allowed")
      else
        let redirectTo := or_str (validate_target s (lo_RedirectTo req)) (AppBaseURL (s_cfg s)) in
        let sessionID :=
          if String.eqb (lo_SessionCookie req) "" then ""
          else match codec_Decode (s_cookie s) (lo_SessionCookie req) with
               | Ok id => id | Err _ => "" end in
        hint <- (if String.eqb sessionID "" then Ret ""
                 else
                   r <- call (@SS_Get E (k_sessions c) sessionID) ;;
                   match r with
                   | Ok (Some sess) =>
                       call (@SS_Delete E (k_sessions c) sessionID) ;;;
                       log ("audit: logout session_id=" +:+ sessionID +:+ " subject="
                            +:+ getClaimString (Claims sess) "sub") ;;;
                       Ret (IDToken sess)
                   | _ => Ret ""
                   end) ;;
        e <- call (EndSessionURL (k_provider c) hint redirectTo) ;;
        Ret (Ok {| lor_RedirectURL := match e with Ok u => or_str u redirectTo | Err _ => redirectTo end;
                   lor_ClearCookie := true |})
  end.

Definition Logout (s : Service) (req : LogoutRequest) : prog E (res LogoutResponse) :=
  r <- logout_body s req ;;
  call (Metric LogoutCompleted) ;;;
  Ret r.

(** ** Resolution for the proxy *)
Record Resolved := {
  rs_AccessToken : string; rs_Claims : gmap string any; rs_Tenant : option (gmap string any);
  rs_SetCookie : string }.

Definition tenant_map (t : TenantContext) : gmap string any :=
  list_to_map [("tenant_id", AStr (TenantID t)); ("tenant_slug", AStr (TenantSlug t));
               ("status", AStr (tc_Status t)); ("locale", AStr (Locale t));
               ("timezone", AStr (Timezone t))].

Definition ResolveForConnector (s : Service) (connectorID sessionCookie : string)
    : prog E (res Resolved) :=
  if String.eqb sessionCookie "" then Ret (Err "no session cookie")
  else
    match conn s connectorID with
    | Err e => Ret (Err e)
    | Ok c =>
        match codec_Decode (s_cookie s) sessionCookie with
        | Err _ => Ret (Err "invalid cookie")
        | Ok sessionID =>
            r <- ensureFresh s c sessionID ;;
            Ret match r with
                | Err e => Err e
                | Ok (sess, refreshed) =>
                    let value := if (refreshed : bool) then codec_Encode (s_cookie s) sessionID
                                 else Ok "" in
                    try v <- value ;
                    Ok {| rs_AccessToken := AccessToken sess; rs_Claims := default ∅ (Claims sess);
                          rs_Tenant := tenant_map <$> s_Tenant sess; rs_SetCookie := v |}
                end
        end
    end.

Definition Resolve (s : Service) (sessionCookie : string) : prog E (res Resolved) :=
  ResolveForConnector s "" sessionCookie.

Definition AttachTenantContextForConnector (s : Service) (connectorID sessionID : string)
    (tc : option TenantContext) : prog E (option string) :=
  match tc with
  | None => Ret (Some "session_id and tenant_context required")
  | Some t =>
      if String.eqb sessionID "" then Ret (Some "session_id and tenant_context required")
      else
        match conn s connectorID with
        | Err e => Ret (Some e)
        | Ok c =>
            r <- call (@SS_Get E (k_sessions c) sessionID) ;;
            match r with
            | Ok (Some sess) =>
                call (@SS_Set E (k_sessions c) sessionID (set_tenant sess (Some t))
                        (cc_SessionTTLSeconds (k_cfg c)))
            | _ => Ret (Some "session not found")
            end
        end
  end.
Definition AttachTenantContext (s : Service) (sessionID : string) (tc : option TenantContext)
    : prog E (option string) :=
  AttachTenantContextForConnector s "" sessionID tc.

(** ** Handoff *)
Definition IssueHandoff (s : Service) (connectorID subject email : string) : prog E (res string) :=
  match s_handoff s with
  | None => Ret (Err "handoff not enabled")
  | Some issuer =>
      match conn s connectorID with
      | Err e => Ret (Err e)
      | Ok c =>
          match k_finder c with
          | None => Ret (Err ("handoff: connector " +:+ Quote (cc_ID (k_cfg c)) +:+ " has no session finder"))
          | Some finder =>
              r <- call (finder subject email) ;;
              match r with
              | Err e => Ret (Err ("handoff: session lookup failed: " +:+ e))
              | Ok None => Ret (Err "handoff: session not found")
              | Ok (Some sess) =>
                  j <- generateSessionID ;;
                  match j with
                  | Err e => Ret (Err e)
                  | Ok jti =>
                      t <- Issue issuer (cc_ID (k_cfg c)) (getClaimString (Claims sess) "sub")
                             (s_ID sess) jti ;;
                      call (Metric (HandoffIssued (cc_ID (k_cfg c)) (is_ok t))) ;;;
                      Ret t
                  end
              end
          end
      end
  end.

Definition redeem_body (s : Service) (issuer : Issuer) (connectorID ticket : string)
    : prog E (res (string * string)) :=
  r <- Redeem issuer ticket ;;
  match r with
  | Err e => Ret (Err e)
  | Ok t =>
      if negb (String.eqb connectorID "") && negb (String.eqb (t_ConnectorID t) connectorID) then
        Ret (Err "handoff: connector mismatch")
      else
        match conn s (t_ConnectorID t) with
        | Err e => Ret (Err e)
        | Ok c =>
            r <- call (@SS_Get E (k_sessions c) (t_SessionRef t)) ;;
            match r with
            | Ok (Some _) =>
                Ret match codec_Encode (s_cookie s) (t_SessionRef t) with
                    | Err e => Err e
                    | Ok v => Ok (v, t_ConnectorID t)
                    end
            | _ => Ret (Err "handoff: session not found")
            end
        end
  end.

Definition RedeemHandoff (s : Service) (connectorID ticket : string)
    : prog E (res (string * string)) :=
  match s_handoff s with
  | None => Ret (Err "handoff not enabled")
  | Some issuer =>
      r <- redeem_body s issuer connectorID ticket ;;
      let label := match r with Ok (_, c) => or_str c connectorID | Err _ => connectorID end in
      call (Metric (HandoffRedeemed label (is_ok r))) ;;;
      Ret r
  end.
End flows.
