(* ===== verification/AuthEnv.v ===== *)
(** * A concrete environment for the auth service

    One signature of external calls and a handler that serves them from a small
    world: a store of sessions, PKCE records and locks, a clock that advances
    with every reading, a counter for the random source, and an identity
    provider that puts the nonce of the last authorization request into its ID
    tokens.  The witnesses of the auth theorems run against it. *)

From S2P Require Import Prelude.
From S2P Require Import GoStrings.
From S2P Require Import Effects.
From S2P Require Import GoTime.
From S2P Require Import GoAny.
From S2P Require Import Base64.
From S2P Require Import Cookie.
From S2P Require Import Session.
From S2P Require Import AuthConfig.
From S2P Require Import Handoff.
From S2P Require Import Token.
From S2P Require Import Sdk.
From S2P Require Import AuthService.

Inductive authE : Type → Type :=
| E_Now : authE Z
| E_Rand (n : Z) : authE (res string)
| E_Log (msg : string) : authE unit
| E_Webhook (url body sig : string) : authE (res Z)
| E_Metric (m : auth_metric) : authE unit
| E_JWKS (issuer : string) : authE (res string)
| E_Jwt (raw : string) (kf : keyfunc) (opts : jwt_options) : authE (res jwt_token)
| E_Once (key : string) (ttl : Z) : authE (res bool)
| E_SGet (id : string) : authE (res (option Session))
| E_SSet (id : string) (s : Session) (ttl : Z) : authE (option string)
| E_SDel (id : string) : authE (option string)
| E_PGet (id : string) : authE (res (option PKCEState))
| E_PSet (id : string) (p : PKCEState) (ttl : Z) : authE (option string)
| E_PDel (id : string) : authE (option string)
| E_Obtain (id : string) (ttl : Z) : authE (res bool)
| E_Release (id : string) : authE (option string)
| E_AuthURL (state challenge nonce : string) (extra : list (string * string)) : authE (res string)
| E_Exchange (code verifier redirect : string) : authE (res ProviderTokens)
| E_Refresh (token : string) : authE (res ProviderTokens)
| E_EndSession (hint redirect : string) : authE (res string)
| E_Find (subject email : string) : authE (res (option Session))
| E_Net : authE (option string).

#[global] Instance env_clock : ClockE authE := E_Now.
#[global] Instance env_rand : RandE authE := E_Rand.
#[global] Instance env_log : LogE authE := E_Log.
#[global] Instance env_webhook : WebhookE authE := E_Webhook.
#[global] Instance env_metrics : AuthMetricsE authE := E_Metric.
#[global] Instance env_jwks : JWKSSource authE := E_JWKS.
#[global] Instance env_jwt : JwtLib authE := E_Jwt.
#[global] Instance env_once : OnceStore authE := E_Once.
Definition env_sessions : SessionStore authE :=
  {| SS_Get := E_SGet; SS_Set := E_SSet; SS_Delete := E_SDel |}.
Definition env_pkce : PKCEStore authE :=
  {| PS_Get := E_PGet; PS_Set := E_PSet; PS_Delete := E_PDel |}.
Definition env_lock : RefreshLockStore authE := {| RL_Obtain := E_Obtain; RL_Release := E_Release |}.
Definition env_provider : ProviderPlugin authE :=
  {| AuthorizationURL := E_AuthURL; ExchangeCode := E_Exchange; ProviderRefresh := E_Refresh;
     EndSessionURL := E_EndSession |}.

#[global] Instance env_pb : StructPB :=
  {| pb_struct := gmap string any; NewStruct := Ok; AsMap := id |}.

Record world := {
  w_now : Z; w_count : nat; w_nonce : string; w_sess : gmap string Session;
  w_pkce : gmap string PKCEState; w_locks : gset string; w_used : gset string }.

Definition w_start : world :=
  {| w_now := 1700000000 * Second; w_count := 0; w_nonce := ""; w_sess := ∅; w_pkce := ∅;
     w_locks := ∅; w_used := ∅ |}.
Definition w_tick (w : world) : world :=
  {| w_now := w_now w + Second; w_count := w_count w; w_nonce := w_nonce w; w_sess := w_sess w;
     w_pkce := w_pkce w; w_locks := w_locks w; w_used := w_used w |}.
Definition w_draw (w : world) : world :=
  {| w_now := w_now w; w_count := S (w_count w); w_nonce := w_nonce w; w_sess := w_sess w;
     w_pkce := w_pkce w; w_locks := w_locks w; w_used := w_used w |}.
Definition w_set_nonce (w : world) (n : string) : world :=
  {| w_now := w_now w; w_count := w_count w; w_nonce := n; w_sess := w_sess w;
     w_pkce := w_pkce w; w_locks := w_locks w; w_used := w_used w |}.
Definition w_set_sess (w : world) (m : gmap string Session) : world :=
  {| w_now := w_now w; w_count := w_count w; w_nonce := w_nonce w; w_sess := m;
     w_pkce := w_pkce w; w_locks := w_locks w; w_used := w_used w |}.
Definition w_set_pkce (w : world) (m : gmap string PKCEState) : world :=
  {| w_now := w_now w; w_count := w_count w; w_nonce := w_nonce w; w_sess := w_sess w;
     w_pkce := m; w_locks := w_locks w; w_used := w_used w |}.
Definition w_set_locks (w : world) (m : gset string) : world :=
  {| w_now := w_now w; w_count := w_count w; w_nonce := w_nonce w; w_sess := w_sess w;
     w_pkce := w_pkce w; w_locks := m; w_used := w_used w |}.
Definition w_use (w : world) (k : string) : world :=
  {| w_now := w_now w; w_count := w_count w; w_nonce := w_nonce w; w_sess := w_sess w;
     w_pkce := w_pkce w; w_locks := w_locks w; w_used := {[ k ]} ∪ w_used w |}.

Definition env_tokens : ProviderTokens :=
  {| pt_AccessToken := "access"; pt_RefreshToken := "refresh"; pt_IDToken := "id-token";
     pt_ExpiresIn := 300 |}.

(** The random source: bytes that spell a counter. *)
Definition env_bytes (w : world) : string := "random-" +:+ Itoa (Z.of_nat (w_count w)).

Definition env_claims (w : world) : gmap string any :=
  {[ "sub" := AStr "u1"; "aud" := AStr "app"; "nonce" := AStr (w_nonce w);
     "email" := AStr "u1@example.com" ]}.

Definition env_handler : handler authE world := λ X e,
  match e in authE X return world → X * world with
  | E_Now => λ w, (w_now w, w_tick w)
  | E_Rand _ => λ w, (Ok (env_bytes w), w_draw w)
  | E_Log _ => λ w, (tt, w)
  | E_Webhook _ _ _ => λ w, (Ok 200, w)
  | E_Metric _ => λ w, (tt, w)
  | E_JWKS _ => λ w, (Ok "{}", w)
  | E_Jwt _ _ _ => λ w, (Ok {| jt_claims := Some (env_claims w); jt_valid := true |}, w)
  | E_Once k _ => λ w, (Ok (bool_decide (k ∉ w_used w)), w_use w k)
  | E_SGet i => λ w, (Ok (w_sess w !! i), w)
  | E_SSet i s _ => λ w, (None, w_set_sess w (<[i := s]> (w_sess w)))
  | E_SDel i => λ w, (None, w_set_sess w (delete i (w_sess w)))
  | E_PGet i => λ w, (Ok (w_pkce w !! i), w)
  | E_PSet i p _ => λ w, (None, w_set_pkce w (<[i := p]> (w_pkce w)))
  | E_PDel i => λ w, (None, w_set_pkce w (delete i (w_pkce w)))
  | E_Obtain i _ => λ w, (Ok (bool_decide (i ∉ w_locks w)), w_set_locks w ({[ i ]} ∪ w_locks w))
  | E_Release i => λ w, (None, w_set_locks w (w_locks w ∖ {[ i ]}))
  | E_AuthURL st ch n _ => λ w, (Ok ("https://idp.example/authorize?state=" +:+ st), w_set_nonce w n)
  | E_Exchange _ _ _ => λ w, (Ok env_tokens, w)
  | E_Refresh _ => λ w, (Ok env_tokens, w)
  | E_EndSession _ _ => λ w, (Ok "https://idp.example/logout", w)
  | E_Find _ _ => λ w, (Ok None, w)
  | E_Net => λ w, (None, w)
  end.

(** A configuration with the defaults of the program and one connector. *)
Definition env_connector_cfg : ConnectorConfig :=
  {| cc_ID := "default"; cc_Default := true; cc_ProviderPluginID := "oidc";
     cc_OIDCIssuer := "https://idp.example"; cc_OIDCRedirectURI := "https://app.example/callback";
     cc_OIDCClientID := "app"; cc_OIDCClientSecret := "s3cret"; cc_OIDCScopes := ["openid"];
     cc_OIDCAudience := ""; cc_OIDCClaimsSource := "id_token"; cc_SessionRedisPrefix := "auth";
     cc_CookieName := "sid"; cc_SessionTTLSeconds := 36000; cc_SessionPKCETTLSeconds := 300;
     cc_SessionRefreshLockTTLSeconds := 15;
     cc_ClaimMapping := {| AuthoritativeIDClaim := "sub"; IDKind := "oidc_sub";
                           EmailClaim := ""; NameClaim := ""; RolesClaim := "" |} |}.

Definition env_cfg : Config :=
  {| OIDCIssuer := "https://idp.example"; OIDCRedirectURI := "https://app.example/callback";
     OIDCClientID := "app"; OIDCClientSecret := "s3cret"; OIDCScopes := ["openid"];
     OIDCAudience := ""; OIDCClaimsSource := "id_token"; RedisURL := "redis://localhost";
     SessionRedisPrefix := "auth"; c_SessionTTLSeconds := 36000; c_SessionPKCETTLSeconds := 300;
     c_SessionRefreshLockTTLSeconds := 15; SessionRefreshEarlySeconds := 60; CookieName := "sid";
     CookieSigningSecret := "0123456789abcdef0123456789abcdef"; CookieSecure := true;
     CookieSameSiteStr := "lax"; CookieDomain := ""; CookieSameSite := SameSiteLaxMode;
     AppBaseURL := "https://app.example"; LoginErrorRedirectPath := "/login?error=1";
     AllowedRedirectOrigins := []; AllowedRedirectPaths := []; HTTPPort := "8080";
     AdminSecret := ""; PostLoginWebhookURL := ""; CORSAllowedOrigins := [];
     ProviderPluginID := "oidc"; Connectors := [] |}.

Definition env_wiring : Connector authE :=
  {| K_Config := env_connector_cfg; K_Provider := Some env_provider; K_Sessions := env_sessions;
     K_PKCE := env_pkce; K_RefreshLock := env_lock; K_Finder := Some E_Find |}.

Definition env_cookie : SignedManager := {| primary := CookieSigningSecret env_cfg; older := [] |}.

Definition env_service : Service authE :=
  let c := connector_of env_cfg env_wiring env_provider in
  EnableHandoff
    {| s_cfg := env_cfg; s_connectors := {[ "default" := c ]}; s_defaultID := "default";
       s_jwks := true; s_cookie := env_cookie; s_handoff := None |} true 120.

(** The session an event read, and whether it got a lock. *)
Definition env_got (e : event authE) : option Session :=
  let 'Ev e x := e in
  match e in authE X return X → option Session with
  | E_SGet _ => λ r, match r with Ok s => s | Err _ => None end
  | _ => λ _, None
  end x.
Definition env_obtained (e : event authE) : bool :=
  let 'Ev e x := e in
  match e in authE X return X → bool with
  | E_Obtain _ _ => λ r, match r with Ok b => b | Err _ => false end
  | _ => λ _, false
  end x.
