(* ===== verification/AuthFacts.v ===== *)
(** * What the auth flows guarantee

    Characterisations of the executions of the auth service: which calls, in
    which order and with which arguments, lie behind each successful answer,
    whatever the environment answers. *)

From S2P Require Import Prelude.
From S2P Require Import GoStrings.
From S2P Require Import Effects.
From S2P Require Import GoTime.
From S2P Require Import GoAny.
From S2P Require Import Base64.
From S2P Require Import Sha256.
From S2P Require Import Json.
From S2P Require Import GoUrl.
From S2P Require Import Cookie.
From S2P Require Import Session.
From S2P Require Import AuthConfig.
From S2P Require Import Handoff.
From S2P Require Import Redirect.
From S2P Require Import Token.
From S2P Require Import Sdk.
From S2P Require Import AuthService.
From S2P Require Import AuthFlows.
From S2P Require Import AuthEnv.

Section facts.
Context `{Unicode} `{StructPB} {E : Type → Type}.
Context `{!ClockE E} `{!RandE E} `{!LogE E} `{!WebhookE E} `{!AuthMetricsE E}.
Context `{!JWKSSource E} `{!JwtLib E} `{!OnceStore E}.

(** The calls that compute an expiry, and the expiry. *)
Definition expiry_calls (tr : list (event E)) (expiresIn : Z) (warning : string) (expiry : Z) : Prop :=
  (0 < expiresIn ∧ ∃ now, tr = [Ev Now now] ∧ expiry = wrap64 (Unix now + expiresIn)) ∨
  (expiresIn ≤ 0 ∧ ∃ t0 now, tr = [Ev Now t0; Ev (Log warning) tt; Ev Now now] ∧
     expiry = Unix (now + Hour)).

Lemma token_expiry_exec n w tr x :
  exec (token_expiry n w) tr x ↔ expiry_calls tr n w x.
Proof.
  unfold token_expiry, expiry_calls. split.
  - intros (now & tr1 & -> & Hx). cbn [pbind call] in Hx. destruct (n <=? 0) eqn:En; bool_prop.
    + destruct Hx as ([] & tr2 & -> & now' & tr3 & -> & -> & <-). right. eauto 10.
    + destruct Hx as [-> <-]. left. split; [lia|]. eauto.
  - intros [(Hn & now & -> & ->)|(Hn & t0 & now & -> & ->)].
    + eexists _, _. split; [done|]. cbn [pbind call]. rewrite (proj2 (Z.leb_gt _ _)) by lia. done.
    + eexists _, _. split; [done|]. cbn [pbind call]. rewrite (proj2 (Z.leb_le _ _)) by lia.
      exists tt. eexists. split; [done|]. eexists _, _. split; [done|]. done.
Qed.

(** C34: what [LoginStart] does, exactly.  It succeeds with a redirect URL just
    when: the connector exists; three fresh random values are drawn, for the
    code verifier, the nonce and the state; the PKCE record of that state (with
    the verifier, its S256 challenge, the nonce, and the validated redirect
    target or the base URL) is stored; and the provider, given the state, the
    challenge, the nonce and the trimmed prompt but not the verifier, answers
    that URL.  Nothing else is called. *)
Theorem login_start_exact s req tr u :
  exec (LoginStart s req) tr (Ok {| lsr_RedirectURL := u |}) ↔
  ∃ c v n st,
    conn s (ls_Connector req) = Ok c ∧
    let verifier := rawurl_encode v in
    let challenge := rawurl_encode (sha256_string verifier) in
    let nonce := rawurl_encode n in
    let state := rawurl_encode st in
    let prompt := TrimSpace (ls_Prompt req) in
    tr = [Ev (Metric LoginStarted) tt;
          Ev (RandRead 32) (Ok v); Ev (RandRead 16) (Ok n); Ev (RandRead 24) (Ok st);
          Ev (@PS_Set E (k_pkce c) state
               {| State := state; CodeVerifier := verifier; CodeChallenge := challenge;
                  Nonce := nonce; RedirectTo := ValidateRedirectURL s (ls_RedirectTo req) |}
               (cc_SessionPKCETTLSeconds (k_cfg c))) None;
          Ev (AuthorizationURL (k_provider c) state challenge nonce
               (if String.eqb prompt "" then [] else [("prompt", prompt)])) (Ok u)].
Proof.
  unfold LoginStart, GeneratePKCE, GenerateState, random_id. split.
  - intros ([] & t0 & -> & Hx). cbn [pbind call] in Hx.
    destruct (conn s (ls_Connector req)) as [c|e]; [|by destruct Hx].
    destruct Hx as ([v|e] & t1 & -> & Hx); cbn [pbind call] in Hx; [|by destruct Hx].
    destruct Hx as ([n|e] & t2 & -> & Hx); cbn [pbind call] in Hx; [|by destruct Hx].
    destruct Hx as ([st|e] & t3 & -> & Hx); cbn [pbind call] in Hx; [|by destruct Hx].
    destruct Hx as ([e|] & t4 & -> & Hx); cbn [pbind call] in Hx; [by destruct Hx|].
    destruct Hx as ([u'|e] & t5 & -> & [-> [=]]). subst u'. by exists c, v, n, st.
  - intros (c & v & n & st & Hc & ->). rewrite Hc.
    do 6 (cbn [pbind call exec]; eexists _, _; split; [reflexivity|]). done.
Qed.

(** The session a login stores. *)
Definition new_session (c : connector E) (t : ProviderTokens) (cl : gmap string any)
    (sessID : string) (expiry : Z) : Session :=
  {| s_ID := sessID; AccessToken := pt_AccessToken t; RefreshToken := pt_RefreshToken t;
     IDToken := pt_IDToken t; ExpiresAt := expiry;
     Claims := Some (session_claims (k_cfg c) (principal_of cl)); s_Tenant := None |}.

Lemma establish_exec s c req p t cl tr resp b :
  exec (establish s c req p t (principal_of cl)) tr (Ok resp, b) →
  ∃ texp twarn expiry idbytes tail,
    tr = texp ++ [Ev (RandRead 32) (Ok idbytes);
                  Ev (@SS_Set E (k_sessions c) (rawurl_encode idbytes)
                        (new_session c t cl (rawurl_encode idbytes) expiry)
                        (cc_SessionTTLSeconds (k_cfg c))) None] ++ tail ∧
    expiry_calls texp (pt_ExpiresIn t) twarn expiry ∧ b = true ∧
    codec_Decode (s_cookie s) (ler_SetCookieValue resp) = Ok (rawurl_encode idbytes) ∧
    ler_RedirectURL resp = or_str (validate_target s (RedirectTo p)) (AppBaseURL (s_cfg s)) ∧
    ler_ClearCookie resp = false.
Proof.
  unfold establish. intros Hx. apply exec_bind in Hx as (expiry & texp & t2 & -> & He & Hx).
  apply token_expiry_exec in He.
  destruct Hx as (idb & t3 & -> & Hx). cbn [pbind call] in Hx.
  destruct idb as [idb|e]; [|by destruct Hx].
  destruct Hx as (err & t4 & -> & Hx). cbn [pbind call] in Hx. destruct err as [e|]; [by destruct Hx|].
  destruct Hx as ([] & t5 & -> & Hx). cbn [pbind call] in Hx.
  apply exec_bind in Hx as (u & t6 & t7 & -> & _ & Hx).
  destruct (codec_Encode (s_cookie s) (rawurl_encode idb)) as [v|e] eqn:Ev0; [|by destruct Hx].
  destruct Hx as [-> [= <- <-]].
  eexists texp, _, expiry, idb, _. split; [reflexivity|]. split; [exact He|]. split; [done|].
  split; [|done]. simpl. eapply codec_round; [|exact Ev0]. left.
Qed.

(** The calls up to a validated identity: the PKCE state of the login, taken
    out of the store; the exchange of the code with its verifier; the ID token
    accepted for the connector's issuer under that issuer's keys. *)
Definition identified (s : Service E) (c : connector E) (req : LoginEndRequest) (p : PKCEState)
    (t : ProviderTokens) (cl : gmap string any) (tr : list (event E)) : Prop :=
  ∃ d jwks, tr =
    [Ev (@PS_Get E (k_pkce c) (le_State req)) (Ok (Some p));
     Ev (@PS_Delete E (k_pkce c) (le_State req)) d;
     Ev (ExchangeCode (k_provider c) (le_Code req) (CodeVerifier p) (cc_OIDCRedirectURI (k_cfg c))) (Ok t);
     Ev (GetJWKS (cc_OIDCIssuer (k_cfg c))) (Ok jwks);
     Ev (JwtParse (pt_IDToken t) (keyFuncFromJWKS jwks) (id_token_options (cc_OIDCIssuer (k_cfg c))))
       (Ok {| jt_claims := Some cl; jt_valid := true |})] ∧
    s_jwks s = true ∧ claims_match cl (audience_of (k_cfg c)) (Nonce p).

Lemma login_end_exec s c req tr resp b :
  exec (login_end s c req) tr (Ok resp, b) →
  (resp = login_failed s ∧ b = false) ∨
  (le_Error req = "" ∧ le_State req ≠ "" ∧ le_Code req ≠ "" ∧
   ∃ p t cl tr1 tr2, tr = tr1 ++ tr2 ∧ identified s c req p t cl tr1 ∧
     exec (establish s c req p t (principal_of cl)) tr2 (Ok resp, b)).
Proof.
  unfold login_end. destruct (String.eqb_spec (le_Error req) "") as [Herr|]; cbn [negb];
    [|intros [-> [= <- <-]]; by left].
  destruct (_ || _) eqn:Hsc; [intros [-> [= <- <-]]; by left|]. bool_prop.
  intros ([[p|]|e] & tr1 & -> & Hx); cbn [pbind call] in Hx;
    [|destruct Hx as (? & ? & -> & [-> [= <- <-]]); by left..].
  destruct Hx as (d & tr2 & -> & Hx). cbn [pbind call] in Hx.
  destruct Hx as ([t|e] & tr3 & -> & Hx); cbn [pbind call] in Hx;
    [|destruct Hx as (? & ? & -> & [-> [= <- <-]]); by left].
  apply exec_bind in Hx as (v & t4 & t5 & -> & Hv & Hx).
  destruct v as [pr|e]; [|destruct Hx as (? & ? & -> & [-> [= <- <-]]); by left].
  right. split; [done|]. split; [done|]. split; [done|].
  apply ValidateIDToken_exec in Hv as (Hj & jwks & cl & -> & Hm & ->).
  exists p, t, cl. eexists _, t5. split; [|split; [|exact Hx]]; [|by exists d, jwks]. done.
Qed.

(** C1: a login succeeds only by the book.  Whatever the environment answers,
    [LoginEnd] either answers the error redirect, with no cookie to set and the
    old one cleared, or: the identity provider reported no error, the state had
    a PKCE record, whose deletion the store was asked for (whatever it
    answered) before its verifier was used in the code exchange, the ID token of the exchange was accepted under the issuer's keys
    with the connector's audience and the record's nonce, and a session with
    those tokens and the mapped claims was stored, under a fresh random id,
    before anything else was answered; the cookie then decodes to that id and
    the browser goes to the record's redirect target, validated again. *)
Theorem login_end_sound s req tr resp
    (Hx : exec (LoginEnd s req) tr (Ok resp)) :
  resp = login_failed s ∨
  ∃ c p t cl tr1 texp warning expiry idbytes tail,
    conn s (le_Connector req) = Ok c ∧ le_Error req = "" ∧ le_State req ≠ "" ∧
    le_Code req ≠ "" ∧
    tr = tr1 ++ texp ++ [Ev (RandRead 32) (Ok idbytes);
           Ev (@SS_Set E (k_sessions c) (rawurl_encode idbytes)
                 (new_session c t cl (rawurl_encode idbytes) expiry)
                 (cc_SessionTTLSeconds (k_cfg c))) None] ++ tail ∧
    identified s c req p t cl tr1 ∧ expiry_calls texp (pt_ExpiresIn t) warning expiry ∧
    codec_Decode (s_cookie s) (ler_SetCookieValue resp) = Ok (rawurl_encode idbytes) ∧
    ler_RedirectURL resp = or_str (validate_target s (RedirectTo p)) (AppBaseURL (s_cfg s)) ∧
    ler_ClearCookie resp = false.
Proof.
  unfold LoginEnd in Hx. destruct (conn s (le_Connector req)) as [c|e] eqn:Ec;
    [|by destruct Hx as (? & ? & -> & [_ [=]])].
  apply exec_bind in Hx as ([r b] & ta & tb & -> & Hl & Hx).
  destruct Hx as (? & ? & -> & Hx). destruct Hx as (? & ? & -> & [-> Hr]).
  simpl in Hr. subst r.
  apply login_end_exec in Hl as [[-> _]|(Herr & Hst & Hco & p & t & cl & tr1 & tr2 & -> & Hid & Hes)];
    [by left|right].
  apply establish_exec in Hes as (texp & w & expiry & idb & tail & -> & He & _ & Hck & Hr & Hcl).
  eexists c, p, t, cl, tr1, texp, w, expiry, idb, _. split_and!; try done.
  rewrite <-!app_assoc. done.
Qed.
Lemma login_end_error s c req tr e b :
  exec (login_end s c req) tr (Err e, b) →
  ∃ p t pr tr1 tr2, tr = tr1 ++ tr2 ∧ exec (establish s c req p t pr) tr2 (Err e, b).
Proof.
  unfold login_end. destruct (negb _); [by intros [_ [=]]|].
  destruct (_ || _); [by intros [_ [=]]|].
  intros ([[p|]|e'] & tr1 & -> & Hx); cbn [pbind call] in Hx;
    [|by destruct Hx as (? & ? & -> & [_ [=]])..].
  destruct Hx as (d & tr2 & -> & Hx). cbn [pbind call] in Hx.
  destruct Hx as ([t|e'] & tr3 & -> & Hx); cbn [pbind call] in Hx;
    [|by destruct Hx as (? & ? & -> & [_ [=]])].
  apply exec_bind in Hx as (v & t4 & t5 & -> & _ & Hx).
  destruct v as [pr|e']; [|by destruct Hx as (? & ? & -> & [_ [=]])].
  exists p, t, pr. eexists _, t5. split; [|exact Hx]. by rewrite !app_comm_cons.
Qed.

Lemma establish_error s c req p t pr tr e b :
  exec (establish s c req p t pr) tr (Err e, b) →
  b = false ∧
  ∃ tr1, tr = tr1 ++ [Ev (RandRead 32) (Err e)] ∨
    ∃ idbytes sess, tr = tr1 ++ [Ev (RandRead 32) (Ok idbytes);
      Ev (@SS_Set E (k_sessions c) (rawurl_encode idbytes) sess (cc_SessionTTLSeconds (k_cfg c))) (Some e)].
Proof.
  unfold establish. intros Hx. apply exec_bind in Hx as (expiry & texp & t2 & -> & _ & Hx).
  destruct Hx as ([idb|e'] & t3 & -> & Hx); cbn [pbind call] in Hx;
    [|destruct Hx as [-> [= <- <-]]; eauto].
  destruct Hx as ([e'|] & t4 & -> & Hx); cbn [pbind call] in Hx;
    [destruct Hx as [-> [= <- <-]]; eauto 10|].
  destruct Hx as ([] & t5 & -> & Hx). cbn [pbind call] in Hx.
  apply exec_bind in Hx as (u & t6 & t7 & -> & _ & Hx). by destruct Hx.
Qed.

(** The errors of [LoginEnd] are the deployment's own.  A login that the
    identity provider, the PKCE store or the token validation turns down never
    comes back as an error (the browser is redirected instead), nor does a
    failing webhook; an error is the unknown connector of the request, or the
    one the random source or the session store answered last. *)
Theorem login_end_errors s req tr e (Hx : exec (LoginEnd s req) tr (Err e)) :
  conn s (le_Connector req) = Err e ∨
  ∃ c tr1 tr2, conn s (le_Connector req) = Ok c ∧ tr = tr1 ++ tr2 ++
      [Ev (Metric (ConnectorCallback (cc_ID (k_cfg c)) false)) tt;
       Ev (Metric (LoginCompleted false)) tt] ∧
    (tr2 = [Ev (RandRead 32) (Err e)] ∨
     ∃ idbytes sess, tr2 = [Ev (RandRead 32) (Ok idbytes);
       Ev (@SS_Set E (k_sessions c) (rawurl_encode idbytes) sess (cc_SessionTTLSeconds (k_cfg c)))
         (Some e)]).
Proof.
  unfold LoginEnd in Hx. destruct (conn s (le_Connector req)) as [c|e'] eqn:Ec;
    [right|left; by destruct Hx as (? & ? & -> & [_ [= ->]])].
  apply exec_bind in Hx as ([r b] & ta & tb & -> & Hl & Hx).
  destruct Hx as ([] & ? & -> & Hx). destruct Hx as ([] & ? & -> & [-> Hr]). simpl in Hr. subst r.
  assert (b = false ∧ ∃ tr1 tr2, ta = tr1 ++ tr2 ∧ (tr2 = [Ev (RandRead 32) (Err e)] ∨
     ∃ idbytes sess, tr2 = [Ev (RandRead 32) (Ok idbytes);
       Ev (@SS_Set E (k_sessions c) (rawurl_encode idbytes) sess (cc_SessionTTLSeconds (k_cfg c)))
         (Some e)])) as (-> & tr1 & tr2 & -> & Ht).
  { apply login_end_error in Hl as (p & t & pr & tr1 & tr2 & -> & He).
    apply establish_error in He as (-> & tr3 & [->|(idb & ss & ->)]); split; try done.
    - exists (tr1 ++ tr3). eexists. rewrite <-app_assoc. eauto.
    - exists (tr1 ++ tr3). eexists. rewrite <-app_assoc. eauto. }
  exists c, tr1, tr2. split; [done|]. split; [by rewrite <-app_assoc|done].
Qed.
End facts.

#[local] Existing Instance ascii_unicode.

(** The witness: the login of the concrete environment, end to end. *)
Definition env_login : prog authE (res LoginStartResponse) :=
  LoginStart env_service {| ls_Connector := ""; ls_RedirectTo := "/home"; ls_Prompt := "" |}.
Definition env_callback : LoginEndRequest :=
  {| le_Connector := ""; le_Code := "code"; le_State := rawurl_encode "random-2"; le_Error := "";
     le_ErrorDescription := ""; le_Host := "app.example" |}.
Definition env_world1 : world := snd (run env_handler env_login w_start).

Lemma login_end_sound_witness :
  ∃ resp, exec (LoginEnd env_service env_callback)
            (run_trace env_handler (LoginEnd env_service env_callback) env_world1) (Ok resp) ∧
    codec_Decode env_cookie (ler_SetCookieValue resp) = Ok (rawurl_encode "random-3").
Proof.
  destruct (fst (run env_handler (LoginEnd env_service env_callback) env_world1)) as [resp|e] eqn:Er;
    [|vm_compute in Er; discriminate Er].
  pose proof (run_exec env_handler (LoginEnd env_service env_callback) env_world1) as Hx.
  rewrite Er in Hx. exists resp. split; [exact Hx|].
  destruct (login_end_sound env_service env_callback _ resp Hx) as [E|Hs].
  - exfalso. rewrite E in Er. vm_compute in Er. discriminate Er.
  - vm_compute in Er. injection Er as <-. vm_compute. reflexivity.
Defined.

Lemma login_end_errors_witness :
  let req := {| le_Connector := "other"; le_Code := ""; le_State := ""; le_Error := "";
                le_ErrorDescription := ""; le_Host := "" |} in
  ∃ e tr, exec (LoginEnd env_service req) tr (Err e) ∧ conn env_service "other" = Err e.
Proof.
  intros req. destruct (conn env_service "other") as [c|e] eqn:Ec; [vm_compute in Ec; discriminate Ec|].
  assert (exec (LoginEnd env_service req) [Ev (Metric (LoginCompleted false)) tt] (Err e)) as Hx.
  { unfold LoginEnd. cbn [le_Connector req]. rewrite Ec. by exists tt, []. }
  exists e. eexists. split; [exact Hx|].
  destruct (login_end_errors env_service req _ e Hx) as [He|(c & _ & _ & Hc & _)].
  - cbn [le_Connector req] in He. congruence.
  - cbn [le_Connector req] in Hc. congruence.
Defined.
