(* ===== verification/AuthRefresh.v ===== *)
(** * What refreshing guarantees

    Executions of [Refresh] and [ensureFresh]: the lock is released by the
    holder, the provider is asked only under the lock, with the refresh token
    read under it where [ensureFresh] does so, and a refreshed session keeps
    its id, its tenant and its identity. *)

From S2P Require Import Prelude.
From S2P Require Import GoStrings.
From S2P Require Import Effects.
From S2P Require Import GoTime.
From S2P Require Import GoAny.
From S2P Require Import Base64.
From S2P Require Import Json.
From S2P Require Import Cookie.
From S2P Require Import Session.
From S2P Require Import AuthConfig.
From S2P Require Import Handoff.
From S2P Require Import Token.
From S2P Require Import Sdk.
From S2P Require Import AuthService.
From S2P Require Import AuthFlows.
From S2P Require Import AuthEnv.
From S2P Require Import AuthFacts.

(** ** Identity *)

(** The identity a session carries. *)
Definition session_sub (c : claims) : string := getClaimString c "sub".
Definition session_kind (c : claims) : string := getClaimString c "authoritative_id_kind".

Lemma getClaimString_insert k k' v (m : gmap string any) :
  getClaimString (Some (<[k := v]> m)) k' =
  if String.eqb k k' then default "" (as_string v) else getClaimString (Some m) k'.
Proof.
  unfold getClaimString, claim. destruct (String.eqb_spec k k') as [->|Hne].
  - by rewrite lookup_insert_eq.
  - by rewrite lookup_insert_ne.
Qed.

(** The connector maps the identity to a claim of its own. *)
Definition custom_id (cfg : ConnectorConfig) : Prop :=
  AuthoritativeIDClaim (cc_ClaimMapping cfg) ≠ "" ∧
  AuthoritativeIDClaim (cc_ClaimMapping cfg) ≠ "sub".

Lemma authoritativeID_not_custom cfg c : ¬ custom_id cfg → authoritativeID cfg c = "".
Proof.
  unfold custom_id, authoritativeID. intros Hc. destruct c; [|done].
  destruct (String.eqb_spec (AuthoritativeIDClaim (cc_ClaimMapping cfg)) ""); [done|].
  destruct (String.eqb_spec (AuthoritativeIDClaim (cc_ClaimMapping cfg)) "sub"); [done|]. tauto.
Qed.

Lemma session_claims_sub cfg p :
  session_sub (Some (session_claims cfg p)) = or_str (authoritativeID cfg (p_Claims p)) (Subject p).
Proof.
  unfold session_sub, session_claims, or_str.
  destruct (Roles p), (String.eqb (IDKind _) "");
    rewrite ?getClaimString_insert; simpl String.eqb; cbv iota;
    rewrite ?getClaimString_insert; simpl String.eqb; cbv iota;
    rewrite ?getClaimString_insert; simpl String.eqb; cbv iota; done.
Qed.

Lemma refreshed_sub cfg old new :
  session_sub (Some (applyRefreshedClaims cfg old new)) =
  or_str (authoritativeID cfg (Some new))
    (if decide (custom_id cfg ∧ session_sub old ≠ "") then session_sub old
     else session_sub (Some new)).
Proof.
  unfold applyRefreshedClaims, or_str. fold (session_sub old).
  set (new' := if String.eqb _ "" then new else _).
  assert (session_sub (Some new') =
    if String.eqb (authoritativeID cfg (Some new)) ""
    then if decide (custom_id cfg ∧ session_sub old ≠ "") then session_sub old else session_sub (Some new)
    else authoritativeID cfg (Some new)) as <-.
  { subst new'. destruct (String.eqb_spec (authoritativeID cfg (Some new)) "") as [E0|E0]; simpl negb;
      cbv iota; [|apply String.eqb_neq in E0; rewrite E0; unfold session_sub;
                  by rewrite getClaimString_insert].
    fold (session_sub (Some new)).
    set (b := _ && _).
    assert (b = bool_decide (custom_id cfg ∧ session_sub old ≠ "")) as ->.
    { apply eq_bool_prop_intro. rewrite bool_decide_spec. unfold b, custom_id.
      rewrite !andb_True, !negb_True, !Is_true_true, !String.eqb_eq. tauto. }
    destruct (decide _) as [Hc|Hc].
    - rewrite bool_decide_true by done. destruct Hc as [_ Hs].
      rewrite (proj2 (String.eqb_neq _ _) Hs). unfold session_sub at 1.
      by rewrite getClaimString_insert.
    - rewrite bool_decide_false by done. destruct (String.eqb_spec (session_sub (Some new)) ""); [done|].
      unfold session_sub at 1. by rewrite getClaimString_insert. }
  clearbody new'. unfold session_sub. repeat case_match; by rewrite ?getClaimString_insert.
Qed.

Lemma refreshed_kind cfg old new :
  IDKind (cc_ClaimMapping cfg) ≠ "" →
  session_kind (Some (applyRefreshedClaims cfg old new)) = IDKind (cc_ClaimMapping cfg).
Proof.
  intros Hk%String.eqb_neq. unfold applyRefreshedClaims. rewrite Hk. simpl negb. cbv iota.
  unfold session_kind. by rewrite getClaimString_insert.
Qed.

Lemma session_claims_kind cfg p :
  IDKind (cc_ClaimMapping cfg) ≠ "" →
  session_kind (Some (session_claims cfg p)) = IDKind (cc_ClaimMapping cfg).
Proof.
  intros Hk%String.eqb_neq. unfold session_claims, session_kind. rewrite Hk.
  destruct (Roles p); by rewrite !getClaimString_insert.
Qed.

(** The claims of a session after a series of refreshes. *)
Definition refreshes (cfg : ConnectorConfig) (p : Principal) (news : list (gmap string any)) : claims :=
  foldl (λ c new, Some (applyRefreshedClaims cfg c new)) (Some (session_claims cfg p)) news.

(** A refreshed ID token names the same person: the same subject, and either
    the same mapped identity or none. *)
Definition same_person (cfg : ConnectorConfig) (p : Principal) (new : gmap string any) : Prop :=
  session_sub (Some new) = Subject p ∧
  (authoritativeID cfg (Some new) = "" ∨
   authoritativeID cfg (Some new) = authoritativeID cfg (p_Claims p)).

(** C33: a session's identity survives any number of refreshes.  As long as the
    refreshed ID tokens name the same person, even when they lack the claim the
    connector maps the identity to, the [sub] every later request sees is the
    one the login stored, and the kind of the identity is the connector's. *)
Theorem identity_stable cfg p news (Hnew : Forall (same_person cfg p) news) :
  session_sub (refreshes cfg p news) = or_str (authoritativeID cfg (p_Claims p)) (Subject p) ∧
  (IDKind (cc_ClaimMapping cfg) ≠ "" →
   session_kind (refreshes cfg p news) = IDKind (cc_ClaimMapping cfg)).
Proof.
  unfold refreshes. induction news as [|new news IH] using rev_ind.
  - split; [apply session_claims_sub|apply session_claims_kind].
  - rewrite foldl_snoc. apply List.Forall_app in Hnew as [Hnews Hn]. destruct (IH Hnews) as [Hs _].
    split; [|by intros; apply refreshed_kind].
    apply Forall_inv in Hn as [Hsub Hauth]. rewrite refreshed_sub, Hs, Hsub. unfold or_str.
    set (a := authoritativeID cfg (p_Claims p)) in *.
    destruct Hauth as [-> | ->]; [|by repeat case_match].
    simpl String.eqb. cbv iota. case_decide as Hc; [done|].
    destruct (String.eqb_spec a "") as [|Ha]; [done|].
    exfalso. apply Hc. split; [|done].
    destruct (decide (custom_id cfg)) as [|Hno]; [done|].
    by destruct Ha; apply authoritativeID_not_custom.
Qed.

(** The witness: an employee number that the refreshed token omits. *)
Lemma identity_stable_witness :
  let m := {| AuthoritativeIDClaim := "employee"; IDKind := "hr"; EmailClaim := "";
              NameClaim := ""; RolesClaim := "" |} in
  let cfg := {| cc_ID := "hr"; cc_Default := false; cc_ProviderPluginID := "oidc";
     cc_OIDCIssuer := ""; cc_OIDCRedirectURI := ""; cc_OIDCClientID := "app";
     cc_OIDCClientSecret := ""; cc_OIDCScopes := []; cc_OIDCAudience := "";
     cc_OIDCClaimsSource := ""; cc_SessionRedisPrefix := ""; cc_CookieName := "";
     cc_SessionTTLSeconds := 1; cc_SessionPKCETTLSeconds := 1;
     cc_SessionRefreshLockTTLSeconds := 1; cc_ClaimMapping := m |} in
  let cl : gmap string any := {[ "sub" := AStr "u1"; "employee" := AStr "e-77" ]} in
  session_sub (refreshes cfg (principal_of cl) [{[ "sub" := AStr "u1" ]}]) = "e-77".
Proof.
  intros m cfg cl.
  destruct (identity_stable cfg (principal_of cl) [{[ "sub" := AStr "u1" ]}]) as [-> _].
  - constructor; [|constructor]. split; [vm_compute; reflexivity|left; vm_compute; reflexivity].
  - vm_compute. reflexivity.
Defined.

(** ** Executions *)
Section refresh.
Context `{Unicode} `{StructPB} {E : Type → Type}.
Context `{!ClockE E} `{!RandE E} `{!LogE E} `{!WebhookE E} `{!AuthMetricsE E}.
Context `{!JWKSSource E} `{!JwtLib E} `{!OnceStore E}.

(** What a session becomes by the provider's answer [t]: new tokens, the old
    refresh and ID tokens when the answer has none, and new claims exactly when
    it has an ID token that validates; the id and the tenant stay. *)
Definition renewed (s : Service E) (c : connector E) (sess : Session) (t : ProviderTokens)
    (tr : list (event E)) (sess' : Session) : Prop :=
  ∃ texp warning tlog tval expiry newClaims,
    tr = texp ++ tlog ++ tval ∧ expiry_calls texp (pt_ExpiresIn t) warning expiry ∧
    ((pt_RefreshToken t = "" ∧ tlog = []) ∨ (pt_RefreshToken t ≠ "" ∧ ∃ msg, tlog = [Ev (Log msg) tt])) ∧
    sess' = {| s_ID := s_ID sess; AccessToken := pt_AccessToken t;
               RefreshToken := or_str (pt_RefreshToken t) (RefreshToken sess);
               IDToken := or_str (pt_IDToken t) (IDToken sess); ExpiresAt := expiry;
               Claims := newClaims; s_Tenant := s_Tenant sess |} ∧
    ((newClaims = Claims sess ∧
      ((pt_IDToken t = "" ∧ tval = []) ∨
       ∃ e, exec (ValidateIDToken (pt_IDToken t) (s_jwks s) (cc_OIDCIssuer (k_cfg c))
                    (audience_of (k_cfg c)) "") tval (Err e))) ∨
     ∃ jwks cl, newClaims = Some (applyRefreshedClaims (k_cfg c) (Claims sess) cl) ∧
       s_jwks s = true ∧ claims_match cl (audience_of (k_cfg c)) "" ∧
       tval = [Ev (GetJWKS (cc_OIDCIssuer (k_cfg c))) (Ok jwks);
               Ev (JwtParse (pt_IDToken t) (keyFuncFromJWKS jwks) (id_token_options (cc_OIDCIssuer (k_cfg c))))
                 (Ok {| jt_claims := Some cl; jt_valid := true |})]).

Lemma renew_exec s c id sess t tr sess' :
  exec (renew s c id sess t) tr sess' → renewed s c sess t tr sess'.
Proof.
  unfold renew. intros Hx. apply exec_bind in Hx as (expiry & texp & t2 & -> & He & Hx).
  apply token_expiry_exec in He.
  apply exec_bind in Hx as ([] & tlog & tval & -> & Hlog & Hx).
  assert ((pt_RefreshToken t = "" ∧ tlog = []) ∨
          (pt_RefreshToken t ≠ "" ∧ ∃ msg, tlog = [Ev (Log msg) tt])) as Hl.
  { destruct (String.eqb_spec (pt_RefreshToken t) ""); [destruct Hlog as [-> _]; by left|].
    destruct Hlog as ([] & ? & -> & [-> _]). right. eauto. }
  destruct (String.eqb_spec (pt_IDToken t) "") as [Eid|Eid].
  - destruct Hx as [-> <-]. eexists texp, _, tlog, [], expiry, _. split; [done|].
    split; [exact He|]. split; [done|]. split; [reflexivity|]. left. auto.
  - apply exec_bind in Hx as (v & t5 & t6 & -> & Hv & Hx). destruct Hx as [-> <-].
    destruct v as [pr|e].
    + apply ValidateIDToken_exec in Hv as (Hj & jwks & cl & -> & Hm & ->).
      eexists texp, _, tlog, _, expiry, _. split; [reflexivity|]. split; [exact He|].
      split; [done|]. split; [reflexivity|]. right. exists jwks, cl. done.
    + eexists texp, _, tlog, _, expiry, _. split; [reflexivity|]. split; [exact He|].
      split; [done|]. split; [reflexivity|]. left. split; [done|].
      right. rewrite app_nil_r. eauto.
Qed.

(** The calls of a renewal that is stored: the provider is given the session's
    refresh token, and the renewed session is written under its id. *)
Definition renewal_calls (s : Service E) (c : connector E) (id : string) (sess sess' : Session)
    (tr : list (event E)) : Prop :=
  ∃ t trn msg, tr = Ev (ProviderRefresh (k_provider c) (RefreshToken sess)) (Ok t) :: trn ++
      [Ev (@SS_Set E (k_sessions c) id sess' (cc_SessionTTLSeconds (k_cfg c))) None;
       Ev (Log msg) tt] ∧
    renewed s c sess t trn sess'.

Lemma refresh_locked_exec s c id sess tr resp b :
  exec (refresh_locked s c id sess) tr (Ok resp, b) →
  ∃ sess', renewal_calls s c id sess sess' tr ∧ b = true ∧ rfr_Refreshed resp = true ∧
    codec_Decode (s_cookie s) (rfr_SetCookieValue resp) = Ok id.
Proof.
  unfold refresh_locked. intros ([t|e] & t1 & -> & Hx); cbn [pbind call] in Hx;
    [|destruct Hx as ([] & ? & -> & [_ [=]])].
  apply exec_bind in Hx as (sess' & trn & t2 & -> & Hn & Hx). apply renew_exec in Hn.
  destruct Hx as ([e|] & t3 & -> & Hx); cbn [pbind call] in Hx; [by destruct Hx|].
  destruct Hx as ([] & t4 & -> & Hx). cbn [pbind call] in Hx.
  destruct (codec_Encode (s_cookie s) id) as [v|e] eqn:Ev0; [|by destruct Hx].
  destruct Hx as [-> [= <- <-]]. exists sess'. split; [|split; [done|split; [done|]]].
  - eexists t, trn, _. done.
  - simpl. eapply codec_round; [|exact Ev0]. left.
Qed.

(** C11: a refresh happens by the book.  [Refresh] reports a refreshed session
    only when the cookie decodes to a stored session with a refresh token that
    is due for refresh, the refresh lock of that session was obtained, the
    provider accepted the session's refresh token, and the renewed session
    (same id, same tenant) was stored under the same id; the lock is released
    afterwards, and the new cookie decodes to the same session id. *)
Theorem refresh_sound s req tr resp
    (Hx : exec (Refresh s req) tr (Ok resp)) (Hr : rfr_Refreshed resp = true) :
  ∃ c id sess now sess' mid rel,
    conn s (rf_Connector req) = Ok c ∧ codec_Decode (s_cookie s) (rf_SessionCookie req) = Ok id ∧
    RefreshToken sess ≠ "" ∧ NeedsRefresh sess now (SessionRefreshEarlySeconds (s_cfg s)) = true ∧
    tr = [Ev (@SS_Get E (k_sessions c) id) (Ok (Some sess)); Ev Now now;
          Ev (@RL_Obtain E (k_lock c) id (cc_SessionRefreshLockTTLSeconds (k_cfg c))) (Ok true)] ++
         mid ++ [Ev (@RL_Release E (k_lock c) id) rel; Ev (Metric (RefreshCompleted true)) tt] ∧
    renewal_calls s c id sess sess' mid ∧
    s_ID sess' = s_ID sess ∧ s_Tenant sess' = s_Tenant sess ∧
    codec_Decode (s_cookie s) (rfr_SetCookieValue resp) = Ok id.
Proof.
  unfold Refresh in Hx. apply exec_bind in Hx as ([r b] & ta & tb & -> & Hb & Hx).
  destruct Hx as ([] & ? & -> & [-> Er]). simpl in Er. subst r. unfold refresh_body in Hb.
  destruct (conn s (rf_Connector req)) as [c|e] eqn:Ec; [|by destruct Hb].
  destruct (String.eqb (rf_SessionCookie req) ""); [by destruct Hb|].
  destruct (codec_Decode (s_cookie s) (rf_SessionCookie req)) as [id|e] eqn:Ed; [|by destruct Hb].
  destruct Hb as ([[sess|]|e] & t1 & -> & Hx); cbn [pbind call] in Hx; [|by destruct Hx..].
  destruct (String.eqb_spec (RefreshToken sess) "") as [|Hrt]; [by destruct Hx|].
  destruct Hx as (now & t2 & -> & Hx). cbn [pbind call] in Hx.
  destruct (NeedsRefresh sess now _) eqn:Hn; simpl negb in Hx; cbv iota in Hx;
    [|by destruct Hx as [_ [= <- _]]].
  destruct Hx as ([[]|e] & t3 & -> & Hx); cbn [pbind call] in Hx;
    [|by destruct Hx as [_ [= <- _]]..].
  apply exec_bind in Hx as ([r' b'] & mid & t4 & -> & Hl & Hx).
  destruct Hx as (rel & ? & -> & [-> [= -> ->]]). 
  apply refresh_locked_exec in Hl as (sess' & Hcalls & -> & _ & Hck).
  exists c, id, sess, now, sess', mid, rel. do 4 (split; [done|]). split.
  { simpl. by rewrite <-app_assoc. }
  split; [done|]. destruct Hcalls as (t & trn & msg & _ & Hren).
  by destruct Hren as (? & ? & ? & ? & ? & ? & _ & _ & _ & -> & _).
Qed.

(** A stored session is read: it has no refresh token, or is not due by the clock. *)
Inductive read_fresh (s : Service E) (c : connector E) (id : string) : list (event E) → Session → Prop :=
| not_refreshable sess :
    RefreshToken sess = "" →
    read_fresh s c id [Ev (@SS_Get E (k_sessions c) id) (Ok (Some sess))] sess
| not_due sess now :
    RefreshToken sess ≠ "" → NeedsRefresh sess now (SessionRefreshEarlySeconds (s_cfg s)) = false →
    read_fresh s c id [Ev (@SS_Get E (k_sessions c) id) (Ok (Some sess)); Ev Now now] sess.

Lemma ensure_locked_exec s c id tr sess' b :
  exec (ensure_locked s c id) tr (Ok (sess', b)) →
  if b then
    ∃ sess now mid,
      tr = [Ev (@SS_Get E (k_sessions c) id) (Ok (Some sess)); Ev Now now] ++ mid ∧
      RefreshToken sess ≠ "" ∧ NeedsRefresh sess now (SessionRefreshEarlySeconds (s_cfg s)) = true ∧
      renewal_calls s c id sess sess' mid
  else
    read_fresh s c id tr sess'.
Proof.
  unfold ensure_locked.
  intros ([[sess|]|e] & t1 & -> & Hx); cbn [pbind call] in Hx; [|by destruct Hx..].
  destruct (String.eqb_spec (RefreshToken sess) "") as [|Hrt].
  { destruct Hx as [-> [= -> <-]]. by apply not_refreshable. }
  destruct Hx as (now & t2 & -> & Hx). cbn [pbind call] in Hx.
  destruct (NeedsRefresh sess now _) eqn:Hn; simpl negb in Hx; cbv iota in Hx;
    [|destruct Hx as [-> [= -> <-]]; by apply not_due].
  destruct Hx as ([t|e] & t3 & -> & Hx); cbn [pbind call] in Hx;
    [|destruct Hx as ([] & ? & -> & [_ [=]])].
  apply exec_bind in Hx as (s1 & trn & t4 & -> & Hr & Hx). apply renew_exec in Hr.
  destruct Hx as ([e|] & t5 & -> & Hx); cbn [pbind call] in Hx; [by destruct Hx|].
  destruct Hx as ([] & t6 & -> & [-> [= <- <-]]).
  eexists sess, now, _. split; [reflexivity|]. split; [done|]. split; [done|].
  eexists t, trn, _. done.
Qed.

(** Calls that neither use the provider nor write: reads of the session, of the
    clock, and attempts at the lock that did not get it. *)
Inductive passive (c : connector E) (id : string) : event E → Prop :=
| passive_get r : passive c id (Ev (@SS_Get E (k_sessions c) id) r)
| passive_now n : passive c id (Ev Now n)
| passive_obtain ttl r : r ≠ Ok true → passive c id (Ev (@RL_Obtain E (k_lock c) id ttl) r).

(** C20: the discipline of the refresh lock.  Every execution of [ensureFresh],
    failing ones included, either only reads, or obtains the lock, runs
    [ensure_locked] (the only part that asks the provider or writes a session),
    and releases the lock as its last call. *)
Theorem ensure_fresh_lock s c id tr r
    (Hx : exec (ensureFresh s c id) tr r) :
  Forall (passive c id) tr ∨
  ∃ sess now mid rel,
    tr = [Ev (@SS_Get E (k_sessions c) id) (Ok (Some sess)); Ev Now now;
          Ev (@RL_Obtain E (k_lock c) id (cc_SessionRefreshLockTTLSeconds (k_cfg c))) (Ok true)] ++
         mid ++ [Ev (@RL_Release E (k_lock c) id) rel] ∧
    exec (ensure_locked s c id) mid r.
Proof.
  unfold ensureFresh in Hx. destruct (String.eqb id ""); [left; by destruct Hx as [-> _]|].
  destruct Hx as ([[sess|]|e] & t1 & -> & Hx); cbn [pbind call] in Hx;
    [|left; destruct Hx as [-> _]; by repeat constructor..].
  destruct (String.eqb (RefreshToken sess) ""); [left; destruct Hx as [-> _]; by repeat constructor|].
  destruct Hx as (now & t2 & -> & Hx). cbn [pbind call] in Hx.
  destruct (negb (NeedsRefresh _ _ _)); [left; destruct Hx as [-> _]; by repeat constructor|].
  destruct Hx as ([[]|e] & t3 & -> & Hx); cbn [pbind call] in Hx.
  - right. apply exec_bind in Hx as (r' & mid & t4 & -> & Hl & Hx).
    destruct Hx as (rel & ? & -> & [-> <-]). eexists sess, now, mid, rel. done.
  - left. destruct Hx as (r' & t4 & -> & [-> _]). by repeat constructor.
  - left. destruct Hx as [-> _]. by repeat constructor.
Qed.

(** The session [id] of the connector's store, made fresh: the calls, the
    session handed out, and whether it was refreshed. *)
Definition due (s : Service E) (sess : Session) (now : Z) : Prop :=
  RefreshToken sess ≠ "" ∧ NeedsRefresh sess now (SessionRefreshEarlySeconds (s_cfg s)) = true.
(** A stored session is due, and its lock is asked for. *)
Definition due_calls (s : Service E) (c : connector E) (id : string) (sess : Session) (now : Z)
    (got : bool) : list (event E) :=
  [Ev (@SS_Get E (k_sessions c) id) (Ok (Some sess)); Ev Now now;
   Ev (@RL_Obtain E (k_lock c) id (cc_SessionRefreshLockTTLSeconds (k_cfg c))) (Ok got)].
Inductive freshened (s : Service E) (c : connector E) (id : string)
    : list (event E) → Session → bool → Prop :=
| as_stored tr sess : read_fresh s c id tr sess → freshened s c id tr sess false
| locked_elsewhere sess0 now0 sess :
    due s sess0 now0 →
    freshened s c id
      (due_calls s c id sess0 now0 false ++ [Ev (@SS_Get E (k_sessions c) id) (Ok (Some sess))]) sess false
| refreshed_elsewhere sess0 now0 tr sess rel :
    due s sess0 now0 → read_fresh s c id tr sess →
    freshened s c id
      (due_calls s c id sess0 now0 true ++ tr ++ [Ev (@RL_Release E (k_lock c) id) rel]) sess false
| refreshed_here sess0 now0 sess now mid sess' rel :
    due s sess0 now0 → due s sess now → renewal_calls s c id sess sess' mid →
    freshened s c id
      (due_calls s c id sess0 now0 true ++
       [Ev (@SS_Get E (k_sessions c) id) (Ok (Some sess)); Ev Now now] ++ mid ++
       [Ev (@RL_Release E (k_lock c) id) rel]) sess' true.

(** What [ensureFresh] hands out: the stored session when it needs no refresh,
    what the store holds when another request refreshes it, and otherwise the
    session re-read under the lock, renewed when it still is due. *)
Lemma ensure_fresh_sound s c id tr sess' b :
  exec (ensureFresh s c id) tr (Ok (sess', b)) → id ≠ "" ∧ freshened s c id tr sess' b.
Proof.
  unfold ensureFresh. destruct (String.eqb_spec id "") as [|Hid]; [by intros []|].
  intros ([[sess0|]|e] & t1 & -> & Hx); cbn [pbind call] in Hx; [|by destruct Hx..]. split; [done|].
  destruct (String.eqb_spec (RefreshToken sess0) "") as [|Hrt].
  { destruct Hx as [-> [= -> <-]]. by apply as_stored, not_refreshable. }
  destruct Hx as (now0 & t2 & -> & Hx). cbn [pbind call] in Hx.
  destruct (NeedsRefresh sess0 now0 _) eqn:Hd; cbn [negb] in Hx;
    [|destruct Hx as [-> [= -> <-]]; by apply as_stored, not_due].
  destruct Hx as ([[]|e] & t3 & -> & Hx); cbn [pbind call] in Hx; [| |by destruct Hx].
  - apply exec_bind in Hx as (r' & mid & t4 & -> & Hl & Hx).
    destruct Hx as (rel & ? & -> & [-> ->]). apply ensure_locked_exec in Hl. destruct b.
    + destruct Hl as (sess & now & mid' & -> & Hrt' & Hd' & Hmid). rewrite <-app_assoc.
      by apply (refreshed_here s c id sess0 now0 sess now mid' sess' rel).
    + by apply (refreshed_elsewhere s c id sess0 now0 mid sess' rel).
  - destruct Hx as ([[sess|]|e] & t4 & -> & [-> [=]]). subst sess b.
    by apply (locked_elsewhere s c id sess0 now0 sess').
Qed.
End refresh.

#[local] Existing Instance ascii_unicode.

(** ** Witnesses: a session due for refresh in the concrete environment *)
Definition due_session : Session :=
  {| s_ID := "sid"; AccessToken := "old"; RefreshToken := "rt"; IDToken := "";
     ExpiresAt := 1700000030; Claims := Some {[ "sub" := AStr "u1" ]}; s_Tenant := None |}.
Definition due_world : world := w_set_sess w_start {[ "sid" := due_session ]}.
Definition due_cookie : string :=
  match codec_Encode env_cookie "sid" with Ok v => v | Err _ => "" end.
Definition due_connector : connector authE := connector_of env_cfg env_wiring env_provider.
Definition due_request : RefreshRequest := {| rf_SessionCookie := due_cookie; rf_Connector := "" |}.

Lemma refresh_sound_witness :
  ∃ resp tr, exec (Refresh env_service due_request) tr (Ok resp) ∧
    codec_Decode env_cookie (rfr_SetCookieValue resp) = Ok "sid".
Proof.
  pose proof (run_exec env_handler (Refresh env_service due_request) due_world) as Hx.
  destruct (fst (run env_handler (Refresh env_service due_request) due_world)) as [resp|e] eqn:Er;
    [|vm_compute in Er; discriminate Er].
  exists resp. eexists. split; [exact Hx|].
  assert (rfr_Refreshed resp = true) as Hr by (vm_compute in Er; injection Er as <-; reflexivity).
  destruct (refresh_sound env_service due_request _ resp Hx Hr)
    as (c & id & _ & _ & _ & _ & _ & _ & Hd & _ & _ & _ & _ & _ & _ & Hck).
  vm_compute in Hd. injection Hd as <-. exact Hck.
Defined.

Lemma env_passive id e : passive due_connector id e → env_obtained e = false.
Proof. by intros [| |ttl [[]|]]. Qed.

Lemma ensure_fresh_lock_witness :
  ∃ tr r, exec (ensureFresh env_service due_connector "sid") tr r ∧
    ∃ mid, exec (ensure_locked env_service due_connector "sid") mid r.
Proof.
  pose proof (run_exec env_handler (ensureFresh env_service due_connector "sid") due_world) as Hx.
  eexists _, _. split; [exact Hx|].
  destruct (ensure_fresh_lock env_service due_connector "sid" _ _ Hx) as [Hp|(_ & _ & mid & _ & _ & Hm)].
  - exfalso. vm_compute in Hp. do 2 apply Forall_inv_tail in Hp. apply Forall_inv in Hp.
    by apply env_passive in Hp.
  - exists mid. exact Hm.
Defined.

Lemma ensure_fresh_sound_witness :
  ∃ tr s b, exec (ensureFresh env_service due_connector "sid") tr (Ok (s, b)) ∧ b = true ∧
    ∃ sess mid, renewal_calls env_service due_connector "sid" sess s mid.
Proof.
  pose proof (run_exec env_handler (ensureFresh env_service due_connector "sid") due_world) as Hx.
  destruct (fst (run env_handler (ensureFresh env_service due_connector "sid") due_world))
    as [[s b]|e] eqn:Er; [|vm_compute in Er; discriminate Er].
  eexists _, s, b. split; [exact Hx|].
  assert (b = true) as -> by (vm_compute in Er; injection Er as <- <-; reflexivity).
  split; [reflexivity|].
  destruct (ensure_fresh_sound env_service due_connector "sid" _ s true Hx) as [_ Hf].
  clear - Hf. inversion Hf. eauto.
Defined.
