(* ===== verification/RefreshLock.v ===== *)
(** * Concurrent refreshes of one session

    Requests that share a store run as a pool, one call at a time.  While the
    lock of a session is not lost (it neither expires nor is deleted by someone
    who does not hold it), at most one request at a time asks the provider for
    new tokens or writes the session back.  The explicit refresh, though, works
    on a session read before the lock: two in a row present one refresh token
    twice.  And nobody waits for ever: under any fair schedule every request
    returns, and the lock is free then. *)

From S2P Require Import Prelude.
From S2P Require Import GoStrings.
From S2P Require Import Effects.
From S2P Require Import GoTime.
From S2P Require Import GoAny.
From S2P Require Import Cookie.
From S2P Require Import Session.
From S2P Require Import AuthConfig.
From S2P Require Import Handoff.
From S2P Require Import Token.
From S2P Require Import Sdk.
From S2P Require Import AuthService.
From S2P Require Import AuthFlows.
From S2P Require Import AuthEnv.
From S2P Require Import AuthRefresh.

(** The lock store: the ids locked.  A failed request may have had its effect. *)
Definition lock_answers (X : Type) (e : authE X) : gset string → X → gset string → Prop :=
  match e in authE X return gset string → X → gset string → Prop with
  | E_Obtain i _ => λ w x w',
      match x with
      | Ok true => i ∉ w ∧ w' = {[ i ]} ∪ w
      | Ok false => i ∈ w ∧ w' = w
      | Err _ => w' = w ∨ w' = {[ i ]} ∪ w
      end
  | E_Release i => λ w x w', w' = w ∖ {[ i ]} ∨ (x ≠ None ∧ w' = w)
  | _ => λ w _ w', w' = w
  end.

Section lock.
Context (id : string).

Definition is_obtain {X} (e : authE X) : bool := match e with E_Obtain i _ => String.eqb i id | _ => false end.
Definition is_release {X} (e : authE X) : bool := match e with E_Release i => String.eqb i id | _ => false end.
(** What only the holder of the lock may do. *)
Definition is_critical {X} (e : authE X) : bool :=
  match e with E_Refresh _ => true | E_SSet i _ _ => String.eqb i id | _ => false end.
Definition got_lock {X} (e : authE X) : X → bool :=
  match e in authE X return X → bool with
  | E_Obtain i _ => λ x, String.eqb i id && match x with Ok b => b | Err _ => false end
  | _ => λ _, false
  end.

(** A program that does not hold the lock, and one that does: until it releases. *)
Fixpoint outside {A} (p : prog authE A) : Prop :=
  match p with
  | Ret _ => True
  | Vis e k => is_release e = false ∧ is_critical e = false ∧
               ∀ x, if got_lock e x then inside (k x) else outside (k x)
  end
with inside {A} (p : prog authE A) : Prop :=
  match p with
  | Ret _ => False
  | Vis e k => is_obtain e = false ∧ ∀ x, if is_release e then outside (k x) else inside (k x)
  end.

(** A part of a program that does not touch the lock of [id]. *)
Fixpoint lock_free {A} (p : prog authE A) : Prop :=
  match p with
  | Ret _ => True
  | Vis e k => is_release e = false ∧ is_obtain e = false ∧ ∀ x, lock_free (k x)
  end.

Lemma outside_bind {A B} (p : prog authE A) (f : A → prog authE B) :
  (∀ a, outside (f a)) → (outside p → outside (pbind p f)) ∧ (inside p → inside (pbind p f)).
Proof.
  intros Hf. induction p as [a|X e k IH]; simpl; [by split; [auto|]|]. split.
  - intros (Hr & Hc & Hk). split; [done|]. split; [done|]. intros x. specialize (Hk x).
    destruct (got_lock e x); by apply IH.
  - intros (Ho & Hk). split; [done|]. intros x. specialize (Hk x). destruct (is_release e); by apply IH.
Qed.

Lemma outside_call {X B} (e : authE X) (f : X → prog authE B) :
  is_release e = false → is_critical e = false →
  (∀ x, if got_lock e x then inside (f x) else outside (f x)) → outside (pbind (call e) f).
Proof. by repeat split. Qed.

Lemma lock_free_bind {A B} (p : prog authE A) (f : A → prog authE B) :
  lock_free p → (∀ a, lock_free (f a)) → lock_free (pbind p f).
Proof. intros Hp Hf. induction p as [a|X e k IH]; simpl in *; [auto|]. destruct Hp as (? & ? & ?). auto. Qed.

Lemma inside_bind {A B} (p : prog authE A) (f : A → prog authE B) :
  lock_free p → (∀ a, inside (f a)) → inside (pbind p f).
Proof.
  intros Hp Hf. induction p as [a|X e k IH]; simpl in *; [auto|]. destruct Hp as (Hr & Ho & Hk). rewrite Hr. auto.
Qed.

Lemma no_lock_answer {X} (e : authE X) : ∃ x : X, got_lock e x = false.
Proof.
  destruct e; cbn [got_lock];
    try (by exists tt); try (by exists 0); try (by exists (Err "")); try (by exists None).
  exists (Err ""). by rewrite andb_false_r.
Qed.

(** No program both holds the lock and does not. *)
Lemma outside_not_inside {A} (p : prog authE A) : outside p → ¬ inside p.
Proof.
  induction p as [a|X e k IH]; simpl; [by intros _ []|]. intros (Hr & _ & Hk) (_ & Hi). rewrite Hr in Hi.
  destruct (no_lock_answer e) as [x Hx]. specialize (Hk x). rewrite Hx in Hk. by eapply IH.
Qed.

Lemma got_lock_obtain {X} (e : authE X) x w w' :
  lock_answers X e w x w' → got_lock e x = true → id ∉ w ∧ id ∈ w'.
Proof.
  destruct e; try done. simpl. intros Ha Hx. apply andb_true_iff in Hx as [->%String.eqb_eq Hx].
  destruct x as [[]|]; try done. destruct Ha as [? ->]. set_solver.
Qed.

Lemma answer_keeps_lock {X} (e : authE X) x w w' :
  lock_answers X e w x w' → is_release e = false → id ∈ w → id ∈ w'.
Proof.
  destruct e; simpl; try (by intros ->).
  - destruct x as [[]|]; [intros [? ->]|intros [? ->]|intros [->| ->]]; set_solver.
  - intros [->|[_ ->]] Hr%String.eqb_neq; set_solver.
Qed.

(** ** The pool *)
Section pool.
Context {A : Type}.
Notation state := (gset string * list (prog authE A))%type.

Definition lock_inv (st : state) : Prop :=
  (∀ p, p ∈ st.2 → outside p ∨ (inside p ∧ id ∈ st.1)) ∧
  ∀ i j p q, st.2 !! i = Some p → st.2 !! j = Some q → inside p → inside q → i = j.

Lemma lock_inv_step st st' : lock_inv st → pstep lock_answers st st' → lock_inv st'.
Proof.
  intros [Hp Hu] Hs. destruct Hs as [w w' ps i p p' Hi Hserved]. simpl in *.
  destruct p as [a|X e k]; [done|]. destruct Hserved as (x & Ha & ->).
  assert (Hil : (i < length ps)%nat) by (by eapply lookup_lt_Some).
  assert (Hother : ∀ q j, j ≠ i → <[i:=k x]> ps !! j = Some q → ps !! j = Some q)
    by (intros q j Hj; by rewrite list_lookup_insert_ne).
  assert (Hcase : (outside (k x) ∧ (is_release e = false ∨ ∀ j q, j ≠ i → ps !! j = Some q → ¬ inside q)) ∨
                  (inside (k x) ∧ id ∈ w' ∧ is_release e = false ∧ ∀ j q, j ≠ i → ps !! j = Some q → ¬ inside q)).
  { destruct (Hp _ (list_elem_of_lookup_2 _ _ _ Hi)) as [(Hr & _ & Hk)|[(Ho & Hk) Hin]].
    - specialize (Hk x). destruct (got_lock e x) eqn:Eg; [right|left; auto].
      destruct (got_lock_obtain e x w w' Ha Eg) as [Hnw Hw']. split; [done|]. split; [done|]. split; [done|].
      intros j q _ Hq Hqi. destruct (Hp _ (list_elem_of_lookup_2 _ _ _ Hq)) as [Ho|[_ ?]]; [|done].
      by eapply outside_not_inside.
    - assert (Hne : ∀ j q, j ≠ i → ps !! j = Some q → ¬ inside q).
      { intros j q Hj Hq Hqi. apply Hj. eapply Hu; [exact Hq|exact Hi|done|]. by split. }
      specialize (Hk x). destruct (is_release e) eqn:Er; [left; auto|right].
      split; [done|]. split; [by eapply answer_keeps_lock|done]. }
  split; simpl.
  - intros q [j Hq]%list_elem_of_lookup. destruct (decide (j = i)) as [->|Hj].
    + rewrite list_lookup_insert_eq in Hq by done. injection Hq as <-.
      destruct Hcase as [[? _]|(? & ? & _)]; [by left|by right].
    + apply (Hother q j Hj) in Hq. destruct (Hp _ (list_elem_of_lookup_2 _ _ _ Hq)) as [?|[Hqi Hqw]]; [by left|].
      destruct Hcase as [[_ [Hr|Hne]]|(_ & _ & Hr & Hne)]; [|by destruct (Hne j q Hj Hq)..].
      right. split; [done|]. by eapply answer_keeps_lock.
  - intros a b q r Hq Hr Hqi Hri. destruct (decide (a = i)) as [->|Ha'], (decide (b = i)) as [->|Hb']; [done|..].
    + rewrite list_lookup_insert_eq in Hq by done. injection Hq as <-. apply (Hother r b Hb') in Hr.
      destruct Hcase as [[Hout _]|(_ & _ & _ & Hne)]; [by apply outside_not_inside in Hout|by destruct (Hne b r Hb' Hr)].
    + rewrite list_lookup_insert_eq in Hr by done. injection Hr as <-. apply (Hother q a Ha') in Hq.
      destruct Hcase as [[Hout _]|(_ & _ & _ & Hne)]; [by apply outside_not_inside in Hout|by destruct (Hne a q Ha' Hq)].
    + eapply Hu; [by eapply Hother|by eapply Hother|done|done].
Qed.

Lemma lock_inv_reach st st' : preach lock_answers st st' → lock_inv st → lock_inv st'.
Proof. induction 1 as [|x y z Hs _ IH]; [done|]. intros Hi. apply IH. by eapply lock_inv_step. Qed.

Lemma lock_inv_start w ps : Forall outside ps → lock_inv (w, ps).
Proof.
  intros Hf. rewrite Forall_forall in Hf. split; [by left; apply Hf|].
  intros i j p q Hp _ Hi. exfalso. eapply outside_not_inside; [|exact Hi]. apply Hf. by eapply list_elem_of_lookup_2.
Qed.

(** The next call of a program is one only the holder may make. *)
Definition at_critical (p : prog authE A) : Prop :=
  match p with Ret _ => False | Vis e _ => is_critical e = true end.

Lemma at_critical_inside st p : lock_inv st → p ∈ st.2 → at_critical p → inside p.
Proof.
  intros [Hp _] Hin Hc. destruct (Hp p Hin) as [Ho|[? _]]; [|done].
  destruct p as [a|X e k]; [done|]. destruct Ho as (_ & Hn & _). simpl in Hc. congruence.
Qed.

(** A lock store that does what it answers, and does not fail a release. *)
Definition lock_works (X : Type) (e : authE X) : gset string → X → gset string → Prop :=
  match e in authE X return gset string → X → gset string → Prop with
  | E_Obtain i _ => λ w x w',
      match x with Ok true => i ∉ w ∧ w' = {[ i ]} ∪ w | Ok false => i ∈ w ∧ w' = w | Err _ => w' = w end
  | E_Release i => λ w _ w', w' = w ∖ {[ i ]}
  | _ => λ w _ w', w' = w
  end.

Lemma works_answers X (e : authE X) w x w' : lock_works X e w x w' → lock_answers X e w x w'.
Proof. destruct e; simpl; try done; [destruct x as [[]|]; auto|auto]. Qed.

Lemma works_frees {X} (e : authE X) w x w' : lock_works X e w x w' → is_release e = true → id ∉ w'.
Proof. destruct e; try done. simpl. intros -> ->%String.eqb_eq. set_solver. Qed.

Lemma works_takes {X} (e : authE X) w x w' : lock_works X e w x w' → id ∈ w' → id ∉ w → got_lock e x = true.
Proof.
  destruct e; simpl; try (by intros ->); [|set_solver].
  destruct x as [[]|]; [intros [_ ->]|intros [_ ->]|intros ->]; try done.
  intros Hin Hnin. rewrite andb_true_r. apply String.eqb_eq. set_solver.
Qed.

(** The lock is held by a program of the pool, when it is held. *)
Definition held_inside (st : state) : Prop := id ∈ st.1 → ∃ i p, st.2 !! i = Some p ∧ inside p.

Lemma held_step st st' : lock_inv st → held_inside st → pstep lock_works st st' → held_inside st'.
Proof.
  intros [Hp _] Hh Hs. destruct Hs as [w w' ps i p p' Hi Hserved]. unfold held_inside in *. simpl in *. intros Hin.
  destruct p as [a|X e k]; [done|]. destruct Hserved as (x & Ha & ->).
  assert (Hil : (i < length ps)%nat) by (by eapply lookup_lt_Some).
  assert (Hkx : inside (k x) → ∃ j q, <[i:=k x]> ps !! j = Some q ∧ inside q).
  { intros Hk. exists i, (k x). split; [by apply list_lookup_insert_eq|done]. }
  destruct (decide (id ∈ w)) as [Hw|Hw].
  - destruct (Hh Hw) as (j & q & Hj & Hq). destruct (decide (i = j)) as [<-|Hij].
    + rewrite Hi in Hj. injection Hj as <-. destruct Hq as [_ Hk]. specialize (Hk x). apply Hkx.
      destruct (is_release e) eqn:Er; [|done]. by destruct (works_frees e w x w' Ha Er).
    + exists j, q. split; [|done]. by rewrite list_lookup_insert_ne.
  - pose proof (works_takes e w x w' Ha Hin Hw) as Hg. apply Hkx.
    destruct (Hp _ (list_elem_of_lookup_2 _ _ _ Hi)) as [(_ & _ & Hk)|[_ ?]]; [|done].
    specialize (Hk x). by rewrite Hg in Hk.
Qed.
End pool.
End lock.

(** A handler with a lock store inside. *)
Section live.
Context {S A : Type} (h : handler authE S) (locks : S → gset string).
Hypothesis Hlocks : ∀ X (e : authE X) w, lock_works X e (locks w) (fst (h X e w)) (locks (snd (h X e w))).

Lemma serve_next_step (st : S * list (prog authE A)) i :
  serve_next h st i = st ∨ pstep lock_works (locks st.1, st.2) (locks (serve_next h st i).1, (serve_next h st i).2).
Proof.
  destruct st as [w ps]. unfold serve_next. simpl. destruct (ps !! i) as [[a|X e k]|] eqn:Hi; [by left| |by left].
  right. specialize (Hlocks X e w). destruct (h X e w) as [x w']. by eapply pstep_vis.
Qed.

Lemma served_inv id sched w (ps : list (prog authE A)) n : Forall (outside id) ps → id ∉ locks w →
  let st := served_for h sched n (w, ps) in
  lock_inv id (locks st.1, st.2) ∧ held_inside id (locks st.1, st.2).
Proof.
  intros Hps Hw. apply served_for_inv.
  - split; [by apply lock_inv_start|]. by intros ?.
  - intros st [Hi Hh] i. destruct (serve_next_step st i) as [->|Hs]; [done|]. split.
    + eapply lock_inv_step; [exact Hi|]. destruct Hs as [? ? ? ? p ? Hip Hsv]. econstructor; [exact Hip|].
      destruct p; [done|]. destruct Hsv as (x & Hx & ->). exists x. split; [by apply works_answers|done].
    + by eapply held_step.
Qed.
End live.

(** ** The requests *)
Section requests.
Context `{Unicode} (cfg : Config) (cc : ConnectorConfig) (s : Service authE) (id : string).

(** A connector wired to the shared stores and provider. *)
Definition shared_connector : connector authE :=
  connector_of cfg
    {| K_Config := cc; K_Provider := Some env_provider; K_Sessions := env_sessions; K_PKCE := env_pkce;
       K_RefreshLock := env_lock; K_Finder := Some E_Find |} env_provider.

Ltac walk :=
  repeat match goal with
  | |- ∀ _, _ => intros ?
  | |- _ ∧ _ => split
  | |- lock_free _ (pbind _ _) => apply lock_free_bind
  | |- lock_free _ (call _) => repeat split
  | |- lock_free _ (Ret _) => exact I
  | |- lock_free _ (match ?x with _ => _ end) => destruct x
  | |- lock_free _ (if ?b then _ else _) => destruct b
  end.

Lemma ValidateIDToken_lock_free raw src issuer audience nonce :
  lock_free id (ValidateIDToken raw src issuer audience nonce : prog authE _).
Proof. unfold ValidateIDToken. walk. Qed.

Lemma renew_lock_free c sid sess tr : lock_free id (renew s c sid sess tr).
Proof.
  unfold renew, token_expiry, log. cbv zeta. walk. apply ValidateIDToken_lock_free.
Qed.

Lemma ensure_locked_free : lock_free id (ensure_locked s shared_connector id).
Proof. unfold ensure_locked, log. cbv zeta. walk. apply renew_lock_free. Qed.

Lemma refresh_locked_free sess : lock_free id (refresh_locked s shared_connector id sess).
Proof. unfold refresh_locked, log. cbv zeta. walk. apply renew_lock_free. Qed.

(** Under the lock, then the release. *)
Lemma locked_part {A} (p : prog authE A) :
  lock_free id p → inside id (r <- p ;; call (E_Release id) ;;; Ret r).
Proof.
  intros Hp. apply inside_bind; [done|]. intros r. simpl. split; [done|]. intros x.
  by rewrite String.eqb_refl.
Qed.

Lemma ensureFresh_outside : outside id (ensureFresh s shared_connector id).
Proof.
  unfold ensureFresh. cbv zeta. destruct (String.eqb id ""); [done|].
  apply outside_call; [done..|]. intros [[sess|]|e]; try done. cbn [got_lock].
  destruct (String.eqb (RefreshToken sess) ""); [done|].
  apply outside_call; [done..|]. intros now. cbn [got_lock]. destruct (negb _); [done|].
  change (@RL_Obtain authE (k_lock shared_connector)) with E_Obtain.
  apply outside_call; [done..|]. intros [[]|e]; cbn [got_lock].
  - rewrite String.eqb_refl. apply locked_part, ensure_locked_free.
  - rewrite andb_false_r. apply outside_call; [done..|]. by intros [[]|].
  - by rewrite andb_false_r.
Qed.

Lemma Refresh_outside req :
  (∀ c, conn s (rf_Connector req) = Ok c → c = shared_connector) →
  (∀ i, codec_Decode (s_cookie s) (rf_SessionCookie req) = Ok i → i = id) →
  outside id (Refresh s req).
Proof.
  intros Hc Hid. unfold Refresh. apply outside_bind; [intros r; by repeat split|].
  unfold refresh_body. destruct (conn s (rf_Connector req)) as [c|e]; [|done]. rewrite (Hc c eq_refl).
  destruct (String.eqb _ ""); [done|]. destruct (codec_Decode _ _) as [i|e]; [|done]. rewrite (Hid i eq_refl).
  apply outside_call; [done..|]. intros [[sess|]|e]; try done. cbn [got_lock].
  destruct (String.eqb (RefreshToken sess) ""); [done|].
  apply outside_call; [done..|]. intros now. cbn [got_lock]. destruct (negb _); [done|].
  change (@RL_Obtain authE (k_lock shared_connector)) with E_Obtain.
  apply outside_call; [done..|]. intros [[]|e]; cbn [got_lock].
  - rewrite String.eqb_refl. apply locked_part, refresh_locked_free.
  - by rewrite andb_false_r.
  - by rewrite andb_false_r.
Qed.

(** The requests for the session: refreshed on the way by a resolution, or
    because the browser asks; what they answer is left out. *)
Variant request := OnTheWay | Explicit (req : RefreshRequest).
Definition for_session (q : request) : Prop :=
  match q with
  | OnTheWay => True
  | Explicit req => conn s (rf_Connector req) = Ok shared_connector ∧
                    codec_Decode (s_cookie s) (rf_SessionCookie req) = Ok id
  end.
Definition serve (q : request) : prog authE unit :=
  match q with
  | OnTheWay => ensureFresh s shared_connector id ;;; Ret tt
  | Explicit req => Refresh s req ;;; Ret tt
  end.

Lemma serve_outside q : for_session q → outside id (serve q).
Proof.
  destruct q as [|req]; simpl; intros Hq; (apply outside_bind; [done|]).
  - apply ensureFresh_outside.
  - destruct Hq as [Hc Hid]. apply Refresh_outside; [intros c; by rewrite Hc; intros [= ->]|].
    intros i. rewrite Hid. by intros [= ->].
Qed.

(** C21: one refresh at a time.  However many requests for one session run at
    once, on their way through a resolution or asking for a refresh, however
    their calls interleave, and whatever the clock, the provider and the stores
    answer: while the session's lock is not lost, no two of them are both about
    to present a refresh token to the provider or to write the session; and one
    that is holds the lock. *)
Theorem refresh_exclusive (requests : list request) w st i j p q
    (Hreq : Forall for_session requests)
    (Hr : preach lock_answers (w, serve <$> requests) st)
    (Hp : st.2 !! i = Some p) (Hq : st.2 !! j = Some q)
    (Hcp : at_critical id p) (Hcq : at_critical id q) :
  i = j ∧ id ∈ st.1.
Proof.
  assert (Hi : lock_inv id st).
  { eapply lock_inv_reach; [exact Hr|]. apply lock_inv_start, Forall_fmap. eapply Forall_impl; [exact Hreq|].
    intros x Hx. by apply serve_outside. }
  assert (Hip : inside id p) by (eapply at_critical_inside; [exact Hi|by eapply list_elem_of_lookup_2|done]).
  assert (Hiq : inside id q) by (eapply at_critical_inside; [exact Hi|by eapply list_elem_of_lookup_2|done]).
  destruct Hi as [Hout Hu]. split; [by eapply Hu|].
  destruct (Hout p) as [Ho|[_ ?]]; [by eapply list_elem_of_lookup_2| |done].
  by apply outside_not_inside in Ho.
Qed.

(** C22: no request waits for ever, and none keeps the lock.  Any number of
    requests for one session, served by any environment whose lock store does
    what it answers and does not fail a release, from a moment the lock is
    free: under every schedule that serves each of them again and again, there
    is a moment when all of them have returned, and the lock is free then. *)
Theorem refreshes_return {S} (h : handler authE S) (locks : S → gset string) (sched : nat → nat)
    (requests : list request) (w : S)
    (Hlocks : ∀ X (e : authE X) w, lock_works X e (locks w) (fst (h X e w)) (locks (snd (h X e w))))
    (Hreq : Forall for_session requests) (Hw : id ∉ locks w) (Hfair : fair sched (length requests)) :
  ∃ n, let st := served_for h sched n (w, serve <$> requests) in
       Forall returned st.2 ∧ length st.2 = length requests ∧ id ∉ locks st.1.
Proof.
  destruct (fair_all_returned h sched (w, serve <$> requests)) as [n Hn]; [cbn [snd]; rewrite (length_map serve); exact Hfair|].
  exists n. intros st. split; [exact Hn|]. split; [unfold st; rewrite served_length; apply (length_map serve)|]. intros Hin.
  destruct (served_inv h locks Hlocks id sched w (serve <$> requests) n) as [_ Hh]; [|done|].
  - apply Forall_fmap. eapply Forall_impl; [exact Hreq|]. intros x Hx. by apply serve_outside.
  - destruct (Hh Hin) as (i & p & Hp & Hi). rewrite Forall_lookup in Hn. specialize (Hn i p Hp). by destruct p.
Qed.
End requests.

#[local] Existing Instance ascii_unicode.

(** ** In the concrete environment *)
Definition asked_token {A} (p : prog authE A) : option string :=
  match p with Vis (E_Refresh t) _ => Some t | _ => None end.
Definition answer {A} (p : prog authE A) : option A := match p with Ret a => Some a | Vis _ _ => None end.

(** An explicit refresh may present a token that was already used.  [Refresh]
    decides on, and then refreshes, the session it read before it had the lock
    (unlike a resolution, which reads it again): with two refreshes of one due
    session, the second, once it has the lock the first released, presents the
    very refresh token the first has exchanged and replaced -- which an identity
    provider that rotates refresh tokens takes for theft. *)
Theorem refresh_token_replayed :
  let refresh := Refresh env_service due_request in
  ∃ st1 st2 r, let ran := preach (handler_answers env_handler) in
    ran (due_world, [refresh; refresh]) st1 ∧ st1.2 !! 0%nat ≫= asked_token = Some "rt" ∧
    ran st1 st2 ∧ st2.2 !! 0%nat ≫= answer = Some (Ok r) ∧ rfr_Refreshed r = true ∧
    RefreshToken <$> w_sess st2.1 !! "sid" = Some "refresh" ∧
    st2.2 !! 1%nat ≫= asked_token = Some "rt".
Proof.
  intros refresh. set (st0 := (due_world, [refresh; refresh])).
  set (st1 := foldl (serve_next env_handler) st0 [0; 1; 0; 1; 0]%nat).
  set (st2 := foldl (serve_next env_handler) st1 (replicate 12 0 ++ [1])%nat).
  assert (Hr : ∃ r, st2.2 !! 0%nat ≫= answer = Some (Ok r) ∧ rfr_Refreshed r = true)
    by (vm_compute; eexists; split; reflexivity).
  destruct Hr as (r & Hr & Hf). exists st1, st2, r.
  split; [apply schedule_reach|]. split; [vm_compute; reflexivity|]. split; [apply schedule_reach|].
  split; [exact Hr|]. split; [exact Hf|]. split; vm_compute; reflexivity.
Qed.

(** The lock store alone, the other answers those of the environment. *)
Definition lock_handler : handler authE (gset string) := λ X e,
  match e in authE X return gset string → X * gset string with
  | E_Obtain i _ => λ w, (Ok (bool_decide (i ∉ w)), if bool_decide (i ∉ w) then {[ i ]} ∪ w else w)
  | E_Release i => λ w, (None, w ∖ {[ i ]})
  | e => λ w, (fst (env_handler _ e due_world), w)
  end.
Lemma lock_handler_answers X (e : authE X) w x w' :
  handler_answers lock_handler X e w x w' → lock_answers X e w x w'.
Proof.
  unfold handler_answers. destruct e; cbn; try (intros [= _ <-]; done).
  - case_bool_decide as Hi; intros [= <- <-]; [done|]. split; [|done]. set_solver.
  - intros [= <- <-]. by left.
Qed.

Lemma refresh_exclusive_witness :
  let requests := [OnTheWay; Explicit due_request] in
  ∃ st p, preach lock_answers (∅, serve env_cfg env_connector_cfg env_service "sid" <$> requests) st ∧
    st.2 !! 0%nat = Some p ∧ at_critical "sid" p ∧ "sid" ∈ st.1.
Proof.
  intros requests.
  set (st := foldl (serve_next lock_handler)
               (∅, serve env_cfg env_connector_cfg env_service "sid" <$> requests) [0; 1; 0; 0; 0; 0]%nat).
  assert (Hr : preach lock_answers (∅, serve env_cfg env_connector_cfg env_service "sid" <$> requests) st)
    by (eapply preach_mono; [exact lock_handler_answers|apply schedule_reach]).
  assert (Hc : from_option (at_critical "sid") False (st.2 !! 0%nat)) by (vm_compute; reflexivity).
  destruct (st.2 !! 0%nat) as [p|] eqn:Hp; [|destruct Hc]. exists st, p. split; [exact Hr|]. split; [exact Hp|]. split; [exact Hc|].
  apply (refresh_exclusive env_cfg env_connector_cfg env_service "sid" requests ∅ st 0 0 p p); try assumption.
  apply List.Forall_cons; [exact I|]. apply List.Forall_cons; [|apply List.Forall_nil].
  split; [reflexivity|]. vm_compute. reflexivity.
Defined.

(** The lock store of [lock_handler] does what it answers. *)
Lemma lock_handler_works X (e : authE X) w : lock_works X e w (fst (lock_handler X e w)) (snd (lock_handler X e w)).
Proof. destruct e; cbn; try done. case_bool_decide as Hi; cbn; [done|]. split; [|done]. set_solver. Qed.

(** Two requests, in turns. *)
Definition turns (k : nat) : nat := if Nat.even k then 0 else 1.
Lemma turns_fair : fair turns 2.
Proof.
  intros i k Hi. unfold turns. destruct (Nat.even k) eqn:Ek, i as [|[|i]]; try lia.
  - exists 0%nat. by rewrite Nat.add_0_r, Ek.
  - exists 1%nat. by rewrite Nat.add_1_r, Nat.even_succ, <-Nat.negb_even, Ek.
  - exists 1%nat. by rewrite Nat.add_1_r, Nat.even_succ, <-Nat.negb_even, Ek.
  - exists 0%nat. by rewrite Nat.add_0_r, Ek.
Qed.

Lemma refreshes_return_witness :
  let requests := [OnTheWay; Explicit due_request] in
  ∃ n, let st := served_for lock_handler turns n (∅, serve env_cfg env_connector_cfg env_service "sid" <$> requests) in
       Forall returned st.2 ∧ "sid" ∉ st.1.
Proof.
  intros requests.
  destruct (refreshes_return env_cfg env_connector_cfg env_service "sid" lock_handler (λ w, w) turns requests ∅)
    as (n & Hn & _ & Hw).
  - exact lock_handler_works.
  - apply List.Forall_cons; [exact I|]. apply List.Forall_cons; [|apply List.Forall_nil].
    split; [reflexivity|]. vm_compute. reflexivity.
  - intros Hin. apply elem_of_empty in Hin. exact Hin.
  - exact turns_fair.
  - exists n. split; [exact Hn|exact Hw].
Defined.
