(* ===== verification/AuthAccess.v ===== *)
(** * Sessions at the edge: resolution, logout, handoff, construction

    What the proxy is told of a session, who may log a session out, what a
    handoff redemption hands out, and what the constructors build. *)

From S2P Require Import Prelude.
From S2P Require Import GoStrings.
From S2P Require Import Effects.
From S2P Require Import GoTime.
From S2P Require Import GoAny.
From S2P Require Import Base64.
From S2P Require Import Json.
From S2P Require Import Cookie.
From S2P Require Import Session.
From S2P Require Import AuthConfig.
From S2P Require Import Handoff.
From S2P Require Import Token.
From S2P Require Import Sdk.
From S2P Require Import AuthService.
From S2P Require Import AuthFlows.
From S2P Require Import AuthEnv.
From S2P Require Import AuthRefresh.

Section access.
Context `{Unicode} `{StructPB} {E : Type → Type}.
Context `{!ClockE E} `{!RandE E} `{!LogE E} `{!WebhookE E} `{!AuthMetricsE E}.
Context `{!JWKSSource E} `{!JwtLib E} `{!OnceStore E}.

(** C19: what the proxy is told of a session.  [ResolveForConnector] succeeds
    only on a cookie signed for some session id, whose session the connector's
    store holds, and after exactly the calls that make that very session fresh:
    it was read under that id and has no refresh token or is not due; or it is
    due, and either another request holds its lock, and it was read again; or
    the lock was obtained, the session read again under it, renewed by the
    provider with its own refresh token and stored under the same id if it
    still was due, and the lock released.  The access token, claims and tenant
    are those of the session so read or renewed, and a new cookie, handed out
    just when the session was renewed, is for the same session. *)
Theorem resolve_sound s connectorID cookie tr r
    (Hx : exec (ResolveForConnector s connectorID cookie) tr (Ok r)) :
  cookie ≠ "" ∧ ∃ c id sess b,
    conn s connectorID = Ok c ∧ codec_Decode (s_cookie s) cookie = Ok id ∧
    id ≠ "" ∧ freshened s c id tr sess b ∧
    rs_AccessToken r = AccessToken sess ∧ rs_Claims r = default ∅ (Claims sess) ∧
    rs_Tenant r = tenant_map <$> s_Tenant sess ∧
    if (b : bool) then codec_Decode (s_cookie s) (rs_SetCookie r) = Ok id else rs_SetCookie r = "".
Proof.
  unfold ResolveForConnector in Hx. destruct (String.eqb_spec cookie "") as [|Hne]; [by destruct Hx|].
  split; [done|]. destruct (conn s connectorID) as [c|e]; [|by destruct Hx].
  destruct (codec_Decode (s_cookie s) cookie) as [id|e]; [|by destruct Hx].
  apply exec_bind in Hx as (rf & t1 & t2 & -> & Hf & Hx). destruct Hx as [-> Hr].
  rewrite app_nil_r. destruct rf as [[sess b]|e]; [|done].
  apply res_bind_ok in Hr as (v & Hv & [= <-]). apply ensure_fresh_sound in Hf as [Hid Hf].
  exists c, id, sess, b. simpl. do 7 (split; [done|]). destruct b; [|by injection Hv as <-].
  eapply codec_round; [|exact Hv]. left.
Qed.

(** The logout CSRF check, exactly.  A logout is refused just when it
    carries an Origin that is not the application's, and no configured origin
    excuses it: none is the Origin or the Referer, and, when there is at least
    one, the Referer is not a page of the application. *)
Theorem logout_csrf (s : Service E) origin referer :
  let base := TrimSuffix (AppBaseURL (s_cfg s)) "/" in
  let allowed := AllowedRedirectOrigins (s_cfg s) in
  csrf_refused s origin referer = true ↔
  origin ≠ "" ∧ origin ≠ base ∧ origin ∉ allowed ∧ referer ∉ allowed ∧
  (allowed = [] ∨ HasPrefix referer (base +:+ "/") = false).
Proof.
  intros base allowed. unfold csrf_refused. fold base. fold allowed.
  assert (Hpre : String.eqb referer (base +:+ "/") = true → HasPrefix referer (base +:+ "/") = true).
  { intros ->%String.eqb_eq. apply HasPrefix_spec. exists "". by rewrite app_empty_r. }
  destruct (String.eqb origin "" && String.eqb referer "") eqn:E0.
  { apply andb_true_iff in E0 as [->%String.eqb_eq _]. naive_solver. }
  rewrite !andb_true_iff, !negb_true_iff, existsb_false_iff, !String.eqb_neq.
  setoid_rewrite orb_false_iff. setoid_rewrite orb_false_iff. setoid_rewrite orb_false_iff.
  setoid_rewrite String.eqb_neq.
  split.
  - intros [[Ha Hb] Ho]. split; [done|]. split; [done|].
    split; [intros Hin; by destruct (Ha _ Hin) as [[[? _] _] _]|].
    split; [intros Hin; by destruct (Ha _ Hin) as [[[_ ?] _] _]|].
    destruct allowed as [|o l]; [by left|right]. by destruct (Ha o) as [_ ?]; [left|].
  - intros (Ho & Hb & Hoa & Hra & Hor). split; [|done]. split; [|done].
    intros o Hin. destruct Hor as [Hnil|Hp]; [by rewrite Hnil in Hin; apply not_elem_of_nil in Hin|].
    repeat split; [by intros ->|by intros ->| |done].
    intros ->. by rewrite Hpre in Hp by (by apply String.eqb_eq).
Qed.

(** What a logout does.  It is answered only when the CSRF check passes; it
    always clears the cookie; when the cookie decodes to a session the store
    has, that session is deleted and its ID token is the hint of the provider's
    end-session URL; and the browser goes to that URL, or, when the provider
    has none, to the validated redirect target. *)
Theorem logout_sound s req tr resp
    (Hx : exec (Logout s req) tr (Ok resp)) :
  csrf_refused s (lo_Origin req) (lo_Referer req) = false ∧ lor_ClearCookie resp = true ∧
  ∃ c tr1 hint ans, conn s (lo_Connector req) = Ok c ∧
    tr = tr1 ++ [Ev (EndSessionURL (k_provider c) hint (ValidateRedirectURL s (lo_RedirectTo req))) ans;
                 Ev (Metric LogoutCompleted) tt] ∧
    lor_RedirectURL resp =
      match ans with Ok u => or_str u (ValidateRedirectURL s (lo_RedirectTo req))
      | Err _ => ValidateRedirectURL s (lo_RedirectTo req) end ∧
    ((hint = "" ∧ (tr1 = [] ∨ ∃ id r, tr1 = [Ev (@SS_Get E (k_sessions c) id) r] ∧
                                      codec_Decode (s_cookie s) (lo_SessionCookie req) = Ok id ∧
                                      ∀ sess, r ≠ Ok (Some sess))) ∨
     ∃ id sess d msg, codec_Decode (s_cookie s) (lo_SessionCookie req) = Ok id ∧ hint = IDToken sess ∧
       tr1 = [Ev (@SS_Get E (k_sessions c) id) (Ok (Some sess));
              Ev (@SS_Delete E (k_sessions c) id) d; Ev (Log msg) tt]).
Proof.
  unfold Logout in Hx. apply exec_bind in Hx as (r & ta & tb & -> & Hb & Hx).
  destruct Hx as ([] & ? & -> & [-> ->]). unfold logout_body in Hb.
  destruct (conn s (lo_Connector req)) as [c|e]; [|by destruct Hb].
  destruct (csrf_refused _ _ _) eqn:Hcs; [by destruct Hb|]. split; [done|].
  apply exec_bind in Hb as (hint & t1 & t2 & -> & Hh & Hx).
  destruct Hx as (ans & ? & -> & [-> [= <-]]). split; [done|].
  exists c, t1, hint, ans. split; [done|]. split; [by rewrite <-app_assoc|]. split; [done|].
  destruct (String.eqb (lo_SessionCookie req) ""); [destruct Hh as [-> <-]; left; eauto|].
  destruct (codec_Decode (s_cookie s) (lo_SessionCookie req)) as [id|e];
    [|destruct Hh as [-> <-]; left; eauto].
  destruct (String.eqb id ""); [destruct Hh as [-> <-]; left; eauto|].
  destruct Hh as (r & t3 & -> & Hh).
  destruct r as [[sess|]|e]; cbn [pbind call] in Hh.
  - destruct Hh as (d & t4 & -> & [] & t5 & -> & [-> <-]). right. eexists id, sess, d, _. done.
  - destruct Hh as [-> <-]. left. split; [done|]. right. exists id, (Ok None). done.
  - destruct Hh as [-> <-]. left. split; [done|]. right. exists id, (Err e). done.
Qed.

(** What a handoff redemption hands out.  [RedeemHandoff] succeeds only
    when the issuer redeemed the ticket, for the connector asked for (when one
    is), and the ticket's session is still in that connector's store; the
    cookie decodes to exactly that session. *)
Theorem redeem_handoff_sound s connectorID ticket tr v cid
    (Hx : exec (RedeemHandoff s connectorID ticket) tr (Ok (v, cid))) :
  ∃ issuer t c tr1 sess,
    s_handoff s = Some issuer ∧ conn s cid = Ok c ∧
    tr = tr1 ++ [Ev (@SS_Get E (k_sessions c) (t_SessionRef t)) (Ok (Some sess));
                 Ev (Metric (HandoffRedeemed (or_str cid connectorID) true)) tt] ∧
    exec (Redeem issuer ticket) tr1 (Ok t) ∧ t_ConnectorID t = cid ∧
    (connectorID = "" ∨ connectorID = cid) ∧
    codec_Decode (s_cookie s) v = Ok (t_SessionRef t).
Proof.
  unfold RedeemHandoff in Hx. destruct (s_handoff s) as [issuer|]; [|by destruct Hx].
  apply exec_bind in Hx as (r & ta & tb & -> & Hb & Hx).
  destruct Hx as ([] & ? & -> & [-> ->]). unfold redeem_body in Hb.
  apply exec_bind in Hb as (rt & t1 & t2 & -> & Hr & Hb).
  destruct rt as [t|e]; [|by destruct Hb].
  destruct (negb (String.eqb connectorID "") && _) eqn:Hm; [by destruct Hb|].
  destruct (conn s (t_ConnectorID t)) as [c|e] eqn:Ec; [|by destruct Hb].
  destruct Hb as (g & t3 & -> & Hb). destruct g as [[sess|]|e]; cbn [pbind call] in Hb;
    [|by destruct Hb..].
  destruct Hb as [-> Hv]. destruct (codec_Encode (s_cookie s) (t_SessionRef t)) as [v'|e] eqn:Ev0;
    [|done].
  injection Hv as -> <-. exists issuer, t, c, t1, sess. split; [done|]. split; [done|].
  split; [by rewrite <-app_assoc|]. split; [done|]. split; [done|]. split.
  - apply andb_false_iff in Hm as [Hm|Hm]; apply negb_false_iff, String.eqb_eq in Hm; auto.
  - eapply codec_round; [|exact Ev0]. left.
Qed.

(** ** Construction *)
Definition wired_id (c : Connector E) : string := or_str (cc_ID (K_Config c)) "default".

Lemma add_connectors_spec cfg l m d m' d' :
  add_connectors cfg l m d = Ok (m', d') →
  (∀ id, m' !! id =
     match List.find (λ c, String.eqb (wired_id c) id) (rev l) with
     | Some c => connector_of cfg c <$> K_Provider c
     | None => m !! id
     end) ∧
  Forall (λ c, K_Provider c ≠ None) l ∧
  d' = match List.find (λ c, cc_Default (K_Config c)) (rev l) with
       | Some c => wired_id c
       | None => match l with c :: _ => or_str d (wired_id c) | [] => d end
       end.
Proof.
  revert m d. induction l as [|c l IH]; intros m d; simpl.
  { intros [= <- <-]. done. }
  destruct (K_Provider c) as [p|] eqn:Ep; [|done]. intros (Hm & Hp & Hd)%IH.
  split; [|split; [constructor; [by rewrite Ep|done]|]].
  - intros id. rewrite Hm, find_app. destruct (List.find (λ c, String.eqb (wired_id c) id) (rev l)); [done|]. simpl. fold (wired_id c).
    destruct (String.eqb_spec (wired_id c) id) as [<-|Hne].
    + by rewrite lookup_insert_eq, Ep.
    + by rewrite lookup_insert_ne.
  - rewrite Hd, find_app. destruct (List.find (λ c, cc_Default (K_Config c)) (rev l)); [done|]. simpl. fold (wired_id c).
    assert (wired_id c ≠ "") as Hne.
    { unfold wired_id, or_str. by destruct (String.eqb_spec (cc_ID (K_Config c)) ""). }
    apply String.eqb_neq in Hne. unfold or_str.
    destruct (cc_Default (K_Config c)), (String.eqb_spec d "") as [->|Hd0]; simpl;
      destruct l; rewrite ?Hne; try done; by rewrite (proj2 (String.eqb_neq _ _) Hd0).
Qed.

(** The connectors of a service.  When [NewMultiConnector] succeeds, the
    configuration was valid and every connector has a provider; a connector id
    is served by the last wiring under that id (none means "default"), with its
    own cookie name and lifetime or the global ones; the default connector, the
    one an empty id means, is the last one marked default, or the first; and it
    exists. *)
Theorem multi_connector_sound cfg l cookie jwks s
    (Hs : NewMultiConnector cfg l cookie jwks = Ok s) :
  (∃ cfg', Validate cfg = (cfg', None) ∧ s_cfg s = cfg') ∧
  Forall (λ c, K_Provider c ≠ None) l ∧
  (∀ id c, id ≠ "" → conn s id = Ok c ↔
     ∃ w p, List.find (λ w, String.eqb (wired_id w) id) (rev l) = Some w ∧
       K_Provider w = Some p ∧ c = connector_of (s_cfg s) w p) ∧
  (∃ w rest, l = w :: rest ∧
     s_defaultID s = match List.find (λ c, cc_Default (K_Config c)) (rev l) with
                     | Some w' => wired_id w' | None => wired_id w end) ∧
  (∃ c, conn s "" = Ok c ∧ conn s (s_defaultID s) = Ok c).
Proof.
  unfold NewMultiConnector in Hs. destruct (Validate cfg) as [cfg' [e|]] eqn:Ev0; [done|].
  destruct l as [|w rest]; [done|]. unfold newService in Hs.
  apply res_bind_ok in Hs as ([m d] & Ha & [= <-]). apply add_connectors_spec in Ha as (Hm & Hp & Hd).
  simpl s_cfg. simpl s_defaultID. split; [eauto|]. split; [done|]. split.
  { intros id c Hid%String.eqb_neq. unfold conn. simpl s_connectors. unfold or_str. rewrite Hid, Hm, lookup_empty.
    destruct (List.find (λ w, String.eqb (wired_id w) id) (rev (w :: rest))) as [w1|]; [|naive_solver].
    destruct (K_Provider w1) as [p|] eqn:Ep; simpl; naive_solver. }
  assert (wired_id w = or_str "" (wired_id w)) as Ew by done.
  split; [exists w, rest; split; [done|by rewrite Hd]|].
  assert (∃ w', w' ∈ w :: rest ∧ d = wired_id w') as (w' & Hw' & Ed).
  { rewrite Hd. destruct (List.find (λ c, cc_Default (K_Config c)) (rev (w :: rest))) eqn:Ef.
    - apply List.find_some in Ef as [Hin _]. eexists. split; [|done].
      apply list_elem_of_In, in_rev. done.
    - exists w. split; [left|done]. }
  assert (d ≠ "") as Hne.
  { rewrite Ed. unfold wired_id, or_str. by destruct (String.eqb_spec (cc_ID (K_Config w')) ""). }
  assert (∃ c, m !! d = Some c) as [c Hc].
  { rewrite Hm. destruct (List.find (λ c, String.eqb (wired_id c) d) (rev (w :: rest))) as [w2|] eqn:Ef.
    - apply List.find_some in Ef as [Hin _]. rewrite <-in_rev in Hin.
      rewrite List.Forall_forall in Hp. specialize (Hp _ Hin).
      destruct (K_Provider w2) as [p|]; [|done]. by eexists.
    - exfalso. pose proof (List.find_none _ _ Ef w') as Hf. cbv beta in Hf.
      rewrite <-in_rev, <-list_elem_of_In in Hf. specialize (Hf Hw').
      rewrite Ed, String.eqb_refl in Hf. done. }
  exists c. unfold conn. simpl s_defaultID. simpl s_connectors. unfold or_str. simpl String.eqb. cbv iota.
  apply String.eqb_neq in Hne. by rewrite Hne, Hc.
Qed.
End access.

#[local] Existing Instance ascii_unicode.

(** ** Witnesses in the concrete environment *)
Definition live_session : Session :=
  {| s_ID := "sid"; AccessToken := "at"; RefreshToken := ""; IDToken := "hint";
     ExpiresAt := 1700009999; Claims := Some {[ "sub" := AStr "u1" ]}; s_Tenant := None |}.
Definition live_world : world := w_set_sess w_start {[ "sid" := live_session ]}.
Definition live_cookie : string :=
  match codec_Encode env_cookie "sid" with Ok v => v | Err _ => "" end.

Lemma resolve_sound_witness :
  ∃ r tr, exec (Resolve env_service live_cookie) tr (Ok r) ∧ rs_AccessToken r = "at" ∧
    ∃ id, codec_Decode env_cookie live_cookie = Ok id.
Proof.
  pose proof (run_exec env_handler (ResolveForConnector env_service "" live_cookie) live_world) as Hx.
  destruct (fst (run env_handler (ResolveForConnector env_service "" live_cookie) live_world))
    as [r|e] eqn:Er; [|vm_compute in Er; discriminate Er].
  exists r. eexists. split; [exact Hx|].
  split; [vm_compute in Er; injection Er as <-; vm_compute; reflexivity|].
  destruct (resolve_sound env_service "" live_cookie _ r Hx) as (_ & c & id & sess & b & _ & Hid & _).
  exists id. exact Hid.
Defined.

Definition logout_request : LogoutRequest :=
  {| lo_SessionCookie := live_cookie; lo_Connector := ""; lo_RedirectTo := "";
     lo_Origin := "https://app.example"; lo_Referer := "" |}.

Lemma logout_sound_witness :
  ∃ resp tr, exec (Logout env_service logout_request) tr (Ok resp) ∧ lor_ClearCookie resp = true.
Proof.
  pose proof (run_exec env_handler (Logout env_service logout_request) live_world) as Hx.
  destruct (fst (run env_handler (Logout env_service logout_request) live_world))
    as [r|e] eqn:Er; [|vm_compute in Er; discriminate Er].
  exists r. eexists. split; [exact Hx|].
  destruct (logout_sound env_service logout_request _ r Hx) as (_ & Hc & _). exact Hc.
Defined.

Definition live_ticket : string :=
  match s_handoff env_service with
  | Some i => match fst (run env_handler (Issue i "default" "u1" "sid" "jti-1") live_world) with
              | Ok t => t | Err _ => "" end
  | None => ""
  end.

Lemma redeem_handoff_sound_witness :
  ∃ v cid tr, exec (RedeemHandoff env_service "default" live_ticket) tr (Ok (v, cid)) ∧
    cid = "default" ∧ ∃ ref, codec_Decode env_cookie v = Ok ref.
Proof.
  pose proof (run_exec env_handler (RedeemHandoff env_service "default" live_ticket) live_world) as Hx.
  destruct (fst (run env_handler (RedeemHandoff env_service "default" live_ticket) live_world))
    as [[v cid]|e] eqn:Er; [|vm_compute in Er; discriminate Er].
  exists v, cid. eexists. split; [exact Hx|].
  destruct (redeem_handoff_sound env_service "default" live_ticket _ v cid Hx)
    as (issuer & t & c & tr1 & sess & _ & _ & _ & _ & _ & Hor & Hck).
  split; [destruct Hor as [Hor|Hor]; [discriminate Hor|symmetry; exact Hor]|].
  eexists. exact Hck.
Defined.

Lemma multi_connector_sound_witness :
  ∃ s, NewMultiConnector env_cfg [env_wiring] env_cookie true = Ok s ∧
    ∃ c, conn s "" = Ok c ∧ conn s (s_defaultID s) = Ok c.
Proof.
  destruct (NewMultiConnector env_cfg [env_wiring] env_cookie true) as [s|e] eqn:Es;
    [|vm_compute in Es; discriminate Es].
  exists s. split; [reflexivity|].
  apply (multi_connector_sound env_cfg [env_wiring] env_cookie true s Es).
Defined.
