(* ===== verification/Graphql.v ===== *)
(** * GraphQL operation names (internal/graphql)

    The tolerant parser that finds the name and the type of the first operation
    of a request body, raw document or JSON envelope.  A [strings.Reader] is
    the list of runes left to read. *)

From S2P Require Import Prelude.
From S2P Require Import GoStrings.
From S2P Require Import GoAny.
From S2P Require Import Json.

(** [unicode.IsDigit] outside ASCII. *)
Class UnicodeDigit := is_digit_high : Z → bool.
Definition IsDigit `{UnicodeDigit} (r : Z) : bool :=
  if r <? 0x80 then (48 <=? r) && (r <=? 57) else is_digit_high r.

Definition isIgnored (r : Z) : bool :=
  (r =? 32) || (r =? 9) || (r =? 10) || (r =? 13) || (r =? 44) || (r =? 0xFEFF).
Definition isNameStart (r : Z) : bool :=
  (r =? 95) || ((65 <=? r) && (r <=? 90)) || ((97 <=? r) && (r <=? 122)).
Definition isNameChar (r : Z) : bool := isNameStart r || ((48 <=? r) && (r <=? 57)).

Definition isName (tok : string) : bool :=
  match runes tok with
  | [] => false
  | r :: l => isNameStart r && forallb isNameChar l
  end.

(** The longest prefix of name characters, and what is left. *)
Fixpoint take_name (l : list Z) : string * list Z :=
  match l with
  | c :: l' => if isNameChar c then let '(s, rest) := take_name l' in (encode_rune c +:+ s, rest)
               else ("", l)
  | [] => ("", [])
  end.

Section parser.
Context `{UnicodeDigit}.

(** [comment]: the reader is inside a comment, up to the end of the line. *)
Fixpoint nextToken (comment : bool) (l : list Z) : option (string * list Z) :=
  match l with
  | [] => None
  | ch :: l' =>
      if comment then nextToken (negb (ch =? 10)) l'
      else if ch =? 35 then nextToken true l'
      else if isIgnored ch then nextToken false l'
      else if isNameStart ch || IsDigit ch then
        let '(s, rest) := take_name l' in Some (encode_rune ch +:+ s, rest)
      else Some (encode_rune ch, l')
  end.

Definition parseDocument (doc : string) : string * string :=
  match nextToken false (runes doc) with
  | None => ("", "")
  | Some (tok, l) =>
      if String.eqb tok "{" then ("", "query")
      else if existsb (String.eqb tok) ["query"; "mutation"; "subscription"] then
        match nextToken false l with
        | None => ("", tok)
        | Some (next, _) => if isName next then (next, tok) else ("", tok)
        end
      else ("", "")
  end.

Context `{Unicode}.

Definition envelope_fields : list string := ["operationName"; "query"].

(** The JSON envelope, when the text is one. *)
Definition envelope (text : string) : option (string * string) :=
  match parse text with
  | Some (JObj m) =>
      let '(name, ok1) := dec_string (bound envelope_fields "operationName" m) in
      let '(query, ok2) := dec_string (bound envelope_fields "query" m) in
      if ok1 && ok2 then Some (name, query) else None
  | _ => None
  end.

(** [parse] of the source; [ExtractOperation] is the same function. *)
Definition ExtractOperation (body : string) : string * string :=
  let trimmed := TrimSpace body in
  match trimmed with
  | "" => ("", "")
  | String c _ =>
      match (if byte_of c =? 123 then envelope trimmed else None) with
      | Some (name, query) =>
          if negb (String.eqb name "") then (name, snd (parseDocument query))
          else if negb (String.eqb query "") then parseDocument query
          else ("", "query")
      | None => parseDocument trimmed
      end
  end.

Definition ExtractOperationName (body : string) : string := fst (ExtractOperation body).

Record GraphQLRequest := { OperationName : string; OperationType : string }.
Definition ParseRequest (body : string) : GraphQLRequest :=
  let '(name, opType) := ExtractOperation body in
  {| OperationName := name; OperationType := opType |}.

(** ** Correctness of the document parser *)

(** What GraphQL ignores between tokens: white space, commas, and comments up
    to the end of their line. *)
Inductive ignored : list Z → Prop :=
| ign_nil : ignored []
| ign_char r l : isIgnored r = true → ignored l → ignored (r :: l)
| ign_comment c l : Forall (λ r, r ≠ 10) c → ignored l → ignored (35 :: c ++ 10 :: l).

Lemma nextToken_comment c l : Forall (λ r, r ≠ 10) c → nextToken true (c ++ 10 :: l) = nextToken false l.
Proof.
  induction 1 as [|r c Hr _ IH]; simpl; [done|].
  by replace (r =? 10) with false by lia.
Qed.

Lemma nextToken_ignored pre l : ignored pre → nextToken false (pre ++ l) = nextToken false l.
Proof.
  induction 1 as [|r pre Hr _ IH|c pre Hc _ IH]; simpl; [done| |].
  - rewrite Hr. destruct (r =? 35) eqn:E; [|done]. apply Z.eqb_eq in E as ->. done.
  - rewrite <-app_assoc. simpl. by rewrite nextToken_comment.
Qed.

(** The GraphQL [Name]: a letter or underscore, then letters, digits and
    underscores. *)
Definition graphql_name (name : string) : Prop :=
  match bytes_of name with
  | [] => False
  | r :: l => isNameStart r = true ∧ Forall (λ z, isNameChar z = true) l
  end.

Lemma name_char_ascii z : isNameChar z = true → z < 128.
Proof. unfold isNameChar, isNameStart. intros H'. repeat (bool_prop; destruct_or?); lia. Qed.
Lemma name_start_char z : isNameStart z = true → isNameChar z = true.
Proof. unfold isNameChar. by intros ->. Qed.

Lemma graphql_name_chars name :
  graphql_name name → Forall (λ z, isNameChar z = true) (bytes_of name).
Proof.
  unfold graphql_name. destruct (bytes_of name) as [|r l]; [done|]. intros [Hr Hl].
  apply List.Forall_cons; [by apply name_start_char|done].
Qed.
Lemma graphql_name_ascii name : graphql_name name → Forall (λ z, z < 128) (bytes_of name).
Proof.
  intros Hn. eapply Forall_impl; [by apply graphql_name_chars|]. intros z. apply name_char_ascii.
Qed.

Lemma graphql_name_isName name : graphql_name name → isName name = true.
Proof.
  intros Hn. unfold isName. rewrite runes_ascii by (by apply graphql_name_ascii).
  unfold graphql_name in Hn. destruct (bytes_of name) as [|r l]; [done|]. destruct Hn as [-> Hl].
  simpl. apply forallb_forall. rewrite List.Forall_forall in Hl. done.
Qed.

(** Where a name ends: at the end, or before a rune that is no name character. *)
Definition name_ends (l : list Z) : Prop :=
  match l with [] => True | r :: _ => isNameChar r = false end.

Lemma take_name_app s l :
  Forall (λ z, isNameChar z = true) (bytes_of s) → name_ends l → take_name (bytes_of s ++ l) = (s, l).
Proof.
  intros Hs Hl. induction s as [|c s IH].
  - destruct l as [|r l]; simpl; [done|]. by rewrite Hl.
  - rewrite bytes_of_cons in *. apply Forall_cons in Hs as [Hc Hs]. simpl. rewrite Hc, IH by done.
    rewrite encode_rune_low, of_byte_of; [done|].
    pose proof (byte_of_range c). apply name_char_ascii in Hc. lia.
Qed.

Lemma name_start_not_special z : isNameStart z = true → (z =? 35) = false ∧ isIgnored z = false.
Proof.
  unfold isNameStart, isIgnored. intros H'.
  split; [|rewrite !orb_false_iff]; repeat (bool_prop; destruct_or?); lia.
Qed.

Lemma nextToken_name name l :
  graphql_name name → name_ends l → nextToken false (bytes_of name ++ l) = Some (name, l).
Proof.
  intros Hn Hl. pose proof (graphql_name_chars _ Hn) as Hc. unfold graphql_name in Hn.
  destruct name as [|c name]; [done|]. rewrite bytes_of_cons in *.
  destruct Hn as [Hs _]. apply Forall_cons in Hc as [Hc0 Hc]. simpl.
  destruct (name_start_not_special _ Hs) as [-> ->]. rewrite Hs. simpl.
  rewrite take_name_app by done.
  rewrite encode_rune_low, of_byte_of; [done|].
  pose proof (byte_of_range c). apply name_char_ascii in Hc0. lia.
Qed.

Lemma ignored_name_ends l r : ignored (r :: l) → isNameChar r = false.
Proof.
  inversion 1 as [|? ? Hr|]; subst; [|done]. unfold isIgnored in Hr.
  unfold isNameChar, isNameStart. rewrite !orb_false_iff, !andb_false_iff.
  repeat (bool_prop; destruct_or?); lia.
Qed.

Definition operations : list string := ["query"; "mutation"; "subscription"].

Lemma operation_name op : op ∈ operations → graphql_name op.
Proof.
  unfold operations. rewrite !elem_of_cons, elem_of_nil. unfold graphql_name.
  intros [->|[->|[->|[]]]]; (split; [done|]); repeat (apply List.Forall_cons; [done|]);
    apply List.Forall_nil.
Qed.

Lemma existsb_operation op : existsb (String.eqb op) operations = true ↔ op ∈ operations.
Proof.
  rewrite existsb_true_iff. split; [intros (x & Hx & ->%String.eqb_eq); done|].
  intros Hop. exists op. split; [done|apply String.eqb_refl].
Qed.

Definition ascii_text (s : string) : Prop := Forall (λ z, z < 128) (bytes_of s).

Lemma parseDocument_operation pre op l :
  ascii_text pre → ignored (bytes_of pre) → op ∈ operations → ∀ doc,
  runes doc = bytes_of pre ++ bytes_of op ++ l → name_ends l →
  parseDocument doc = match nextToken false l with
                      | Some (next, _) => if isName next then (next, op) else ("", op)
                      | None => ("", op)
                      end.
Proof.
  intros Ha Hi Hop doc Hd Hl. unfold parseDocument.
  rewrite Hd, nextToken_ignored by done.
  rewrite nextToken_name by (done || by apply operation_name).
  assert (String.eqb op "{" = false) as ->.
  { unfold operations in Hop. rewrite !elem_of_cons, elem_of_nil in Hop.
    by destruct Hop as [->|[->|[->|[]]]]. }
  apply existsb_operation in Hop. unfold operations in Hop. rewrite Hop.
  destruct (nextToken false l) as [[next l']|]; [|done]. done.
Qed.

(** The name of the first operation is found.  In a raw document that, after
    white space, commas and comments, starts with an operation keyword, more of
    what GraphQL ignores, and a Name, the parser answers that name and that
    keyword, whatever follows the name; when what follows the keyword is no
    name, the operation is anonymous of that type; and a document that starts
    with a brace is an anonymous query. *)
Theorem operation_found pre op sep name rest
    (Hpre : ascii_text pre ∧ ignored (bytes_of pre)) (Hop : op ∈ operations)
    (Hsep : ascii_text sep ∧ ignored (bytes_of sep)) :
  (sep ≠ "" → graphql_name name → name_ends (runes rest) →
   parseDocument (pre +:+ op +:+ sep +:+ name +:+ rest) = (name, op)) ∧
  ((rest = "" ∨ ∃ c rest', rest = String c rest' ∧ byte_of c < 128 ∧
      isNameChar (byte_of c) = false ∧ isIgnored (byte_of c) = false ∧ byte_of c ≠ 35) →
   parseDocument (pre +:+ op +:+ sep +:+ rest) = ("", op)) ∧
  parseDocument (pre +:+ "{" +:+ rest) = ("", "query").
Proof.
  destruct Hpre as [Ha Hi], Hsep as [Hsa Hsi].
  pose proof (graphql_name_ascii _ (operation_name _ Hop)) as Hoa.
  assert (Hse : ∀ l, name_ends l → name_ends (bytes_of sep ++ l)).
  { intros l Hl. destruct (bytes_of sep) as [|r l'] eqn:Es; [done|]. simpl.
    by eapply ignored_name_ends. }
  split; [|split].
  - intros Hne Hn Hr.
    rewrite (parseDocument_operation pre op (bytes_of sep ++ bytes_of name ++ runes rest) Ha Hi Hop).
    + by rewrite nextToken_ignored, nextToken_name, graphql_name_isName.
    + by rewrite !runes_ascii_app by (done || by apply graphql_name_ascii).
    + destruct sep as [|c sep]; [done|]. rewrite bytes_of_cons in *. simpl.
      by eapply ignored_name_ends.
  - intros Hr.
    assert (name_ends (runes rest)) as Hne.
    { destruct Hr as [->|(c & rest' & -> & Hc & Hnc & _)]; [done|]. by rewrite runes_cons. }
    rewrite (parseDocument_operation pre op (bytes_of sep ++ runes rest) Ha Hi Hop).
    + rewrite nextToken_ignored by done.
      destruct Hr as [->|(c & rest' & -> & Hc & Hnc & Hic & H35)]; [done|].
      rewrite runes_cons by done. simpl. apply Z.eqb_neq in H35. rewrite H35, Hic.
      pose proof (byte_of_range c).
      assert (isNameStart (byte_of c) || IsDigit (byte_of c) = false) as ->.
      { unfold isNameChar in Hnc. apply orb_false_iff in Hnc as [-> Hd]. unfold IsDigit.
        by replace (byte_of c <? 0x80) with true by lia. }
      rewrite encode_rune_low, of_byte_of by lia.
      assert (isName (str c) = false) as ->; [|done]. unfold isName, str.
      rewrite runes_cons by done. unfold isNameChar in Hnc. by apply orb_false_iff in Hnc as [-> _].
    + by rewrite !runes_ascii_app.
    + by apply Hse.
  - unfold parseDocument. rewrite runes_ascii_app by done.
    rewrite nextToken_ignored by done. cbn [String.append].
    rewrite runes_cons by done. done.
Qed.
End parser.

Lemma operation_found_witness :
  parseDocument (H := λ _, false) "  query  GetUser($id: ID) { user }" = ("GetUser", "query").
Proof.
  apply (operation_found (H := λ _, false) "  " "query" "  " "GetUser" "($id: ID) { user }").
  - split; [repeat constructor|]. apply (ign_char 32); [reflexivity|].
    apply (ign_char 32); [reflexivity|constructor].
  - left.
  - split; [repeat constructor|]. apply (ign_char 32); [reflexivity|].
    apply (ign_char 32); [reflexivity|constructor].
  - discriminate.
  - split; [reflexivity|]. repeat constructor.
  - reflexivity.
Defined.
