(* ===== verification/Authz.v ===== *)
(** * The authorization engine (internal/authz, internal/policy)

    The request and decision types, [DefaultEngine.Handle], and the default
    header builder.  The principal resolver, the policy engine and the pipeline
    plugins are calls of the environment (Go interfaces); metrics are calls,
    tracing is left out.  A nil header map is an empty one: no code tells them
    apart. *)

From S2P Require Import Prelude.
From S2P Require Import GoStrings.
From S2P Require Import Effects.
From S2P Require Import GoAny.
From S2P Require Import Json.
From S2P Require Import JsonFacts.
From S2P Require Import Token.

(** ** Data *)
Record Request := {
  Protocol : string; Method : string; rq_Path : string; Headers : gmap string string;
  Cookies : gmap string string; Body : string; GraphQLOperation : string;
  GraphQLOperationType : string; GRPCService : string; GRPCMethod : string;
  RemoteAddr : string }.

Record Response := {
  Allow : bool; UpstreamHeaders : gmap string string; StatusCode : Z; rp_Body : string;
  rp_RedirectTo : string }.

(** policy.Input and policy.Decision. *)
Record Input := {
  in_Protocol : string; in_Method : string; in_Path : string; in_GraphQLOperation : string;
  in_GRPCService : string; in_GRPCMethod : string; in_Principal : option Principal;
  in_Headers : gmap string string }.
Record Decision := {
  d_Allow : bool; d_StatusCode : Z; d_Headers : gmap string string; d_Reason : string;
  d_Obligations : gmap string any }.

Class ProxyMetricsE (E : Type → Type) := AuthDecision : bool → Z → E unit.

Definition HeaderBuilder : Type := Principal → gmap string any → gmap string string.

Record DefaultEngine (E : Type → Type) := {
  e_Resolve : Request → E (res (option Principal));
  e_Evaluate : Input → E (res (option Decision));
  e_Plugins : list (option (Request → option Principal → E (res (option Decision))));
  e_RequireAuth : bool; e_HeaderBuilder : option HeaderBuilder;
  e_UnauthenticatedMode : string; e_LoginRedirectURL : string; e_Metrics : bool }.
Arguments e_Resolve {E}.
Arguments e_Evaluate {E}.
Arguments e_Plugins {E}.
Arguments e_RequireAuth {E}.
Arguments e_HeaderBuilder {E}.
Arguments e_UnauthenticatedMode {E}.
Arguments e_LoginRedirectURL {E}.
Arguments e_Metrics {E}.

(** ** Deny bodies *)

(** A literal with its quotes written as apostrophes. *)
Definition dq (s : string) : string :=
  map_bytes (λ c, if Ascii.eqb c "'" then dquote else c) s.

(** [escapeJSON]: json.Marshal of a string, its quotes stripped. *)
Definition escapeJSON (s : string) : string := escape s.

Definition error_body (escaped : string) : string :=
  dq "{'errors':[{'message':'" +:+ escaped +:+ dq "'}]}".

Definition denied (status : Z) (body redirect : string) : Response :=
  {| Allow := false; UpstreamHeaders := ∅; StatusCode := status; rp_Body := body;
     rp_RedirectTo := redirect |}.

(** ** Headers *)

(** The headers of the default builder, in the order they are set. *)
Definition set_if (k v : string) (h : gmap string string) : gmap string string :=
  if String.eqb v "" then h else <[k := v]> h.
Definition claim_str (k : string) (c : claims) : string := default "" (as_string (claim k c)).

Definition defaultHeaderBuilder (p : Principal) (obligations : gmap string any)
    : gmap string string :=
  let h := ∅ in
  let h := if String.eqb (p_AccessToken p) "" then h
           else <["Authorization" := "Bearer " +:+ p_AccessToken p]> h in
  let h := set_if "X-User-Id" (Subject p) h in
  let h := match Roles p with [] => h | l => <["X-Roles" := Join l ","]> h end in
  let h := set_if "X-User-Email" (claim_str "email" (p_Claims p)) h in
  let h := set_if "X-User-Full-Name" (claim_str "name" (p_Claims p)) h in
  let h := set_if "X-User-Preferred-Username" (claim_str "preferred_username" (p_Claims p)) h in
  set_if "X-Tenant-Id" (claim_str "tenant_id" (p_TenantContext p)) h.

(** The mapping that drops carriage returns and newlines. *)
Definition strip_crlf (s : string) : string :=
  Map (λ r, if (r =? 13) || (r =? 10) then -1 else r) s.

(** The header an obligation asks for, when it does. *)
Definition obligation_header (kv : string * any) : option (string * string) :=
  match kv.2 with
  | AStr s =>
      if HasPrefix kv.1 "set_header_"
      then Some (strip_crlf (ReplaceAll (TrimPrefix kv.1 "set_header_") "_" "-"), strip_crlf s)
      else None
  | _ => None
  end.

Section engine.
Context `{MapRange}.

Definition merge_obligations (o : gmap string any) (h : gmap string string) : gmap string string :=
  foldl (λ h kv, match obligation_header kv with
                 | Some (name, v) => <[name := v]> h | None => h end) h (range o).

(** The response a decision maps to. *)
Definition respond (hb : option HeaderBuilder) (principal : option Principal) (d : Decision)
    : Response :=
  let h := merge_obligations (d_Obligations d) (d_Headers d) in
  {| Allow := d_Allow d;
     UpstreamHeaders :=
       match principal with
       | Some p => if d_Allow d then default defaultHeaderBuilder hb p (d_Obligations d) ∪ h else h
       | None => h
       end;
     StatusCode := d_StatusCode d;
     rp_Body := if negb (String.eqb (d_Reason d) "") && negb (d_Allow d)
                then error_body (escapeJSON (d_Reason d)) else "";
     rp_RedirectTo := "" |}.

Context {E : Type → Type} `{!ProxyMetricsE E}.

Definition record_decision (on : bool) (allow : bool) (status : Z) : prog E unit :=
  if on then call (AuthDecision allow status) else Ret tt.

(** The pipeline plugins in turn: [Err] when one fails, otherwise the first
    decision, when there is one. *)
Fixpoint run_plugins (l : list (option (Request → option Principal → E (res (option Decision)))))
    (req : Request) (p : option Principal) : prog E (res (option Decision)) :=
  match l with
  | [] => Ret (Ok None)
  | None :: l' => run_plugins l' req p
  | Some handle :: l' =>
      r <- call (handle req p) ;;
      match r with
      | Err e => Ret (Err e)
      | Ok (Some d) => Ret (Ok (Some d))
      | Ok None => run_plugins l' req p
      end
  end.

Definition policy_input (req : Request) (p : option Principal) : Input :=
  {| in_Protocol := Protocol req; in_Method := Method req; in_Path := rq_Path req;
     in_GraphQLOperation := GraphQLOperation req; in_GRPCService := GRPCService req;
     in_GRPCMethod := GRPCMethod req; in_Principal := p; in_Headers := Headers req |}.

(** The decision for a request: a plugin's, or the policy's; [None] in place
    of the missing decision, and the response of an error. *)
Definition decide_request (e : DefaultEngine E) (req : Request) (p : option Principal)
    : prog E (Response + option Decision) :=
  r <- run_plugins (e_Plugins e) req p ;;
  match r with
  | Err _ => Ret (inl (denied 503 (error_body "pipeline plugin error") ""))
  | Ok (Some d) => Ret (inr (Some d))
  | Ok None =>
      r <- call (e_Evaluate e (policy_input req p)) ;;
      Ret match r with
          | Err _ => inl (denied 500 (error_body "policy error") "")
          | Ok d => inr d
          end
  end.

Definition unavailable : Decision :=
  {| d_Allow := false; d_StatusCode := 503; d_Headers := ∅; d_Reason := ""; d_Obligations := ∅ |}.

Definition Handle (e : DefaultEngine E) (req : Request) : prog E Response :=
  r <- call (e_Resolve e req) ;;
  match r with
  | Err _ => Ret (denied 502 (error_body "auth resolution failed") "")
  | Ok p =>
      let authorize :=
        d <- decide_request e req p ;;
        match d with
        | inl resp => Ret resp
        | inr d =>
            let resp := respond (e_HeaderBuilder e) p (default unavailable d) in
            record_decision (e_Metrics e) (Allow resp) (StatusCode resp) ;;;
            Ret resp
        end in
      match p with
      | None =>
          if e_RequireAuth e then
            if String.eqb (e_UnauthenticatedMode e) "html_redirect"
               && negb (String.eqb (e_LoginRedirectURL e) "")
            then record_decision (e_Metrics e) false 302 ;;;
                 Ret (denied 302 "" (e_LoginRedirectURL e))
            else Ret (denied 401 (error_body "unauthorized") "")
          else authorize
      | Some _ => authorize
      end
  end.
End engine.
