(* ===== verification/AuthzFacts.v ===== *)
(** * What the engine guarantees

    A request is allowed only by an explicit decision, the identity headers are
    the principal's, headers that come out of obligations carry no line break,
    and every deny body is a JSON document. *)

From S2P Require Import Prelude.
From S2P Require Import GoStrings.
From S2P Require Import Utf8Facts.
From S2P Require Import Effects.
From S2P Require Import GoAny.
From S2P Require Import Json.
From S2P Require Import JsonFacts.
From S2P Require Import Token.
From S2P Require Import Authz.

Section facts.
Context `{MapRange} {E : Type → Type} `{!ProxyMetricsE E}.

Notation plugin := (option (Request → option Principal → E (res (option Decision)))).

(** Plugins that had no opinion. *)
Definition passed (l : list plugin) (req : Request) (p : option Principal) : list (event E) :=
  omap (λ o : plugin, (λ h : Request → option Principal → E (res (option Decision)),
                         Ev (h req p) (Ok None)) <$> o) l.

(** The decision [d] is the first plugin's that made one, or, when none did,
    the policy's on this request and principal. *)
Inductive decided (e : DefaultEngine E) (req : Request) (p : option Principal) (d : Decision)
    : list (event E) → Prop :=
| by_plugin pre h post :
    e_Plugins e = pre ++ Some h :: post →
    decided e req p d (passed pre req p ++ [Ev (h req p) (Ok (Some d))])
| by_policy :
    decided e req p d (passed (e_Plugins e) req p ++
                       [Ev (e_Evaluate e (policy_input req p)) (Ok (Some d))]).

Lemma run_plugins_exec l req p tr r :
  exec (run_plugins l req p) tr r ↔
  match r with
  | Ok None => tr = passed l req p
  | Ok (Some d) => ∃ pre h post, l = pre ++ Some h :: post ∧
                     tr = passed pre req p ++ [Ev (h req p) (Ok (Some d))]
  | Err msg => ∃ pre h post, l = pre ++ Some h :: post ∧
                     tr = passed pre req p ++ [Ev (h req p) (Err msg)]
  end.
Proof.
  revert tr. induction l as [|[h|] l IH]; intros tr; cbn [run_plugins].
  - split; [intros [-> <-]; done|]. destruct r as [[d|]|msg].
    + intros ([|? ?] & ? & ? & [=] & _).
    + intros ->. done.
    + intros ([|? ?] & ? & ? & [=] & _).
  - split.
    + intros ([[d|]|msg] & t1 & -> & Hx); cbn [pbind call] in Hx.
      * destruct Hx as [-> <-]. by exists [], h, l.
      * apply IH in Hx. destruct r as [[d|]|msg].
        -- destruct Hx as (pre & h' & post & -> & ->). by exists (Some h :: pre), h', post.
        -- by rewrite Hx.
        -- destruct Hx as (pre & h' & post & -> & ->). by exists (Some h :: pre), h', post.
      * destruct Hx as [-> <-]. by exists [], h, l.
    + destruct r as [[d|]|msg].
      * intros ([|q pre] & h' & post & Hl & ->); simplify_eq/=.
        -- eexists _, _. split; [reflexivity|]. done.
        -- eexists _, _. split; [reflexivity|]. cbn [pbind call]. apply IH. eauto 10.
      * intros ->. eexists _, _. split; [reflexivity|]. cbn [pbind call]. by apply IH.
      * intros ([|q pre] & h' & post & Hl & ->); simplify_eq/=.
        -- eexists _, _. split; [reflexivity|]. done.
        -- eexists _, _. split; [reflexivity|]. cbn [pbind call]. apply IH. eauto 10.
  - rewrite IH. destruct r as [[d|]|msg]; [| done |];
      (split; [intros (pre & h & post & -> & ->); by exists (None :: pre), h, post|];
       intros ([|q pre] & h & post & Hl & ->); simplify_eq/=; by exists pre, h, post).
Qed.

(** ** Every answer of [Handle], with its calls *)

(** The events of recording a decision. *)
Definition recorded (e : DefaultEngine E) (allow : bool) (status : Z) : list (event E) :=
  if e_Metrics e then [Ev (AuthDecision allow status) tt] else [].

(** The requests that go on to a decision. *)
Definition admitted (e : DefaultEngine E) (p : option Principal) : Prop :=
  p ≠ None ∨ e_RequireAuth e = false.

(** No decision: a plugin or the policy failed, or the policy had none. *)
Inductive undecided (e : DefaultEngine E) (req : Request) (p : option Principal)
    : list (event E) → Response → Prop :=
| plugin_error pre h post m :
    e_Plugins e = pre ++ Some h :: post →
    undecided e req p (passed pre req p ++ [Ev (h req p) (Err m)])
      (denied 503 (error_body "pipeline plugin error") "")
| policy_error m :
    undecided e req p (passed (e_Plugins e) req p ++ [Ev (e_Evaluate e (policy_input req p)) (Err m)])
      (denied 500 (error_body "policy error") "")
| policy_silent :
    undecided e req p
      (passed (e_Plugins e) req p ++ [Ev (e_Evaluate e (policy_input req p)) (Ok None)] ++ recorded e false 503)
      (denied 503 "" "").

(** A collaborator failed. *)
Inductive failed (e : DefaultEngine E) (req : Request) : list (event E) → Response → Prop :=
| resolver_failed m :
    failed e req [Ev (e_Resolve e req) (Err m)] (denied 502 (error_body "auth resolution failed") "")
| engine_failed p tr r :
    admitted e p → undecided e req p tr r → failed e req (Ev (e_Resolve e req) (Ok p) :: tr) r.

(** Nobody is signed in, where somebody must be. *)
Inductive turned_away (e : DefaultEngine E) (req : Request) : list (event E) → Response → Prop :=
| sent_to_login :
    e_RequireAuth e = true → e_UnauthenticatedMode e = "html_redirect" → e_LoginRedirectURL e ≠ "" →
    turned_away e req (Ev (e_Resolve e req) (Ok None) :: recorded e false 302)
      (denied 302 "" (e_LoginRedirectURL e))
| unauthorized :
    e_RequireAuth e = true → e_UnauthenticatedMode e ≠ "html_redirect" ∨ e_LoginRedirectURL e = "" →
    turned_away e req [Ev (e_Resolve e req) (Ok None)] (denied 401 (error_body "unauthorized") "").

(** A decision was made, and is answered as it is. *)
Inductive ruled (e : DefaultEngine E) (req : Request) : list (event E) → Response → Prop :=
| by_decision p d dtr :
    admitted e p → decided e req p d dtr →
    ruled e req (Ev (e_Resolve e req) (Ok p) :: dtr ++ recorded e (d_Allow d) (d_StatusCode d))
      (respond (e_HeaderBuilder e) p d).

Lemma record_exec e allow st tr x :
  exec (record_decision (e_Metrics e) allow st) tr x ↔ tr = recorded e allow st.
Proof.
  destruct x. unfold record_decision, recorded. destruct (e_Metrics e).
  - split; [by intros ([] & ? & -> & [-> _])|]. intros ->. by exists tt, [].
  - split; [by intros [-> _]|]. by intros ->.
Qed.

Lemma respond_unavailable hb p : respond hb p unavailable = denied 503 "" "".
Proof.
  assert (Hm : merge_obligations ∅ ∅ = ∅).
  { unfold merge_obligations. assert (range (∅ : gmap string any) = []) as -> by
      (apply Permutation_nil_r; by rewrite range_perm, map_to_list_empty). done. }
  unfold respond, denied, unavailable. cbn [d_Allow d_StatusCode d_Headers d_Reason d_Obligations].
  rewrite Hm. by destruct p.
Qed.

(** What an admitted request is answered. *)
Local Notation authorize e req p :=
  (d <- decide_request e req p ;;
   match d with
   | inl resp => Ret resp
   | inr d => let resp := respond (e_HeaderBuilder e) p (default unavailable d) in
              record_decision (e_Metrics e) (Allow resp) (StatusCode resp) ;;; Ret resp
   end).

Lemma authorize_outcomes (e : DefaultEngine E) req p tr r :
  exec (authorize e req p) tr r →
  undecided e req p tr r ∨
  ∃ d dtr, decided e req p d dtr ∧ tr = dtr ++ recorded e (d_Allow d) (d_StatusCode d) ∧
    r = respond (e_HeaderBuilder e) p d.
Proof.
  unfold decide_request.
  intros (dd & t1 & t2 & -> & Hd & Hx)%exec_bind.
  apply exec_bind in Hd as (rp & t3 & t4 & -> & Hr%run_plugins_exec & Hd).
  destruct rp as [[d|]|m].
  + destruct Hd as [-> <-]. destruct Hr as (pre & h & post & Hl & ->). right. cbv zeta in Hx.
    apply exec_bind in Hx as ([] & t5 & t6 & -> & ->%record_exec & [-> <-]).
    exists d, (passed pre req p ++ [Ev (h req p) (Ok (Some d))]). rewrite !app_nil_r.
    split; [by econstructor|done].
  + destruct Hd as (re & t5 & -> & [-> <-]). subst t3. destruct re as [[d|]|m].
    * right. cbv zeta in Hx. apply exec_bind in Hx as ([] & t5 & t6 & -> & ->%record_exec & [-> <-]).
      eexists d, _. rewrite !app_nil_r. split; [apply by_policy|done].
    * left. cbv zeta in Hx. cbn [default from_option] in Hx. rewrite respond_unavailable in Hx.
      apply exec_bind in Hx as ([] & t5 & t6 & -> & ->%record_exec & [-> <-]).
      rewrite app_nil_r, <-app_assoc. apply policy_silent.
    * left. destruct Hx as [-> <-]. rewrite app_nil_r. apply policy_error.
  + destruct Hd as [-> <-], Hx as [-> <-], Hr as (pre & h & post & Hl & ->). left.
    rewrite !app_nil_r. by eapply plugin_error.
Qed.

Lemma run_plugins_then (e : DefaultEngine E) req p t rp f t2 x :
  exec (run_plugins (e_Plugins e) req p) t rp → exec (f rp) t2 x →
  exec (pbind (run_plugins (e_Plugins e) req p) f) (t ++ t2) (x : Response + option Decision).
Proof. intros Hr Hf. apply exec_bind. eauto 10. Qed.

Lemma authorize_complete (e : DefaultEngine E) req p tr r :
  undecided e req p tr r ∨
  (∃ d dtr, decided e req p d dtr ∧ tr = dtr ++ recorded e (d_Allow d) (d_StatusCode d) ∧
     r = respond (e_HeaderBuilder e) p d) →
  exec (authorize e req p) tr r.
Proof.
  unfold decide_request.
  intros [[pre h post m Hl|m|]|(d & dtr & Hd & -> & ->)]; apply exec_bind.
  + eexists (inl _), _, []. rewrite app_nil_r. split; [done|]. split; [|done].
    rewrite <-(app_nil_r (_ ++ _)). eapply (run_plugins_then _ _ _ _ (Err m)); [apply run_plugins_exec; eauto|done].
  + eexists (inl _), _, []. rewrite app_nil_r. split; [done|]. split; [|done].
    eapply (run_plugins_then _ _ _ _ (Ok None)); [by apply run_plugins_exec|]. by eexists _, _.
  + exists (inr None), (passed (e_Plugins e) req p ++ [Ev (e_Evaluate e (policy_input req p)) (Ok None)]), (recorded e false 503).
    split; [by rewrite <-app_assoc|]. split.
    * eapply (run_plugins_then _ _ _ _ (Ok None)); [by apply run_plugins_exec|]. by eexists _, _.
    * cbv zeta. cbn [default from_option]. rewrite respond_unavailable. apply exec_bind.
      exists tt, (recorded e false 503), []. rewrite app_nil_r. split; [done|]. split; [by apply record_exec|done].
  + exists (inr (Some d)), dtr, (recorded e (d_Allow d) (d_StatusCode d)). split; [done|]. split.
    * destruct Hd as [pre h post Hl|].
      -- rewrite <-(app_nil_r (_ ++ _)).
         eapply (run_plugins_then _ _ _ _ (Ok (Some d))); [apply run_plugins_exec; eauto|done].
      -- eapply (run_plugins_then _ _ _ _ (Ok None)); [by apply run_plugins_exec|]. by eexists _, _.
    * cbv zeta. apply exec_bind. exists tt, (recorded e (d_Allow d) (d_StatusCode d)), [].
      rewrite app_nil_r. split; [done|]. split; [by apply record_exec|done].
Qed.

(** [Handle], outcome by outcome. *)
Lemma handle_exec e req tr r :
  exec (Handle e req) tr r ↔ failed e req tr r ∨ turned_away e req tr r ∨ ruled e req tr r.
Proof.
  unfold Handle. split.
  - intros (rp & t & -> & Hx). cbn [pbind call] in Hx. destruct rp as [p|m].
    + assert (Hadm : admitted e p → exec (authorize e req p) t r →
        failed e req (Ev (e_Resolve e req) (Ok p) :: t) r ∨ ruled e req (Ev (e_Resolve e req) (Ok p) :: t) r).
      { intros Hp [Hu|(d & dtr & Hd & -> & ->)]%authorize_outcomes; [left|right]; by constructor. }
      destruct p as [p|]; [destruct Hadm; [by left|exact Hx|auto..]|].
      destruct (e_RequireAuth e) eqn:Er; [|destruct Hadm; [by right|exact Hx|auto..]].
      right. left. destruct (String.eqb_spec (e_UnauthenticatedMode e) "html_redirect") as [Em|Em];
        [destruct (String.eqb_spec (e_LoginRedirectURL e) "") as [Eu|Eu]|]; cbn [andb negb] in Hx.
      * destruct Hx as [-> <-]. by apply unauthorized; auto.
      * apply exec_bind in Hx as ([] & t1 & t2 & -> & ->%record_exec & [-> <-]).
        rewrite app_nil_r. by apply sent_to_login.
      * destruct Hx as [-> <-]. by apply unauthorized; auto.
    + destruct Hx as [-> <-]. left. apply resolver_failed.
  - assert (Hadm : ∀ p t r, admitted e p → exec (authorize e req p) t r →
      exec (Handle e req) (Ev (e_Resolve e req) (Ok p) :: t) r).
    { clear tr r. intros p t r Hp Hx. exists (Ok p), t. split; [done|]. cbn [pbind call].
      destruct p as [p|]; [done|]. destruct Hp as [|Hp]; [done|]. by rewrite Hp. }
    intros [[m|p t r' Hp Hu]|[[Er Em Hu|Er Hm]|[p d dtr Hp Hd]]].
    + by eexists _, [].
    + apply Hadm; [done|]. apply authorize_complete. by left.
    + exists (Ok None), (recorded e false 302). split; [done|]. cbn [pbind call].
      rewrite Er, Em, (proj2 (String.eqb_neq _ _) Hu). cbn [String.eqb andb negb]. apply exec_bind.
      exists tt, (recorded e false 302), []. rewrite app_nil_r. split; [done|]. split; [by apply record_exec|done].
    + exists (Ok None), []. split; [done|]. cbn [pbind call]. rewrite Er.
      destruct (String.eqb_spec (e_UnauthenticatedMode e) "html_redirect"); [|done].
      destruct (String.eqb_spec (e_LoginRedirectURL e) ""); [done|]. by destruct Hm.
    + apply Hadm; [done|]. apply authorize_complete. right. eauto 10.
Qed.

Lemma failed_denies e req tr r : failed e req tr r → Allow r = false ∧ UpstreamHeaders r = ∅ ∧ rp_RedirectTo r = "".
Proof. by intros [m|p t x _ []]. Qed.
Lemma turned_away_denies e req tr r : turned_away e req tr r → Allow r = false ∧ UpstreamHeaders r = ∅.
Proof. by intros []. Qed.

Lemma handle_allows e req tr r :
  (exec (Handle e req) tr r ∧ Allow r = true) ↔
  ∃ p d dtr,
    (p ≠ None ∨ e_RequireAuth e = false) ∧ decided e req p d dtr ∧ d_Allow d = true ∧
    r = respond (e_HeaderBuilder e) p d ∧
    tr = Ev (e_Resolve e req) (Ok p) :: dtr ++
         (if e_Metrics e then [Ev (AuthDecision true (d_StatusCode d)) tt] else []).
Proof.
  rewrite handle_exec. split.
  - intros [[Hf|[Ht|[p d dtr Hp Hd]]] Ha].
    + apply failed_denies in Hf as [Hf _]. congruence.
    + apply turned_away_denies in Ht as [Ht _]. congruence.
    + cbn [respond Allow] in Ha. exists p, d, dtr. unfold recorded. by rewrite Ha.
  - intros (p & d & dtr & Hp & Hd & Ha & -> & ->). split; [|done]. right. right.
    replace (if e_Metrics e then _ else _) with (recorded e (d_Allow d) (d_StatusCode d))
      by (unfold recorded; by rewrite Ha). by constructor.
Qed.

Lemma handle_allowed e req tr r :
  exec (Handle e req) tr r → Allow r = true →
  ∃ p d dtr, decided e req p d dtr ∧ d_Allow d = true ∧ r = respond (e_HeaderBuilder e) p d.
Proof.
  intros Hx Ha. destruct (proj1 (handle_allows e req tr r) (conj Hx Ha))
    as (p & d & dtr & _ & Hd & Had & Hr & _). by exists p, d, dtr.
Qed.

Lemma handle_cases e req tr r :
  exec (Handle e req) tr r →
  (∃ st rd, r = denied st "" rd) ∨ (∃ st m, r = denied st (error_body (escape m)) "") ∨
  ∃ p d, r = respond (e_HeaderBuilder e) p d.
Proof.
  rewrite handle_exec. intros [[m|p t x _ [pre h post m _|m|]]|[[]|[p d]]]; eauto.
  - right. left. by exists 502, "auth resolution failed".
  - right. left. by exists 503, "pipeline plugin error".
  - right. left. by exists 500, "policy error".
  - right. left. by exists 401, "unauthorized".
Qed.

(** C18: the engine fails closed.  [Handle] answers a response that allows the
    request exactly when: the resolver answered (an error denies), with a
    principal unless the route does without; every plugin asked had no opinion
    or the last one decided, and otherwise the policy decided; that decision
    allows; the response is that decision's, and the metrics (when on) recorded
    it.  And its executions are exactly these: a collaborator failed (the
    resolver with 502, a plugin with 503, the policy with 500, or the policy
    had no decision, 503) right after the calls up to it, nothing asked of
    anyone afterwards; nobody was signed in where somebody must be (the
    login redirect, or 401), and neither a plugin nor the policy was asked; or
    a decision was made, recorded and answered.  In the first two the request
    is denied without any upstream header. *)
Theorem engine_allows e req tr r :
  ((exec (Handle e req) tr r ∧ Allow r = true) ↔
   ∃ p d dtr,
     (p ≠ None ∨ e_RequireAuth e = false) ∧ decided e req p d dtr ∧ d_Allow d = true ∧
     r = respond (e_HeaderBuilder e) p d ∧
     tr = Ev (e_Resolve e req) (Ok p) :: dtr ++
          (if e_Metrics e then [Ev (AuthDecision true (d_StatusCode d)) tt] else [])) ∧
  (exec (Handle e req) tr r ↔ failed e req tr r ∨ turned_away e req tr r ∨ ruled e req tr r) ∧
  (failed e req tr r → Allow r = false ∧ UpstreamHeaders r = ∅ ∧ rp_RedirectTo r = "") ∧
  (turned_away e req tr r → Allow r = false ∧ UpstreamHeaders r = ∅).
Proof.
  split; [apply handle_allows|]. split; [apply handle_exec|].
  split; [apply failed_denies|apply turned_away_denies].
Qed.

(** ** Headers *)
Lemma strip_crlf_clean s :
  no_byte (of_byte 13) (strip_crlf s) ∧ no_byte (of_byte 10) (strip_crlf s).
Proof.
  unfold strip_crlf. split; apply Map_no_byte; try done; intros r;
    rewrite byte_of_of by lia; destruct ((r =? 13) || (r =? 10)) eqn:Er; try lia;
    apply orb_false_iff in Er as [E1 E2]; lia.
Qed.

Definition clean (s : string) : Prop := no_byte (of_byte 13) s ∧ no_byte (of_byte 10) s.

(** A header set by an obligation of the policy. *)
Definition from_obligation (o : gmap string any) (k v : string) : Prop :=
  ∃ name s, o !! name = Some (AStr s) ∧ obligation_header (name, AStr s) = Some (k, v).

Lemma obligation_clean o k v : from_obligation o k v → clean k ∧ clean v.
Proof.
  intros (name & s & _ & Ho). unfold obligation_header in Ho. simpl in Ho.
  destruct (HasPrefix name "set_header_"); [|done]. injection Ho as <- <-.
  split; apply strip_crlf_clean.
Qed.

Lemma merge_obligations_lookup o h k v :
  merge_obligations o h !! k = Some v → from_obligation o k v ∨ h !! k = Some v.
Proof.
  unfold merge_obligations.
  assert (Hin : ∀ n x, (n, x) ∈ range o → o !! n = Some x).
  { intros n x. rewrite range_perm. apply elem_of_map_to_list. }
  revert Hin. generalize (range o). intros l Hin.
  induction l as [|[n x] l IH] using rev_ind; simpl; [by right|].
  rewrite foldl_app. simpl.
  destruct (obligation_header (n, x)) as [[k' v']|] eqn:Eo.
  - destruct (decide (k' = k)) as [->|Hne].
    + rewrite lookup_insert_eq. intros [= ->]. left.
      pose proof (Hin n x ltac:(set_solver)) as Ho. unfold obligation_header in Eo. simpl in Eo.
      destruct x; try done. exists n, s. split; [done|]. done.
    + rewrite lookup_insert_ne by done. apply IH. intros. apply Hin. set_solver.
  - apply IH. intros. apply Hin. set_solver.
Qed.

(** The headers of an allowed request.  The headers the builder derives
    from the principal are all there, whatever the decision's headers and
    obligations say; every other header is one the decision lists, or comes
    from a [set_header_] obligation, and then neither its name nor its value
    holds a carriage return or a newline. *)
Theorem upstream_headers_of e req tr r (Hx : exec (Handle e req) tr r) (Ha : Allow r = true) :
  ∃ p d dtr, decided e req p d dtr ∧
    (∀ who, p = Some who →
       default defaultHeaderBuilder (e_HeaderBuilder e) who (d_Obligations d) ⊆ UpstreamHeaders r) ∧
    (∀ k v, UpstreamHeaders r !! k = Some v →
       (∃ who, p = Some who ∧
          default defaultHeaderBuilder (e_HeaderBuilder e) who (d_Obligations d) !! k = Some v) ∨
       d_Headers d !! k = Some v ∨
       (from_obligation (d_Obligations d) k v ∧ clean k ∧ clean v)).
Proof.
  apply handle_allowed in Hx as (p & d & dtr & Hd & Had & ->); [|done].
  exists p, d, dtr. split; [done|]. unfold respond. simpl. rewrite Had. split.
  - intros who ->. apply map_union_subseteq_l.
  - intros k v Hk.
    assert (Hm : merge_obligations (d_Obligations d) (d_Headers d) !! k = Some v →
      d_Headers d !! k = Some v ∨ (from_obligation (d_Obligations d) k v ∧ clean k ∧ clean v)).
    { intros [Ho|Hh]%merge_obligations_lookup; [right|by left].
      split; [done|]. by apply (obligation_clean (d_Obligations d)). }
    destruct p as [who|]; [|by right; apply Hm].
    apply lookup_union_Some_raw in Hk as [Hk|[_ Hk]]; [left; eauto|right; by apply Hm].
Qed.

(** ** Deny bodies *)
Definition error_json (msg : string) : json :=
  JObj [("errors", JArr [JObj [("message", JStr msg)]])].

Lemma error_body_print msg : error_body (escape msg) = print (error_json msg).
Proof.
  unfold error_body, error_json. cbn [print]. unfold print_string. generalize (escape msg). intros x.
  change (dq "'}]}") with (str dquote +:+ "}]}"). rewrite <-(app_assoc_str x).
  generalize (x +:+ str dquote). intros y. rewrite !app_assoc_str. reflexivity.
Qed.

Lemma error_json_ok msg : utf8_str msg → json_ok (error_json msg).
Proof.
  intros Hm. obj_ok. split_and!; [repeat constructor|done..].
Qed.

(** Every body the engine writes is JSON.  The body of a response is empty
    or the document [{errors: [{message: m}]}] of some message [m], which is
    the decision's reason or one of the fixed ones; for a UTF-8 message a
    client parses it back to exactly that document, so a reason chosen by a
    policy cannot break out of it. *)
Theorem deny_body_json e req tr r (Hx : exec (Handle e req) tr r) :
  rp_Body r = "" ∨
  ∃ m, rp_Body r = print (error_json m) ∧
       (utf8_str m → parse (rp_Body r) = Some (error_json m)).
Proof.
  assert (Hm : ∀ m, rp_Body r = print (error_json m) → rp_Body r = "" ∨
    ∃ m, rp_Body r = print (error_json m) ∧
         (utf8_str m → parse (rp_Body r) = Some (error_json m))).
  { intros m Hb. right. exists m. split; [done|]. intros Hm. rewrite Hb. apply parse_print.
    apply error_json_ok; done. }
  assert (Hr : ∀ p d, r = respond (e_HeaderBuilder e) p d → rp_Body r = "" ∨
    ∃ m, rp_Body r = print (error_json m) ∧
         (utf8_str m → parse (rp_Body r) = Some (error_json m))).
  { intros p d ->. unfold respond in *. simpl in *. destruct (_ && _); [|by left].
    apply (Hm (d_Reason d)). apply error_body_print. }
  apply handle_cases in Hx as [(st & rd & ->)|[(st & m & ->)|(p & d & ->)]].
  - by left.
  - apply (Hm m). simpl. apply error_body_print.
  - by eapply Hr.
Qed.
End facts.

(** ** Witnesses: an engine over fixed answers *)
Inductive proxyE : Type → Type :=
| P_Resolve (r : Request) : proxyE (res (option Principal))
| P_Evaluate (i : Input) : proxyE (res (option Decision))
| P_AuthDecision (allow : bool) (status : Z) : proxyE unit.
#[local] Instance proxy_metrics : ProxyMetricsE proxyE := P_AuthDecision.
#[local] Existing Instance sorted_range.

Definition px_engine : DefaultEngine proxyE :=
  {| e_Resolve := P_Resolve; e_Evaluate := P_Evaluate; e_Plugins := [None]; e_RequireAuth := true;
     e_HeaderBuilder := None; e_UnauthenticatedMode := "api_401"; e_LoginRedirectURL := "";
     e_Metrics := true |}.
Definition px_request : Request :=
  {| Protocol := "http"; Method := "GET"; rq_Path := "/api"; Headers := ∅; Cookies := ∅; Body := "";
     GraphQLOperation := ""; GraphQLOperationType := ""; GRPCService := ""; GRPCMethod := "";
     RemoteAddr := "10.0.0.1:999" |}.
Definition px_principal : Principal := principal_of {[ "sub" := AStr "u1" ]}.
Definition px_decision (allow : bool) : Decision :=
  {| d_Allow := allow; d_StatusCode := 200; d_Headers := {[ "X-User-Id" := "forged" ]};
     d_Reason := "no"; d_Obligations := {[ "set_header_X_Team" := AStr "core" ]} |}.
Definition px_handler (allow : bool) : handler proxyE unit := λ X e,
  match e in proxyE X return unit → X * unit with
  | P_Resolve _ => λ s, (Ok (Some px_principal), s)
  | P_Evaluate _ => λ s, (Ok (Some (px_decision allow)), s)
  | P_AuthDecision _ _ => λ s, (tt, s)
  end.

Lemma upstream_headers_of_witness :
  ∃ r tr, exec (Handle px_engine px_request) tr r ∧ Allow r = true ∧
    UpstreamHeaders r !! "X-User-Id" = Some "u1" ∧ ∃ p d dtr, decided px_engine px_request p d dtr.
Proof.
  pose proof (run_exec (px_handler true) (Handle px_engine px_request) tt) as Hx.
  eexists _, _. split; [exact Hx|]. split; [vm_compute; reflexivity|].
  split; [vm_compute; reflexivity|].
  destruct (upstream_headers_of px_engine px_request _ _ Hx ltac:(vm_compute; reflexivity))
    as (p & d & dtr & Hd & _). exists p, d, dtr. exact Hd.
Defined.

Lemma deny_body_json_witness :
  ∃ r tr, exec (Handle px_engine px_request) tr r ∧ rp_Body r ≠ "" ∧
    ∃ m, rp_Body r = print (error_json m).
Proof.
  pose proof (run_exec (px_handler false) (Handle px_engine px_request) tt) as Hx.
  eexists _, _. split; [exact Hx|]. split; [vm_compute; discriminate|].
  destruct (deny_body_json px_engine px_request _ _ Hx) as [E|(m & Hm & _)].
  - vm_compute in E. discriminate E.
  - exists m. exact Hm.
Defined.
