(* ===== verification/AuthzHttp.v ===== *)
(** * HTTP requests and upstreams (internal/authz: normalize.go, http.go, middleware.go)

    From an HTTP request to the engine's request, and from the engine's answer
    to the deny response or the request forwarded upstream.  An [http_request]
    is what net/http hands over: header keys are in canonical form, the cookies
    are parsed.  Name resolution and the reverse proxy's transport are external
    calls. *)

From S2P Require Import Prelude.
From S2P Require Import GoStrings.
From S2P Require Import Effects.
From S2P Require Import GoAny.
From S2P Require Import Json.
From S2P Require Import GoUrl.
From S2P Require Import GoNet.
From S2P Require Import Token.
From S2P Require Import Graphql.
From S2P Require Import Authz.

Record http_request := {
  hr_Method : string; hr_TLS : bool; hr_Host : string; hr_Path : string; hr_RawQuery : string;
  hr_Header : gmap string (list string); hr_Cookies : list (string * string); hr_Body : string;
  hr_RemoteAddr : string }.

Class LookupE (E : Type → Type) := LookupHost : string → E (res (list string)).

(** ** Header keys (net/textproto) *)
Definition token_byte (c : ascii) : bool :=
  let z := byte_of c in
  ((48 <=? z) && (z <=? 57)) || ((65 <=? z) && (z <=? 90)) || ((97 <=? z) && (z <=? 122))
  || byte_in [33; 35; 36; 37; 38; 39; 42; 43; 45; 46; 94; 95; 96; 124; 126] z.
Fixpoint canon_bytes (upper : bool) (s : string) : string :=
  match s with
  | "" => ""
  | String c r =>
      let z := byte_of c in
      let z' := if upper && (97 <=? z) && (z <=? 122) then z - 32
                else if negb upper && (65 <=? z) && (z <=? 90) then z + 32 else z in
      String (of_byte z') (canon_bytes (z' =? 45) r)
  end.
Definition CanonicalHeaderKey (s : string) : string :=
  if forallb token_byte (String.list_ascii_of_string s) then canon_bytes true s else s.
Definition header_set (h : gmap string (list string)) (k v : string) : gmap string (list string) :=
  <[CanonicalHeaderKey k := [v]]> h.

Example Canonical_ex : CanonicalHeaderKey "x-user-ID" = "X-User-Id".
Proof. vm_compute. reflexivity. Qed.

(** ** Normalisation *)
Section normalize.
Context `{UnicodeDigit} `{Unicode}.

Definition operation_name_field (body : string) : string :=
  match parse body with
  | Some (JObj m) => fst (dec_string (bound ["operationName"] "operationName" m))
  | _ => ""
  end.

(** The service and method of a gRPC path. *)
Definition grpc_path (p : string) : option (string * string) :=
  if String.eqb p "" then None else cut_last "/" (TrimPrefix p "/").

Definition NormalizeRequest (protocol method path : string) (headers cookies : gmap string string)
    (body : string) : Request :=
  let header k := default "" (headers !! k) in
  let op := header "X-Apollo-Operation-Name" in
  let op := if String.eqb op "" && negb (String.eqb body "") then operation_name_field body else op in
  let '(op, opType) :=
    if String.eqb op "" && negb (String.eqb body "") then ExtractOperation body else (op, "") in
  let svc := header "X-Grpc-Service" in
  let meth := header "X-Grpc-Method" in
  let '(svc, meth) :=
    if String.eqb svc "" && String.eqb meth ""
    then default (svc, meth) (grpc_path (header ":path")) else (svc, meth) in
  {| Protocol := protocol; Method := method; rq_Path := path; Headers := headers;
     Cookies := cookies; Body := body; GraphQLOperation := op; GraphQLOperationType := opType;
     GRPCService := svc; GRPCMethod := meth; RemoteAddr := "" |}.

Definition maxBodyBytes : Z := 32 * 1024 * 1024.
(** Reading through [http.MaxBytesReader], the error ignored: what is beyond
    the limit is cut off. *)
Definition read_body (body : string) : string :=
  if len body <=? maxBodyBytes then body else take_bytes (Z.to_nat maxBodyBytes) body.

Definition RequestFromHTTP (r : http_request) : Request :=
  let headers := omap (M := gmap string) (@head string) (hr_Header r) in
  let cookies := foldl (λ m c, <[c.1 := c.2]> m) ∅ (hr_Cookies r) in
  let path := if String.eqb (hr_RawQuery r) "" then hr_Path r
              else hr_Path r +:+ "?" +:+ hr_RawQuery r in
  let q := NormalizeRequest (if hr_TLS r then "https" else "http") (hr_Method r) path headers
             cookies (read_body (hr_Body r)) in
  {| Protocol := Protocol q; Method := Method q; rq_Path := rq_Path q; Headers := Headers q;
     Cookies := Cookies q; Body := Body q; GraphQLOperation := GraphQLOperation q;
     GraphQLOperationType := GraphQLOperationType q; GRPCService := GRPCService q;
     GRPCMethod := GRPCMethod q; RemoteAddr := hr_RemoteAddr r |}.

(** [adapter.NormalizeHTTPRequest] of internal/graphql. *)
Definition NormalizeHTTPRequest (r : http_request) : Request :=
  let q := RequestFromHTTP r in
  let '(name, opType) := ExtractOperation (Body q) in
  {| Protocol := Protocol q; Method := Method q; rq_Path := rq_Path q; Headers := Headers q;
     Cookies := Cookies q; Body := Body q;
     GraphQLOperation := if String.eqb (GraphQLOperation q) "" then name else GraphQLOperation q;
     GraphQLOperationType :=
       if String.eqb (GraphQLOperationType q) "" then opType else GraphQLOperationType q;
     GRPCService := GRPCService q; GRPCMethod := GRPCMethod q; RemoteAddr := RemoteAddr q |}.
End normalize.

(** ** Upstreams *)
Definition singleJoiningSlash (a b : string) : string :=
  let a := TrimSuffix a "/" in
  let b := TrimPrefix b "/" in
  if String.eqb a "" then "/" +:+ b
  else if String.eqb b "" then a
  else a +:+ "/" +:+ b.

Definition reservedIdentityHeaders : list string :=
  ["authorization"; "x-user-id"; "x-roles"; "x-user-email"; "x-user-full-name";
   "x-user-preferred-username"; "x-is-admin"; "x-tenant-id"].

Section upstream.
Context `{Unicode} {E : Type → Type} `{!LookupE E}.

(** The addresses an upstream host resolves to; a bare address needs no
    resolver. *)
Definition resolve_host (hostname : string) : prog E (res (list string)) :=
  ips <- call (LookupHost hostname) ;;
  Ret match ips with
      | Ok ips => Ok ips
      | Err e => match ParseIP hostname with
                 | Some ip => Ok [IP_String ip]
                 | None => Err e
                 end
      end.

(** The first address of the list inside a blocked range. *)
Definition first_blocked (blocked : list IPNet) (ips : list string) : option (list Z) :=
  List.find (λ ip, existsb (λ n, Contains_ip n ip) blocked) (omap ParseIP ips).

Definition validateUpstreamURL (u : URL) : prog E (option string) :=
  if negb (String.eqb (Scheme u) "http") && negb (String.eqb (Scheme u) "https") then
    Ret (Some ("proxy: upstream scheme " +:+ Quote (Scheme u) +:+ " not allowed (must be http or https)"))
  else
    let hostname := Hostname u in
    if String.eqb hostname "" then Ret (Some "proxy: upstream URL has no host")
    else
      ips <- resolve_host hostname ;;
      Ret match ips with
          | Err e => Some ("proxy: upstream host " +:+ Quote hostname +:+ " could not be resolved: " +:+ e)
          | Ok ips =>
              match first_blocked blockedCIDRs ips with
              | Some ip => Some ("proxy: upstream host " +:+ Quote hostname
                                 +:+ " resolves to blocked address " +:+ IP_String ip)
              | None => None
              end
          end.
End upstream.

(** The request handed to the reverse proxy of the upstream [fw_target]. *)
Record forwarded := {
  fw_target : URL; fw_Method : string; fw_URL : URL; fw_Host : string;
  fw_Header : gmap string (list string); fw_Body : string }.

(** ** The reverse proxy (net/http/httputil)

    What [NewSingleHostReverseProxy(target).ServeHTTP] does with the request it
    is handed: the URL is joined onto the target's once more, hop-by-hop headers
    and the headers the Connection header names are removed, an upgrade is put
    back. The request has no remote address, so no X-Forwarded-For is added. *)
Definition trim_of (ps : list string) (s : string) : string :=
  rev_string (trim_left ps (rev_string (trim_left ps s))).
Definition trim_blank : string → string := trim_of [" "; str (of_byte 9); str (of_byte 10); str (of_byte 13)].
Definition header_values (h : gmap string (list string)) (k : string) : list string := default [] (h !! k).
Definition first_value (h : gmap string (list string)) (k : string) : string :=
  default "" (head (header_values h k)).

(** [httpguts.HeaderValuesContainsToken], for tokens in ASCII. *)
Definition contains_token (values : list string) (token : string) : bool :=
  existsb (λ v, existsb (λ x, String.eqb (map_bytes lower_byte (trim_of [" "; str (of_byte 9)] x)) (map_bytes lower_byte token))
                        (Split v ",")) values.
Definition ascii_printable (s : string) : bool :=
  forallb (λ z, (32 <=? z) && (z <=? 126)) (bytes_of s).

Definition upgradeType (h : gmap string (list string)) : string :=
  if contains_token (header_values h "Connection") "Upgrade" then first_value h "Upgrade" else "".

Definition hopHeaders : list string :=
  ["Connection"; "Proxy-Connection"; "Keep-Alive"; "Proxy-Authenticate"; "Proxy-Authorization"; "Te"; "Trailer";
   "Transfer-Encoding"; "Upgrade"].
(** The header names the values of the Connection header list. *)
Definition connection_names (h : gmap string (list string)) : list string :=
  List.filter (λ n, negb (String.eqb n ""))
    (flat_map (λ v, List.map trim_blank (Split v ",")) (header_values h "Connection")).
Definition removeHopByHopHeaders (h : gmap string (list string)) : gmap string (list string) :=
  foldl (λ m n, delete (CanonicalHeaderKey n) m) h (connection_names h ++ hopHeaders).

Definition proxied_header (h : gmap string (list string)) : gmap string (list string) :=
  let up := upgradeType h in
  let out := removeHopByHopHeaders h in
  let out := if contains_token (header_values h "Te") "trailers" then <["Te" := ["trailers"]]> out else out in
  let out := if String.eqb up "" then out
             else <["Upgrade" := [up]]> (<["Connection" := ["Upgrade"]]> out) in
  match out !! "User-Agent" with Some _ => out | None => <["User-Agent" := [""]]> out end.

Definition joinURLPath (a b : URL) : string * string :=
  let join aslash bslash x y :=
    if (aslash : bool) && bslash then x +:+ drop_bytes 1 y
    else if negb aslash && negb bslash then x +:+ "/" +:+ y else x +:+ y in
  if String.eqb (RawPath a) "" && String.eqb (RawPath b) "" then
    (join (HasSuffix (Path a) "/") (HasPrefix (Path b) "/") (Path a) (Path b), "")
  else
    let ap := EscapedPath a in
    let bp := EscapedPath b in
    let aslash := HasSuffix ap "/" in
    let bslash := HasPrefix bp "/" in
    (join aslash bslash (Path a) (Path b), join aslash bslash ap bp).

Definition rewriteRequestURL (u target : URL) : URL :=
  let '(path, raw) := joinURLPath target u in
  {| Scheme := Scheme target; Opaque := Opaque u; User := User u; Host := Host target; Path := path;
     RawPath := raw; ForceQuery := ForceQuery u;
     RawQuery := if String.eqb (RawQuery target) "" || String.eqb (RawQuery u) ""
                 then RawQuery target +:+ RawQuery u else RawQuery target +:+ "&" +:+ RawQuery u;
     Fragment := Fragment u |}.

(** The request sent to the upstream; [None] when the client asks to switch to
    an unprintable protocol, which is answered with a 502. *)
Definition reverse_proxy (f : forwarded) : option forwarded :=
  if negb (ascii_printable (upgradeType (fw_Header f))) then None
  else Some {| fw_target := fw_target f; fw_Method := fw_Method f;
               fw_URL := rewriteRequestURL (fw_URL f) (fw_target f); fw_Host := fw_Host f;
               fw_Header := proxied_header (fw_Header f); fw_Body := fw_Body f |}.

Class ForwardE (E : Type → Type) := Forward : forwarded → E unit.
(** What is written to the client: status, headers in order, body. *)
Class WriteE (E : Type → Type) := WriteHTTP : Z → list (string * string) → string → E unit.

Section proxy.
Context `{UnicodeDigit} `{Unicode} `{MapRange} {E : Type → Type}.
Context `{!ProxyMetricsE E} `{!ForwardE E} `{!WriteE E}.

Definition client_header (kv : string * list string) : bool :=
  negb (EqualFold kv.1 "Cookie") && negb (existsb (String.eqb (ToLower kv.1)) reservedIdentityHeaders).

(** The headers of the outgoing request: the client's, less its cookies and
    the identity headers, and then the engine's. *)
Definition out_header (r : http_request) (up : gmap string string) : gmap string (list string) :=
  foldl (λ h kv, header_set h kv.1 kv.2)
    (filter (λ kv, client_header kv = true) (hr_Header r)) (range up).

(** The URL of the outgoing request. *)
Definition outgoing_url (upstream : URL) (r : http_request) : string :=
  let path := singleJoiningSlash (Path upstream) (hr_Path r) in
  let path := if negb (String.eqb path "") && negb (HasPrefix path "/") then "/" +:+ path else path in
  let path := if String.eqb (hr_RawQuery r) "" then path else path +:+ "?" +:+ hr_RawQuery r in
  Scheme upstream +:+ "://" +:+ Host upstream +:+ path.

Definition ProxyToUpstream (r : http_request) (upstreamURL : string) (up : gmap string string)
    (body : string) : prog E (option string) :=
  match Parse upstreamURL with
  | Err e => Ret (Some e)
  | Ok upstream =>
      if negb (String.eqb (Scheme upstream) "http") && negb (String.eqb (Scheme upstream) "https") then
        Ret (Some ("proxy: upstream scheme " +:+ Quote (Scheme upstream)
                   +:+ " not allowed (must be http or https)"))
      else
        match Parse (outgoing_url upstream r) with
        | Err e => Ret (Some e)
        | Ok u =>
            call (Forward {| fw_target := upstream; fw_Method := hr_Method r; fw_URL := u;
                             fw_Host := Host upstream; fw_Header := out_header r up;
                             fw_Body := body |}) ;;;
            Ret None
        end
  end.

(** [WriteResponse]: a zero status is 200; the engine sets no cookies. *)
Definition WriteResponse (resp : Response) : prog E unit :=
  call (WriteHTTP (if StatusCode resp =? 0 then 200 else StatusCode resp)
          (if String.eqb (rp_Body resp) "" then [] else [("Content-Type", "application/json")])
          (rp_Body resp)).

Definition Middleware (e : DefaultEngine E) (upstreamURL : string) (r : http_request) : prog E unit :=
  let req := RequestFromHTTP r in
  resp <- Handle e req ;;
  if Allow resp && negb (String.eqb upstreamURL "") then
    ProxyToUpstream r upstreamURL (UpstreamHeaders resp) (Body req) ;;;
    Ret tt
  else WriteResponse resp.

(** ** What reaches the upstream *)
Lemma RequestFromHTTP_body r : Body (RequestFromHTTP r) = read_body (hr_Body r).
Proof. unfold RequestFromHTTP, NormalizeRequest. by repeat case_match. Qed.

Lemma foldl_header_set l h k v :
  foldl (λ h kv, header_set h kv.1 kv.2) h l !! k = Some v →
  (∃ n x, (n, x) ∈ l ∧ CanonicalHeaderKey n = k ∧ v = [x]) ∨ h !! k = Some v.
Proof.
  revert h. induction l as [|[n x] l IH]; intros h; simpl; [by right|].
  intros [(n' & x' & Hin & ? & ?)|Hh]%IH; [left; exists n', x'; set_solver|].
  unfold header_set in Hh. simpl in Hh. destruct (decide (CanonicalHeaderKey n = k)) as [E0|Hne].
  - rewrite E0, lookup_insert_eq in Hh. injection Hh as <-. left. exists n, x. set_solver.
  - rewrite lookup_insert_ne in Hh by done. by right.
Qed.

Lemma foldl_header_set_other l h k :
  (∀ n x, (n, x) ∈ l → CanonicalHeaderKey n ≠ k) →
  foldl (λ h kv, header_set h kv.1 kv.2) h l !! k = h !! k.
Proof.
  revert h. induction l as [|[n x] l IH]; intros h Hl; simpl; [done|].
  rewrite IH by (intros n0 x0 Hin; apply (Hl n0 x0); by right). unfold header_set. simpl.
  apply lookup_insert_ne. apply (Hl n x). left.
Qed.

(** Set by the engine. *)
Definition engine_set (up : gmap string string) (k : string) (v : list string) : Prop :=
  ∃ n x, up !! n = Some x ∧ CanonicalHeaderKey n = k ∧ v = [x].

Lemma out_header_lookup r up k v :
  out_header r up !! k = Some v →
  engine_set up k v ∨ (hr_Header r !! k = Some v ∧ client_header (k, v) = true).
Proof.
  unfold out_header. intros [(n & x & Hin & ? & ?)|Hf]%foldl_header_set.
  - left. exists n, x. by rewrite <-range_elem.
  - right. by apply map_lookup_filter_Some in Hf.
Qed.

Lemma out_header_client r up k v :
  hr_Header r !! k = Some v → client_header (k, v) = true → (∀ w, ¬ engine_set up k w) →
  out_header r up !! k = Some v.
Proof.
  intros Hk Hc Hn. unfold out_header. rewrite foldl_header_set_other.
  - by apply map_lookup_filter_Some.
  - intros n x Hin E0. apply (Hn [x]). exists n, x. by rewrite <-range_elem.
Qed.

Lemma foldl_header_set_some l h k n x :
  (n, x) ∈ l → CanonicalHeaderKey n = k →
  ∃ n' y, (n', y) ∈ l ∧ CanonicalHeaderKey n' = k ∧ foldl (λ h kv, header_set h kv.1 kv.2) h l !! k = Some [y].
Proof.
  intros Hin Hk. induction l as [|[n' y] l IH] using rev_ind; [by apply elem_of_nil in Hin|].
  rewrite foldl_app. simpl. unfold header_set at 1. simpl. setoid_rewrite elem_of_app.
  destruct (decide (CanonicalHeaderKey n' = k)) as [<-|Hne].
  - exists n', y. rewrite lookup_insert_eq. set_solver.
  - apply elem_of_app in Hin as [Hin|Hin%list_elem_of_singleton]; [|congruence].
    destruct (IH Hin) as (m & z & ? & ? & Hz). exists m, z. rewrite lookup_insert_ne by done. auto.
Qed.

(** A header the engine sets in its canonical form, and in no other, is there. *)
Lemma out_header_engine r up k x :
  up !! k = Some x → CanonicalHeaderKey k = k → (∀ n, is_Some (up !! n) → CanonicalHeaderKey n = k → n = k) →
  out_header r up !! k = Some [x].
Proof.
  intros Hx Hk Hn. unfold out_header.
  edestruct (foldl_header_set_some (range up)) as (n & y & Hy & Hc & ->); [by apply range_elem|exact Hk|].
  apply range_elem in Hy. rewrite (Hn n) in Hy by eauto. congruence.
Qed.

(** An identity header or the cookies, in any spelling. *)
Definition identity_headers : list string :=
  ["authorization"; "x-user-id"; "x-roles"; "x-user-email"; "x-user-full-name"; "x-user-preferred-username";
   "x-is-admin"; "x-tenant-id"].
Definition protected_key (k : string) : Prop :=
  ToLower k ∈ identity_headers ∨ EqualFold k "Cookie" = true.

Lemma client_header_not_protected k v : client_header (k, v) = true ↔ ¬ protected_key k.
Proof.
  assert (Hid : identity_headers = reservedIdentityHeaders) by reflexivity.
  unfold client_header, protected_key. rewrite Hid. cbn [fst].
  rewrite andb_true_iff, !negb_true_iff, existsb_false_iff. setoid_rewrite String.eqb_neq.
  split.
  - intros [Hc Hr] [Hin|He]; [by destruct (Hr _ Hin)|congruence].
  - intros Hn. split; [apply not_true_iff_false; tauto|]. intros x Hx E0. apply Hn. left. congruence.
Qed.

(** The headers the reverse proxy removes: the hop-by-hop ones, and those the
    Connection header names. *)
Definition named (h : gmap string (list string)) (k : string) : Prop :=
  ∃ n, n ∈ connection_names h ∧ CanonicalHeaderKey n = k.
Definition hop_by_hop (h : gmap string (list string)) (k : string) : Prop := k ∈ hopHeaders ∨ named h k.
(** The headers it may set itself. *)
Definition proxy_set : list string := ["Te"; "Connection"; "Upgrade"; "User-Agent"].

Lemma foldl_delete_lookup (l : list string) (h : gmap string (list string)) k :
  (k ∈ CanonicalHeaderKey <$> l → foldl (λ m n, delete (CanonicalHeaderKey n) m) h l !! k = None) ∧
  (k ∉ CanonicalHeaderKey <$> l → foldl (λ m n, delete (CanonicalHeaderKey n) m) h l !! k = h !! k).
Proof.
  induction l as [|n l IH] using rev_ind; [by split; [intros Hk%elem_of_nil|]|].
  rewrite foldl_app, fmap_app. cbn [foldl fmap list_fmap].
  destruct (decide (CanonicalHeaderKey n = k)) as [->|Hne].
  - rewrite lookup_delete_eq. set_solver.
  - rewrite lookup_delete_ne by done. set_solver.
Qed.

Lemma removed_lookup h k :
  (hop_by_hop h k → removeHopByHopHeaders h !! k = None) ∧
  (¬ hop_by_hop h k → removeHopByHopHeaders h !! k = h !! k).
Proof.
  assert (Hiff : hop_by_hop h k ↔ k ∈ CanonicalHeaderKey <$> (connection_names h ++ hopHeaders)).
  { rewrite fmap_app, elem_of_app, list_elem_of_fmap. unfold hop_by_hop, named.
    change (CanonicalHeaderKey <$> hopHeaders) with hopHeaders. naive_solver. }
  rewrite !Hiff. apply foldl_delete_lookup.
Qed.

(** What it sends is what it was handed, less what it removes. *)
Lemma proxied_other h k : k ∉ proxy_set → proxied_header h !! k = removeHopByHopHeaders h !! k.
Proof.
  unfold proxy_set, proxied_header. intros Hk.
  assert (k ≠ "Te" ∧ k ≠ "Connection" ∧ k ≠ "Upgrade" ∧ k ≠ "User-Agent") as (? & ? & ? & ?) by set_solver.
  cbv zeta. repeat case_match; rewrite ?lookup_insert_ne by done; done.
Qed.

Lemma proxied_kept h k v : h !! k = Some v → ¬ hop_by_hop h k → proxied_header h !! k = Some v.
Proof.
  intros Hk Hn. pose proof (proj2 (removed_lookup h k) Hn) as Hr. rewrite Hk in Hr.
  assert (k ≠ "Te" ∧ k ≠ "Connection" ∧ k ≠ "Upgrade") as (Hk1 & Hk2 & Hk3).
  { split_and!; intros ->; apply Hn; left; unfold hopHeaders; set_solver. }
  unfold proxied_header. cbv zeta.
  set (out := if String.eqb (upgradeType h) "" then _ else _).
  assert (Ho : out !! k = Some v).
  { unfold out. destruct (String.eqb _ ""), (contains_token _ "trailers"); by rewrite ?lookup_insert_ne. }
  clearbody out. destruct (out !! "User-Agent") eqn:Eu; [done|].
  rewrite lookup_insert_ne; [done|]. intros <-. congruence.
Qed.

Lemma proxied_named h k :
  k ∉ hopHeaders → k ∉ proxy_set →
  (¬ named h k → proxied_header h !! k = h !! k) ∧ (named h k → proxied_header h !! k = None).
Proof.
  intros Hh Hs. rewrite proxied_other by done. destruct (removed_lookup h k) as [Hr1 Hr2].
  split; intros Hn; [apply Hr2; by intros [|]|apply Hr1; by right].
Qed.

Lemma own_keys_open k : k ∈ proxy_set → ¬ protected_key k.
Proof.
  unfold proxy_set. intros Hk.
  assert (Hc : forallb (λ k, client_header (k, [])) proxy_set = true) by (vm_compute; reflexivity).
  apply (client_header_not_protected k []). rewrite forallb_forall in Hc. by apply Hc, list_elem_of_In.
Qed.

(** What the reverse proxy sends of the request [fw] it was handed with the
    engine's headers [up]: the identity headers are still only the engine's; the
    headers it does not remove are all there, and those it removes are not,
    unless it sets them itself; it goes to the target's host, with the same
    method and body. *)
Definition sends (up : gmap string string) (fw sent : forwarded) : Prop :=
  (∀ k v, fw_Header sent !! k = Some v → protected_key k → engine_set up k v) ∧
  (∀ k v, fw_Header fw !! k = Some v → ¬ hop_by_hop (fw_Header fw) k → fw_Header sent !! k = Some v) ∧
  (∀ k, hop_by_hop (fw_Header fw) k → k ∉ proxy_set → fw_Header sent !! k = None) ∧
  Scheme (fw_URL sent) = Scheme (fw_target fw) ∧ Host (fw_URL sent) = Host (fw_target fw) ∧
  fw_Host sent = fw_Host fw ∧ fw_Method sent = fw_Method fw ∧ fw_Body sent = fw_Body fw.

Lemma reverse_proxy_sends up fw sent :
  (∀ k v, fw_Header fw !! k = Some v → protected_key k → engine_set up k v) →
  reverse_proxy fw = Some sent → sends up fw sent.
Proof.
  unfold reverse_proxy. intros He. destruct (negb _); [done|]. intros [= <-]. unfold sends.
  cbn [fw_Header fw_URL fw_target fw_Host fw_Method fw_Body]. split; [|split; [|split]].
  - intros k v Hk Hp. assert (Hn : k ∉ proxy_set) by (intros Hin; by apply own_keys_open in Hin).
    rewrite proxied_other in Hk by done. apply He; [|done].
    destruct (removed_lookup (fw_Header fw) k) as [Hr1 Hr2].
    rewrite <-Hr2; [done|]. intros Hh. by rewrite Hr1 in Hk.
  - intros k v. apply proxied_kept.
  - intros k Hh Hn. rewrite proxied_other by done. by apply removed_lookup.
  - unfold rewriteRequestURL. by destruct (joinURLPath _ _).
Qed.

(** A request handed to the upstream's reverse proxy with the engine's headers
    [up]: an identity or cookie header only with the engine's value, the other
    headers passed on; and what the reverse proxy sends of it. *)
Definition forwards (r : http_request) (upstreamURL : string) (up : gmap string string)
    (body : string) (fw : forwarded) : Prop :=
  (∀ k v, fw_Header fw !! k = Some v → protected_key k → engine_set up k v) ∧
  (∀ k v, hr_Header r !! k = Some v → ¬ protected_key k →
     (∀ w, ¬ engine_set up k w) → fw_Header fw !! k = Some v) ∧
  Parse upstreamURL = Ok (fw_target fw) ∧ fw_Host fw = Host (fw_target fw) ∧
  fw_Method fw = hr_Method r ∧ fw_Body fw = body ∧
  ∀ sent, reverse_proxy fw = Some sent → sends up fw sent.

Lemma ProxyToUpstream_exec r upstreamURL up body tr err :
  exec (ProxyToUpstream r upstreamURL up body) tr err →
  tr = [] ∨ ∃ fw, tr = [Ev (Forward fw) tt] ∧ forwards r upstreamURL up body fw.
Proof.
  unfold ProxyToUpstream, forwards. intros Hp.
  destruct (Parse upstreamURL) as [u|msg]; [|left; by destruct Hp].
  destruct (negb _ && negb _); [left; by destruct Hp|].
  cbv zeta in Hp. match type of Hp with exec (match ?x with _ => _ end) _ _ => destruct x as [t|msg] end;
    [|left; by destruct Hp].
  destruct Hp as ([] & t3 & -> & [-> _]). right. eexists. split; [reflexivity|].
  assert (Hid : ∀ k v, out_header r up !! k = Some v → protected_key k → engine_set up k v).
  { intros k v [Hs|[_ Hc]]%out_header_lookup Hk; [done|]. by apply client_header_not_protected in Hc. }
  cbn [fw_Header fw_target fw_Host fw_Method fw_Body]. split; [done|]. split; [|do 4 (split; [done|])].
  - intros k v Hk Hn Hw. apply out_header_client; [done|by apply client_header_not_protected|done].
  - intros sent. by apply reverse_proxy_sends.
Qed.

(** C4: identity cannot be spoofed through the proxy.  A request is handed to the
    upstream's reverse proxy only when the engine allowed it, and then: an
    identity header or a cookie header, however spelled, is there only if the
    engine set it, with the engine's value and no other; every other header of
    the client is passed on unless the engine overwrote it; and the method, the
    body and the upstream's own host are as they should be.  What the reverse
    proxy sends of it goes to that host with the same method and body; its
    identity and cookie headers are still only the engine's, and it lacks just
    the hop-by-hop headers and those the Connection header names, of which the
    reverse proxy sets its own Te, Connection, Upgrade and User-Agent.  A request that is not allowed is answered
    with the engine's status and body, and nothing is forwarded. *)
Theorem no_identity_spoofing e upstreamURL r tr
    (Hx : exec (Middleware e upstreamURL r) tr tt) :
  ∃ resp th tail, tr = th ++ tail ∧ exec (Handle e (RequestFromHTTP r)) th resp ∧
  ((Allow resp = true ∧ upstreamURL ≠ "" ∧
    (tail = [] ∨ ∃ fw, tail = [Ev (Forward fw) tt] ∧
       forwards r upstreamURL (UpstreamHeaders resp) (read_body (hr_Body r)) fw)) ∨
   ((Allow resp = false ∨ upstreamURL = "") ∧ ∃ st hs,
      tail = [Ev (WriteHTTP st hs (rp_Body resp)) tt] ∧
      st = if StatusCode resp =? 0 then 200 else StatusCode resp)).
Proof.
  unfold Middleware in Hx. apply exec_bind in Hx as (resp & th & tail & -> & Hh & Hx).
  exists resp, th, tail. split; [done|]. split; [done|].
  destruct (Allow resp && negb (String.eqb upstreamURL "")) eqn:Ea.
  - apply andb_true_iff in Ea as [Ha Hu]. bool_prop. left. split; [done|]. split; [done|].
    apply exec_bind in Hx as (err & t1 & t2 & -> & Hp & [-> _]). rewrite app_nil_r.
    rewrite <-RequestFromHTTP_body. by eapply ProxyToUpstream_exec.
  - right. split.
    + apply andb_false_iff in Ea as [Ha|Hu]; [by left|right; by bool_prop].
    + destruct Hx as ([] & t1 & -> & [-> _]). eexists _, _. split; [reflexivity|]. done.
Qed.
End proxy.

(** The witness: a client that claims to be someone else. *)
Inductive webE : Type → Type :=
| W_Resolve (r : Request) : webE (res (option Principal))
| W_Evaluate (i : Input) : webE (res (option Decision))
| W_AuthDecision (allow : bool) (status : Z) : webE unit
| W_Forward (f : forwarded) : webE unit
| W_Write (st : Z) (hs : list (string * string)) (body : string) : webE unit.
#[local] Instance web_metrics : ProxyMetricsE webE := W_AuthDecision.
#[local] Instance web_forward : ForwardE webE := W_Forward.
#[local] Instance web_write : WriteE webE := W_Write.
#[local] Existing Instance sorted_range.
#[local] Existing Instance ascii_unicode.
#[local] Instance web_digits : UnicodeDigit := λ _, false.

Definition web_engine : DefaultEngine webE :=
  {| e_Resolve := W_Resolve; e_Evaluate := W_Evaluate; e_Plugins := []; e_RequireAuth := true;
     e_HeaderBuilder := None; e_UnauthenticatedMode := ""; e_LoginRedirectURL := "";
     e_Metrics := false |}.
Definition web_request : http_request :=
  {| hr_Method := "GET"; hr_TLS := true; hr_Host := "app.example"; hr_Path := "/x"; hr_RawQuery := "";
     hr_Header := {[ "X-User-Id" := ["admin"]; "Cookie" := ["sid=1"]; "Accept" := ["*/*"] ]};
     hr_Cookies := [("sid", "1")]; hr_Body := ""; hr_RemoteAddr := "198.51.100.7:1234" |}.
Definition web_decision : Decision :=
  {| d_Allow := true; d_StatusCode := 200; d_Headers := ∅; d_Reason := ""; d_Obligations := ∅ |}.
Definition web_handler : handler webE (list forwarded) := λ X e,
  match e in webE X return list forwarded → X * list forwarded with
  | W_Resolve _ => λ s, (Ok (Some (principal_of {[ "sub" := AStr "u1" ]})), s)
  | W_Evaluate _ => λ s, (Ok (Some web_decision), s)
  | W_AuthDecision _ _ => λ s, (tt, s)
  | W_Forward f => λ s, (tt, f :: s)
  | W_Write _ _ _ => λ s, (tt, s)
  end.

Lemma no_identity_spoofing_witness :
  (λ f, map_to_list (fw_Header f)) <$>
    snd (run web_handler (Middleware web_engine "https://up.example" web_request) []) =
    [[("Accept", ["*/*"]); ("X-User-Id", ["u1"])]] ∧
  ∃ tr, exec (Middleware web_engine "https://up.example" web_request) tr tt ∧
    ∃ resp th, exec (Handle web_engine (RequestFromHTTP web_request)) th resp.
Proof.
  split; [vm_compute; reflexivity|].
  pose proof (run_exec web_handler (Middleware web_engine "https://up.example" web_request) []) as Hx.
  destruct (fst (run web_handler (Middleware web_engine "https://up.example" web_request) [])).
  eexists. split; [exact Hx|].
  destruct (no_identity_spoofing web_engine "https://up.example" web_request _ Hx)
    as (resp & th & _ & _ & Hh & _). exists resp, th. exact Hh.
Defined.

(** What the reverse proxy sends of it: the upstream's path is there twice. *)
Definition web_sent {A} (g : forwarded → A) (upstream : string) (r : http_request) : list (option A) :=
  List.map (λ f, option_map g (reverse_proxy f)) (snd (run web_handler (Middleware web_engine upstream r) [])).
Example upstream_path_joined_twice :
  web_sent (λ f, Path (fw_URL f)) "https://up.example/api" web_request = [Some "/api/api/x"].
Proof. vm_compute. reflexivity. Qed.

(** A client that names the proxy's headers in its Connection header has the
    reverse proxy strip them. *)
Definition with_header (r : http_request) (k v : string) : http_request :=
  {| hr_Method := hr_Method r; hr_TLS := hr_TLS r; hr_Host := hr_Host r; hr_Path := hr_Path r;
     hr_RawQuery := hr_RawQuery r; hr_Header := <[k := [v]]> (hr_Header r); hr_Cookies := hr_Cookies r;
     hr_Body := hr_Body r; hr_RemoteAddr := hr_RemoteAddr r |}.
Definition sent_header (k : string) (f : forwarded) : option (list string) := fw_Header f !! k.
Example connection_strips_identity :
  web_sent (sent_header "X-User-Id") "https://up.example" web_request = [Some (Some ["u1"])] ∧
  web_sent (sent_header "X-User-Id") "https://up.example"
    (with_header web_request "Connection" "close, x-user-id") = [Some None].
Proof. split; vm_compute; reflexivity. Qed.

(** What a client claims of its address goes through as it is. *)
Example forged_address_passes :
  web_sent (sent_header "X-Forwarded-For") "https://up.example"
    (with_header web_request "X-Forwarded-For" "203.0.113.9") = [Some (Some ["203.0.113.9"])].
Proof. vm_compute. reflexivity. Qed.
