(* ===== verification/ProxyConfig.v ===== *)
(** * Configuration of the proxy (internal/proxy/config)

    Defaults, normalisation to a route list, validation, and the check that
    keeps upstreams off private addresses.  Name resolution is an external
    call. *)

From S2P Require Import Prelude.
From S2P Require Import GoStrings.
From S2P Require Import Effects.
From S2P Require Import GoTime.
From S2P Require Import GoDuration.
From S2P Require Import GoAny.
From S2P Require Import Json.
From S2P Require Import GoUrl.
From S2P Require Import GoNet.
From S2P Require Import AuthConfig.
From S2P Require Import AuthzHttp.

(** ** Data *)
Record PipelinePluginEntry := { pe_ID : string; pe_Type : string; pe_Raw : claims }.

Record RouteConfig := {
  rc_ID : string; Hosts : list string; PathPrefix : string; rc_UpstreamURL : string;
  rc_RequireAuth : bool; UnauthenticatedMode : string; LoginRedirectURL : string;
  ConnectorID : string; rc_PolicyBundlePath : string }.

Record ProxyConfig := {
  UpstreamURL : string; ProxyPathPrefix : string; RequireAuth : bool; AuthURL : string;
  pc_CookieName : string; pc_HTTPPort : string; GRPCListenAddr : string; GRPCUpstreamAddr : string;
  GRPCUpstreamInsecure : bool; PolicyEngine : string; PolicyBundlePath : string;
  PolicyFallbackAllow : bool; PolicyReloadEnabled : bool; PolicyReloadInterval : string;
  PipelinePlugins : list PipelinePluginEntry; PluginsManifestDir : string;
  PluginsManifestStrict : bool; PluginsManifestPublicKeyPath : string; pc_AdminSecret : string;
  BundlePublicKeyPath : string; AllowPrivateUpstreams : bool; Routes : list RouteConfig;
  HeaderUserIDClaim : string; HeaderEmailClaim : string; HeaderNameClaim : string;
  HeaderPreferredUsernameClaim : string; HeaderRolesClaim : string; HeaderGroupsClaim : string;
  HeaderTenantIDClaim : string; HeaderAdminRole : string }.

Definition UnauthModeAPI401 : string := "api_401".
Definition UnauthModeHTMLRedirect : string := "html_redirect".
Definition PolicyEngineWASM : string := "wasm".
Definition PolicyEngineRego : string := "rego".
Definition MinPolicyReloadInterval : Z := Second.
Definition DefaultPolicyReloadInterval : Z := 10 * Second.

(** The assignments of the operations below. *)
Definition set_routes (c : ProxyConfig) (prefix : string) (rs : list RouteConfig) : ProxyConfig :=
  {| UpstreamURL := UpstreamURL c; ProxyPathPrefix := prefix; RequireAuth := RequireAuth c;
     AuthURL := AuthURL c; pc_CookieName := pc_CookieName c; pc_HTTPPort := pc_HTTPPort c;
     GRPCListenAddr := GRPCListenAddr c; GRPCUpstreamAddr := GRPCUpstreamAddr c;
     GRPCUpstreamInsecure := GRPCUpstreamInsecure c; PolicyEngine := PolicyEngine c;
     PolicyBundlePath := PolicyBundlePath c; PolicyFallbackAllow := PolicyFallbackAllow c;
     PolicyReloadEnabled := PolicyReloadEnabled c; PolicyReloadInterval := PolicyReloadInterval c;
     PipelinePlugins := PipelinePlugins c; PluginsManifestDir := PluginsManifestDir c;
     PluginsManifestStrict := PluginsManifestStrict c;
     PluginsManifestPublicKeyPath := PluginsManifestPublicKeyPath c;
     pc_AdminSecret := pc_AdminSecret c; BundlePublicKeyPath := BundlePublicKeyPath c;
     AllowPrivateUpstreams := AllowPrivateUpstreams c; Routes := rs;
     HeaderUserIDClaim := HeaderUserIDClaim c; HeaderEmailClaim := HeaderEmailClaim c;
     HeaderNameClaim := HeaderNameClaim c;
     HeaderPreferredUsernameClaim := HeaderPreferredUsernameClaim c;
     HeaderRolesClaim := HeaderRolesClaim c; HeaderGroupsClaim := HeaderGroupsClaim c;
     HeaderTenantIDClaim := HeaderTenantIDClaim c; HeaderAdminRole := HeaderAdminRole c |}.

Definition ProxyApplyDefaults (c : ProxyConfig) : ProxyConfig :=
  {| UpstreamURL := UpstreamURL c; ProxyPathPrefix := or_str (ProxyPathPrefix c) "/graphql";
     RequireAuth := RequireAuth c; AuthURL := AuthURL c;
     pc_CookieName := or_str (pc_CookieName c) "__Host-ess_session";
     pc_HTTPPort := or_str (pc_HTTPPort c) "8081";
     GRPCListenAddr := GRPCListenAddr c; GRPCUpstreamAddr := GRPCUpstreamAddr c;
     GRPCUpstreamInsecure := GRPCUpstreamInsecure c;
     PolicyEngine := or_str (PolicyEngine c) PolicyEngineWASM;
     PolicyBundlePath := PolicyBundlePath c; PolicyFallbackAllow := PolicyFallbackAllow c;
     PolicyReloadEnabled := PolicyReloadEnabled c;
     PolicyReloadInterval := or_str (PolicyReloadInterval c) "10s";
     PipelinePlugins := PipelinePlugins c; PluginsManifestDir := PluginsManifestDir c;
     PluginsManifestStrict := PluginsManifestStrict c;
     PluginsManifestPublicKeyPath := PluginsManifestPublicKeyPath c;
     pc_AdminSecret := pc_AdminSecret c; BundlePublicKeyPath := BundlePublicKeyPath c;
     AllowPrivateUpstreams := AllowPrivateUpstreams c; Routes := Routes c;
     HeaderUserIDClaim := or_str (HeaderUserIDClaim c) "sub";
     HeaderEmailClaim := or_str (HeaderEmailClaim c) "email";
     HeaderNameClaim := or_str (HeaderNameClaim c) "name";
     HeaderPreferredUsernameClaim := or_str (HeaderPreferredUsernameClaim c) "preferred_username";
     HeaderRolesClaim := or_str (HeaderRolesClaim c) "realm_access.roles";
     HeaderGroupsClaim := or_str (HeaderGroupsClaim c) "groups";
     HeaderTenantIDClaim := HeaderTenantIDClaim c;
     HeaderAdminRole := or_str (HeaderAdminRole c) "admin" |}.

(** ** Normalisation *)
Definition slashed (p : string) : string := if HasPrefix p "/" then p else "/" +:+ p.

Definition fill_route (rt : RouteConfig) : RouteConfig :=
  {| rc_ID := rc_ID rt; Hosts := Hosts rt;
     PathPrefix := if String.eqb (PathPrefix rt) "" then "" else slashed (PathPrefix rt);
     rc_UpstreamURL := rc_UpstreamURL rt; rc_RequireAuth := rc_RequireAuth rt;
     UnauthenticatedMode := or_str (UnauthenticatedMode rt) UnauthModeAPI401;
     LoginRedirectURL := LoginRedirectURL rt; ConnectorID := ConnectorID rt;
     rc_PolicyBundlePath := rc_PolicyBundlePath rt |}.

Definition default_route (c : ProxyConfig) : RouteConfig :=
  {| rc_ID := "default"; Hosts := []; PathPrefix := ProxyPathPrefix c;
     rc_UpstreamURL := UpstreamURL c; rc_RequireAuth := RequireAuth c;
     UnauthenticatedMode := UnauthModeAPI401; LoginRedirectURL := ""; ConnectorID := "";
     rc_PolicyBundlePath := "" |}.

Definition ProxyNormalize (c : ProxyConfig) : ProxyConfig :=
  set_routes c (ProxyPathPrefix c)
    (fill_route <$> match Routes c with [] => [default_route c] | rs => rs end).

(** ** Reading

    The proxy has JSON types of its own for switches and for lists that may be
    written as one text. *)
Section reading.
Context `{Unicode}.

Definition Proxy_FlexibleBool_UnmarshalJSON (v : json) : res bool :=
  match v with
  | JBool b => Ok b
  | JNull => Ok false
  | JStr s =>
      let t := ToLower (TrimSpace s) in
      if existsb (String.eqb t) ["true"; "1"; "yes"; "y"] then Ok true
      else if existsb (String.eqb t) ["false"; "0"; "no"; "n"] then Ok false
      else Err ("invalid flexible bool " +:+ Quote s)
  | _ => Err ("flexible bool: unsupported value " +:+ print v)
  end.

(** The loop over the parts of a text. *)
Fixpoint comma_loop (parts : list string) (out : list string) : list string :=
  match parts with
  | [] => out
  | p :: parts => let t := TrimSpace p in comma_loop parts (if String.eqb t "" then out else out ++ [t])
  end.
Definition Proxy_CommaStrings_UnmarshalJSON (v : json) : res (list string) :=
  match v with
  | JStr s => Ok (comma_loop (Split s ",") [])
  | JNull => Ok []
  | JArr l =>
      foldr (λ x acc, match x, acc with
                      | JStr s, Ok r => Ok (s :: r)
                      | JNull, Ok r => Ok ("" :: r)
                      | _, Err e => Err e
                      | _, _ => Err "json: cannot unmarshal"
                      end) (Ok []) l
  | _ => Err "json: cannot unmarshal"
  end.
End reading.

(** ** Validation *)

(** The ranges forbidden as upstreams, again. *)
Definition blockedUpstreamCIDRs : list IPNet :=
  omap ParseCIDR
    ["127.0.0.0/8"; "::1/128"; "10.0.0.0/8"; "172.16.0.0/12"; "192.168.0.0/16"; "169.254.0.0/16";
     "fe80::/10"; "fc00::/7"; "0.0.0.0/8"].

Section validate.
Context `{Unicode} {E : Type → Type} `{!LookupE E}.

Definition blocked_error (field host : string) (ip : list Z) : string :=
  field +:+ ": host " +:+ Quote host +:+ " resolves to blocked address " +:+ IP_String ip
  +:+ " (SSRF protection; set allow_private_upstreams: true only for local dev)".

(** The part the two checks share: resolve, and look for a blocked address. *)
Definition check_host (field host : string) : prog E (option string) :=
  ips <- resolve_host host ;;
  Ret match ips with
      | Err e => Some (field +:+ ": host " +:+ Quote host +:+ " could not be resolved: " +:+ e)
      | Ok ips => blocked_error field host <$> first_blocked blockedUpstreamCIDRs ips
      end.

Definition validateUpstreamSSRF (rawURL : string) : prog E (option string) :=
  match Parse rawURL with
  | Err e => Ret (Some ("upstream_url: invalid URL: " +:+ e))
  | Ok u =>
      if negb (String.eqb (Scheme u) "http") && negb (String.eqb (Scheme u) "https") then
        Ret (Some ("upstream_url: scheme " +:+ Quote (Scheme u) +:+ " not allowed (must be http or https)"))
      else if String.eqb (Hostname u) "" then Ret (Some "upstream_url: no host")
      else check_host "upstream_url" (Hostname u)
  end.

Definition validateGRPCUpstreamSSRF (addr : string) : prog E (option string) :=
  match SplitHostPort addr with
  | Err e => Ret (Some ("grpc_upstream_addr: invalid host:port " +:+ Quote addr +:+ ": " +:+ e))
  | Ok (host, port) =>
      if String.eqb host "" then Ret (Some ("grpc_upstream_addr: no host in " +:+ Quote addr))
      else if String.eqb port "" then Ret (Some ("grpc_upstream_addr: no port in " +:+ Quote addr))
      else check_host "grpc_upstream_addr" host
  end.

Definition proxy_errMissing (name : string) : string := "config: missing " +:+ name.

(** The checks of one route that need no resolver. *)
Definition route_error (i : nat) (seen : gset string) (rt : RouteConfig) : option string :=
  let q := Quote (rc_ID rt) in
  if String.eqb (rc_ID rt) "" then Some ("config: route[" +:+ Itoa (Z.of_nat i) +:+ "] missing id")
  else if bool_decide (rc_ID rt ∈ seen) then Some ("config: duplicate route id " +:+ q)
  else if String.eqb (PathPrefix rt) "" then Some ("config: route " +:+ q +:+ " missing path_prefix")
  else if String.eqb (rc_UpstreamURL rt) "" then Some ("config: route " +:+ q +:+ " missing upstream_url")
  else if negb (String.eqb (UnauthenticatedMode rt) UnauthModeAPI401)
          && negb (String.eqb (UnauthenticatedMode rt) UnauthModeHTMLRedirect) then
    Some ("config: route " +:+ q +:+ " invalid unauthenticated_mode " +:+ Quote (UnauthenticatedMode rt)
          +:+ " (must be " +:+ Quote UnauthModeAPI401 +:+ " or " +:+ Quote UnauthModeHTMLRedirect +:+ ")")
  else if String.eqb (UnauthenticatedMode rt) UnauthModeHTMLRedirect
          && String.eqb (LoginRedirectURL rt) "" then
    Some ("config: route " +:+ q +:+ " with unauthenticated_mode=html_redirect requires login_redirect_url")
  else None.

Fixpoint validateRoutes (private : bool) (i : nat) (seen : gset string) (rs : list RouteConfig)
    : prog E (option string) :=
  match rs with
  | [] => Ret None
  | rt :: rs' =>
      match route_error i seen rt with
      | Some e => Ret (Some e)
      | None =>
          err <- (if private then Ret None else validateUpstreamSSRF (rc_UpstreamURL rt)) ;;
          match err with
          | Some e => Ret (Some ("config: route " +:+ Quote (rc_ID rt) +:+ ": " +:+ e))
          | None => validateRoutes private (S i) ({[ rc_ID rt ]} ∪ seen) rs'
          end
      end
  end.

Definition reload_error (c : ProxyConfig) : option string :=
  if String.eqb (PolicyReloadInterval c) "" then None
  else match ParseDuration (PolicyReloadInterval c) with
       | Err e => Some ("config: policy_reload_interval " +:+ Quote (PolicyReloadInterval c)
                        +:+ " is not a valid duration: " +:+ e)
       | Ok d => if d <? MinPolicyReloadInterval
                 then Some ("config: policy_reload_interval " +:+ Quote (PolicyReloadInterval c)
                            +:+ " is below the minimum of 1s")
                 else None
       end.

(** [Validate]: the configuration with its path prefix made absolute (once the
    first checks pass), and the error. *)
Definition ProxyValidate (c : ProxyConfig) : prog E (ProxyConfig * option string) :=
  if String.eqb (AuthURL c) "" then Ret (c, Some (proxy_errMissing "AUTH_URL"))
  else if negb (existsb (String.eqb (PolicyEngine c)) [""; PolicyEngineWASM; PolicyEngineRego]) then
    Ret (c, Some (proxy_errMissing ("POLICY_ENGINE (must be " +:+ Quote "wasm" +:+ " or " +:+ Quote "rego" +:+ ")")))
  else
    match reload_error c with
    | Some e => Ret (c, Some e)
    | None =>
        if PolicyReloadEnabled c && String.eqb (PolicyBundlePath c) "" then
          Ret (c, Some "config: policy_reload_enabled requires policy_bundle_path to be set")
        else
          let c := set_routes c (slashed (ProxyPathPrefix c)) (Routes c) in
          err <- (if String.eqb (GRPCUpstreamAddr c) "" || AllowPrivateUpstreams c then Ret None
                  else validateGRPCUpstreamSSRF (GRPCUpstreamAddr c)) ;;
          match err with
          | Some e => Ret (c, Some e)
          | None =>
              err <- match Routes c with
                     | [] =>
                         if String.eqb (UpstreamURL c) "" then Ret (Some (proxy_errMissing "UPSTREAM_URL"))
                         else if AllowPrivateUpstreams c then Ret None
                         else validateUpstreamSSRF (UpstreamURL c)
                     | rs => validateRoutes (AllowPrivateUpstreams c) 0 ∅ rs
                     end ;;
              Ret (c, err)
          end
    end.

(** [Load], once the file and the environment are read into [raw]. *)
Definition ProxyLoad (raw : ProxyConfig) : prog E (res ProxyConfig) :=
  r <- ProxyValidate (ProxyNormalize (ProxyApplyDefaults raw)) ;;
  Ret match snd r with Some e => Err e | None => Ok (fst r) end.
End validate.

Definition PolicyReloadIntervalDuration (c : ProxyConfig) : Z :=
  if String.eqb (PolicyReloadInterval c) "" then DefaultPolicyReloadInterval
  else match ParseDuration (PolicyReloadInterval c) with
       | Ok d => if d <? MinPolicyReloadInterval then DefaultPolicyReloadInterval else d
       | Err _ => DefaultPolicyReloadInterval
       end.
