(* ===== verification/ProxyConfigFacts.v ===== *)
(** * What a loaded proxy configuration guarantees

    The routes of a configuration that loads are well formed, and their
    upstreams resolved to public addresses only. *)

From S2P Require Import Prelude.
From S2P Require Import GoStrings.
From S2P Require Import Effects.
From S2P Require Import GoTime.
From S2P Require Import GoDuration.
From S2P Require Import GoUrl.
From S2P Require Import GoNet.
From S2P Require Import AuthConfig.
From S2P Require Import AuthzHttp.
From S2P Require Import ProxyConfig.

(** ** Addresses *)

(** The private, loopback, link-local and "this network" IPv4 addresses. *)
Definition private_v4 (a b : Z) : Prop :=
  a = 0 ∨ a = 10 ∨ a = 127 ∨ (a = 169 ∧ b = 254) ∨ (a = 172 ∧ 16 ≤ b < 32) ∨ (a = 192 ∧ b = 168).

Definition v4_blocked (a b : Z) : bool :=
  existsb (λ n, Contains_ip n (v4_prefix ++ [a; b; 0; 0])) blockedCIDRs.

Lemma Contains_host_bits n a b c d :
  n ∈ blockedCIDRs →
  Contains_ip n (v4_prefix ++ [a; b; c; d]) = Contains_ip n (v4_prefix ++ [a; b; 0; 0]).
Proof.
  assert (Hz : ∀ z, Z.land z 0 = 0) by apply Z.land_0_r.
  assert (blockedCIDRs = ltac:(let x := eval vm_compute in blockedCIDRs in exact x)) as -> by
    (vm_compute; reflexivity).
  rewrite !elem_of_cons, elem_of_nil. intros H.
  repeat destruct H as [->|H]; try done; unfold Contains_ip, To4; simpl; unfold mask_ip; simpl;
    rewrite ?Hz; done.
Qed.

Lemma private_v4_blocked a b : private_v4 a b → v4_blocked a b = true.
Proof.
  assert (Hb : ∀ b, v4_blocked 0 b = true ∧ v4_blocked 10 b = true ∧ v4_blocked 127 b = true).
  { clear. intros b. assert (Hz : ∀ z, Z.land z 0 = 0) by apply Z.land_0_r.
    unfold v4_blocked, blockedCIDRs.
    assert (omap ParseCIDR blocked_ranges = ltac:(let x := eval vm_compute in (omap ParseCIDR blocked_ranges) in exact x))
      as -> by (vm_compute; reflexivity).
    unfold existsb, Contains_ip, To4. simpl. unfold mask_ip. simpl. rewrite ?Hz. done. }
  intros [->|[->|[->|[[-> ->]|[[-> Hr]|[-> ->]]]]]];
    [exact (proj1 (Hb b))|exact (proj1 (proj2 (Hb b)))|exact (proj2 (proj2 (Hb b)))
    |vm_compute; reflexivity| |vm_compute; reflexivity].
  assert (b ∈ seqZ 16 16) as Hin by (apply elem_of_seqZ; lia).
  assert (forallb (v4_blocked 172) (seqZ 16 16) = true) as Hall by (vm_compute; reflexivity).
  rewrite forallb_forall in Hall. apply Hall. by apply list_elem_of_In.
Qed.

Definition public (ip : list Z) : Prop := ∀ n, n ∈ blockedCIDRs → Contains_ip n ip = false.

Lemma public_v4 a b c d : public (v4_prefix ++ [a; b; c; d]) → ¬ private_v4 a b.
Proof.
  intros Hp Hb%private_v4_blocked. apply existsb_true_iff in Hb as (n & Hn & Hc).
  specialize (Hp n Hn). rewrite Contains_host_bits in Hp by done. congruence.
Qed.

(** The configuration's list and the forwarder's are the same one, and so are the
    two readings of switches and lists. *)
Lemma blocked_lists_agree : blockedUpstreamCIDRs = blockedCIDRs.
Proof. reflexivity. Qed.

(** The list has IPv4's "this network" and not its IPv6 counterpart. *)
Example unspecified_v6_passes :
  first_blocked blockedUpstreamCIDRs ["::"] = None ∧ is_Some (ParseIP "::") ∧
  is_Some (first_blocked blockedUpstreamCIDRs ["0.0.0.0"]).
Proof. vm_compute. eauto. Qed.

Lemma comma_loop_filter `{Unicode} parts out :
  comma_loop parts out = out ++ List.filter (λ t, negb (String.eqb t "")) (TrimSpace <$> parts).
Proof.
  revert out. induction parts as [|p parts IH]; intros out; simpl; [by rewrite app_nil_r|].
  rewrite IH. destruct (String.eqb (TrimSpace p) ""); simpl; [done|]. by rewrite <-(assoc_L (++)).
Qed.
Theorem config_types_agree `{Unicode} v :
  Proxy_FlexibleBool_UnmarshalJSON v = FlexibleBool_UnmarshalJSON v ∧
  Proxy_CommaStrings_UnmarshalJSON v = CommaStrings_UnmarshalJSON v.
Proof.
  split; [done|]. destruct v as [| | |s| |]; try done. cbn -[Split]. rewrite comma_loop_filter. unfold splitTrim.
  destruct (String.eqb_spec s "") as [->|_]; [|done]. vm_compute. reflexivity.
Qed.

Lemma first_blocked_none ips :
  first_blocked blockedUpstreamCIDRs ips = None → ∀ s ip, s ∈ ips → ParseIP s = Some ip → public ip.
Proof.
  rewrite blocked_lists_agree. unfold first_blocked. intros Hf s ip Hs Hip n Hn.
  pose proof (List.find_none _ _ Hf ip) as Hx. cbv beta in Hx.
  rewrite existsb_false_iff in Hx. apply Hx; [|done].
  apply list_elem_of_In, list_elem_of_omap. eauto.
Qed.

Section facts.
Context `{Unicode} {E : Type → Type} `{!LookupE E}.

(** ** Upstreams *)

(** The addresses a host stands for, given the resolver's answer. *)
Definition addresses (host : string) (answer : res (list string)) : list string :=
  match answer with
  | Ok l => l
  | Err _ => match ParseIP host with Some ip => [IP_String ip] | None => [] end
  end.

(** The host was resolved during [tr], and every address is public. *)
Definition safe_host (tr : list (event E)) (host : string) : Prop :=
  ∃ answer, Ev (LookupHost host) answer ∈ tr ∧
    ∀ s ip, s ∈ addresses host answer → ParseIP s = Some ip → public ip.

Definition safe_upstream (tr : list (event E)) (rawURL : string) : Prop :=
  ∃ u, Parse rawURL = Ok u ∧ (Scheme u = "http" ∨ Scheme u = "https") ∧ Hostname u ≠ "" ∧
    safe_host tr (Hostname u).

Lemma safe_host_mono tr1 tr2 host :
  (∀ e, e ∈ tr1 → e ∈ tr2) → safe_host tr1 host → safe_host tr2 host.
Proof. intros Hs (a & Ha & Hp). exists a. auto. Qed.

Lemma safe_upstream_mono tr1 tr2 url :
  (∀ e, e ∈ tr1 → e ∈ tr2) → safe_upstream tr1 url → safe_upstream tr2 url.
Proof.
  intros Hs (u & Hu & Hsc & Hh & Hp). exists u. split_and!; try done. by eapply safe_host_mono.
Qed.

Lemma check_host_safe field host tr :
  exec (check_host field host) tr None → safe_host tr host.
Proof.
  unfold check_host, resolve_host. intros (answer & t1 & -> & [-> Hr]). exists answer.
  split; [left|]. intros s ip Hs Hip.
  assert (first_blocked blockedUpstreamCIDRs (addresses host answer) = None) as Hb.
  { unfold addresses. destruct answer as [l|e]; [|destruct (ParseIP host)]; simpl in Hr;
      [by destruct (first_blocked _ l)| |done]. by destruct (first_blocked _ _). }
  by eapply first_blocked_none.
Qed.

Lemma validateUpstreamSSRF_safe url tr :
  exec (validateUpstreamSSRF url) tr None → safe_upstream tr url.
Proof.
  unfold validateUpstreamSSRF. destruct (Parse url) as [u|e] eqn:Eu; [|by intros [_ [=]]].
  destruct (negb _ && negb _) eqn:Es; [by intros [_ [=]]|].
  destruct (String.eqb_spec (Hostname u) ""); [by intros [_ [=]]|].
  intros Hc%check_host_safe. exists u. split; [done|]. split; [|done].
  apply andb_false_iff in Es as [Es|Es]; bool_prop; auto.
Qed.

(** ** Routes *)
Definition route_ok (rt : RouteConfig) : Prop :=
  rc_ID rt ≠ "" ∧ PathPrefix rt ≠ "" ∧ rc_UpstreamURL rt ≠ "" ∧
  (UnauthenticatedMode rt = UnauthModeAPI401 ∨
   (UnauthenticatedMode rt = UnauthModeHTMLRedirect ∧ LoginRedirectURL rt ≠ "")).

Lemma route_error_none i seen rt :
  route_error i seen rt = None → route_ok rt ∧ rc_ID rt ∉ seen.
Proof.
  unfold route_error, route_ok. cbv zeta.
  destruct (String.eqb_spec (rc_ID rt) ""); [done|].
  case_bool_decide; [done|]. destruct (String.eqb_spec (PathPrefix rt) ""); [done|].
  destruct (String.eqb_spec (rc_UpstreamURL rt) ""); [done|].
  destruct (String.eqb_spec (UnauthenticatedMode rt) UnauthModeAPI401) as [Em|]; simpl.
  - destruct (_ && _); [done|]. intros _. split_and!; auto.
  - destruct (String.eqb_spec (UnauthenticatedMode rt) UnauthModeHTMLRedirect) as [Em|]; [|done]. simpl.
    destruct (String.eqb_spec (LoginRedirectURL rt) ""); [done|].
    intros _. split_and!; auto.
Qed.

Lemma validateRoutes_ok private i seen rs tr :
  exec (validateRoutes private i seen rs) tr None →
  NoDup (rc_ID <$> rs) ∧
  ∀ rt, rt ∈ rs → rc_ID rt ∉ seen ∧ route_ok rt ∧
    (private = false → safe_upstream tr (rc_UpstreamURL rt)).
Proof.
  revert i seen tr. induction rs as [|rt rs IH]; intros i seen tr; simpl.
  { intros _. split; [constructor|]. intros rt Hin. by apply elem_of_nil in Hin. }
  destruct (route_error i seen rt) as [e|] eqn:Er; [by intros [_ [=]]|].
  apply route_error_none in Er as [Hok Hns].
  intros (err & t1 & t2 & -> & Hs & Hx)%exec_bind. destruct err as [e|]; [by destruct Hx|].
  apply IH in Hx as [Hnd Hrs]. split.
  - apply NoDup_cons. split; [|done]. intros (rt' & E0 & Hin)%list_elem_of_fmap.
    destruct (Hrs rt' Hin) as [Hn _]. rewrite <-E0 in Hn. set_solver.
  - intros rt' [->|Hin]%elem_of_cons.
    + split; [done|]. split; [done|]. intros ->.
      apply (safe_upstream_mono t1); [intros; apply elem_of_app; by left|].
      by apply validateUpstreamSSRF_safe.
    + destruct (Hrs rt' Hin) as (Hn & Hok' & Hsafe). split; [set_solver|]. split; [done|].
      intros Hp. apply (safe_upstream_mono t2); [intros; apply elem_of_app; by right|]. auto.
Qed.

Lemma slashed_prefix p : HasPrefix (slashed p) "/" = true.
Proof. unfold slashed. destruct (HasPrefix p "/") eqn:Ep; [done|]. apply HasPrefix_app. Qed.

Lemma validateGRPC_safe addr tr :
  exec (validateGRPCUpstreamSSRF addr) tr None →
  ∃ host port, SplitHostPort addr = Ok (host, port) ∧ host ≠ "" ∧ port ≠ "" ∧ safe_host tr host.
Proof.
  unfold validateGRPCUpstreamSSRF. destruct (SplitHostPort addr) as [[host port]|e]; [|by intros [_ [=]]].
  destruct (String.eqb_spec host ""); [by intros [_ [=]]|].
  destruct (String.eqb_spec port ""); [by intros [_ [=]]|].
  intros Hc%check_host_safe. by exists host, port.
Qed.

(** C35: a proxy configuration that loads is safe to serve.  There is at least
    one route; the route ids are distinct and not empty, every path prefix
    starts with a slash, every route knows what to do with a caller it cannot
    identify; the policy is reloaded at most once a second; and unless private
    upstreams are allowed, every HTTP upstream (and the gRPC one) has a host
    whose every resolved address is outside the blocked ranges. *)
Theorem proxy_load_sound raw tr c (Hx : exec (ProxyLoad raw) tr (Ok c)) :
  AuthURL c ≠ "" ∧ Routes c ≠ [] ∧ NoDup (rc_ID <$> Routes c) ∧
  (∀ rt, rt ∈ Routes c → route_ok rt ∧ HasPrefix (PathPrefix rt) "/" = true ∧
     (AllowPrivateUpstreams c = false → safe_upstream tr (rc_UpstreamURL rt))) ∧
  (GRPCUpstreamAddr c ≠ "" → AllowPrivateUpstreams c = false →
   ∃ host port, SplitHostPort (GRPCUpstreamAddr c) = Ok (host, port) ∧ host ≠ "" ∧ port ≠ "" ∧
     safe_host tr host) ∧
  (∃ d, ParseDuration (PolicyReloadInterval c) = Ok d ∧ MinPolicyReloadInterval ≤ d ∧
     PolicyReloadIntervalDuration c = d) ∧
  (PolicyReloadEnabled c = true → PolicyBundlePath c ≠ "").
Proof.
  unfold ProxyLoad in Hx. apply exec_bind in Hx as ([c' err] & t1 & t2 & -> & Hv & [-> Hr]).
  simpl in Hr. destruct err as [e|]; [done|]. injection Hr as ->. rewrite app_nil_r.
  set (n := ProxyNormalize (ProxyApplyDefaults raw)) in *.
  assert (HR : ∃ rs, Routes n = fill_route <$> rs ∧ Routes n ≠ []).
  { unfold n, ProxyNormalize. simpl. destruct (Routes raw) as [|r rs]; eexists; (split; [reflexivity|done]). }
  assert (HI : PolicyReloadInterval n ≠ "").
  { unfold n. simpl. unfold or_str. by destruct (String.eqb_spec (PolicyReloadInterval raw) ""). }
  clearbody n. unfold ProxyValidate in Hv.
  destruct (String.eqb_spec (AuthURL n) ""); [by destruct Hv|]. destruct (negb _); [by destruct Hv|].
  destruct (reload_error n) as [e|] eqn:Ere; [by destruct Hv|].
  destruct (PolicyReloadEnabled n && _) eqn:Epr; [by destruct Hv|].
  cbv zeta in Hv. apply exec_bind in Hv as (err & ta & tb & -> & Hg & Hv).
  destruct err as [e|]; [by destruct Hv|].
  apply exec_bind in Hv as (err & tc & td & -> & Hrt & [-> [= <- ->]]).
  cbn [set_routes Routes GRPCUpstreamAddr AllowPrivateUpstreams UpstreamURL AuthURL
       PolicyReloadInterval PolicyReloadEnabled PolicyBundlePath] in Hg, Hrt |- *.
  destruct HR as (rs & HRs & HRne). destruct (Routes n) as [|r0 rs0] eqn:ERn; [done|].
  apply validateRoutes_ok in Hrt as [Hnd Hall]. split; [done|]. split; [done|]. split; [done|].
  split; [|split; [|split]].
  - intros rt Hin. destruct (Hall rt Hin) as (_ & Hok & Hsafe). split; [done|]. split.
    + rewrite HRs in Hin. apply list_elem_of_fmap in Hin as (rt' & -> & _). simpl.
      destruct Hok as (_ & Hpp & _). simpl in Hpp.
      destruct (String.eqb (PathPrefix rt') ""); [done|apply slashed_prefix].
    + intros Hp. apply (safe_upstream_mono tc); [set_solver|]. by apply Hsafe.
  - intros Hne Hp. apply String.eqb_neq in Hne. rewrite Hne, Hp in Hg. cbn [orb] in Hg.
    apply validateGRPC_safe in Hg as (host & port & ? & ? & ? & ?). exists host, port.
    split_and!; try done. eapply (safe_host_mono ta); [set_solver|done].
  - unfold reload_error in Ere. apply String.eqb_neq in HI. rewrite HI in Ere.
    unfold PolicyReloadIntervalDuration. simpl. rewrite HI.
    destruct (ParseDuration (PolicyReloadInterval n)) as [d|e]; [|done].
    destruct (d <? MinPolicyReloadInterval) eqn:Ed; [done|]. exists d. split; [done|]. bool_prop. done.
  - intros Hre E0. rewrite Hre, E0 in Epr. done.
Qed.

(** Normalisation is idempotent, as its comment promises: filling the
    route list again changes nothing. *)
Theorem proxy_normalize_idempotent c : ProxyNormalize (ProxyNormalize c) = ProxyNormalize c.
Proof.
  assert (Hf : ∀ rt, fill_route (fill_route rt) = fill_route rt).
  { intros rt. unfold fill_route. simpl. f_equal.
    - destruct (String.eqb_spec (PathPrefix rt) "") as [|Hne]; [done|].
      assert (slashed (PathPrefix rt) ≠ "") as Hs%String.eqb_neq.
      { unfold slashed. destruct (HasPrefix _ _); done. }
      rewrite Hs. unfold slashed at 1. by rewrite slashed_prefix.
    - unfold or_str. destruct (String.eqb (UnauthenticatedMode rt) "") eqn:Em; [done|]. by rewrite Em. }
  unfold ProxyNormalize. simpl. unfold set_routes. simpl. f_equal.
  destruct (Routes c) as [|rt rs]; simpl; rewrite Hf; [done|]. f_equal.
  rewrite <-list_fmap_compose. apply list_fmap_ext. intros ?? _. apply Hf.
Qed.
End facts.

(** ** The witness: a two-route configuration with a public upstream *)
Inductive dnsE : Type → Type := D_Lookup (host : string) : dnsE (res (list string)).
#[local] Instance dns_lookup : LookupE dnsE := D_Lookup.
#[local] Existing Instance ascii_unicode.
Definition dns_handler (answer : string) : handler dnsE unit := λ X e,
  match e in dnsE X return unit → X * unit with
  | D_Lookup _ => λ s, (Ok [answer], s)
  end.

Definition pc_route (id prefix url : string) : RouteConfig :=
  {| rc_ID := id; Hosts := []; PathPrefix := prefix; rc_UpstreamURL := url; rc_RequireAuth := true;
     UnauthenticatedMode := ""; LoginRedirectURL := ""; ConnectorID := ""; rc_PolicyBundlePath := "" |}.
Definition pc_raw : ProxyConfig :=
  {| UpstreamURL := ""; ProxyPathPrefix := ""; RequireAuth := true; AuthURL := "http://auth:8080";
     pc_CookieName := ""; pc_HTTPPort := ""; GRPCListenAddr := ""; GRPCUpstreamAddr := "grpc.example:443";
     GRPCUpstreamInsecure := false; PolicyEngine := ""; PolicyBundlePath := ""; PolicyFallbackAllow := false;
     PolicyReloadEnabled := false; PolicyReloadInterval := ""; PipelinePlugins := [];
     PluginsManifestDir := ""; PluginsManifestStrict := false; PluginsManifestPublicKeyPath := "";
     pc_AdminSecret := ""; BundlePublicKeyPath := ""; AllowPrivateUpstreams := false;
     Routes := [pc_route "api" "api" "https://api.example"; pc_route "web" "/" "https://web.example:8443/x"];
     HeaderUserIDClaim := ""; HeaderEmailClaim := ""; HeaderNameClaim := "";
     HeaderPreferredUsernameClaim := ""; HeaderRolesClaim := ""; HeaderGroupsClaim := "";
     HeaderTenantIDClaim := ""; HeaderAdminRole := "" |}.

Definition pc_loaded : res ProxyConfig := fst (run (dns_handler "198.51.100.7") (ProxyLoad pc_raw) tt).

(** The same configuration is refused when the name resolves to the metadata
    service's address. *)
Example pc_metadata_refused :
  match fst (run (dns_handler "169.254.169.254") (ProxyLoad pc_raw) tt) with Ok _ => False | Err _ => True end.
Proof. vm_compute. exact I. Qed.

Lemma proxy_load_sound_witness :
  ∃ tr c, exec (ProxyLoad pc_raw) tr (Ok c) ∧ (PathPrefix <$> Routes c) = ["/api"; "/"] ∧
    ∀ rt, rt ∈ Routes c → safe_upstream tr (rc_UpstreamURL rt).
Proof.
  pose proof (run_exec (dns_handler "198.51.100.7") (ProxyLoad pc_raw) tt) as Hx.
  set (tr := run_trace _ _ _) in Hx.
  assert (Hl : ∃ c, pc_loaded = Ok c ∧ AllowPrivateUpstreams c = false ∧ (PathPrefix <$> Routes c) = ["/api"; "/"])
    by (vm_compute; eauto).
  unfold pc_loaded in Hl. destruct Hl as (c & Hc & Ha & Hp). rewrite Hc in Hx.
  exists tr, c. split; [exact Hx|]. split; [exact Hp|]. intros rt Hin.
  exact (proj2 (proj2 (proj1 (proj2 (proj2 (proj2 (proxy_load_sound pc_raw tr c Hx)))) rt Hin)) Ha).
Defined.
