(* ===== verification/Registry.v ===== *)
(** * The plugin registry (internal/plugin/registry.go, api.go)

    Registration, enabling, resolution by capability and by kind, and the
    dependency graph with its startup order.  The Go registry keeps the same
    [*Registration] under its id and under each of its capabilities; here the
    registrations live under their ids and a capability lists ids, which is the
    same sharing: [Disable] is seen from both sides.  What a factory builds is
    a parameter. *)

From S2P Require Import Prelude.
From S2P Require Import GoStrings.

(** ** Data *)
Record VersionInfo := {
  APIVersion : string; MinRuntimeVersion : string; MaxRuntimeVersion : string }.
Definition PluginKindPipeline : string := "pipeline".
Definition PluginKindProvider : string := "provider".
Definition PluginKindIntegration : string := "integration".
Definition PluginStateRegistered : string := "registered".
Definition PluginStateHealthy : string := "healthy".
Definition PluginStateDegraded : string := "degraded".

Record PluginDescriptor := {
  pd_ID : string; Kind : string; pd_Name : string; Description : string; Version : string;
  Capabilities : list string; DependsOn : list string; ConfigSchemaRef : string;
  pd_VersionInfo : VersionInfo }.
Definition no_version : VersionInfo :=
  {| APIVersion := ""; MinRuntimeVersion := ""; MaxRuntimeVersion := "" |}.

Record Registration (F : Type) := {
  Descriptor : PluginDescriptor; Factory : F; Enabled : bool; rg_State : string;
  rg_Error : option string }.
Arguments Descriptor {F}.
Arguments Factory {F}.
Arguments Enabled {F}.
Arguments rg_State {F}.
Arguments rg_Error {F}.

Record Registry (F : Type) := {
  byID : gmap string (Registration F); byCapability : gmap string (list string);
  dependencies : gmap string (list string); dependents : gmap string (list string);
  sortedStartup : list string }.
Arguments byID {F}.
Arguments byCapability {F}.
Arguments dependencies {F}.
Arguments dependents {F}.
Arguments sortedStartup {F}.

Definition ErrAlreadyRegistered : string := "plugin: already registered".
Definition ErrUnknownPlugin : string := "plugin: unknown plugin".
Definition ErrDependencyCycle : string := "plugin: dependency cycle".

(** [append(m[k], x)], stored back. *)
Definition push (k x : string) (m : gmap string (list string)) : gmap string (list string) :=
  <[k := default [] (m !! k) ++ [x]]> m.

Section registry.
Context `{MapRange} {F : Type}.

Definition NewRegistry : Registry F :=
  {| byID := ∅; byCapability := ∅; dependencies := ∅; dependents := ∅; sortedStartup := [] |}.

Definition Register (r : Registry F) (d : PluginDescriptor) (f : F) : res (Registry F) :=
  match byID r !! pd_ID d with
  | Some _ => Err (ErrAlreadyRegistered +:+ ": " +:+ pd_ID d)
  | None =>
      Ok {| byID := <[pd_ID d := {| Descriptor := d; Factory := f; Enabled := true;
                                    rg_State := PluginStateRegistered; rg_Error := None |}]> (byID r);
            byCapability := foldl (λ m cap, push cap (pd_ID d) m) (byCapability r) (Capabilities d);
            dependencies := match DependsOn d with
                            | [] => dependencies r
                            | l => <[pd_ID d := l]> (dependencies r)
                            end;
            dependents := dependents r; sortedStartup := sortedStartup r |}
  end.

Definition set_byID (r : Registry F) (m : gmap string (Registration F)) : Registry F :=
  {| byID := m; byCapability := byCapability r; dependencies := dependencies r;
     dependents := dependents r; sortedStartup := sortedStartup r |}.
Definition set_enabled (b : bool) (x : Registration F) : Registration F :=
  {| Descriptor := Descriptor x; Factory := Factory x; Enabled := b; rg_State := rg_State x;
     rg_Error := rg_Error x |}.

(** [Enable] and [Disable]. *)
Definition switch (b : bool) (r : Registry F) (id : string) : res (Registry F) :=
  match byID r !! id with
  | None => Err (ErrUnknownPlugin +:+ ": " +:+ id)
  | Some x => Ok (set_byID r (<[id := set_enabled b x]> (byID r)))
  end.
Definition Enable : Registry F → string → res (Registry F) := switch true.
Definition Disable : Registry F → string → res (Registry F) := switch false.

Definition providers (r : Registry F) (cap : string) : list string :=
  default [] (byCapability r !! cap).

Definition ResolveByCapability (r : Registry F) (cap : string) : list PluginDescriptor :=
  omap (λ id, x ← byID r !! id; if Enabled x then Some (Descriptor x) else None) (providers r cap).

Definition ResolveAllByKind (r : Registry F) (kind : string) : list PluginDescriptor :=
  omap (λ kv, if Enabled kv.2 && String.eqb (Kind (Descriptor kv.2)) kind
              then Some (Descriptor kv.2) else None) (range (byID r)).

(** ** The dependency graph *)
Definition missing_error (id cap : string) : string :=
  "plugin: plugin " +:+ id +:+ " depends on capability " +:+ cap +:+ " with no providers".

(** The loop over the capabilities of one plugin, and the loop over the
    plugins with dependencies; both stop at a capability nobody provides. *)
Fixpoint link_caps (r : Registry F) (id : string) (caps : list string)
    (m : gmap string (list string)) : gmap string (list string) * option string :=
  match caps with
  | [] => (m, None)
  | cap :: caps' =>
      match providers r cap with
      | [] => (m, Some (missing_error id cap))
      | l => link_caps r id caps' (foldl (λ m b, push b id m) m l)
      end
  end.
Fixpoint link_all (r : Registry F) (l : list (string * list string))
    (m : gmap string (list string)) : gmap string (list string) * option string :=
  match l with
  | [] => (m, None)
  | (id, caps) :: l' =>
      match link_caps r id caps m with
      | (m', None) => link_all r l' m'
      | out => out
      end
  end.

Definition add_degree (r : Registry F) (m : gmap string Z) (kv : string * list string) : gmap string Z :=
  foldl (λ m cap, <[kv.1 := default 0 (m !! kv.1) + Z.of_nat (length (providers r cap))]> m) m kv.2.
Definition in_degrees (r : Registry F) : gmap string Z :=
  foldl (add_degree r) ((λ _, 0) <$> byID r) (range (dependencies r)).

(** Kahn's algorithm: one step removes an edge, one round a plugin. *)
Definition visit (st : gmap string Z * list string) (d : string) : gmap string Z * list string :=
  let n := default 0 (st.1 !! d) - 1 in
  (<[d := n]> st.1, if n =? 0 then st.2 ++ [d] else st.2).

Fixpoint kahn (fuel : nat) (deps : gmap string (list string)) (deg : gmap string Z)
    (queue order : list string) : option (list string) :=
  match queue with
  | [] => Some order
  | id :: queue' =>
      match fuel with
      | O => None
      | S fuel' =>
          let '(deg', queue'') := foldl visit (deg, queue') (default [] (deps !! id)) in
          kahn fuel' deps deg' queue'' (order ++ [id])
      end
  end.

Definition start_queue (deg : gmap string Z) : list string :=
  omap (λ kv, if kv.2 =? 0 then Some kv.1 else None) (range deg).

Definition set_dependents (r : Registry F) (m : gmap string (list string)) (order : list string)
    : Registry F :=
  {| byID := byID r; byCapability := byCapability r; dependencies := dependencies r;
     dependents := m; sortedStartup := order |}.

(** The registry afterwards and the error; [None] is running out of fuel, one
    unit per registered plugin. Both loops over the dependencies walk them in
    the order [range] gives; the second comes out the same in every other one
    (RegistryFacts, [in_degrees_any_order]). *)
Definition BuildDependencyGraph (r : Registry F) : option (Registry F * option string) :=
  let '(deps, err) := link_all r (range (dependencies r)) (dependents r) in
  let r' := set_dependents r deps (sortedStartup r) in
  match err with
  | Some e => Some (r', Some e)
  | None =>
      let deg := in_degrees r in
      order ← kahn (size (byID r)) deps deg (start_queue deg) [];
      Some (if negb (Nat.eqb (length order) (size (byID r)))
            then (r', Some ErrDependencyCycle)
            else (set_dependents r deps order, None))
  end.

Definition StartupOrder (r : Registry F) : list string := sortedStartup r.
Definition AllPluginIDs (r : Registry F) : list string := (range (byID r)).*1.
Definition RegistrationFor (r : Registry F) (id : string) : option (Registration F) := byID r !! id.
End registry.
