(* ===== verification/RegistryFacts.v ===== *)
(** * The startup order of the plugins

    [BuildDependencyGraph] is Kahn's algorithm: it terminates on every
    registry, and on a registry built by registrations it answers exactly
    whether a startup order exists, with such an order when there is one. *)

From S2P Require Import Prelude.
From S2P Require Import GoStrings.
From S2P Require Import Registry.

(** ** Counting *)
Definition occ (x : string) (l : list string) : Z := Z.of_nat (length (filter (λ y, y = x) l)).
Definition dg (m : gmap string Z) (x : string) : Z := default 0 (m !! x).
Definition at_key (m : gmap string (list string)) (x : string) : list string := default [] (m !! x).

Lemma occ_cons x y l : occ x (y :: l) = (if decide (y = x) then 1 else 0) + occ x l.
Proof. unfold occ. rewrite filter_cons. case_decide; simpl; lia. Qed.

Lemma occ_app x l1 l2 : occ x (l1 ++ l2) = occ x l1 + occ x l2.
Proof. unfold occ. rewrite filter_app, length_app. lia. Qed.

Lemma occ_nonneg x l : 0 ≤ occ x l.
Proof. unfold occ. lia. Qed.

Lemma occ_pos x l : 0 < occ x l ↔ x ∈ l.
Proof.
  induction l as [|y l IH]; [unfold occ; simpl; split; [lia|set_solver]|].
  rewrite occ_cons, elem_of_cons. pose proof (occ_nonneg x l). case_decide; [subst; split; [by left|lia]|].
  rewrite <-IH. split; [right; lia|intros [?|?]; [congruence|lia]].
Qed.

Lemma dg_insert m k v x : dg (<[k := v]> m) x = if decide (k = x) then v else dg m x.
Proof. unfold dg. rewrite lookup_insert. by case_decide. Qed.

Lemma at_key_push k v m x : at_key (push k v m) x = at_key m x ++ (if decide (k = x) then [v] else []).
Proof. unfold at_key, push. rewrite lookup_insert. case_decide; [by subst|by rewrite app_nil_r]. Qed.

(** ** One round of the algorithm *)

(** Removing the edges to the plugins [D]: the degrees drop, and the plugins
    whose last edge goes join the queue, once each. *)
Lemma visit_all D deg q :
  ∃ new, (foldl visit (deg, q) D).2 = q ++ new ∧ NoDup new ∧
    (∀ a, a ∈ new ↔ 0 < dg deg a ≤ occ a D) ∧
    (∀ a, dg (foldl visit (deg, q) D).1 a = dg deg a - occ a D).
Proof.
  revert deg q. induction D as [|d D IH]; intros deg q; simpl.
  { exists []. unfold occ. simpl. split_and!; [by rewrite app_nil_r|constructor| |intros; lia].
    intros a. split; [set_solver|lia]. }
  unfold visit at 2 4. cbn [fst snd]. fold (dg deg d).
  destruct (IH (<[d := dg deg d - 1]> deg) (if dg deg d - 1 =? 0 then q ++ [d] else q))
    as (new & Hq & Hnd & Hin & Hdg).
  exists ((if dg deg d - 1 =? 0 then [d] else []) ++ new). split_and!.
  - rewrite Hq. destruct (_ =? 0); [by rewrite <-(assoc_L (++))|done].
  - destruct (_ =? 0) eqn:E; [|done]. bool_prop. constructor; [|done].
    rewrite Hin, dg_insert, decide_True by done. lia.
  - intros a. rewrite elem_of_app, Hin, dg_insert, occ_cons. pose proof (occ_nonneg a D).
    destruct (decide (d = a)) as [<-|Hne].
    + destruct (_ =? 0) eqn:E; bool_prop; rewrite ?elem_of_cons, ?elem_of_nil; [split; [lia|by left; left]|].
      split; [intros [[]|?]; lia|right; lia].
    + destruct (_ =? 0); rewrite ?elem_of_cons, ?elem_of_nil; naive_solver lia.
  - intros a. rewrite Hdg, dg_insert, occ_cons. case_decide; [subst|]; lia.
Qed.

(** ** Termination *)

(** A plugin enters the queue only when its degree falls to zero, so it never
    enters twice: there are at most as many rounds as plugins. *)
Lemma kahn_terminates (ids : gset string) deps fuel :
  ∀ deg q order,
  NoDup (order ++ q) → (∀ a, a ∈ order ++ q → a ∈ ids ∧ dg deg a ≤ 0) →
  (∀ a, a ∉ ids → dg deg a ≤ 0) → (size ids ≤ length order + fuel)%nat →
  is_Some (kahn fuel deps deg q order).
Proof.
  induction fuel as [|n IH]; intros deg q order Hnd Hin Hout Hf; (destruct q as [|id q]; [eauto|]); simpl.
  - exfalso. assert (Hs : list_to_set (order ++ id :: q) ⊆ ids).
    { intros a Ha. apply elem_of_list_to_set in Ha. by apply Hin. }
    apply subseteq_size in Hs. rewrite size_list_to_set, length_app in Hs by done. simpl in Hs. lia.
  - destruct (visit_all (default [] (deps !! id)) deg q) as (new & Hq & Hnn & Hnew & Hdg).
    destruct (foldl visit _ _) as [deg' q'] eqn:Ef. simpl in Hq, Hdg. subst q'. apply IH.
    + replace ((order ++ [id]) ++ q ++ new) with ((order ++ id :: q) ++ new) by by rewrite <-!(assoc_L (++)).
      apply NoDup_app. split_and!; [done| |done]. intros a Ha Hn.
      apply Hin in Ha as [_ Ha]. apply Hnew in Hn. lia.
    + intros a. replace ((order ++ [id]) ++ q ++ new) with ((order ++ id :: q) ++ new) by by rewrite <-!(assoc_L (++)).
      intros [Ha|Ha]%elem_of_app.
      * apply Hin in Ha as [? ?]. split; [done|]. rewrite Hdg. pose proof (occ_nonneg a (default [] (deps !! id))). lia.
      * apply Hnew in Ha. split; [|rewrite Hdg; lia]. destruct (decide (a ∈ ids)) as [|Hni]; [done|].
        apply Hout in Hni. lia.
    + intros a Ha. rewrite Hdg. apply Hout in Ha. pose proof (occ_nonneg a (default [] (deps !! id))). lia.
    + rewrite length_app. simpl. lia.
Qed.

(** ** Correctness of the algorithm *)

(** Every plugin of the order comes after all it needs. *)
Definition respects (needs : string → list string) (order : list string) : Prop :=
  ∀ l1 a l2, order = l1 ++ a :: l2 → ∀ b, b ∈ needs a → b ∈ l1.

(** Plugins that wait for each other: none of them can be first. *)
Definition knot (needs : string → list string) (R : gset string) : Prop :=
  R ≠ ∅ ∧ ∀ a, a ∈ R → ∃ b, b ∈ R ∧ b ∈ needs a.

Section kahn.
Context (ids : gset string) (needs : string → list string) (deps : gmap string (list string)).
Hypothesis Hdeps : ∀ a b, occ a (at_key deps b) = occ b (needs a).
Hypothesis Hids : ∀ a b, b ∈ needs a → a ∈ ids ∧ b ∈ ids.

(** How many edges of [a] are left once [order] is out. *)
Definition missing (order : list string) (a : string) : Z :=
  Z.of_nat (length (filter (λ b, b ∉ order) (needs a))).

Lemma missing_snoc order id a :
  id ∉ order → missing (order ++ [id]) a = missing order a - occ id (needs a).
Proof.
  intros Hid. unfold missing, occ. induction (needs a) as [|b l IH]; [done|].
  rewrite !filter_cons. destruct (decide (b = id)) as [->|Hne].
  - rewrite (decide_False (P := id ∉ order ++ [id])) by set_solver.
    rewrite (decide_True (P := id ∉ order)) by done. simpl. lia.
  -
    destruct (decide (b ∉ order)); destruct (decide (b ∉ order ++ [id])); simpl; try lia; set_solver.
Qed.

Lemma missing_zero order a : missing order a = 0 ↔ ∀ b, b ∈ needs a → b ∈ order.
Proof.
  unfold missing. split.
  - intros Hz b Hb. destruct (decide (b ∈ order)) as [|Hn]; [done|].
    assert (b ∈ filter (λ b, b ∉ order) (needs a)) as Hf by by apply list_elem_of_filter.
    destruct (filter _ _); [set_solver|simpl in Hz; lia].
  - intros Hall. destruct (filter _ _) as [|b l] eqn:E; [done|].
    assert (b ∈ filter (λ b, b ∉ order) (needs a)) as [Hn Hb]%list_elem_of_filter by (rewrite E; left).
    by apply Hall in Hb.
Qed.

Definition kahn_inv (deg : gmap string Z) (q order : list string) : Prop :=
  NoDup (order ++ q) ∧ (∀ a, dg deg a = missing order a) ∧
  (∀ a, a ∈ order ++ q ↔ a ∈ ids ∧ missing order a = 0) ∧ respects needs order.

Lemma kahn_step deg id q order :
  kahn_inv deg (id :: q) order →
  let st := foldl visit (deg, q) (default [] (deps !! id)) in kahn_inv st.1 st.2 (order ++ [id]).
Proof.
  intros (Hnd & Hdg & Hq & Hr). cbv zeta.
  destruct (visit_all (default [] (deps !! id)) deg q) as (new & Hq' & Hnn & Hnew & Hdg').
  destruct (foldl visit _ _) as [deg' q']. cbn [fst snd] in *. subst q'.
  assert (Hid : id ∉ order) by (apply NoDup_app in Hnd as (_ & Hd & _); intros H; by eapply Hd; [|left]).
  assert (Ha : ∀ a, missing (order ++ [id]) a = missing order a - occ a (default [] (deps !! id))).
  { intros a. rewrite missing_snoc by done. fold (at_key deps id). by rewrite Hdeps. }
  assert (Heq : (order ++ [id]) ++ q ++ new = (order ++ id :: q) ++ new) by by rewrite <-!(assoc_L (++)).
  repeat split.
  - rewrite Heq. apply NoDup_app. split_and!; [done| |done].
    intros a [_ Hz]%Hq Hn%Hnew. rewrite Hdg in Hn. lia.
  - intros a. by rewrite Hdg', Hdg, Ha.
  - rewrite Heq in H. apply elem_of_app in H as [Hi|Hi]; [by apply Hq|].
    apply Hnew in Hi. rewrite Hdg in Hi. unfold missing in Hi.
    destruct (needs a) as [|b l] eqn:En; [simpl in Hi; lia|]. apply (Hids a b). rewrite En. left.
  - rewrite Heq in H. apply elem_of_app in H as [[_ Hz]%Hq|Hi%Hnew].
    + pose proof (Ha a) as E. pose proof (occ_nonneg a (default [] (deps !! id))).
      unfold missing in *. lia.
    + rewrite Hdg in Hi. pose proof (Ha a). unfold missing in *. lia.
  - intros [Hi Hz]. rewrite Heq, elem_of_app. destruct (decide (missing order a = 0)) as [E|E].
    + left. by apply Hq.
    + right. apply Hnew. rewrite Hdg. pose proof (Ha a). unfold missing in *. lia.
  - intros l1 a l2 Ho b Hb. destruct l2 as [|x l2 _] using rev_ind.
    + apply app_inj_tail in Ho as [<- <-]. assert (missing order id = 0) as Hz by (apply Hq; set_solver).
      by apply (proj1 (missing_zero order id)).
    + rewrite app_comm_cons, (assoc_L (++)) in Ho. apply app_inj_tail in Ho as [Ho _].
      by apply (Hr l1 a l2).
Qed.

Lemma kahn_sound fuel : ∀ deg q order out,
  kahn_inv deg q order → kahn fuel deps deg q order = Some out →
  NoDup out ∧ (∀ a, a ∈ out ↔ a ∈ ids ∧ missing out a = 0) ∧ respects needs out.
Proof.
  induction fuel as [|n IH]; intros deg [|id q] order out Hi; simpl; try done.
  1,2: intros [= <-]; destruct Hi as (Hnd & _ & Hq & Hr); rewrite app_nil_r in *; done.
  apply kahn_step in Hi. cbv zeta in Hi. destruct (foldl visit _ _) as [deg' q']. by apply IH.
Qed.

(** A full order leaves no knot; a shorter one leaves one. *)
Lemma order_complete out :
  NoDup out → (∀ a, a ∈ out ↔ a ∈ ids ∧ missing out a = 0) → respects needs out →
  if decide (length out = size ids)
  then (∀ a, a ∈ out ↔ a ∈ ids) ∧ ¬ ∃ R, R ⊆ ids ∧ knot needs R
  else ∃ R, R ⊆ ids ∧ knot needs R.
Proof.
  intros Hnd Hin Hr. assert (Hsub : list_to_set out ⊆ ids) by (intros a Ha; apply elem_of_list_to_set in Ha; by apply Hin).
  assert (Hsz : size (list_to_set (C := gset string) out) = length out) by by apply size_list_to_set.
  case_decide as Hl.
  - assert (Hall : ∀ a, a ∈ out ↔ a ∈ ids).
    { intros a. split; [by intros [? _]%Hin|]. intros Ha. rewrite <-(elem_of_list_to_set (C := gset string)).
      rewrite (set_subseteq_size_eq (C := gset string) (list_to_set out) ids); [done..|lia]. }
    split; [done|]. intros (R & HR & Hne & Hk).
    (* the member of the knot that comes first in the order has nothing to wait for *)
    assert (Hno : ∀ l1 l2, out = l1 ++ l2 → ∀ a, a ∈ l1 → a ∉ R).
    { intros l1. induction l1 as [|x l1 IH] using rev_ind; intros l2 Ho a; [set_solver|].
      intros [Ha|Ha]%elem_of_app HaR; [by eapply (IH (x :: l2)); [by rewrite Ho, <-(assoc_L (++))| |]|].
      apply list_elem_of_singleton in Ha as ->. destruct (Hk x HaR) as (b & HbR & Hb).
      rewrite <-(assoc_L (++)) in Ho. apply (IH (x :: l2) Ho b); [|done]. by eapply Hr. }
    apply Hne. apply set_eq. intros a. split; [|set_solver]. intros Ha. exfalso.
    apply (Hno out []) with a; [by rewrite app_nil_r|by apply Hall, HR|done].
  - exists (ids ∖ list_to_set out). split; [apply subseteq_difference_l; done|]. split.
    + intros He. apply Hl. rewrite <-Hsz. f_equal. apply set_eq. intros a. split; [apply Hsub|]. intros Ha.
      destruct (decide (a ∈@{gset string} list_to_set out)) as [|Hno]; [done|].
      assert (a ∈ ids ∖ list_to_set out) as Hd by by apply elem_of_difference.
      rewrite He in Hd. by apply elem_of_empty in Hd.
    + intros a [Ha Hno]%elem_of_difference. rewrite elem_of_list_to_set in Hno.
      destruct (decide (Forall (λ b, b ∈ out) (needs a))) as [Hf|Hf].
      * destruct Hno. apply Hin. split; [done|]. apply missing_zero. by apply Forall_forall.
      * apply not_Forall_Exists in Hf; [|apply _]. apply Exists_exists in Hf as (b & Hb & Hbo).
        exists b. split; [|done]. apply elem_of_difference. split; [by eapply Hids|].
        by rewrite elem_of_list_to_set.
Qed.
End kahn.

(** ** The registry's invariant *)
Section registry.
Context `{MapRange} {F : Type}.
Implicit Type r : Registry F.

(** Registries before their graph is built. *)
Inductive registered : Registry F → Prop :=
| registered_new : registered NewRegistry
| registered_register r d f r' : registered r → Register r d f = Ok r' → registered r'
| registered_switch r b id r' : registered r → switch b r id = Ok r' → registered r'.

(** A plugin's side of the graph, read off the descriptors. *)
Definition provides r (id cap : string) : Prop :=
  ∃ x, byID r !! id = Some x ∧ cap ∈ Capabilities (Descriptor x).
Definition depends_on r (id cap : string) : Prop :=
  ∃ x, byID r !! id = Some x ∧ cap ∈ DependsOn (Descriptor x).

(** The tables agree with the descriptors, and nothing is linked yet. *)
Record registry_ok r : Prop := {
  ok_id : ∀ id x, byID r !! id = Some x → pd_ID (Descriptor x) = id;
  ok_cap : ∀ cap id, id ∈ providers r cap ↔ provides r id cap;
  ok_dep : ∀ id, at_key (dependencies r) id = from_option (DependsOn ∘ Descriptor) [] (byID r !! id);
  ok_none : ∀ id, dependencies r !! id ≠ Some [];
  ok_start : dependents r = ∅ ∧ sortedStartup r = [] }.

Lemma at_key_push_all (id : string) caps m cap :
  ∀ x, x ∈ at_key (foldl (λ m c, push c id m) m caps) cap ↔ x ∈ at_key m cap ∨ (x = id ∧ cap ∈ caps).
Proof.
  revert m. induction caps as [|c caps IH]; intros m x; simpl; [set_solver|].
  rewrite IH, at_key_push, elem_of_app. case_decide; set_solver.
Qed.

Lemma registered_ok r : registered r → registry_ok r.
Proof.
  induction 1 as [|r d f r' _ IH Hr|r b id r' _ IH Hs].
  - split; unfold providers, provides, at_key; simpl; intros *; rewrite ?lookup_empty; simpl; try done.
    split; [set_solver|]. by intros (x & Hx & _).
  - unfold Register in Hr. destruct (byID r !! pd_ID d) eqn:Eb; [done|]. injection Hr as <-.
    destruct IH as [I1 I2 I3 I4 I5]. split; simpl.
    + intros id x. rewrite lookup_insert. case_decide; [by intros [= <-]|apply I1].
    + intros cap id. unfold providers. simpl. fold (at_key (foldl (λ m c, push c (pd_ID d) m) (byCapability r) (Capabilities d)) cap).
      rewrite at_key_push_all. change (at_key (byCapability r) cap) with (providers r cap). rewrite I2. unfold provides. simpl. split.
      * intros [(x & Hx & Hc)|[-> Hc]].
        -- exists x. rewrite lookup_insert_ne; [done|congruence].
        -- eexists. by rewrite lookup_insert_eq.
      * intros (x & Hx & Hc). rewrite lookup_insert in Hx. case_decide as E; [|left; eauto].
        injection Hx as <-. right. by rewrite E.
    + intros id. specialize (I3 id). unfold at_key in *. rewrite lookup_insert.
      destruct (DependsOn d) as [|c l] eqn:Ed; rewrite ?lookup_insert; case_decide as E; try done.
      rewrite I3, <-E, Eb. simpl. by rewrite Ed.
    + intros id. destruct (DependsOn d); [apply I4|]. rewrite lookup_insert. case_decide; [done|apply I4].
    + done.
  - unfold switch in Hs. destruct (byID r !! id) as [x0|] eqn:E; [|done]. injection Hs as <-.
    destruct IH as [I1 I2 I3 I4 I5].
    assert (Hl : ∀ id' x', <[id := set_enabled b x0]> (byID r) !! id' = Some x' →
      ∃ x, byID r !! id' = Some x ∧ Descriptor x' = Descriptor x).
    { intros id' x'. rewrite lookup_insert. case_decide; [subst; intros [= <-]; eauto|eauto]. }
    assert (Hl' : ∀ id' x, byID r !! id' = Some x →
      ∃ x', <[id := set_enabled b x0]> (byID r) !! id' = Some x' ∧ Descriptor x' = Descriptor x).
    { intros id' x Hx. rewrite lookup_insert. case_decide; [|eauto]. subst. eexists. split; [done|]. simpl. congruence. }
    split; simpl; [| | |done|done].
    + intros id' x' (x & Hx & ->)%Hl. eauto.
    + intros cap id'. unfold providers. simpl. change (default [] (byCapability r !! cap)) with (providers r cap). rewrite I2. unfold provides. simpl.
      split; intros (x & Hx & Hc); [apply Hl' in Hx|apply Hl in Hx]; destruct Hx as (x' & ? & Hd); exists x';
        (split; [done|]); rewrite Hd in *; congruence.
    + intros id'. rewrite I3, lookup_insert. case_decide; [subst; by rewrite E|done].
Qed.

(** ** Linking *)

(** The plugins [a] waits for, once per capability and provider. *)
Definition wants r (a : string) : list string := at_key (dependencies r) a ≫= providers r.

Lemma push_all_dependents a b (id : string) l m :
  occ a (at_key (foldl (λ m b, push b id m) m l) b) =
  occ a (at_key m b) + (if decide (id = a) then occ b l else 0).
Proof.
  revert m. induction l as [|c l IH]; intros m; simpl; [unfold occ; simpl; case_decide; lia|].
  rewrite IH, at_key_push, occ_app, (occ_cons b). destruct (decide (c = b)) as [->|]; rewrite ?occ_cons;
    unfold occ at 2; simpl; repeat case_decide; unfold occ; simpl; lia.
Qed.

Lemma link_caps_spec r id caps m :
  match link_caps r id caps m with
  | (m', None) => (∀ cap, cap ∈ caps → providers r cap ≠ []) ∧
      ∀ a b, occ a (at_key m' b) = occ a (at_key m b) +
                                   (if decide (id = a) then occ b (caps ≫= providers r) else 0)
  | (_, Some e) => ∃ cap, cap ∈ caps ∧ providers r cap = [] ∧ e = missing_error id cap
  end.
Proof.
  revert m. induction caps as [|c caps IH]; intros m; simpl.
  { split; [set_solver|]. intros a b. change (occ b []) with 0. case_decide; lia. }
  destruct (providers r c) as [|p ps] eqn:Ep; [exists c; split; [left|done]|].
  specialize (IH (foldl (λ m b, push b id m) m (p :: ps))). simpl in IH. destruct (link_caps _ _ _ _) as [m' [e|]].
  - destruct IH as (cap & Hin & Hp). exists cap. split; [by right|done].
  - destruct IH as [Hne Hocc]. split.
    + intros cap [->|Hin]%elem_of_cons; [by rewrite Ep|by apply Hne].
    + intros a b. rewrite Hocc. pose proof (push_all_dependents a b id (p :: ps) m) as E. simpl in E. rewrite E.
      replace (occ b (p :: ps ++ caps ≫= providers r)) with (occ b ((p :: ps) ++ caps ≫= providers r)) by done.
      rewrite occ_app. change (list_bind _ _ (providers r) caps) with (caps ≫= providers r). case_decide; lia.
Qed.

Lemma link_all_spec r l m :
  NoDup l.*1 →
  match link_all r l m with
  | (m', None) => (∀ id caps cap, (id, caps) ∈ l → cap ∈ caps → providers r cap ≠ []) ∧
      ∀ a b, (∀ caps, (a, caps) ∈ l → occ a (at_key m' b) = occ a (at_key m b) + occ b (caps ≫= providers r)) ∧
             (a ∉ l.*1 → occ a (at_key m' b) = occ a (at_key m b))
  | (_, Some e) => ∃ id caps cap, (id, caps) ∈ l ∧ cap ∈ caps ∧ providers r cap = [] ∧ e = missing_error id cap
  end.
Proof.
  revert m. induction l as [|[id caps] l IH]; intros m Hnd; simpl.
  { split; [set_solver|]. intros a b. split; [set_solver|done]. }
  simpl in Hnd. apply NoDup_cons in Hnd as [Hid Hnd].
  pose proof (link_caps_spec r id caps m) as Hc. destruct (link_caps r id caps m) as [m1 [e|]].
  { destruct Hc as (cap & ? & ? & ?). exists id, caps, cap. split; [left|done]. }
  destruct Hc as [Hne Hocc]. specialize (IH m1 Hnd). destruct (link_all r l m1) as [m2 [e|]].
  - destruct IH as (id' & caps' & cap & Hin & ?). exists id', caps', cap. split; [by right|done].
  - destruct IH as [Hne' Hocc']. split.
    + intros id' caps' cap [[= -> ->]|Hin]%elem_of_cons Hcap; [by apply Hne|by eapply Hne'].
    + intros a b. destruct (Hocc' a b) as [H1 H2]. split.
      * intros caps' [[= -> ->]|Hin]%elem_of_cons; [rewrite H2 by done|rewrite (H1 _ Hin)]; rewrite Hocc.
        -- by rewrite decide_True.
        -- rewrite decide_False; [lia|]. intros ->. apply Hid. apply list_elem_of_fmap. by exists (a, caps').
      * intros Hn. apply not_elem_of_cons in Hn as [Hn1 Hn2]. rewrite H2, Hocc by done.
        rewrite decide_False by congruence. lia.
Qed.

(** ** Degrees *)
Lemma add_degree_dg r m kv x :
  dg (add_degree r m kv) x =
  dg m x + (if decide (kv.1 = x) then Z.of_nat (length (kv.2 ≫= providers r)) else 0).
Proof.
  destruct kv as [id caps]. unfold add_degree. cbn [fst snd]. revert m.
  induction caps as [|c caps IH]; intros m; simpl; [case_decide; lia|].
  rewrite IH, dg_insert, length_app. change (list_bind _ _ (providers r) caps) with (caps ≫= providers r).
  unfold dg. case_decide; subst; lia.
Qed.

Lemma add_degree_dom r m kv : kv.1 ∈ dom m → dom (add_degree r m kv) = dom m.
Proof.
  destruct kv as [id caps]. unfold add_degree. cbn [fst snd]. revert m.
  induction caps as [|c caps IH]; intros m Hid; simpl; [done|].
  rewrite IH; rewrite dom_insert_L; set_solver.
Qed.

Lemma add_degrees r l m :
  NoDup l.*1 → (∀ kv, kv ∈ l → kv.1 ∈ dom m) →
  dom (foldl (add_degree r) m l) = dom m ∧
  ∀ a, (∀ caps, (a, caps) ∈ l → dg (foldl (add_degree r) m l) a = dg m a + Z.of_nat (length (caps ≫= providers r))) ∧
       (a ∉ l.*1 → dg (foldl (add_degree r) m l) a = dg m a).
Proof.
  revert m. induction l as [|[id caps] l IH]; intros m Hnd Hdom; simpl.
  { split; [done|]. intros a. split; [set_solver|done]. }
  simpl in Hnd. apply NoDup_cons in Hnd as [Hid Hnd].
  assert (Hd : dom (add_degree r m (id, caps)) = dom m) by (apply add_degree_dom, Hdom; left).
  destruct (IH (add_degree r m (id, caps)) Hnd) as [H1 H2].
  { intros kv Hin. rewrite Hd. apply Hdom. by right. }
  split; [by rewrite H1|]. intros a. destruct (H2 a) as [H3 H4]. split.
  - intros caps' [[= -> ->]|Hin]%elem_of_cons; [rewrite H4 by done|rewrite (H3 _ Hin)]; rewrite add_degree_dg; cbn [fst snd].
    + by rewrite decide_True.
    + rewrite decide_False; [lia|]. intros ->. apply Hid, list_elem_of_fmap. by exists (a, caps').
  - intros [Hn1 Hn2]%not_elem_of_cons. rewrite H4, add_degree_dg by done. simpl. rewrite decide_False by congruence. lia.
Qed.

(** ** The graph as a whole *)

(** The plugins [a] directly waits for, off the descriptors. *)
Definition depends r (a b : string) : Prop := ∃ cap, depends_on r a cap ∧ provides r b cap.

Lemma depends_on_list r a cap : registry_ok r → depends_on r a cap ↔ cap ∈ at_key (dependencies r) a.
Proof.
  intros Hok. rewrite (ok_dep r Hok). unfold depends_on. destruct (byID r !! a) as [x|]; simpl; [naive_solver|].
  split; [by intros (x & ? & _)|set_solver].
Qed.

Lemma wants_depends r a b : registry_ok r → b ∈ wants r a ↔ depends r a b.
Proof.
  intros Hok. unfold wants, depends. rewrite list_elem_of_bind. setoid_rewrite depends_on_list; [|done].
  setoid_rewrite (ok_cap r Hok). naive_solver.
Qed.

Lemma wants_ids r a b : registry_ok r → b ∈ wants r a → a ∈ dom (byID r) ∧ b ∈ dom (byID r).
Proof.
  intros Hok (cap & (x & Hx & _) & (y & Hy & _))%wants_depends; [|done].
  rewrite !elem_of_dom. split; eexists; eassumption.
Qed.

Lemma dependencies_entry r a : registry_ok r →
  (∃ caps, (a, caps) ∈ range (dependencies r) ∧ at_key (dependencies r) a = caps) ∨
  (a ∉ (range (dependencies r)).*1 ∧ at_key (dependencies r) a = []).
Proof.
  intros Hok. unfold at_key. destruct (dependencies r !! a) as [caps|] eqn:E.
  - left. exists caps. split; [by apply range_elem|done].
  - right. split; [|done]. intros ([a' caps] & -> & Hin)%list_elem_of_fmap.
    apply range_elem in Hin. simpl in E. congruence.
Qed.

(** Every plugin with dependencies is registered. *)
Definition deps_known r : Prop := dom (dependencies r) ⊆ dom (byID r).

Lemma registry_deps_known r : registry_ok r → deps_known r.
Proof.
  intros Hok id [caps Hc]%elem_of_dom. pose proof (ok_dep r Hok id) as Hd. unfold at_key in Hd.
  rewrite Hc in Hd. simpl in Hd. apply elem_of_dom. destruct (byID r !! id); [eauto|].
  simpl in Hd. subst. by apply (ok_none r Hok) in Hc.
Qed.

(** One plugin's dependencies, counted. *)
Lemma add_degree_lookup r m id caps j :
  add_degree r m (id, caps) !! j =
  if decide (id = j ∧ caps ≠ [])
  then Some (default 0 (m !! j) + foldr (λ cap n, Z.of_nat (length (providers r cap)) + n) 0 caps) else m !! j.
Proof.
  unfold add_degree. cbn [fst snd]. revert m. induction caps as [|cap caps IH]; intros m; cbn [foldl foldr].
  { by rewrite decide_False by tauto. }
  rewrite IH. destruct (decide (id = j)) as [->|Hne].
  - rewrite lookup_insert_eq, (decide_True _ _ (P := j = j ∧ cap :: caps ≠ [])) by done.
    case_decide as Hc; cbn [default from_option id]; [f_equal; lia|].
    destruct caps as [|c l]; [cbn; f_equal; lia|]. by destruct Hc.
  - rewrite !decide_False by tauto. by rewrite lookup_insert_ne.
Qed.

(** The second loop of [BuildDependencyGraph] gives the same in any order. *)
Lemma in_degrees_any_order r l :
  l ≡ₚ range (dependencies r) → foldl (add_degree r) ((λ _, 0) <$> byID r) l = in_degrees r.
Proof.
  unfold in_degrees. intros Hp. generalize ((λ _, 0) <$> byID r : gmap string Z).
  induction Hp as [|x l l' _ IH|[i ci] [k ck] l|l l' l'' _ IH1 _ IH2]; intros m; cbn [foldl]; [done|done| |by rewrite IH1].
  f_equal. apply map_eq. intros j. rewrite !add_degree_lookup.
  repeat case_decide; cbn [default from_option id]; try done; f_equal; lia.
Qed.

Lemma in_degrees_dom r : deps_known r → dom (in_degrees r) = dom (byID r).
Proof.
  intros Hk. unfold in_degrees.
  destruct (add_degrees r (range (dependencies r)) ((λ _, 0) <$> byID r)) as [H1 _].
  - apply range_NoDup.
  - intros [id caps] Hin. rewrite dom_fmap_L. apply range_elem in Hin. apply Hk. simpl. by apply elem_of_dom_2 in Hin.
  - by rewrite H1, dom_fmap_L.
Qed.

Lemma in_degrees_spec r a : registry_ok r → dg (in_degrees r) a = Z.of_nat (length (wants r a)).
Proof.
  intros Hok. unfold in_degrees.
  destruct (add_degrees r (range (dependencies r)) ((λ _, 0) <$> byID r)) as [_ H2].
  - apply range_NoDup.
  - intros [id caps] Hin. rewrite dom_fmap_L. apply range_elem in Hin. apply registry_deps_known; [done|].
    simpl. by apply elem_of_dom_2 in Hin.
  - destruct (H2 a) as [H3 H4].
    assert (H0 : dg ((λ _, 0) <$> byID r) a = 0) by (unfold dg; rewrite lookup_fmap; by destruct (byID r !! a)).
    unfold wants. destruct (dependencies_entry r a Hok) as [(caps & Hin & Ha)|[Hn Ha]].
    + rewrite Ha, (H3 _ Hin), H0. lia.
    + rewrite Ha, (H4 Hn), H0. done.
Qed.

Lemma start_queue_spec deg :
  NoDup (start_queue deg) ∧ ∀ a, a ∈ start_queue deg ↔ deg !! a = Some 0.
Proof.
  unfold start_queue.
  assert (He : ∀ l : list (string * Z), ∀ a, a ∈ omap (λ kv, if kv.2 =? 0 then Some kv.1 else None) l ↔ (a, 0) ∈ l).
  { intros l a. rewrite list_elem_of_omap. split.
    - intros ([k v] & Hin & Hs). simpl in Hs. destruct (v =? 0) eqn:E; [|done]. bool_prop. congruence.
    - intros Hin. exists (a, 0). by split. }
  split; [|intros a; by rewrite He, range_elem].
  pose proof (range_NoDup deg) as Hnd. induction (range deg) as [|[k v] l IH]; [constructor|].
  simpl in *. apply NoDup_cons in Hnd as [Hk Hnd]. destruct (v =? 0) eqn:Ev; [|by apply IH]. constructor; [|by apply IH].
  rewrite He. intros Hin. apply Hk, list_elem_of_fmap. by exists (k, 0).
Qed.

(** The linked graph starts Kahn's algorithm in its invariant. *)
Lemma kahn_start r deps : registry_ok r →
  link_all r (range (dependencies r)) (dependents r) = (deps, None) →
  (∀ a b, occ a (at_key deps b) = occ b (wants r a)) ∧
  kahn_inv (dom (byID r)) (wants r) (in_degrees r) (start_queue (in_degrees r)) [].
Proof.
  intros Hok Hl. pose proof (link_all_spec r (range (dependencies r)) (dependents r) (range_NoDup _)) as Hs.
  rewrite Hl in Hs. destruct Hs as [_ Hs]. pose proof (in_degrees_spec r) as Hdg.
  destruct (start_queue_spec (in_degrees r)) as [Hnd Hq]. split.
  - intros a b. destruct (Hs a b) as [H1 H2]. rewrite (proj1 (ok_start r Hok)) in *.
    unfold wants. destruct (dependencies_entry r a Hok) as [(caps & Hin & ->)|[Hn ->]];
      [rewrite (H1 _ Hin)|rewrite (H2 Hn)]; unfold at_key; rewrite lookup_empty; simpl; unfold occ; simpl; lia.
  - assert (Hm : ∀ a, missing (wants r) [] a = Z.of_nat (length (wants r a))).
    { intros a. unfold missing. induction (wants r a) as [|b l IH]; [done|].
      rewrite filter_cons_True by set_solver. cbn [length]. lia. }
    split; [done|]. split; [intros a; by rewrite Hdg, Hm|]. split; [|by intros [] ? ? [=]].
    intros a. simpl. rewrite Hq, Hm, <-Hdg, <-in_degrees_dom by (done || by apply registry_deps_known).
    unfold dg. rewrite elem_of_dom. destruct (in_degrees r !! a) as [z|]; simpl;
      [|split; [done|by intros [[? ?] _]]].
    split; [intros [= ->]; eauto|intros [_ ->]; done].
Qed.

(** Any registry the operations lead to. *)
Inductive reached : Registry F → Prop :=
| reached_new : reached NewRegistry
| reached_register r d f r' : reached r → Register r d f = Ok r' → reached r'
| reached_switch r b id r' : reached r → switch b r id = Ok r' → reached r'
| reached_build r r' err : reached r → BuildDependencyGraph r = Some (r', err) → reached r'.

Lemma build_tables r r' err :
  BuildDependencyGraph r = Some (r', err) → byID r' = byID r ∧ dependencies r' = dependencies r.
Proof.
  unfold BuildDependencyGraph. destruct (link_all _ _ _) as [deps [e|]]; [by intros [= <- _]|].
  cbv zeta. destruct (kahn _ _ _ _ _); [|done]. simpl. destruct (negb _); by intros [= <- _].
Qed.

Lemma reached_deps_known r : reached r → deps_known r.
Proof.
  unfold deps_known. induction 1 as [|r d f r' _ IH Hr|r b id r' _ IH Hs|r r' err _ IH Hb]; [done| | |].
  - unfold Register in Hr. destruct (byID r !! pd_ID d); [done|]. injection Hr as <-. simpl.
    rewrite dom_insert_L. destruct (DependsOn d); rewrite ?dom_insert_L; set_solver.
  - unfold switch in Hs. destruct (byID r !! id); [|done]. injection Hs as <-. simpl. rewrite dom_insert_L. set_solver.
  - by destruct (build_tables r r' err Hb) as [-> ->].
Qed.

Lemma kahn_of_reached r deps : deps_known r →
  is_Some (kahn (size (byID r)) deps (in_degrees r) (start_queue (in_degrees r)) []).
Proof.
  intros Hk. destruct (start_queue_spec (in_degrees r)) as [Hnd Hq].
  apply (kahn_terminates (dom (byID r))); simpl; rewrite <-?in_degrees_dom by done.
  - done.
  - intros a Ha%Hq. unfold dg. rewrite Ha. split; [by apply elem_of_dom_2 in Ha|done].
  - intros a Ha%not_elem_of_dom. unfold dg. by rewrite Ha.
  - rewrite in_degrees_dom, size_dom by done. done.
Qed.

(** C36: building the dependency graph terminates.  On every registry the
    operations lead to (plugins registered, switched, the graph built any number
    of times before) and for any order the maps are walked in, one unit of fuel
    per plugin is enough: no plugin enters the queue twice. *)
Theorem graph_terminates r (Hr : reached r) : is_Some (BuildDependencyGraph r).
Proof.
  unfold BuildDependencyGraph. destruct (link_all _ _ _) as [deps [e|]]; [eauto|]. cbv zeta.
  destruct (kahn_of_reached r deps (reached_deps_known r Hr)) as [order ->]. simpl. eauto.
Qed.

(** C26: the startup order is right, and found whenever there is one.  After
    registrations, building the graph either gives every plugin exactly one
    place, after all the plugins that provide what it depends on; or it fails,
    leaving no order, and then either a capability some plugin depends on is
    provided by nobody (and the error names both), or there are plugins that wait
    for each other, so that no order exists. *)
Theorem startup_order_exact r r' err
    (Hr : registered r) (Hb : BuildDependencyGraph r = Some (r', err)) :
  match err with
  | None => NoDup (StartupOrder r') ∧ (∀ id, id ∈ StartupOrder r' ↔ id ∈ dom (byID r)) ∧
      (∀ a cap, depends_on r a cap → ∃ b, provides r b cap) ∧
      ∀ l1 a l2, StartupOrder r' = l1 ++ a :: l2 → ∀ b, depends r a b → b ∈ l1
  | Some e => StartupOrder r' = [] ∧
      ((∃ a cap, depends_on r a cap ∧ (∀ b, ¬ provides r b cap) ∧ e = missing_error a cap) ∨
       (e = ErrDependencyCycle ∧
        ∃ R : gset string, R ≠ ∅ ∧ ∀ a, a ∈ R → ∃ b, b ∈ R ∧ depends r a b))
  end.
Proof.
  apply registered_ok in Hr as Hok. unfold BuildDependencyGraph in Hb. unfold StartupOrder.
  assert (Hnone : ∀ cap, providers r cap = [] → ∀ b, ¬ provides r b cap).
  { intros cap Hp b Hpr%(ok_cap r Hok). rewrite Hp in Hpr. by apply not_elem_of_nil in Hpr. }
  pose proof (link_all_spec r (range (dependencies r)) (dependents r) (range_NoDup _)) as Hs.
  destruct (link_all _ _ _) as [deps [e|]] eqn:El.
  { injection Hb as <- <-. split; [by apply (ok_start r Hok)|]. left.
    destruct Hs as (a & caps & cap & Hin & Hcap & Hp & ->). exists a, cap.
    split; [|by eauto]. apply depends_on_list; [done|]. apply range_elem in Hin. unfold at_key. by rewrite Hin. }
  destruct Hs as [Hprov _]. destruct (kahn_start r deps Hok El) as [Hdeps Hinv]. cbv zeta in Hb.
  destruct (kahn _ _ _ _ _) as [order|] eqn:Ek; [|done]. simpl in Hb.
  pose proof (λ a b, wants_ids r a b Hok) as Hids.
  destruct (kahn_sound (dom (byID r)) (wants r) deps Hdeps Hids _ _ _ _ order Hinv Ek) as (Hnd & Hin & Hres).
  pose proof (order_complete (dom (byID r)) (wants r) deps Hdeps Hids order Hnd Hin Hres) as Hc.
  rewrite size_dom in Hc. destruct (Nat.eqb_spec (length order) (size (byID r))) as [E|E]; simpl in Hb; injection Hb as <- <-.
  - rewrite decide_True in Hc by done. destruct Hc as [Hall _]. split; [done|]. split; [done|]. split.
    + intros a cap Ha. apply depends_on_list in Ha; [|done].
      destruct (dependencies_entry r a Hok) as [(caps & Hi & Hk)|[_ Hk]]; rewrite Hk in Ha; [|by apply not_elem_of_nil in Ha].
      specialize (Hprov a caps cap Hi Ha). destruct (providers r cap) as [|b l] eqn:Ep; [done|].
      exists b. apply (ok_cap r Hok). rewrite Ep. left.
    + intros l1 a l2 Ho b Hd. apply (Hres l1 a l2 Ho). by apply wants_depends.
  - rewrite decide_False in Hc by done. split; [by apply (ok_start r Hok)|]. right. split; [done|].
    destruct Hc as (R & _ & Hne & Hk). exists R. split; [done|]. intros a Ha.
    destruct (Hk a Ha) as (b & Hb & Hw). exists b. split; [done|]. by apply wants_depends.
Qed.
End registry.

(** ** Witnesses *)
#[local] Existing Instance sorted_range.

Definition plug (id : string) (caps deps : list string) : PluginDescriptor :=
  {| pd_ID := id; Kind := PluginKindPipeline; pd_Name := id; Description := ""; Version := "v1";
     Capabilities := caps; DependsOn := deps; ConfigSchemaRef := ""; pd_VersionInfo := no_version |}.
Definition register_all (l : list PluginDescriptor) : Registry unit :=
  foldl (λ r d, match Register r d () with Ok r' => r' | Err _ => r end) NewRegistry l.

Lemma register_all_registered l : registered (register_all l).
Proof.
  unfold register_all. assert (H : registered (F := unit) NewRegistry) by constructor. revert H.
  generalize (NewRegistry (F := unit)). induction l as [|d l IH]; intros r Hr; simpl; [done|].
  apply IH. destruct (Register r d ()) eqn:E; [by eapply registered_register|done].
Qed.

Lemma registered_reached r : registered (F := unit) r → reached r.
Proof. induction 1; [constructor|by eapply reached_register|by eapply reached_switch]. Qed.

(** [a] and [b] provide x; [c] needs x; [b] needs y, which [d] provides. *)
Definition four_plugins : Registry unit :=
  register_all [plug "c" ["z"] ["x"]; plug "a" ["x"] []; plug "b" ["x"] ["y"]; plug "d" ["y"] []].
Definition order_of (o : option (Registry unit * option string)) : list string :=
  match o with Some (r, None) => StartupOrder r | _ => [] end.

Lemma graph_terminates_witness : is_Some (BuildDependencyGraph four_plugins).
Proof. apply (graph_terminates four_plugins), registered_reached, register_all_registered. Defined.

Lemma startup_order_exact_witness :
  order_of (BuildDependencyGraph four_plugins) = ["a"; "d"; "b"; "c"] ∧
  NoDup (order_of (BuildDependencyGraph four_plugins)).
Proof.
  split; [vm_compute; reflexivity|].
  destruct (BuildDependencyGraph four_plugins) as [[r' err]|] eqn:E; [|constructor].
  pose proof (startup_order_exact four_plugins r' err (register_all_registered _) E) as Hx.
  destruct err; [constructor|exact (proj1 Hx)].
Defined.

Example cycle_refused :
  snd <$> BuildDependencyGraph (register_all [plug "a" ["x"] ["y"]; plug "b" ["y"] ["x"]]) =
  Some (Some ErrDependencyCycle).
Proof. vm_compute. reflexivity. Qed.

(** Building the graph a second time links every edge again, so a plugin is
    released before all of its providers are out: here [c] starts before [b]. *)
Example rebuilt_order_wrong :
  (r ← fst <$> BuildDependencyGraph four_plugins; Some (order_of (BuildDependencyGraph r))) =
  Some ["a"; "d"; "c"; "b"].
Proof. vm_compute. reflexivity. Qed.
