(* ===== verification/Ratelimit.v ===== *)
(** * The rate limiting plugin (internal/plugins/ratelimit)

    A token bucket per key.  [Handle] reads the clock and then, under the
    plugin's lock, runs [spend]: concurrent requests are a sequence of [spend]s,
    but their clock readings need not come in that order.  Tokens are [float64]
    with Go's rounding.

    Theorems: a full bucket lets exactly [burst] requests through while its
    clock does not advance, refuses the others with 429, and leaves the other
    buckets alone; and a client behind no trusted proxy cannot choose its
    bucket. *)

From Stdlib Require Import SpecFloat.
From S2P Require Import Prelude.
From S2P Require Import GoStrings.
From S2P Require Import Effects.
From S2P Require Import GoTime.
From S2P Require Import GoAny.
From S2P Require Import FloatFacts.
From S2P Require Import Json.
From S2P Require Import GoNet.
From S2P Require Import Token.
From S2P Require Import Authz.
From S2P Require Import Registry.

(** ** Data *)
Record Config := {
  rl_Name : string; RequestsPerMinute : Z; Burst : Z; KeyStrategy : string; HeaderName : string;
  TrustedProxies : list string }.
Record bucket := { tokens : float64; b_last : Z }.
Record Plugin := {
  rl_cfg : Config; trustedCIDRs : list IPNet; buckets : gmap string bucket }.
Record PluginHealth := {
  ph_State : string; ph_Message : string; ph_Details : gmap string any }.

Definition zero_config : Config :=
  {| rl_Name := ""; RequestsPerMinute := 0; Burst := 0; KeyStrategy := ""; HeaderName := "";
     TrustedProxies := [] |}.
Definition New : Plugin := {| rl_cfg := zero_config; trustedCIDRs := []; buckets := ∅ |}.

Definition ratelimit_Descriptor : PluginDescriptor :=
  {| pd_ID := "pipeline:ratelimit"; Kind := PluginKindPipeline; pd_Name := "RateLimit";
     Description := "Rate limiting pipeline plugin"; Version := "v1";
     Capabilities := ["pipeline:ratelimit"]; DependsOn := [];
     ConfigSchemaRef := "plugins/pipeline/ratelimit"; pd_VersionInfo := no_version |}.

(** ** Configuration *)

(** The texts of encoding/json's errors. *)
Class JsonErrors := { marshal_error : any → string; unmarshal_error : string → string }.

Section configure.
Context `{Unicode} `{JsonErrors}.

(** A []string: null elements are empty strings. *)
Definition conv_strings (v : json) : option (list string) :=
  match v with
  | JArr l => mapM (λ x, match x with JStr s => Some s | JNull => Some "" | _ => None end) l
  | _ => None
  end.

Definition rl_fields : list string :=
  ["name"; "requests_per_minute"; "burst"; "key_strategy"; "header_name"; "trusted_proxies"].

Definition decode_config (data : string) : option Config :=
  match parse data with
  | Some (JObj m) =>
      let field k := bound rl_fields k m in
      let '(name, o1) := dec_string (field "name") in
      let '(rpm, o2) := dec_int (field "requests_per_minute") in
      let '(burst, o3) := dec_int (field "burst") in
      let '(strategy, o4) := dec_string (field "key_strategy") in
      let '(header, o5) := dec_string (field "header_name") in
      let '(proxies, o6) := dec_field conv_strings [] (field "trusted_proxies") in
      if o1 && o2 && o3 && o4 && o5 && o6 then
        Some {| rl_Name := name; RequestsPerMinute := rpm; Burst := burst; KeyStrategy := strategy;
                HeaderName := header; TrustedProxies := proxies |}
      else None
  | Some JNull => Some zero_config
  | _ => None
  end.

Definition set_strategy (c : Config) (s : string) : Config :=
  {| rl_Name := rl_Name c; RequestsPerMinute := RequestsPerMinute c; Burst := Burst c;
     KeyStrategy := s; HeaderName := HeaderName c; TrustedProxies := TrustedProxies c |}.

(** The text of [net.ParseCIDR]'s error. *)
Definition cidr_error (s : string) : string := "invalid CIDR address: " +:+ s.

Fixpoint parse_cidrs (l : list string) : res (list IPNet) :=
  match l with
  | [] => Ok []
  | s :: l' =>
      match ParseCIDR s with
      | None => Err ("ratelimit: invalid trusted_proxy CIDR " +:+ Quote s +:+ ": " +:+ cidr_error s)
      | Some n => try ns <- parse_cidrs l' ; Ok (n :: ns)
      end
  end.

Definition Configure (p : Plugin) (cfg : any) : res Plugin :=
  match json_of_any cfg with
  | None => Err ("ratelimit: marshal config: " +:+ marshal_error cfg)
  | Some j =>
      match decode_config (print j) with
      | None => Err ("ratelimit: decode config: " +:+ unmarshal_error (print j))
      | Some out =>
          if RequestsPerMinute out <? 1 then Err "ratelimit: requests_per_minute must be >= 1"
          else if Burst out <? 1 then Err "ratelimit: burst must be >= 1"
          else
            let s := ToLower (TrimSpace (KeyStrategy out)) in
            if negb (existsb (String.eqb s) ["ip"; "principal"; "header"])
            then Err "ratelimit: key_strategy must be one of: ip, principal, header"
            else if String.eqb s "header" && String.eqb (TrimSpace (HeaderName out)) ""
            then Err "ratelimit: header_name is required when key_strategy=header"
            else
              try cidrs <- parse_cidrs (TrustedProxies out) ;
              Ok {| rl_cfg := set_strategy out s; trustedCIDRs := cidrs; buckets := buckets p |}
      end
  end.
End configure.

Definition Health (p : Plugin) : PluginHealth :=
  if (RequestsPerMinute (rl_cfg p) =? 0) || (Burst (rl_cfg p) =? 0) then
    {| ph_State := PluginStateDegraded; ph_Message := "not configured"; ph_Details := ∅ |}
  else
    {| ph_State := PluginStateHealthy; ph_Message := "configured (" +:+ KeyStrategy (rl_cfg p) +:+ ")";
       ph_Details := {[ "buckets" := AInt (Z.of_nat (size (buckets p))) ]} |}.

(** ** Keys *)
Definition firstIP (v : string) : string :=
  let ip := TrimSpace (default "" (head (Split v ","))) in
  match ParseIP ip with Some parsed => IP_String parsed | None => ip end.

Section keys.
Context `{Unicode} `{MapRange}.

(** The first header of the map equal to [key] up to case, in map order. *)
Definition firstHeader (m : gmap string string) (key : string) : string :=
  from_option snd "" (List.find (λ kv, EqualFold kv.1 key) (range m)).

Definition remoteAddrTrusted (p : Plugin) (remoteAddr : string) : bool :=
  let host := match SplitHostPort remoteAddr with Ok (h, _) => h | Err _ => remoteAddr end in
  match ParseIP host with
  | None => false
  | Some ip => existsb (λ n, Contains_ip n ip) (trustedCIDRs p)
  end.

(** The client's address in a forwarded header, when it holds one. *)
Definition forwarded_ip (m : gmap string string) (key : string) : option string :=
  let v := TrimSpace (firstHeader m key) in
  if String.eqb v "" then None
  else let ip := firstIP v in if String.eqb ip "" then None else Some ip.

Definition remote_key (remote : string) : string :=
  if String.eqb remote "" then "anonymous"
  else match SplitHostPort remote with
       | Ok (host, _) => if negb (String.eqb host "") then host
                         else match ParseIP remote with Some ip => IP_String ip | None => "anonymous" end
       | Err _ => match ParseIP remote with Some ip => IP_String ip | None => "anonymous" end
       end.

Definition deriveKey (p : Plugin) (req : Request) (principal : option Principal) : string :=
  let s := KeyStrategy (rl_cfg p) in
  if String.eqb s "principal" then
    match principal with
    | None => "anonymous"
    | Some who => if String.eqb (TrimSpace (Subject who)) "" then "anonymous" else Subject who
    end
  else if String.eqb s "header" then
    let v := TrimSpace (default "" (Headers req !! HeaderName (rl_cfg p))) in
    if String.eqb v "" then "anonymous" else v
  else if String.eqb s "ip" then
    let trusted := negb (bool_decide (trustedCIDRs p = [])) && negb (String.eqb (RemoteAddr req) "")
                   && remoteAddrTrusted p (RemoteAddr req) in
    match (if trusted then
             match forwarded_ip (Headers req) "X-Forwarded-For" with
             | Some ip => Some ip
             | None => forwarded_ip (Headers req) "X-Real-IP"
             end
           else None) with
    | Some ip => ip
    | None => remote_key (RemoteAddr req)
    end
  else "anonymous".

(** ** The bucket *)

(** [Duration.Seconds]. *)
Definition Seconds (d : Z) : float64 :=
  f64_add (f64_of_Z (Z.quot d Second)) (f64_div (f64_of_Z (Z.rem d Second)) (f64_of_Z Second)).

Definition refill (c : Config) (b : bucket) (now : Z) : float64 :=
  let rate := f64_div (f64_of_Z (RequestsPerMinute c)) (f64_of_Z 60) in
  let capacity := f64_of_Z (Burst c) in
  let elapsed := Seconds (TimeSub now (b_last b)) in
  if SFltb (S754_zero false) elapsed then
    let t := f64_add (tokens b) (f64_mul elapsed rate) in
    if SFltb capacity t then capacity else t
  else tokens b.

Definition rate_limited : Decision :=
  {| d_Allow := false; d_StatusCode := 429; d_Headers := ∅; d_Reason := "rate limit exceeded";
     d_Obligations := ∅ |}.

Definition put_bucket (p : Plugin) (key : string) (b : bucket) : Plugin :=
  {| rl_cfg := rl_cfg p; trustedCIDRs := trustedCIDRs p; buckets := <[key := b]> (buckets p) |}.

(** The part of [Handle] under the lock. *)
Definition spend (p : Plugin) (key : string) (now : Z) : Plugin * option Decision :=
  let c := rl_cfg p in
  let b := default {| tokens := f64_of_Z (Burst c); b_last := now |} (buckets p !! key) in
  let t := refill c b now in
  if SFleb (f64_of_Z 1) t
  then (put_bucket p key {| tokens := f64_sub t (f64_of_Z 1); b_last := now |}, None)
  else (put_bucket p key {| tokens := t; b_last := now |}, Some rate_limited).

Context {E : Type → Type} `{!ClockE E}.

Definition ratelimit_Handle (p : Plugin) (req : Request) (principal : option Principal)
    : prog E (Plugin * option Decision) :=
  now <- call Now ;;
  Ret (spend p (deriveKey p req principal) now).
End keys.

(** ** What the limiter guarantees *)
Lemma Seconds_nonpos d : d ≤ 0 → nonpos (Seconds d).
Proof.
  intros Hd. unfold Seconds. replace d with (- (- d)) by lia.
  rewrite Z.quot_opp_l, Z.rem_opp_l by lia. apply f64_add_nonpos.
  - apply f64_of_Z_nonpos. assert (0 ≤ Z.quot (- d) 1000000000) by (apply Z.quot_pos; lia). lia.
  - assert (Hs : ∃ m e, f64_of_Z 1000000000 = S754_finite false m e) by (vm_compute; eauto).
    destruct Hs as (m & e & ->). apply f64_div_nonpos, f64_of_Z_nonpos.
    pose proof (Z.rem_bound_pos (- d) 1000000000 ltac:(lia) ltac:(lia)). lia.
Qed.

(** The clock not having advanced, nothing is added. *)
Lemma refill_stopped c b now : now ≤ b_last b → refill c b now = tokens b.
Proof.
  intros Hn. unfold refill. rewrite nonpos_compare; [done|]. apply Seconds_nonpos. unfold TimeSub. lia.
Qed.

Lemma spend_other p key now k : k ≠ key → buckets (spend p key now).1 !! k = buckets p !! k.
Proof. intros Hk. unfold spend. destruct (SFleb _ _); simpl; by rewrite lookup_insert_ne. Qed.

Lemma spend_cfg p key now :
  rl_cfg (spend p key now).1 = rl_cfg p ∧ trustedCIDRs (spend p key now).1 = trustedCIDRs p.
Proof. unfold spend. by destruct (SFleb _ _). Qed.

(** A bucket that holds [n] whole tokens, last touched at [last]; a bucket that
    does not exist is full. *)
Definition holds (p : Plugin) (key : string) (n last : Z) : Prop :=
  buckets p !! key = Some {| tokens := f64_of_Z n; b_last := last |} ∨
  (buckets p !! key = None ∧ n = Burst (rl_cfg p)).

Lemma spend_holds p key n last now :
  0 ≤ n < 2 ^ 53 → now ≤ last → holds p key n last →
  (spend p key now).2 = (if 1 <=? n then None else Some rate_limited) ∧
  holds (spend p key now).1 key (if 1 <=? n then n - 1 else 0) now.
Proof.
  intros Hn Hnow Hh. unfold spend.
  assert (Ht : refill (rl_cfg p) (default {| tokens := f64_of_Z (Burst (rl_cfg p)); b_last := now |}
                (buckets p !! key)) now = f64_of_Z n).
  { destruct Hh as [->|[-> ->]]; simpl; rewrite refill_stopped; simpl; done || lia. }
  rewrite Ht, f64_ge_1 by done. destruct (1 <=? n) eqn:E; bool_prop; simpl; (split; [done|]); left; simpl;
    rewrite lookup_insert_eq; [by rewrite f64_sub_1 by lia|by replace n with 0 by lia].
Qed.

Section limit.
Context `{Unicode} `{MapRange}.

(** Requests handled one after another: each with its principal and the clock
    reading it came with. *)
Fixpoint handle_all (p : Plugin) (l : list (Request * option Principal * Z))
    : Plugin * list (option Decision) :=
  match l with
  | [] => (p, [])
  | (req, who, now) :: l' =>
      let '(p', d) := spend p (deriveKey p req who) now in
      let '(p'', ds) := handle_all p' l' in (p'', d :: ds)
  end.

Fixpoint descending (last : Z) (l : list (Request * option Principal * Z)) : Prop :=
  match l with
  | [] => True
  | (_, _, now) :: l' => now ≤ last ∧ descending now l'
  end.

(** A request from [host], through no proxy the plugin trusts. *)
Definition from_host (p : Plugin) (host : string) (req : Request) : Prop :=
  host ≠ "" ∧ (∃ port, SplitHostPort (RemoteAddr req) = Ok (host, port)) ∧
  remoteAddrTrusted p (RemoteAddr req) = false.

Lemma from_host_key p host req who :
  KeyStrategy (rl_cfg p) = "ip" → from_host p host req → deriveKey p req who = host.
Proof.
  intros Hs (Hh & (port & Hp) & Ht). unfold deriveKey. rewrite Hs, Ht, andb_false_r. simpl.
  unfold remote_key. destruct (String.eqb_spec (RemoteAddr req) "") as [E|_]; [by rewrite E in Hp|].
  rewrite Hp. by destruct (String.eqb_spec host "").
Qed.

Lemma handle_all_holds p host l : ∀ n last,
  KeyStrategy (rl_cfg p) = "ip" → 0 ≤ n < 2 ^ 53 → holds p host n last → descending last l →
  Forall (λ c, from_host p host c.1.1) l →
  (handle_all p l).2 = replicate (Nat.min (Z.to_nat n) (length l)) None ++
                       replicate (length l - Z.to_nat n) (Some rate_limited) ∧
  ∀ k, k ≠ host → buckets (handle_all p l).1 !! k = buckets p !! k.
Proof.
  revert p. induction l as [|[[req who] now] l IH]; intros p n last Hs Hn Hh Hd Hf; simpl.
  { rewrite Nat.min_0_r. done. }
  destruct Hd as [Hnow Hd]. apply Forall_cons in Hf as [Hq Hf]. simpl in Hq.
  rewrite (from_host_key p host) by done.
  destruct (spend_holds p host n last now Hn Hnow Hh) as [Hdec Hh']. destruct (spend_cfg p host now) as [Hc Ht].
  pose proof (spend_other p host now) as Ho.
  destruct (spend p host now) as [p' d]. cbn [fst snd] in *. subst d.
  destruct (IH p' (if 1 <=? n then n - 1 else 0) now) as [Hds Hk]; [by rewrite Hc|destruct (1 <=? n) eqn:E; bool_prop; lia|done|done| |].
  { eapply Forall_impl; [exact Hf|]. intros c (Hne & Hp & Htr). split; [done|]. split; [done|].
    rewrite <-Htr. unfold remoteAddrTrusted. by rewrite Ht. }
  destruct (handle_all p' l) as [p'' ds]. cbn [fst snd] in *. split; [|intros k Hne; rewrite Hk, Ho; done].
  rewrite Hds. destruct (1 <=? n) eqn:E; bool_prop.
  - replace (Z.to_nat n) with (S (Z.to_nat (n - 1))) by lia. done.
  - replace n with 0 by lia. simpl. by rewrite Nat.sub_0_r.
Qed.

Lemma parse_cidrs_nil cidrs : parse_cidrs [] = Ok cidrs → cidrs = [].
Proof. by intros [= <-]. Qed.

Lemma Configure_ok `{JsonErrors} p0 cfg p : Configure p0 cfg = Ok p →
  1 ≤ RequestsPerMinute (rl_cfg p) ∧ 1 ≤ Burst (rl_cfg p) ∧
  KeyStrategy (rl_cfg p) ∈ ["ip"; "principal"; "header"] ∧ buckets p = buckets p0.
Proof.
  unfold Configure. destruct (json_of_any cfg) as [j|]; [|done].
  destruct (decode_config (print j)) as [out|]; [|done].
  destruct (RequestsPerMinute out <? 1) eqn:E1; [done|]. destruct (Burst out <? 1) eqn:E2; [done|].
  destruct (negb _) eqn:E3; [done|]. destruct (_ && _); [done|].
  intros (cidrs & _ & [= <-])%res_bind_ok. bool_prop. simpl. split; [done|]. split; [done|]. split; [|done].
  apply existsb_true_iff in E3 as (x & Hx & ->%String.eqb_eq). done.
Qed.

(** C25: the burst limit holds, per client.  With a configured limiter keyed by
    address, take any requests from one host that come through no trusted proxy
    -- whatever their ports, headers and principals -- while the clock does not
    advance: from a full bucket exactly the first [burst] of them pass and every
    other one is refused with status 429; and no other client's bucket changes.
    ([burst] is below [2^53], where [float64] counts exactly.) *)
Theorem burst_bound `{JsonErrors} p0 cfg p host last l
    (Hc : Configure p0 cfg = Ok p) (Hs : KeyStrategy (rl_cfg p) = "ip")
    (Hb : Burst (rl_cfg p) < 2 ^ 53) (Hfull : holds p host (Burst (rl_cfg p)) last)
    (Hd : descending last l) (Hf : Forall (λ c, from_host p host c.1.1) l) :
  let burst := Z.to_nat (Burst (rl_cfg p)) in
  (1 ≤ burst)%nat ∧
  (handle_all p l).2 = replicate (Nat.min burst (length l)) None ++
                       replicate (length l - burst) (Some rate_limited) ∧
  d_Allow rate_limited = false ∧ d_StatusCode rate_limited = 429 ∧
  ∀ k, k ≠ host → buckets (handle_all p l).1 !! k = buckets p !! k.
Proof.
  apply Configure_ok in Hc as (_ & Hb1 & _ & _). cbv zeta. split; [lia|].
  destruct (handle_all_holds p host l (Burst (rl_cfg p)) last) as [Hds Hk]; [done|lia|done..|]. done.
Qed.
End limit.

(** ** Witness: three requests in one instant against a burst of two *)
#[local] Existing Instance ascii_unicode.
#[local] Existing Instance sorted_range.
#[local] Instance json_errors : JsonErrors := {| marshal_error := λ _, ""; unmarshal_error := λ _, "" |}.

Definition rl_raw : any :=
  AMap [("requests_per_minute", AInt 60); ("burst", AInt 2); ("key_strategy", AStr "IP ")].
Definition rl_request (port : string) (h : gmap string string) : Request :=
  {| Protocol := "https"; Method := "GET"; rq_Path := "/"; Headers := h; Cookies := ∅; Body := "";
     GraphQLOperation := ""; GraphQLOperationType := ""; GRPCService := ""; GRPCMethod := "";
     RemoteAddr := "203.0.113.9:" +:+ port |}.
Definition rl_calls : list (Request * option Principal * Z) :=
  [(rl_request "1" ∅, None, 5); (rl_request "2" {[ "X-Forwarded-For" := "1.2.3.4" ]}, None, 5);
   (rl_request "3" ∅, None, 4)].
Definition rl_plugin : Plugin := match Configure New rl_raw with Ok p => p | Err _ => New end.

Lemma burst_bound_witness :
  Configure New rl_raw = Ok rl_plugin ∧
  (handle_all rl_plugin rl_calls).2 = [None; None; Some rate_limited].
Proof.
  assert (Hc : Configure New rl_raw = Ok rl_plugin) by (vm_compute; reflexivity).
  split; [exact Hc|].
  refine (proj1 (proj2 (burst_bound New rl_raw rl_plugin "203.0.113.9" 5 rl_calls Hc _ _ _ _ _))).
  - vm_compute. reflexivity.
  - vm_compute. reflexivity.
  - right. split; vm_compute; reflexivity.
  - simpl. lia.
  - unfold rl_calls. forall_each ltac:(split; [discriminate|split; [eexists; vm_compute; reflexivity|vm_compute; reflexivity]]).
Defined.

(** A request that read the clock before another one but takes the lock after
    it moves the bucket's clock back, and the time between the two readings is
    credited again: at one token a second, the requests below come within one
    second and four pass a burst of two. *)
Example clock_moved_back :
  (handle_all rl_plugin
     [(rl_request "1" ∅, None, 0); (rl_request "2" ∅, None, Second);
      (rl_request "3" ∅, None, 0); (rl_request "4" ∅, None, Second)]).2 =
  [None; None; None; None].
Proof. vm_compute. reflexivity. Qed.
