(* ===== verification/ProxyServer.v ===== *)
(** * The proxy's HTTP server (internal/proxy/httpserver)

    Dispatch, the route table, the handlers and the admin report.  Each handler
    is the whole handler: what it records, writes, redirects or forwards are
    calls.  [serve] is the multiplexer with its catch-all; the redirect
    net/http's ServeMux itself answers to a path that is not clean is not
    modelled, so [hr_Path] is a clean path.  The engine of a route is a
    [DefaultEngine], the only implementation there is, and it never fails: the
    branches for an engine error cannot be reached. *)

From S2P Require Import Prelude.
From S2P Require Import GoStrings.
From S2P Require Import Effects.
From S2P Require Import GoAny.
From S2P Require Import Json.
From S2P Require Import Authz.
From S2P Require Import AuthzFacts.
From S2P Require Import AuthzHttp.
From S2P Require Import ProxyConfig.
From S2P Require Import Registry.

(** ** Data *)

(** What the policy of a route's engine reports for the admin page. *)
Variant policy_status (E : Type → Type) :=
| NoPolicy
| NoStatus
| WithStatus (loaded : E bool) (path : E string).
Arguments NoPolicy {E}.
Arguments NoStatus {E}.
Arguments WithStatus {E} loaded path.

Record Route (E : Type → Type) := {
  rt_Config : RouteConfig; rt_Engine : DefaultEngine E; rt_Policy : policy_status E }.
Arguments rt_Config {E}.
Arguments rt_Engine {E}.
Arguments rt_Policy {E}.

Record Server (E : Type → Type) (F : Type) := {
  sv_cfg : ProxyConfig; sv_routes : list (Route E); sv_registry : option (Registry F);
  sv_metricsHandler : option (E unit); sv_metrics : bool }.
Arguments sv_cfg {E F}.
Arguments sv_routes {E F}.
Arguments sv_registry {E F}.
Arguments sv_metricsHandler {E F}.
Arguments sv_metrics {E F}.

Class RouteMetricsE (E : Type → Type) := ProxyRouteOutcome : string → string → E unit.
(** [http.Redirect]: location and status. *)
Class RedirectE (E : Type → Type) := HTTPRedirect : string → Z → E unit.

(** ** The route table *)
Definition host_only (host : string) : string :=
  match cut ":" host with Some (h, _) => h | None => host end.

Definition hostMatches (hosts : list string) (host hostOnly : string) : bool :=
  match hosts with
  | [] => true
  | _ => existsb (λ h, String.eqb h host || String.eqb h hostOnly) hosts
  end.

Definition pathMatches (path prefix : string) : bool :=
  String.eqb prefix "" || String.eqb prefix "/" || String.eqb path prefix
  || HasPrefix path (prefix +:+ "/").

Section server.
Context {E : Type → Type} {F : Type}.

Definition eligible (host path : string) (rt : Route E) : bool :=
  hostMatches (Hosts (rt_Config rt)) host (host_only host)
  && pathMatches path (PathPrefix (rt_Config rt)).
Definition prefix_len (rt : Route E) : Z := len (PathPrefix (rt_Config rt)).

(** [best] is -1 in the source while there is no match. *)
Definition better (host path : string) (best : option (Route E)) (rt : Route E) : option (Route E) :=
  if eligible host path rt then
    if from_option prefix_len (-1) best <? prefix_len rt then Some rt else best
  else best.

Definition matchRoute (s : Server E F) (host path : string) : option (Route E) :=
  foldl (better host path) None (sv_routes s).

(** ** Handlers *)
Context `{UnicodeDigit : Graphql.UnicodeDigit} `{Unicode} `{MapRange}.
Context `{!ProxyMetricsE E} `{!RouteMetricsE E} `{!ForwardE E} `{!WriteE E} `{!RedirectE E}.

Definition recordOutcome (s : Server E F) (route outcome : string) : prog E unit :=
  if sv_metrics s then call (ProxyRouteOutcome route outcome) else Ret tt.

Definition newline : string := str (of_byte 10).

(** [http.Error]. *)
Definition http_Error (msg : string) (status : Z) : prog E unit :=
  call (WriteHTTP status [("Content-Type", "text/plain; charset=utf-8");
                          ("X-Content-Type-Options", "nosniff")] (msg +:+ newline)).

Definition write_ok (_ : http_request) : prog E unit :=
  call (WriteHTTP 200 [("Content-Type", "text/plain")] "ok").
Definition handleHealthz := write_ok.
Definition handleLivez := write_ok.
Definition handleReadyz := write_ok.

Definition handleProxy (s : Server E F) (r : http_request) : prog E unit :=
  match matchRoute s (hr_Host r) (hr_Path r) with
  | None =>
      recordOutcome s "" "route_miss" ;;;
      http_Error (error_body "no route") 404
  | Some rt =>
      let req := RequestFromHTTP r in
      let id := rc_ID (rt_Config rt) in
      resp <- Handle (rt_Engine rt) req ;;
      if negb (String.eqb (rp_RedirectTo resp) "") then
        recordOutcome s id "auth_failure" ;;;
        call (HTTPRedirect (rp_RedirectTo resp) 302)
      else if Allow resp && negb (String.eqb (rc_UpstreamURL (rt_Config rt)) "") then
        recordOutcome s id "allow" ;;;
        ProxyToUpstream r (rc_UpstreamURL (rt_Config rt)) (UpstreamHeaders resp) (Body req) ;;;
        Ret tt
      else
        recordOutcome s id "auth_failure" ;;;
        WriteResponse resp
  end.

(** ** The admin report *)
Definition strs_any (l : list string) : any := match l with [] => ANil | _ => AStrs l end.

(** [[]string(rt.Config.Hosts)] of a route that lists no hosts is nil. *)
Definition route_summary (rt : Route E) : any :=
  let c := rt_Config rt in
  AMap [("id", AStr (rc_ID c)); ("hosts", strs_any (Hosts c)); ("path_prefix", AStr (PathPrefix c));
        ("upstream_url", AStr (rc_UpstreamURL c)); ("require_auth", ABool (rc_RequireAuth c));
        ("unauthenticated_mode", AStr (UnauthenticatedMode c)); ("connector_id", AStr (ConnectorID c))].

Definition proxyConfigSummary (s : Server E F) : any :=
  AMap [("auth_url", AStr (AuthURL (sv_cfg s))); ("cookie_name", AStr (pc_CookieName (sv_cfg s)));
        ("http_port", AStr (pc_HTTPPort (sv_cfg s))); ("routes", AList (route_summary <$> sv_routes s))].

Definition plugin_order (r : Registry F) : list string :=
  match StartupOrder r with [] => AllPluginIDs r | l => l end.

(** A nil slice when there is no registry or nothing to list. *)
Definition list_any (l : list any) : any := match l with [] => ANil | _ => AList l end.

Definition plugin_entry (x : Registration F) : any :=
  let d := Descriptor x in
  AMap [("id", AStr (pd_ID d)); ("kind", AStr (Kind d)); ("name", AStr (pd_Name d));
        ("enabled", ABool (Enabled x)); ("state", AStr (rg_State x))].
Definition pluginsList (s : Server E F) : any :=
  match sv_registry s with
  | None => ANil
  | Some r => list_any (omap (λ id, plugin_entry <$> RegistrationFor r id) (plugin_order r))
  end.

Definition health_entry (id : string) (x : Registration F) : any :=
  AMap ([("plugin_id", AStr id); ("state", AStr (rg_State x))]
        ++ from_option (λ e, [("error", AStr e)]) [] (rg_Error x)).
Definition pluginHealthList (s : Server E F) : any :=
  match sv_registry s with
  | None => ANil
  | Some r => list_any (omap (λ id, health_entry id <$> RegistrationFor r id) (plugin_order r))
  end.

Definition bundle_entry (rt : Route E) : prog E any :=
  let entry l := AMap (("route", AStr (rc_ID (rt_Config rt))) :: l) in
  match rt_Policy rt with
  | NoPolicy => Ret (entry [("loaded", ABool false); ("message", AStr "no policy engine")])
  | NoStatus => Ret (entry [("loaded", ABool false); ("message", AStr "engine does not report status")])
  | WithStatus loaded path =>
      l <- call loaded ;;
      p <- call path ;;
      Ret (entry [("loaded", ABool l); ("bundle_path", AStr p)])
  end.
Fixpoint bundle_entries (l : list (Route E)) : prog E (list any) :=
  match l with
  | [] => Ret []
  | rt :: l' => x <- bundle_entry rt ;; xs <- bundle_entries l' ;; Ret (x :: xs)
  end.
Definition policyBundleStatus (s : Server E F) : prog E any :=
  l <- bundle_entries (sv_routes s) ;;
  Ret (AMap [("routes", AList l)]).

(** [json.NewEncoder(w).Encode(v)]. *)
Definition encode_json (v : any) : string :=
  match json_of_any v with Some j => print j +:+ newline | None => "" end.

Definition header_get (r : http_request) (key : string) : string :=
  default "" (hr_Header r !! key ≫= head).

Definition handleAdmin (s : Server E F) (r : http_request) : prog E unit :=
  if negb (String.eqb (header_get r "X-Admin-Secret") (pc_AdminSecret (sv_cfg s)))
  then call (WriteHTTP 403 [] "")
  else
    bundle <- policyBundleStatus s ;;
    call (WriteHTTP 200 [("Content-Type", "application/json")]
            (encode_json (AMap [("config_summary", proxyConfigSummary s); ("plugins", pluginsList s);
                                ("plugin_health", pluginHealthList s); ("policy_bundle", bundle)]))).

(** ** The multiplexer *)

(** The pattern [GET path]; it serves HEAD as well. *)
Definition get_pattern (path : string) (r : http_request) : bool :=
  existsb (String.eqb (hr_Method r)) ["GET"; "HEAD"] && String.eqb (hr_Path r) path.

Definition serve (s : Server E F) (r : http_request) : prog E unit :=
  if get_pattern "/healthz" r then handleHealthz r
  else if get_pattern "/readyz" r then handleReadyz r
  else if get_pattern "/livez" r then handleLivez r
  else if negb (String.eqb (pc_AdminSecret (sv_cfg s)) "") && get_pattern "/admin" r then handleAdmin s r
  else match sv_metricsHandler s with
       | Some h => if get_pattern "/metrics" r then call h else handleProxy s r
       | None => handleProxy s r
       end.

Definition NewWithRoutes (cfg : ProxyConfig) (routes : list (Route E)) (registry : option (Registry F))
    (metricsHandler : option (E unit)) : Server E F :=
  {| sv_cfg := cfg; sv_routes := routes; sv_registry := registry;
     sv_metricsHandler := metricsHandler; sv_metrics := false |}.
Definition SetMetrics (s : Server E F) (m : bool) : Server E F :=
  {| sv_cfg := sv_cfg s; sv_routes := sv_routes s; sv_registry := sv_registry s;
     sv_metricsHandler := sv_metricsHandler s; sv_metrics := m |}.

(** [New]: one route, from the legacy fields. *)
Definition legacy_route (cfg : ProxyConfig) : RouteConfig :=
  {| rc_ID := "default"; Hosts := []; PathPrefix := AuthConfig.or_str (ProxyPathPrefix cfg) "/";
     rc_UpstreamURL := UpstreamURL cfg; rc_RequireAuth := false;
     UnauthenticatedMode := UnauthModeAPI401; LoginRedirectURL := ""; ConnectorID := "";
     rc_PolicyBundlePath := "" |}.
Definition NewServer (cfg : ProxyConfig) (engine : DefaultEngine E) (p : policy_status E)
    (registry : option (Registry F)) (metricsHandler : option (E unit)) : Server E F :=
  NewWithRoutes cfg [{| rt_Config := legacy_route cfg; rt_Engine := engine; rt_Policy := p |}]
    registry metricsHandler.
End server.
