(* ===== verification/ProxyClient.v ===== *)
(** * The proxy as a client of the auth server (internal/proxy)

    Session resolution over HTTP (authclient.go), the principal made of the
    answer (resolver.go), the headers built from a configured claim mapping
    (headers.go) and the deny body (response.go).  An HTTP exchange of the
    client is an external call that answers the status and the body, or fails. *)

From S2P Require Import Prelude.
From S2P Require Import GoStrings.
From S2P Require Import Effects.
From S2P Require Import GoTime.
From S2P Require Import GoAny.
From S2P Require Import Json.
From S2P Require Import Session.
From S2P Require Import GoUrl.
From S2P Require Import Token.
From S2P Require Import Authz.
From S2P Require Import AuthzHttp.
From S2P Require Import ProxyConfig.

(** ** The auth client *)
Record ResolveResponse := {
  rr_AccessToken : string; rr_Claims : claims; rr_TenantContext : claims }.
Record AuthClient := { baseURL : string; ac_cookieName : string }.

Definition NewAuthClient (base cookieName : string) : AuthClient :=
  {| baseURL := TrimSuffix base "/"; ac_cookieName := cookieName |}.

(** A GET with these headers. *)
Class HttpDoE (E : Type → Type) := HttpDo : string → list (string * string) → E (res (Z * string)).

Section client.
Context `{Unicode} {E : Type → Type} `{!HttpDoE E}.

(** The text of encoding/json's error for a body. *)
Context (json_error : string → string).

Definition resolve_fields : list string := ["access_token"; "claims"; "tenant_context"].

(** [json.NewDecoder(body).Decode(&out)]: the first value of the body. *)
Definition decode_resolve (body : string) : res ResolveResponse :=
  match parse_first body with
  | Some (JObj m) =>
      let '(t, o1) := dec_string (bound resolve_fields "access_token" m) in
      let '(c, o2) := dec_claims (bound resolve_fields "claims" m) in
      let '(tc, o3) := dec_claims (bound resolve_fields "tenant_context" m) in
      if o1 && o2 && o3
      then Ok {| rr_AccessToken := t; rr_Claims := c; rr_TenantContext := tc |}
      else Err (json_error body)
  | Some JNull => Ok {| rr_AccessToken := ""; rr_Claims := None; rr_TenantContext := None |}
  | _ => Err (json_error body)
  end.

Definition resolve_url (c : AuthClient) (connectorID : string) : string :=
  baseURL c +:+ "/internal/resolve"
  +:+ (if String.eqb connectorID "" then "" else "?connector=" +:+ QueryEscape connectorID).
Definition cookie_header (c : AuthClient) (sessionCookie : string) : list (string * string) :=
  if String.eqb sessionCookie "" then [] else [("Cookie", ac_cookieName c +:+ "=" +:+ sessionCookie)].

Definition ResolveConnector (c : AuthClient) (sessionCookie connectorID : string)
    : prog E (res (option ResolveResponse)) :=
  match Parse (resolve_url c connectorID) with
  | Err e => Ret (Err e)
  | Ok _ =>
      r <- call (HttpDo (resolve_url c connectorID) (cookie_header c sessionCookie)) ;;
      Ret match r with
          | Err e => Err e
          | Ok (status, body) =>
              if status =? 401 then Ok None
              else if negb (status =? 200) then
                Err ("auth resolve: status " +:+ Itoa status +:+ ": " +:+ body)
              else match decode_resolve body with Ok out => Ok (Some out) | Err e => Err e end
          end
  end.
Definition Resolve (c : AuthClient) (sessionCookie : string) : prog E (res (option ResolveResponse)) :=
  ResolveConnector c sessionCookie "".

(** [SetCookieFromResponse]: the destination's header values, the source's
    cookies added. *)
Definition SetCookieFromResponse (dst src : gmap string (list string)) : gmap string (list string) :=
  match default [] (src !! "Set-Cookie") with
  | [] => dst
  | l => <["Set-Cookie" := default [] (dst !! "Set-Cookie") ++ l]> dst
  end.

(** ** The principal *)
Definition stringsFromAnySlice (v : any) : list string :=
  match v with AStrs l => l | AList l => strings_of l | _ => [] end.

Definition extractRoles (c : claims) : list string :=
  match (m ← as_map (claim "realm_access" c);
         match stringsFromAnySlice (map_index "roles" m) with [] => None | l => Some l end) with
  | Some roles => roles
  | None => stringsFromAnySlice (claim "roles" c)
  end.

Definition normalizeClaims (c : claims) : claims :=
  match c with
  | None => None
  | Some m => Some match extractRoles c with [] => m | l => <["roles" := AStrs l]> m end
  end.

(** The zero [time.Time] when there is no usable [exp]. *)
Definition principal_exp (c : gmap string any) : Z :=
  match c !! "exp" with
  | Some (AFloat f) => TimeUnix (f64_trunc f)
  | Some (AInt z) => TimeUnix z
  | _ => zero_time
  end.

Definition resolveResponseToPrincipal (r : ResolveResponse) : Principal :=
  let c := default ∅ (normalizeClaims (rr_Claims r)) in
  {| Subject := default "" (as_string (claim "sub" (Some c))); Scopes := [];
     Roles := extractRoles (Some c); p_Claims := Some c; p_ExpiresAt := principal_exp c;
     p_AccessToken := rr_AccessToken r; p_TenantContext := rr_TenantContext r |}.

Record AuthPrincipalResolver := {
  Client : AuthClient; CookieName : string; apr_ConnectorID : string }.

Definition resolver_Resolve (a : AuthPrincipalResolver) (req : Request)
    : prog E (res (option Principal)) :=
  r <- ResolveConnector (Client a) (default "" (Cookies req !! CookieName a)) (apr_ConnectorID a) ;;
  Ret match r with
      | Err e => Err e
      | Ok None => Ok None
      | Ok (Some resp) => Ok (Some (resolveResponseToPrincipal resp))
      end.
End client.

(** ** Headers from a claim mapping *)

(** The value at the end of a path of keys. *)
Fixpoint walk (m : string → option any) (parts : list string) : option any :=
  match parts with
  | [] => None
  | [p] => m p
  | p :: rest =>
      match m p with
      | Some (AMap m') => walk (λ k, assoc k m') rest
      | _ => None
      end
  end.
Definition claim_path (c : gmap string any) (path : string) : option any :=
  if String.eqb path "" then None else walk (λ k, c !! k) (Split path ".").

Definition getClaim (c : gmap string any) (path : string) : string :=
  match claim_path c path with Some (AStr s) => s | _ => "" end.
Definition getClaimSlice (c : gmap string any) (path : string) : list string :=
  match claim_path c path with
  | Some (AList l) => strings_of l
  | Some (AStrs l) => l
  | _ => []
  end.

Definition set_list (k : string) (l : list string) (h : gmap string string) : gmap string string :=
  match l with [] => h | _ => <[k := Join l ","]> h end.

Definition is_admin (cfg : ProxyConfig) (c : gmap string any) : bool :=
  negb (String.eqb (HeaderAdminRole cfg) "")
  && existsb (λ r, String.eqb r (HeaderAdminRole cfg) || String.eqb r "administrator")
       (getClaimSlice c (HeaderRolesClaim cfg)).

Definition BuildUpstreamHeaders (cfg : ProxyConfig) (accessToken : string) (cl tenant : claims)
    : gmap string string :=
  let h := if String.eqb accessToken "" then ∅
           else <["Authorization" := "Bearer " +:+ accessToken]> ∅ in
  match cl with
  | None => h
  | Some c =>
      let h := set_if "X-User-Id" (getClaim c (HeaderUserIDClaim cfg)) h in
      let h := set_if "X-User-Email" (getClaim c (HeaderEmailClaim cfg)) h in
      let h := set_if "X-User-Full-Name" (getClaim c (HeaderNameClaim cfg)) h in
      let h := set_if "X-User-Preferred-Username" (getClaim c (HeaderPreferredUsernameClaim cfg)) h in
      let h := set_list "X-Roles" (getClaimSlice c (HeaderRolesClaim cfg)) h in
      let h := set_list "X-Groups" (getClaimSlice c (HeaderGroupsClaim cfg)) h in
      let h := <["X-Is-Admin" := if is_admin cfg c then "true" else "false"]> h in
      let h := set_if "X-Tenant-Id" (claim_str "tenant_id" tenant) h in
      set_if "X-Tenant-Id" (getClaim c (HeaderTenantIDClaim cfg)) h
  end.

(** [CopyHeaders], in the order the map is walked. *)
Definition CopyHeaders `{MapRange} (header : gmap string (list string)) (h : gmap string string)
    : gmap string (list string) :=
  foldl (λ hd kv, header_set hd kv.1 kv.2) header (range h).

(** ** Deny bodies *)
Definition DenyBody (message : string) : string :=
  let bs := str backslash in
  let msg := ReplaceAll message bs (bs +:+ bs) in
  let msg := ReplaceAll msg (str dquote) (bs +:+ str dquote) in
  print (JObj [("errors", JArr [JObj [("message", JStr msg)]])]).
Definition WriteDenyResponse {E : Type → Type} `{!WriteE E} (statusCode : Z) (message : string) : prog E unit :=
  call (WriteHTTP statusCode [("Content-Type", "application/json")] (DenyBody message)).
