(* ===== verification/ProxyServerFacts.v ===== *)
(** * What the proxy's server guarantees

    The route chosen is the first of the longest matching ones; a request is
    forwarded only to that route's upstream and only when the route's engine
    allowed it; the admin report needs the secret. *)

From S2P Require Import Prelude.
From S2P Require Import GoStrings.
From S2P Require Import Effects.
From S2P Require Import GoAny.
From S2P Require Import Json.
From S2P Require Import Graphql.
From S2P Require Import Token.
From S2P Require Import Authz.
From S2P Require Import AuthzFacts.
From S2P Require Import AuthzHttp.
From S2P Require Import ProxyConfig.
From S2P Require Import Registry.
From S2P Require Import ProxyServer.

Section routes.
Context {E : Type → Type} {F : Type}.

(** The route serves this host and path: no host list or one that has the host,
    with or without its port; and the prefix is the path, or is followed by a
    slash in it. *)
Definition serves (rt : Route E) (host path : string) : Prop :=
  let c := rt_Config rt in
  (Hosts c = [] ∨ host ∈ Hosts c ∨ host_only host ∈ Hosts c) ∧
  (PathPrefix c = "" ∨ PathPrefix c = "/" ∨ path = PathPrefix c ∨
   ∃ rest, path = PathPrefix c +:+ "/" +:+ rest).

Lemma eligible_serves host path (rt : Route E) : eligible host path rt = true ↔ serves rt host path.
Proof.
  unfold eligible, serves. cbv zeta. rewrite andb_true_iff. unfold pathMatches.
  rewrite !orb_true_iff, !String.eqb_eq, HasPrefix_spec. setoid_rewrite app_assoc_str.
  assert (Hh : hostMatches (Hosts (rt_Config rt)) host (host_only host) = true ↔
    Hosts (rt_Config rt) = [] ∨ host ∈ Hosts (rt_Config rt) ∨ host_only host ∈ Hosts (rt_Config rt)).
  { unfold hostMatches. destruct (Hosts (rt_Config rt)) as [|h l] eqn:El; [naive_solver|]. rewrite <-El.
    rewrite existsb_true_iff. setoid_rewrite orb_true_iff. setoid_rewrite String.eqb_eq. split.
    - intros (x & Hx & [<-|<-]); auto.
    - intros [Hn|[Hx|Hx]]; [congruence|eauto..]. }
  rewrite Hh. tauto.
Qed.

(** The reference: among the routes that serve the request, the first of those
    with the longest prefix. *)
Definition longest_first (routes : list (Route E)) (host path : string) (o : option (Route E)) : Prop :=
  match o with
  | None => ∀ rt, rt ∈ routes → ¬ serves rt host path
  | Some rt => ∃ l1 l2, routes = l1 ++ rt :: l2 ∧ serves rt host path ∧
      (∀ x, x ∈ l1 → serves x host path → prefix_len x < prefix_len rt) ∧
      (∀ x, x ∈ l2 → serves x host path → prefix_len x ≤ prefix_len rt)
  end.

Lemma prefix_len_nonneg (rt : Route E) : 0 ≤ prefix_len rt.
Proof. unfold prefix_len, len. lia. Qed.

Lemma matchRoute_longest routes host path :
  longest_first routes host path (foldl (better host path) None routes).
Proof.
  induction routes as [|x l IH] using rev_ind; [intros rt; set_solver|].
  rewrite foldl_app. cbn [foldl]. unfold better at 1. destruct (eligible host path x) eqn:Ex.
  - apply eligible_serves in Ex. destruct (foldl _ None l) as [b|]; cbn [from_option].
    + destruct IH as (l1 & l2 & -> & Hb & H1 & H2). destruct (prefix_len b <? prefix_len x) eqn:El; bool_prop.
      * exists (l1 ++ b :: l2), []. split; [done|]. split; [done|]. split; [|set_solver].
        intros y [Hy|[->|Hy]%elem_of_cons]%elem_of_app Hs; [specialize (H1 y Hy Hs); lia|done|specialize (H2 y Hy Hs); lia].
      * exists l1, (l2 ++ [x]). split; [by rewrite <-(assoc_L (++))|]. split; [done|]. split; [done|].
        intros y [Hy|Hy]%elem_of_app Hs; [by apply H2|]. apply list_elem_of_singleton in Hy as ->. lia.
    + pose proof (prefix_len_nonneg x). rewrite (proj2 (Z.ltb_lt _ _)) by lia.
      exists l, []. split; [done|]. split; [done|]. split; [|set_solver]. intros y Hy Hs. by apply IH in Hs.
  - assert (Hx : ¬ serves x host path) by (intros Hs%eligible_serves; congruence).
    destruct (foldl _ None l) as [b|].
    + destruct IH as (l1 & l2 & -> & Hb & H1 & H2). exists l1, (l2 ++ [x]).
      split; [by rewrite <-(assoc_L (++))|]. split; [done|]. split; [done|].
      intros y [Hy|Hy]%elem_of_app Hs; [by apply H2|]. by apply list_elem_of_singleton in Hy as ->.
    + intros rt [Hr|Hr]%elem_of_app; [by apply IH|]. by apply list_elem_of_singleton in Hr as ->.
Qed.

(** Two splits of a list at routes that beat everything around them agree. *)
Lemma longest_first_unique routes host path o o' :
  longest_first routes host path o → longest_first routes host path o' → o = o'.
Proof.
  destruct o as [a|], o' as [b|]; simpl; [|intros (l1 & l2 & -> & Hs & _) Hn; exfalso; eapply Hn; [|done]; set_solver
    |intros Hn (l1 & l2 & -> & Hs & _); exfalso; eapply Hn; [|done]; set_solver|done].
  intros (l1 & l2 & -> & Ha & H1 & H2) (m1 & m2 & Heq & Hb & G1 & G2).
  apply app_eq_inv in Heq as [(k & -> & Hk)|(k & -> & Hk)]; destruct k as [|z k]; simpl in *; simplify_eq; try done.
  - specialize (H1 z ltac:(set_solver) Hb). specialize (G2 a ltac:(set_solver) Ha). lia.
  - specialize (G1 z ltac:(set_solver) Ha). specialize (H2 b ltac:(set_solver) Hb). lia.
Qed.

(** C37: the route table's scan is the longest-prefix match: it answers a route
    exactly when that route serves the host and the path, every route before it
    that does has a shorter prefix, and every one after it has no longer one; and
    it answers none exactly when no route serves the request. *)
Theorem match_route_spec (s : Server E F) host path o :
  matchRoute s host path = o ↔ longest_first (sv_routes s) host path o.
Proof.
  split; [intros <-; apply matchRoute_longest|].
  intros Ho. eapply longest_first_unique; [apply matchRoute_longest|done].
Qed.
End routes.

Section handlers.
Context {E : Type → Type} {F : Type}.
Context `{UnicodeDigit} `{Unicode} `{MapRange}.
Context `{!ProxyMetricsE E} `{!RouteMetricsE E} `{!ForwardE E} `{!WriteE E} `{!RedirectE E}.

Definition outcome (s : Server E F) (route what : string) : list (event E) :=
  if sv_metrics s then [Ev (ProxyRouteOutcome route what) tt] else [].

Lemma recordOutcome_exec (s : Server E F) route what tr x :
  exec (recordOutcome s route what) tr x → tr = outcome s route what.
Proof.
  unfold recordOutcome, outcome. destruct (sv_metrics s); [|by intros [-> _]].
  intros ([] & t & -> & [-> _]). done.
Qed.

(** How [handleProxy] ends a request its route's engine answered with [resp]. *)
Inductive proxied (s : Server E F) (r : http_request) (rt : Route E) (resp : Response)
    : list (event E) → Prop :=
| to_login : rp_RedirectTo resp ≠ "" →
    proxied s r rt resp (outcome s (rc_ID (rt_Config rt)) "auth_failure" ++
                         [Ev (HTTPRedirect (rp_RedirectTo resp) 302) tt])
| to_upstream tail :
    rp_RedirectTo resp = "" → Allow resp = true → rc_UpstreamURL (rt_Config rt) ≠ "" →
    tail = [] ∨ (∃ fw, tail = [Ev (Forward fw) tt] ∧
      forwards r (rc_UpstreamURL (rt_Config rt)) (UpstreamHeaders resp) (read_body (hr_Body r)) fw) →
    proxied s r rt resp (outcome s (rc_ID (rt_Config rt)) "allow" ++ tail)
| refused st hs :
    rp_RedirectTo resp = "" → Allow resp = false ∨ rc_UpstreamURL (rt_Config rt) = "" →
    proxied s r rt resp (outcome s (rc_ID (rt_Config rt)) "auth_failure" ++
                         [Ev (WriteHTTP st hs (rp_Body resp)) tt]).

Lemma handleProxy_exec (s : Server E F) r tr :
  exec (handleProxy s r) tr tt →
  match matchRoute s (hr_Host r) (hr_Path r) with
  | None => ∃ hs body, tr = outcome s "" "route_miss" ++ [Ev (WriteHTTP 404 hs body) tt]
  | Some rt => ∃ resp th tail, tr = th ++ tail ∧
      exec (Handle (rt_Engine rt) (RequestFromHTTP r)) th resp ∧ proxied s r rt resp tail
  end.
Proof.
  unfold handleProxy. destruct (matchRoute s (hr_Host r) (hr_Path r)) as [rt|]; intros Hx.
  - cbv zeta in Hx. apply exec_bind in Hx as (resp & th & tail & -> & Hh & Hx). exists resp, th, tail.
    split; [done|]. split; [done|].
    destruct (String.eqb_spec (rp_RedirectTo resp) "") as [Er|Er]; cbn [negb] in Hx.
    + destruct (Allow resp && _) eqn:Ea.
      * apply andb_true_iff in Ea as [Ha Hu]. bool_prop.
        apply exec_bind in Hx as (x & t1 & t2 & -> & ->%recordOutcome_exec & Hx).
        apply exec_bind in Hx as (err & t3 & t4 & -> & Hp & [-> _]). rewrite app_nil_r.
        apply to_upstream; [done..|]. rewrite <-RequestFromHTTP_body. by eapply ProxyToUpstream_exec.
      * apply exec_bind in Hx as (x & t1 & t2 & -> & ->%recordOutcome_exec & ([] & t3 & -> & [-> _])).
        apply refused; [done|]. apply andb_false_iff in Ea as [Ha|Hu]; [by left|right; by bool_prop].
    + apply exec_bind in Hx as (x & t1 & t2 & -> & ->%recordOutcome_exec & ([] & t3 & -> & [-> _])).
      by apply to_login.
  - apply exec_bind in Hx as (x & t1 & t2 & -> & ->%recordOutcome_exec & ([] & t3 & -> & [-> _])). eauto.
Qed.

(** The paths the multiplexer does not hand to the proxy. *)
Definition own_paths : list string := ["/healthz"; "/readyz"; "/livez"; "/admin"; "/metrics"].

Lemma serve_proxies (s : Server E F) r : hr_Path r ∉ own_paths → serve s r = handleProxy s r.
Proof.
  intros Hn. assert (Hg : ∀ p, p ∈ own_paths → get_pattern p r = false).
  { intros p Hp. unfold get_pattern. apply andb_false_iff. right. apply String.eqb_neq. by intros <-. }
  unfold serve. rewrite !Hg by (unfold own_paths; set_solver). rewrite andb_false_r.
  by destruct (sv_metricsHandler s).
Qed.

(** C9: outside the proxy's own pages a request is forwarded only to the upstream
    of the longest-prefix route that serves it, and only when that route's engine
    allowed it: the engine had found a principal unless the route does not
    require one, an explicit decision to allow was made, no identity or cookie
    header of the client reaches the upstream (only the engine's), neither in
    what the reverse proxy is handed nor in what it sends; and with no matching
    route the answer is 404. *)
Theorem route_protected (s : Server E F) r tr
    (Hp : hr_Path r ∉ own_paths) (Hx : exec (serve s r) tr tt) :
  (∃ rt resp th tail, longest_first (sv_routes s) (hr_Host r) (hr_Path r) (Some rt) ∧
     tr = th ++ tail ∧ exec (Handle (rt_Engine rt) (RequestFromHTTP r)) th resp ∧
     proxied s r rt resp tail ∧
     (Allow resp = true → ∃ p d dtr,
        (p ≠ None ∨ e_RequireAuth (rt_Engine rt) = false) ∧
        decided (rt_Engine rt) (RequestFromHTTP r) p d dtr ∧ d_Allow d = true ∧
        th = Ev (e_Resolve (rt_Engine rt) (RequestFromHTTP r)) (Ok p) :: dtr ++
             (if e_Metrics (rt_Engine rt) then [Ev (AuthDecision true (d_StatusCode d)) tt] else []))) ∨
  ((∀ rt, rt ∈ sv_routes s → ¬ serves rt (hr_Host r) (hr_Path r)) ∧
   ∃ hs body, tr = outcome s "" "route_miss" ++ [Ev (WriteHTTP 404 hs body) tt]).
Proof.
  rewrite serve_proxies in Hx by done. apply handleProxy_exec in Hx.
  pose proof (matchRoute_longest (sv_routes s) (hr_Host r) (hr_Path r)) as Hl.
  change (foldl _ None (sv_routes s)) with (matchRoute s (hr_Host r) (hr_Path r)) in Hl.
  destruct (matchRoute s (hr_Host r) (hr_Path r)) as [rt|]; [left|by right].
  destruct Hx as (resp & th & tail & -> & Hh & Ht). exists rt, resp, th, tail.
  split; [done|]. split; [done|]. split; [done|]. split; [done|]. intros Ha.
  destruct (proj1 (handle_allows _ _ _ _) (conj Hh Ha)) as (p & d & dtr & ? & ? & ? & _ & ?). eauto 10.
Qed.

(** The admin page: a wrong secret gets an empty 403; without a configured secret
    there is no such page, and the path is proxied like any other. *)
Lemma admin_guarded (s : Server E F) r (Hp : hr_Path r = "/admin") :
  (pc_AdminSecret (sv_cfg s) = "" → serve s r = handleProxy s r) ∧
  (get_pattern "/admin" r = true → pc_AdminSecret (sv_cfg s) ≠ "" →
   header_get r "X-Admin-Secret" ≠ pc_AdminSecret (sv_cfg s) → serve s r = call (WriteHTTP 403 [] "")).
Proof.
  assert (Hg : ∀ p, p ≠ "/admin" → get_pattern p r = false).
  { intros p Hn. unfold get_pattern. rewrite Hp. apply andb_false_iff. right. by apply String.eqb_neq. }
  assert (He : serve s r = if negb (String.eqb (pc_AdminSecret (sv_cfg s)) "") && get_pattern "/admin" r
                           then handleAdmin s r else handleProxy s r).
  { unfold serve. rewrite !(Hg "/healthz"), (Hg "/readyz"), (Hg "/livez"), (Hg "/metrics") by done.
    by destruct (sv_metricsHandler s). }
  assert (Ha : header_get r "X-Admin-Secret" ≠ pc_AdminSecret (sv_cfg s) → handleAdmin s r = call (WriteHTTP 403 [] "")).
  { intros Hn. unfold handleAdmin. by rewrite (proj2 (String.eqb_neq _ _) Hn). }
  rewrite He. split; [by intros ->|].
  intros Hg' Hs Hn. rewrite Hg', (proj2 (String.eqb_neq _ _) Hs). simpl. by apply Ha.
Qed.
End handlers.

(** ** The witness: two routes, the longer one for an API *)
Inductive srvE : Type → Type :=
| S_Resolve (r : Request) : srvE (res (option Principal))
| S_Evaluate (i : Input) : srvE (res (option Decision))
| S_AuthDecision (allow : bool) (status : Z) : srvE unit
| S_Outcome (route what : string) : srvE unit
| S_Forward (f : forwarded) : srvE unit
| S_Redirect (url : string) (status : Z) : srvE unit
| S_Write (st : Z) (hs : list (string * string)) (body : string) : srvE unit.
#[local] Instance srv_metrics : ProxyMetricsE srvE := S_AuthDecision.
#[local] Instance srv_outcome : RouteMetricsE srvE := S_Outcome.
#[local] Instance srv_forward : ForwardE srvE := S_Forward.
#[local] Instance srv_redirect : RedirectE srvE := S_Redirect.
#[local] Instance srv_write : WriteE srvE := S_Write.
#[local] Existing Instance sorted_range.
#[local] Existing Instance ascii_unicode.
#[local] Instance srv_digits : UnicodeDigit := λ _, false.

Definition srv_engine (auth : bool) : DefaultEngine srvE :=
  {| e_Resolve := S_Resolve; e_Evaluate := S_Evaluate; e_Plugins := []; e_RequireAuth := auth;
     e_HeaderBuilder := None; e_UnauthenticatedMode := ""; e_LoginRedirectURL := "";
     e_Metrics := true |}.
Definition srv_route (id prefix url : string) (auth : bool) : Route srvE :=
  {| rt_Config := {| rc_ID := id; Hosts := []; PathPrefix := prefix; rc_UpstreamURL := url;
                     rc_RequireAuth := auth; UnauthenticatedMode := "api_401"; LoginRedirectURL := "";
                     ConnectorID := ""; rc_PolicyBundlePath := "" |};
     rt_Engine := srv_engine auth; rt_Policy := NoPolicy |}.
Definition srv_routes (api_prefix : string) : list (Route srvE) :=
  [srv_route "web" "/" "https://web.example" false; srv_route "api" api_prefix "https://api.example" true].
Definition srv (api_prefix : string) (cfg : ProxyConfig) : Server srvE unit :=
  SetMetrics (NewWithRoutes cfg (srv_routes api_prefix) None None) true.
Definition srv_request (path : string) : http_request :=
  {| hr_Method := "GET"; hr_TLS := true; hr_Host := "app.example:443"; hr_Path := path; hr_RawQuery := "";
     hr_Header := {[ "X-User-Id" := ["admin"] ]}; hr_Cookies := []; hr_Body := "";
     hr_RemoteAddr := "198.51.100.7:1234" |}.
Definition srv_handler (who : option Principal) : handler srvE (list string) := λ X e,
  match e in srvE X return list string → X * list string with
  | S_Resolve _ => λ s, (Ok who, s)
  | S_Evaluate _ => λ s, (Ok (Some {| d_Allow := true; d_StatusCode := 200; d_Headers := ∅; d_Reason := "";
                                      d_Obligations := ∅ |}), s)
  | S_AuthDecision _ _ => λ s, (tt, s)
  | S_Outcome route what => λ s, (tt, s ++ [route; what])
  | S_Forward f => λ s, (tt, s ++ [fw_Host f])
  | S_Redirect url _ => λ s, (tt, s ++ [url])
  | S_Write _ _ body => λ s, (tt, s ++ [body])
  end.
Definition srv_cfg : ProxyConfig :=
  {| UpstreamURL := ""; ProxyPathPrefix := "/"; RequireAuth := true; AuthURL := "http://auth:8080";
     pc_CookieName := "sid"; pc_HTTPPort := "8081"; GRPCListenAddr := ""; GRPCUpstreamAddr := "";
     GRPCUpstreamInsecure := false; PolicyEngine := "wasm"; PolicyBundlePath := "";
     PolicyFallbackAllow := false; PolicyReloadEnabled := false; PolicyReloadInterval := "10s";
     PipelinePlugins := []; PluginsManifestDir := ""; PluginsManifestStrict := false;
     PluginsManifestPublicKeyPath := ""; pc_AdminSecret := ""; BundlePublicKeyPath := "";
     AllowPrivateUpstreams := false; Routes := []; HeaderUserIDClaim := "sub";
     HeaderEmailClaim := "email"; HeaderNameClaim := "name";
     HeaderPreferredUsernameClaim := "preferred_username"; HeaderRolesClaim := "realm_access.roles";
     HeaderGroupsClaim := "groups"; HeaderTenantIDClaim := ""; HeaderAdminRole := "admin" |}.
Definition who1 : Principal := principal_of {[ "sub" := AStr "u1" ]}.
Definition srv_run (api_prefix path : string) (who : option Principal) : unit * list string :=
  run (srv_handler who) (serve (srv api_prefix srv_cfg) (srv_request path)) [].

Lemma route_protected_witness :
  snd (srv_run "/api" "/api/x" (Some who1)) = ["api"; "allow"; "api.example"] ∧
  ∃ tr rt, exec (serve (srv "/api" srv_cfg) (srv_request "/api/x")) tr tt ∧
    matchRoute (srv "/api" srv_cfg) "app.example:443" "/api/x" = Some rt ∧
    longest_first (srv_routes "/api") "app.example:443" "/api/x" (Some rt).
Proof.
  split; [vm_compute; reflexivity|].
  pose proof (run_exec (srv_handler (Some who1)) (serve (srv "/api" srv_cfg) (srv_request "/api/x")) []) as Hx.
  destruct (fst (run (srv_handler (Some who1)) (serve (srv "/api" srv_cfg) (srv_request "/api/x")) [])).
  set (tr := run_trace _ _ _) in Hx. exists tr, (srv_route "api" "/api" "https://api.example" true).
  split; [exact Hx|]. split; [vm_compute; reflexivity|].
  destruct (route_protected (srv "/api" srv_cfg) (srv_request "/api/x") tr) as [(rt & resp & th & tail & Hl & _)|[Hn _]].
  - by apply (bool_decide_unpack ("/api/x" ∉ own_paths)).
  - exact Hx.
  - replace (Some (srv_route "api" "/api" "https://api.example" true)) with (Some rt); [exact Hl|].
    eapply longest_first_unique; [exact Hl|]. apply (matchRoute_longest (srv_routes "/api") "app.example:443" "/api/x").
  - exfalso. apply (Hn (srv_route "web" "/" "https://web.example" false)); [left|]. split; [by left|by right; left].
Defined.

(** A prefix that ends in a slash serves no path below it: the request falls
    through to the route of "/", which here does not require a principal. *)
Example trailing_slash_prefix :
  snd (srv_run "/api/" "/api/x" None) = ["web"; "allow"; "web.example"] ∧
  snd (srv_run "/api" "/api/x" None) = ["api"; "auth_failure"; error_body "unauthorized"].
Proof. split; vm_compute; reflexivity. Qed.
