(* ===== verification/GoHttp.v ===== *)
(** * What the HTTP handlers use of net/http, net/url, path and time

    Header maps, query and form values, cookies, [path.Clean], redirects, the
    multiplexer's patterns, and RFC 3339 times. *)

From S2P Require Import Prelude.
From S2P Require Import GoStrings.
From S2P Require Import GoTime.
From S2P Require Import GoUrl.
From S2P Require Import AuthzHttp.

(** ** Headers *)
Notation header := (gmap string (list string)).
Definition h_get (h : header) (k : string) : string := default "" (h !! CanonicalHeaderKey k ≫= head).
Definition h_set (h : header) (k v : string) : header := <[CanonicalHeaderKey k := [v]]> h.
Definition h_add (h : header) (k v : string) : header :=
  <[CanonicalHeaderKey k := default [] (h !! CanonicalHeaderKey k) ++ [v]]> h.

(** ** Query and form values *)

(** [url.ParseQuery]: the pairs in order, what does not parse left out. *)
Definition query_pair (part : string) : option (string * string) :=
  if String.eqb part "" || Contains part ";" then None
  else
    let '(k, v) := default (part, "") (cut "=" part) in
    match unescape EncQueryComponent k, unescape EncQueryComponent v with
    | Some k, Some v => Some (k, v)
    | _, _ => None
    end.
Definition parse_query (q : string) : list (string * string) := omap query_pair (Split q "&").

(** [Values.Get]: the first value of the key. *)
Definition value_of (k : string) (l : list (string * string)) : string :=
  from_option snd "" (List.find (λ kv, String.eqb kv.1 k) l).
Definition Query (r : http_request) : list (string * string) := parse_query (hr_RawQuery r).

Section form.
Context `{Unicode}.

(** The values of a multipart body: mime/multipart is not modelled. *)
Context (multipart_values : http_request → list (string * string)).

Definition media_type (r : http_request) : string :=
  let ct := h_get (hr_Header r) "Content-Type" in
  ToLower (TrimSpace (match cut ";" ct with Some (t, _) => t | None => ct end)).

(** [r.FormValue]: the body's values, when it is a form, before the query's. *)
Definition FormValue (r : http_request) (k : string) : string :=
  let body :=
    if existsb (String.eqb (hr_Method r)) ["POST"; "PUT"; "PATCH"] then
      if String.eqb (media_type r) "application/x-www-form-urlencoded" then parse_query (hr_Body r)
      else if String.eqb (media_type r) "multipart/form-data" then multipart_values r
      else []
    else [] in
  value_of k (body ++ Query r).
End form.

Definition cookie_value (r : http_request) (name : string) : string := value_of name (hr_Cookies r).

(** ** Cookies of a request header *)
Definition trim_ows (s : string) : string :=
  let ps := [" "; str (of_byte 9); str (of_byte 10); str (of_byte 13)] in
  rev_string (trim_left ps (rev_string (trim_left ps s))).

Definition cookie_value_byte (c : ascii) : bool :=
  let z := byte_of c in
  (32 <=? z) && (z <? 127) && negb ((z =? 34) || (z =? 59) || (z =? 92)).
Definition dquoted (v : string) : option string :=
  match v with
  | String c r =>
      if byte_of c =? 34 then
        match rev_string r with
        | String d m => if byte_of d =? 34 then Some (rev_string m) else None
        | "" => None
        end
      else None
  | "" => None
  end.
Definition parse_cookie (part : string) : option (string * string) :=
  let '(name, val) := default (part, "") (cut "=" part) in
  let name := trim_ows name in
  let val := default val (dquoted val) in
  if negb (String.eqb name "") && forallb token_byte (String.list_ascii_of_string name)
     && forallb cookie_value_byte (String.list_ascii_of_string val)
  then Some (name, val) else None.
Definition readCookies (line : string) : list (string * string) :=
  omap (λ p, let p := trim_ows p in if String.eqb p "" then None else parse_cookie p) (Split line ";").

(** ** path.Clean *)
Fixpoint clean_segments (rooted : bool) (l acc : list string) : list string :=
  match l with
  | [] => reverse acc
  | x :: l' =>
      if String.eqb x "" || String.eqb x "." then clean_segments rooted l' acc
      else if String.eqb x ".." then
        match acc with
        | a :: acc' => if String.eqb a ".." then clean_segments rooted l' (".." :: acc)
                       else clean_segments rooted l' acc'
        | [] => clean_segments rooted l' (if rooted then [] else [".."])
        end
      else clean_segments rooted l' (x :: acc)
  end.
Definition Clean (p : string) : string :=
  let rooted := HasPrefix p "/" in
  let s := (if rooted then "/" else "") +:+ Join (clean_segments rooted (Split p "/") []) "/" in
  if String.eqb s "" then "." else s.

Example Clean_ex : Clean <$> ["/a/../b//c/"; "../x/./y"; ""; "/.."] = ["/b/c"; "../x/y"; "."; "/"].
Proof. vm_compute. reflexivity. Qed.

(** ** Redirects *)

(** The directory of a path, with its slash. *)
Definition dir_of (p : string) : string :=
  match cut_last "/" p with Some (d, _) => d +:+ "/" | None => "" end.

Definition hex_escape (s : string) : string :=
  concat_strings ((λ c, if byte_of c <? 128 then str c
                        else String (of_byte 37) (String (lowhex (byte_of c / 16)) (str (lowhex (byte_of c `mod` 16)))))
                  <$> String.list_ascii_of_string s).

(** The location [http.Redirect] writes: a URL with neither scheme nor host is
    made absolute against the request's path and cleaned. *)
Definition redirect_location `{Unicode} (reqPath url : string) : string :=
  hex_escape
    match Parse url with
    | Ok u =>
        if String.eqb (Scheme u) "" && String.eqb (Host u) "" then
          let url := if HasPrefix url "/" then url
                     else dir_of (if String.eqb reqPath "" then "/" else reqPath) +:+ url in
          let '(p, query) := match cut "?" url with Some (p, q) => (p, "?" +:+ q) | None => (url, "") end in
          let c := Clean p in
          (if HasSuffix p "/" && negb (HasSuffix c "/") then c +:+ "/" else c) +:+ query
        else url
    | Err _ => url
    end.

Definition html_escape (s : string) : string :=
  concat_strings ((λ c, let z := byte_of c in
                        if z =? 38 then "&amp;" else if z =? 60 then "&lt;" else if z =? 62 then "&gt;"
                        else if z =? 34 then "&#34;" else if z =? 39 then "&#39;" else str c)
                  <$> String.list_ascii_of_string s).

(** ** Patterns of the multiplexer *)

(** [METHOD path] or [METHOD path/{connector}]; GET serves HEAD too.  The
    answer is the connector segment, empty for a pattern without one. *)
Record pattern := { pt_Method : string; pt_Path : string; pt_Connector : bool }.
Definition path_matches (p : pattern) (path : string) : option string :=
  if pt_Connector p then
    match cut_prefix (pt_Path p +:+ "/") path with
    | Some seg => if String.eqb seg "" || Contains seg "/" then None else Some seg
    | None => None
    end
  else if String.eqb path (pt_Path p) then Some "" else None.
Definition method_matches (p : pattern) (m : string) : bool :=
  String.eqb m (pt_Method p) || (String.eqb (pt_Method p) "GET" && String.eqb m "HEAD").

(** ** Times *)
Definition pad (n : nat) (z : Z) : string :=
  let s := Itoa z in concat_strings (replicate (n - String.length s) "0") +:+ s.

(** The proleptic Gregorian date of a day counted from 1970-01-01. *)
Definition civil (days : Z) : Z * Z * Z :=
  let z := days + 719468 in
  let era := z / 146097 in
  let doe := z - era * 146097 in
  let yoe := (doe - doe / 1460 + doe / 36524 - doe / 146096) / 365 in
  let doy := doe - (365 * yoe + yoe / 4 - yoe / 100) in
  let mp := (5 * doy + 2) / 153 in
  let d := doy - (153 * mp + 2) / 5 + 1 in
  let m := if mp <? 10 then mp + 3 else mp - 9 in
  ((yoe + era * 400 + (if m <=? 2 then 1 else 0)), m, d).

(** [time.Unix(s, 0).UTC().Format(time.RFC3339)], for years from 0 on. *)
Definition rfc3339 (s : Z) : string :=
  let '(y, m, d) := civil (s / 86400) in
  let t := s `mod` 86400 in
  pad 4 y +:+ "-" +:+ pad 2 m +:+ "-" +:+ pad 2 d +:+ "T" +:+ pad 2 (t / 3600) +:+ ":"
  +:+ pad 2 ((t / 60) `mod` 60) +:+ ":" +:+ pad 2 (t `mod` 60) +:+ "Z".

Example rfc3339_ex : rfc3339 <$> [0; 1700000000; 951782400] =
  ["1970-01-01T00:00:00Z"; "2023-11-14T22:13:20Z"; "2000-02-29T00:00:00Z"].
Proof. vm_compute. reflexivity. Qed.
