(* ===== verification/AuthServer.v ===== *)
(** * The auth server's HTTP handlers (internal/auth/httpserver, errormap)

    Every handler, the connector's cookie, the routing table, and the CORS and
    security-header wrappers.  A handler gets the response header as the
    wrappers left it and gives the whole response; the service below it is the
    one of AuthFlows, so the branches for another [auth.Service] cannot be
    reached.  The log of the server is a call. *)

From S2P Require Import Prelude.
From S2P Require Import GoStrings.
From S2P Require Import Effects.
From S2P Require Import GoAny.
From S2P Require Import Json.
From S2P Require Import Cookie.
From S2P Require Import Session.
From S2P Require Import AuthConfig.
From S2P Require Import GoUrl.
From S2P Require Import Handoff.
From S2P Require Import Token.
From S2P Require Import Sdk.
From S2P Require Import AuthService.
From S2P Require Import AuthFlows.
From S2P Require Import Authz.
From S2P Require Import AuthzHttp.
From S2P Require Import ProxyServer.
From S2P Require Import GoHttp.

(** ** Errors (internal/auth/errormap) *)

(** An error by its text and the sentinels [errors.Is] finds in it. *)
Record mapped_error := { me_text : string; me_is : list string }.
Definition errBadRequest : string := "bad request".
Definition errNotFound : string := "not found".
Definition errUnauthorized : string := "unauthorized".

Definition StatusFor (o : option mapped_error) : Z :=
  match o with
  | None => 200
  | Some e =>
      let has s := Contains (me_text e) s in
      let isErr s := existsb (String.eqb s) (me_is e) in
      if has "missing" || has "required" then 400
      else if has "invalid" || has "redirect" then 400
      else if has "not found" || has "NotFound" then 404
      else if has "unauthorized" || has "Unauthorized" then 401
      else if has "forbidden" then 403
      else if isErr errBadRequest then 400
      else if isErr errNotFound then 404
      else if isErr errUnauthorized then 401
      else 500
  end.
Definition join_error (sentinel msg : string) : mapped_error :=
  {| me_text := sentinel +:+ newline +:+ msg; me_is := [sentinel] |}.
Definition BadRequest := join_error errBadRequest.
Definition NotFound := join_error errNotFound.
Definition Unauthorized := join_error errUnauthorized.
(** An error of the service. *)
Definition status_of (e : string) : Z := StatusFor (Some {| me_text := e; me_is := [] |}).

(** ** The server *)
Record Pinger (E : Type → Type) := {
  Ping : E (option string);
  pg_Delete : option (string → string → E (res Z));
  pg_Find : option (string → string → E (res (option Session))) }.
Arguments Ping {E}.
Arguments pg_Delete {E}.
Arguments pg_Find {E}.

Record AuthServer (E : Type → Type) := {
  as_svc : Service E; as_cfg : Config; as_ping : option (Pinger E);
  as_metricsHandler : option (E unit) }.
Arguments as_svc {E}.
Arguments as_cfg {E}.
Arguments as_ping {E}.
Arguments as_metricsHandler {E}.

Record reply := { re_Header : header; re_Status : Z; re_Body : string }.
Definition write (w : header) (status : Z) (body : string) : reply :=
  {| re_Header := w; re_Status := status; re_Body := body |}.
Definition write_json (w : header) (status : Z) (body : string) : reply :=
  write (h_set w "Content-Type" "application/json") status body.
Definition write_text (w : header) (status : Z) (body : string) : reply :=
  write (h_set w "Content-Type" "text/plain") status body.
Definition http_error (w : header) (msg : string) (status : Z) : reply :=
  write (h_set (h_set w "Content-Type" "text/plain; charset=utf-8") "X-Content-Type-Options" "nosniff")
    status (msg +:+ newline).
(** An error document: [{error: code}]. *)
Definition error_doc (code : string) : string := dq "{'error':'" +:+ code +:+ dq "'}".

Definition http_redirect `{Unicode} (w : header) (r : http_request) (url : string) : reply :=
  let loc := redirect_location (hr_Path r) url in
  let w := h_set w "Location" loc in
  if existsb (String.eqb (hr_Method r)) ["GET"; "HEAD"] then
    write (h_set w "Content-Type" "text/html; charset=utf-8") 302
      (if String.eqb (hr_Method r) "GET"
       then dq "<a href='" +:+ html_escape loc +:+ dq "'>Found</a>." +:+ newline +:+ newline else "")
  else write w 302 "".

Section server.
Context `{Unicode} `{StructPB} {E : Type → Type}.
Context `{!ClockE E} `{!RandE E} `{!LogE E} `{!WebhookE E} `{!AuthMetricsE E}.
Context `{!JWKSSource E} `{!JwtLib E} `{!OnceStore E}.
Context (multipart_values : http_request → list (string * string)).
Notation AuthServer := (AuthServer E).

(** ** Cookies *)
Definition connectorCookie (s : AuthServer) (connID : string) : string * Z :=
  match ConnectorByID (as_cfg s) connID with
  | Some cc => (or_str (cc_CookieName cc) (CookieName (as_cfg s)),
                or_int (cc_SessionTTLSeconds cc) (c_SessionTTLSeconds (as_cfg s)))
  | None => (CookieName (as_cfg s), c_SessionTTLSeconds (as_cfg s))
  end.

Record cookie_opts := {
  co_path : string; co_domain : string; co_maxAge : Z; co_secure : bool; co_httpOnly : bool;
  co_sameSite : string }.
Definition cookieOptsForName (s : AuthServer) (name : string) (maxAge : Z) : cookie_opts :=
  let host := HasPrefix name "__Host-" in
  {| co_path := "/"; co_domain := if host then "" else CookieDomain (as_cfg s); co_maxAge := maxAge;
     co_secure := host || CookieSecure (as_cfg s); co_httpOnly := true;
     co_sameSite := match CookieSameSite (as_cfg s) with
                    | SameSiteStrictMode => "Strict" | SameSiteNoneMode => "None" | _ => "Lax" end |}.

Definition clearCookie (s : AuthServer) (w : header) (name : string) : header :=
  let w := h_add w "Set-Cookie" (name +:+ "=; Path=/; Max-Age=0; HttpOnly") in
  if CookieSecure (as_cfg s) || HasPrefix name "__Host-"
  then h_add w "Set-Cookie" (name +:+ "=; Path=/; Max-Age=0; HttpOnly; Secure") else w.

Definition session_cookie (name value : string) (o : cookie_opts) : string :=
  name +:+ "=" +:+ value +:+ "; Path=" +:+ co_path o +:+ "; Max-Age=" +:+ Itoa (co_maxAge o) +:+ "; HttpOnly"
  +:+ (if String.eqb (co_domain o) "" then "" else "; Domain=" +:+ co_domain o)
  +:+ (if co_secure o then "; Secure" else "") +:+ "; SameSite=" +:+ co_sameSite o.
Definition writeSessionCookie (w : header) (name value : string) (o : cookie_opts) : header :=
  h_add w "Set-Cookie" (session_cookie name value o).
(** The connector's cookie, set to a value that is not empty. *)
Definition set_session (s : AuthServer) (w : header) (connID value : string) : header :=
  let '(name, maxAge) := connectorCookie s connID in
  if String.eqb value "" then w
  else writeSessionCookie w name value (cookieOptsForName s name maxAge).
Definition session_cookie_of (s : AuthServer) (r : http_request) (connID : string) : string :=
  cookie_value r (fst (connectorCookie s connID)).

(** ** Health *)
Definition handleHealthz (w : header) : reply := write_text w 200 "ok".
Definition handleLivez (w : header) : reply := write_text w 200 "ok".
Definition handleReadyz (s : AuthServer) (w : header) : prog E reply :=
  match as_ping s with
  | None => Ret (write_text w 200 "ok")
  | Some p =>
      e <- call (Ping p) ;;
      match e with
      | Some msg => log ("readyz: ping failed: " +:+ msg) ;;; Ret (write_text w 503 "unhealthy")
      | None => Ret (write_text w 200 "ok")
      end
  end.

(** ** The admin report *)
Definition is_admin (s : AuthServer) (r : http_request) : bool :=
  String.eqb (header_get r "X-Admin-Secret") (AdminSecret (as_cfg s)).

Definition connector_summary (cc : ConnectorConfig) : any :=
  AMap [("id", AStr (cc_ID cc)); ("default", ABool (cc_Default cc)); ("oidc_issuer", AStr (cc_OIDCIssuer cc));
        ("oidc_redirect_uri", AStr (cc_OIDCRedirectURI cc)); ("cookie_name", AStr (cc_CookieName cc));
        ("id_kind", AStr (IDKind (cc_ClaimMapping cc)))].
Definition authConfigSummary (s : AuthServer) : any :=
  let c := as_cfg s in
  AMap [("oidc_issuer", AStr (OIDCIssuer c)); ("oidc_redirect_uri", AStr (OIDCRedirectURI c));
        ("cookie_name", AStr (CookieName c)); ("http_port", AStr (AuthConfig.HTTPPort c));
        ("redis_url_set", ABool (negb (String.eqb (RedisURL c) "")));
        ("app_base_url", AStr (AppBaseURL c)); ("connectors", AList (connector_summary <$> Connectors c))].
Definition sessionStoreStatus (s : AuthServer) : prog E any :=
  match as_ping s with
  | None => Ret (AMap [("status", AStr "unknown"); ("message", AStr "no pinger")])
  | Some p =>
      e <- call (Ping p) ;;
      Ret match e with
          | Some msg => AMap [("status", AStr "error"); ("error", AStr msg)]
          | None => AMap [("status", AStr "ok")]
          end
  end.
Definition auth_handleAdmin (s : AuthServer) (w : header) (r : http_request) : prog E reply :=
  if negb (is_admin s r) then Ret (write w 403 "")
  else
    st <- sessionStoreStatus s ;;
    Ret (write_json w 200 (encode_json (AMap [("config_summary", authConfigSummary s); ("session_store", st)]))).

(** ** Login, session, logout *)
Definition handleLogin (s : AuthServer) (w : header) (r : http_request) (connID : string) : prog E reply :=
  x <- LoginStart (as_svc s)
         {| ls_Connector := connID; ls_RedirectTo := value_of "redirect_to" (Query r);
            ls_Prompt := TrimSpace (value_of "prompt" (Query r)) |} ;;
  Ret match x with
      | Err e => http_error w e (status_of e)
      | Ok resp => http_redirect w r (lsr_RedirectURL resp)
      end.

Definition callback_request (r : http_request) (connID : string) : LoginEndRequest :=
  let q k := value_of k (Query r) in
  let f k := FormValue multipart_values r k in
  let post := String.eqb (q "error") "" && String.eqb (q "code") "" in
  let get k := if post then f k else q k in
  {| le_Connector := connID; le_Code := get "code"; le_State := get "state"; le_Error := get "error";
     le_ErrorDescription := get "error_description"; le_Host := hr_Host r |}.
Definition handleCallback (s : AuthServer) (w : header) (r : http_request) (connID : string) : prog E reply :=
  x <- LoginEnd (as_svc s) (callback_request r connID) ;;
  Ret match x with
      | Err e => http_error w e (status_of e)
      | Ok resp =>
          let w := if ler_ClearCookie resp then clearCookie s w (fst (connectorCookie s connID)) else w in
          http_redirect (set_session s w connID (ler_SetCookieValue resp)) r (ler_RedirectURL resp)
      end.

Definition session_request (s : AuthServer) (r : http_request) (connID : string) : SessionRequest :=
  {| sr_SessionCookie := session_cookie_of s r connID; sr_Connector := connID |}.

Definition omit_str (k v : string) : list (string * json) := if String.eqb v "" then [] else [(k, JStr v)].
Definition omit_map (k : string) (m : gmap string any) : option (list (string * json)) :=
  if bool_decide (m = ∅) then Some []
  else (λ j, [(k, j)]) <$> json_of_any (AMap (map_to_list m)).
(** [json.Marshal] of a SessionUser. *)
Definition user_json (u : SessionUser) : option json :=
  tc ← omit_map "tenant_context" (default ∅ (su_TenantContext u));
  cl ← omit_map "claims" (su_Claims u);
  Some (JObj (("sub", JStr (su_Sub u)) :: omit_str "email" (su_Email u)
              ++ omit_str "preferred_username" (su_PreferredUsername u) ++ omit_str "name" (su_Name u)
              ++ (match su_Roles u with [] => [] | l => [("roles", JArr (JStr <$> l))] end)
              ++ (match su_Groups u with [] => [] | l => [("groups", JArr (JStr <$> l))] end)
              ++ (if su_IsAdmin u then [("is_admin", JBool true)] else []) ++ tc ++ cl)).
Definition encoded (o : option json) : string := from_option (λ j, print j +:+ newline) "" o.

Definition session_body (resp : SessionResponse) : string :=
  encoded (u ← match sr_User resp with Some u => user_json u | None => Some JNull end;
           Some (JObj [("is_authenticated", JBool (IsAuthenticated resp)); ("user", u)])).
(** The service's Session never sets a new cookie. *)
Definition handleSession (s : AuthServer) (w : header) (r : http_request) (connID : string) : prog E reply :=
  x <- auth_Session (as_svc s) (session_request s r connID) ;;
  Ret match x with
      | Err e => http_error w e (status_of e)
      | Ok resp => write_json w 200 (session_body resp)
      end.

Definition unauthorized (w : header) : reply := write_json w 401 (error_doc "unauthorized").
Definition forbidden (w : header) : reply := write_json w 403 (error_doc "forbidden").

Definition handleMe (s : AuthServer) (w : header) (r : http_request) (connID : string) : prog E reply :=
  x <- auth_Session (as_svc s) (session_request s r connID) ;;
  Ret match x with
      | Err e => http_error w e (status_of e)
      | Ok resp =>
          match sr_User resp with
          | Some u => if IsAuthenticated resp then write_json w 200 (encoded (user_json u)) else unauthorized w
          | None => unauthorized w
          end
      end.

Definition handleLogout (s : AuthServer) (w : header) (r : http_request) (connID : string) : prog E reply :=
  let redirectTo := or_str (value_of "redirect_to" (Query r)) (FormValue multipart_values r "redirect_to") in
  x <- Logout (as_svc s)
         {| lo_SessionCookie := session_cookie_of s r connID; lo_Connector := connID;
            lo_RedirectTo := redirectTo; lo_Origin := header_get r "Origin";
            lo_Referer := header_get r "Referer" |} ;;
  Ret match x with
      | Err e => http_error w e (status_of e)
      | Ok resp =>
          let w := if lor_ClearCookie resp then clearCookie s w (fst (connectorCookie s connID)) else w in
          http_redirect w r (lor_RedirectURL resp)
      end.

Definition handleRefresh (s : AuthServer) (w : header) (r : http_request) (connID : string) : prog E reply :=
  x <- Refresh (as_svc s) {| rf_SessionCookie := session_cookie_of s r connID; rf_Connector := connID |} ;;
  Ret match x with
      | Err _ => unauthorized w
      | Ok resp => write (if rfr_Refreshed resp then set_session s w connID (rfr_SetCookieValue resp) else w) 200 ""
      end.

(** ** Resolution and handoff *)
Definition map_any (m : gmap string any) : any := AMap (map_to_list m).
Definition resolve_body (x : Resolved) : string :=
  encode_json (AMap [("access_token", AStr (rs_AccessToken x)); ("claims", map_any (rs_Claims x));
                     ("tenant_context", from_option map_any ANil (rs_Tenant x))]).
Definition handleResolve (s : AuthServer) (w : header) (r : http_request) : prog E reply :=
  let connID := value_of "connector" (Query r) in
  x <- ResolveForConnector (as_svc s) connID (session_cookie_of s r connID) ;;
  Ret match x with
      | Err _ => unauthorized w
      | Ok v => write_json (set_session s w connID (rs_SetCookie v)) 200 (resolve_body v)
      end.

(** The [lookup] object of a request body: subject and email. *)
Definition lookup_fields : list string := ["subject"; "email"].
Definition dec_lookup (fields : list string) (vs : list json) : (string * string) * bool :=
  foldl (λ st v, match v with
                 | JNull => st
                 | JObj m =>
                     let '(a, o1) := dec_field conv_string st.1.1 (bound fields "subject" m) in
                     let '(b, o2) := dec_field conv_string st.1.2 (bound fields "email" m) in
                     let o3 := forallb (λ k, snd (dec_string (bound fields k m))) (drop 2 fields) in
                     ((a, b), st.2 && o1 && o2 && o3)
                 | _ => (st.1, false)
                 end) (("", ""), true) vs.
Definition body_members (r : http_request) : option (list (string * json)) :=
  match parse_first (hr_Body r) with
  | Some (JObj m) => Some m
  | Some JNull => Some []
  | _ => None
  end.
Definition body_lookup (fields : list string) (r : http_request) (top : list string)
    : option (string * string * list (string * json)) :=
  m ← body_members r;
  let '(l, ok) := dec_lookup fields (bound top "lookup" m) in
  if ok then Some (l, m) else None.
(** A string member of the body. *)
Definition body_string (top : list string) (k : string) (m : list (string * json)) : option string :=
  let '(v, ok) := dec_string (bound top k m) in if ok then Some v else None.

Definition issue_fields : list string := ["connector"; "lookup"; "redirect_to"].
Definition issue_body (r : http_request) : option (string * string * string * string) :=
  x ← body_lookup lookup_fields r issue_fields;
  let '(subject, email, m) := x in
  connector ← body_string issue_fields "connector" m;
  redirect ← body_string issue_fields "redirect_to" m;
  Some (connector, subject, email, redirect).

Definition redeem_url (s : AuthServer) (connector ticket redirect : string) : string :=
  TrimSuffix (AppBaseURL (as_cfg s)) "/" +:+ "/handoff/redeem"
  +:+ (if String.eqb connector "" then "" else "/" +:+ PathEscape connector)
  +:+ "?" +:+ (if String.eqb redirect "" then "" else "redirect_to=" +:+ QueryEscape redirect +:+ "&")
  +:+ "ticket=" +:+ QueryEscape ticket.

Definition handleHandoffIssue (s : AuthServer) (w : header) (r : http_request) : prog E reply :=
  if negb (is_admin s r) then Ret (forbidden w)
  else if negb (HandoffEnabled (as_svc s)) then Ret (http_error w "not available" 501)
  else
    match issue_body r with
    | None => Ret (http_error w "invalid json" 400)
    | Some (connector, subject, email, redirect) =>
        if String.eqb subject "" || String.eqb email "" then
          Ret (http_error w "lookup.subject and lookup.email required" 400)
        else
          t <- IssueHandoff (as_svc s) connector subject email ;;
          match t with
          | Err e =>
              log ("audit: handoff_issue_failed connector=" +:+ connector +:+ " reason=" +:+ e) ;;;
              Ret (http_error w e (status_of e))
          | Ok ticket =>
              Ret (write_json w 200 (encode_json
                     (AMap [("ticket", AStr ticket); ("redeem_url", AStr (redeem_url s connector ticket redirect))])))
          end
    end.

Definition handleHandoffRedeem (s : AuthServer) (w : header) (r : http_request) (connID : string)
    : prog E reply :=
  if negb (HandoffEnabled (as_svc s)) then Ret (http_error w "not available" 501)
  else
    let ticket := value_of "ticket" (Query r) in
    if String.eqb ticket "" then Ret (http_error w "missing ticket" 400)
    else
      x <- RedeemHandoff (as_svc s) connID ticket ;;
      match x with
      | Err e =>
          log ("audit: handoff_redeem_failed connector=" +:+ connID +:+ " reason=" +:+ e) ;;;
          Ret (http_redirect w r (AppBaseURL (as_cfg s) +:+ LoginErrorRedirectPath (as_cfg s)))
      | Ok (value, connector) =>
          let '(name, maxAge) := connectorCookie s connector in
          let w := writeSessionCookie w name value (cookieOptsForName s name maxAge) in
          let target := ValidateRedirectURL (as_svc s) (value_of "redirect_to" (Query r)) in
          log ("audit: handoff_redeem_success connector=" +:+ connector) ;;;
          Ret (http_redirect w r target)
      end.

(** ** Server-to-server *)
Definition patch_fields : list string := ["session_id"; "tenant_context"].
Definition patch_body (r : http_request) : option (string * option TenantContext) :=
  m ← body_members r;
  id ← body_string patch_fields "session_id" m;
  let '(tc, ok) := dec_tenant (bound patch_fields "tenant_context" m) in
  if ok then Some (id, tc) else None.

Definition handlePatchSession (s : AuthServer) (w : header) (r : http_request) : prog E reply :=
  if negb (is_admin s r) then Ret (forbidden w)
  else if negb (existsb (String.eqb (hr_Method r)) ["PATCH"; "POST"]) then Ret (write w 405 "")
  else
    match patch_body r with
    | None => Ret (http_error w "invalid json" 400)
    | Some (id, tc) =>
        if String.eqb id "" || bool_decide (tc = None) then
          Ret (http_error w "session_id and tenant_context required" 400)
        else
          e <- AttachTenantContext (as_svc s) id tc ;;
          Ret match e with
              | Some msg => http_error w msg (status_of msg)
              | None => write w 200 ""
              end
    end.

Definition revoke_fields : list string := ["lookup"].
Definition handleRevokeSession (s : AuthServer) (w : header) (r : http_request) : prog E reply :=
  if negb (is_admin s r) then Ret (forbidden w)
  else
    match as_ping s ≫= pg_Delete with
    | None => Ret (http_error w "not available" 501)
    | Some del =>
        match body_lookup lookup_fields r revoke_fields with
        | None => Ret (http_error w "invalid json" 400)
        | Some (subject, email, _) =>
            if String.eqb subject "" || String.eqb email "" then
              Ret (http_error w "lookup.subject and lookup.email required" 400)
            else
              n <- call (del subject email) ;;
              Ret match n with
                  | Err _ => http_error w "session delete failed" 500
                  | Ok n => write_json w 200 (encode_json
                              (AMap [("revoked", ABool (0 <? n)); ("deleted_count", AInt n)]))
                  end
        end
    end.

Definition handoff_user_fields : list string :=
  ["subject"; "email"; "identity_id"; "channel"; "channel_user_id"].
Definition user_fields : list string := ["lookup"; "token_use"].
Definition delegated_body (sess : Session) : string :=
  let owner := if String.eqb (RefreshToken sess) "" then "accessgate" else "platform-api" in
  encode_json (AMap ([("access_token", AStr (AccessToken sess)); ("id_token", AStr (IDToken sess));
                      ("scope", AStr ""); ("refresh_owner", AStr owner);
                      ("access_expires_at", AStr (rfc3339 (ExpiresAt sess)))]
                     ++ (if String.eqb (RefreshToken sess) "" then []
                         else [("refresh_token", AStr (RefreshToken sess))]))).

Definition handleTokenHandoffUser (s : AuthServer) (w : header) (r : http_request) : prog E reply :=
  if negb (is_admin s r) then Ret (forbidden w)
  else
    match as_ping s ≫= pg_Find with
    | None => Ret (http_error w "not available" 501)
    | Some find =>
        match (x ← body_lookup handoff_user_fields r user_fields;
               use ← body_string user_fields "token_use" x.2; Some (x.1, use)) with
        | None => Ret (http_error w "invalid json" 400)
        | Some (subject, email, use) =>
            if String.eqb subject "" || String.eqb email "" then
              Ret (http_error w "lookup.subject and lookup.email required" 400)
            else if negb (String.eqb use "") && negb (String.eqb use "peoplespace_user_api") then
              Ret (http_error w "unsupported token_use" 400)
            else
              x <- call (find subject email) ;;
              match x with
              | Err _ => Ret (http_error w "session lookup failed" 500)
              | Ok o =>
                  match o with
                  | Some sess =>
                      if String.eqb (AccessToken sess) "" then
                        Ret (write_json w 404 (error_doc "no_active_delegated_token"))
                      else if String.eqb (s_ID sess) "" then Ret (write_json w 200 (delegated_body sess))
                      else
                        y <- EnsureFreshSessionByID (as_svc s) (s_ID sess) ;;
                        Ret match y with
                            | Err _ => unauthorized w
                            | Ok (fresh, _) => write_json w 200 (delegated_body fresh)
                            end
                  | None => Ret (write_json w 404 (error_doc "no_active_delegated_token"))
                  end
              end
        end
    end.

(** ** Routing *)
Inductive page :=
| Healthz | Readyz | Livez | Admin | PatchSession | RevokeSession | TokenHandoffUser | HandoffIssue
| Metrics | Login | Callback | SessionPage | Me | LogoutPage | RefreshPage | ResolvePage | HandoffRedeem.

Definition route (m p : string) (conn : bool) (g : page) : pattern * page :=
  ({| pt_Method := m; pt_Path := p; pt_Connector := conn |}, g).
Definition both (m p : string) (g : page) : list (pattern * page) := [route m p false g; route m p true g].

Definition routes (s : AuthServer) : list (pattern * page) :=
  [route "GET" "/healthz" false Healthz; route "GET" "/readyz" false Readyz;
   route "GET" "/livez" false Livez] ++
  (if String.eqb (AdminSecret (as_cfg s)) "" then []
   else [route "GET" "/admin" false Admin; route "PATCH" "/internal/session" false PatchSession;
         route "POST" "/internal/session" false PatchSession;
         route "POST" "/internal/session/revoke" false RevokeSession;
         route "POST" "/internal/token-handoff/user" false TokenHandoffUser;
         route "POST" "/internal/handoff/issue" false HandoffIssue]) ++
  (if as_metricsHandler s then [route "GET" "/metrics" false Metrics] else []) ++
  both "GET" "/login" Login ++ both "GET" "/callback" Callback ++ both "POST" "/callback" Callback ++
  both "GET" "/session" SessionPage ++ both "GET" "/me" Me ++
  both "GET" "/logout" LogoutPage ++ both "POST" "/logout" LogoutPage ++
  both "GET" "/refresh" RefreshPage ++ [route "GET" "/internal/resolve" false ResolvePage] ++
  both "GET" "/handoff/redeem" HandoffRedeem.

Definition handle (s : AuthServer) (g : page) (w : header) (r : http_request) (connID : string)
    : prog E reply :=
  match g with
  | Healthz => Ret (handleHealthz w)
  | Readyz => handleReadyz s w
  | Livez => Ret (handleLivez w)
  | Admin => auth_handleAdmin s w r
  | PatchSession => handlePatchSession s w r
  | RevokeSession => handleRevokeSession s w r
  | TokenHandoffUser => handleTokenHandoffUser s w r
  | HandoffIssue => handleHandoffIssue s w r
  | Metrics => match as_metricsHandler s with
               | Some h => call h ;;; Ret (write w 200 "")
               | None => Ret (http_error w "404 page not found" 404)
               end
  | Login => handleLogin s w r connID
  | Callback => handleCallback s w r connID
  | SessionPage => handleSession s w r connID
  | Me => handleMe s w r connID
  | LogoutPage => handleLogout s w r connID
  | RefreshPage => handleRefresh s w r connID
  | ResolvePage => handleResolve s w r
  | HandoffRedeem => handleHandoffRedeem s w r connID
  end.

(** The Allow header of a 405: the methods of the path, sorted. *)
Definition allowed (methods : list string) : string :=
  let has m := existsb (String.eqb m) methods in
  Join (List.filter (λ m, has m || (String.eqb m "HEAD" && has "GET")) ["GET"; "HEAD"; "PATCH"; "POST"]) ", ".

(** The multiplexer: the pattern of the path and the method, 405 when only
    another method has the path, 404 otherwise. *)
Definition serve_mux (s : AuthServer) (w : header) (r : http_request) : prog E reply :=
  let here := omap (λ pg, (λ c, (pg, c)) <$> path_matches pg.1 (hr_Path r)) (routes s) in
  match List.find (λ x, method_matches x.1.1 (hr_Method r)) here with
  | Some ((_, g), connID) => handle s g w r connID
  | None =>
      Ret match here with
          | [] => http_error w "404 page not found" 404
          | _ => http_error (h_set w "Allow" (allowed ((λ x, pt_Method x.1.1) <$> here))) "Method Not Allowed" 405
          end
  end.

(** ** Wrappers *)
Definition cors (origins : list string) (next : header → prog E reply) (w : header) (r : http_request)
    : prog E reply :=
  let origin := header_get r "Origin" in
  let w := if existsb (String.eqb origin) origins then h_set w "Access-Control-Allow-Origin" origin else w in
  let w := h_set w "Access-Control-Allow-Credentials" "true" in
  let w := h_set w "Access-Control-Allow-Methods" "GET, POST, OPTIONS" in
  let w := h_set w "Access-Control-Allow-Headers" "Content-Type" in
  if String.eqb (hr_Method r) "OPTIONS" then Ret (write w 204 "") else next w.

Definition securityHeaders (w : header) : header :=
  let w := h_set w "Content-Security-Policy" "default-src 'none'" in
  let w := h_set w "X-Content-Type-Options" "nosniff" in
  h_set w "X-Frame-Options" "DENY".

Definition Handler (s : AuthServer) (r : http_request) : prog E reply :=
  let w := securityHeaders ∅ in
  match CORSAllowedOrigins (as_cfg s) with
  | [] => serve_mux s w r
  | origins => cors origins (λ w, serve_mux s w r) w r
  end.
End server.
