(* ===== verification/AuthServerFacts.v ===== *)
(** * What the auth server's handlers guarantee

    The server-to-server endpoints do nothing without the admin secret, and
    every cookie the server sets is a connector's session cookie with the
    hardening its name asks for. *)

From S2P Require Import Prelude.
From S2P Require Import GoStrings.
From S2P Require Import Effects.
From S2P Require Import GoAny.
From S2P Require Import Json.
From S2P Require Import Cookie.
From S2P Require Import Session.
From S2P Require Import AuthConfig.
From S2P Require Import Handoff.
From S2P Require Import Token.
From S2P Require Import Sdk.
From S2P Require Import AuthService.
From S2P Require Import AuthFlows.
From S2P Require Import AuthzHttp.
From S2P Require Import ProxyServer.
From S2P Require Import GoHttp.
From S2P Require Import AuthServer.
From S2P Require Import AuthEnv.
From S2P Require Import AuthAccess.

Section facts.
Context `{Unicode} `{StructPB} {E : Type → Type}.
Context `{!ClockE E} `{!RandE E} `{!LogE E} `{!WebhookE E} `{!AuthMetricsE E}.
Context `{!JWKSSource E} `{!JwtLib E} `{!OnceStore E}.
Context (multipart_values : http_request → list (string * string)).
Implicit Type s : AuthServer E.

(** ** The admin secret *)
Definition guarded_paths : list string :=
  ["/admin"; "/internal/session"; "/internal/session/revoke"; "/internal/token-handoff/user";
   "/internal/handoff/issue"].
Definition is_guarded (g : page) : bool :=
  match g with
  | Admin | PatchSession | RevokeSession | TokenHandoffUser | HandoffIssue => true
  | _ => false
  end.

Definition here (s : AuthServer E) (path : string) : list ((pattern * page) * string) :=
  omap (λ pg, (λ c, (pg, c)) <$> path_matches pg.1 path) (routes s).

(** Only guarded pages answer on the guarded paths, and none without a secret. *)
Lemma here_guarded s path :
  path ∈ guarded_paths →
  forallb (λ x, is_guarded x.1.2) (here s path) = true ∧
  (AdminSecret (as_cfg s) = "" → here s path = []).
Proof.
  unfold here, routes. intros Hp.
  destruct (String.eqb_spec (AdminSecret (as_cfg s)) "") as [Hs|Hs];
    destruct (as_metricsHandler s); unfold guarded_paths in Hp;
    repeat (apply elem_of_cons in Hp as [->|Hp]); try (by apply elem_of_nil in Hp);
    (split; [vm_compute; reflexivity|]); (done || intros _; vm_compute; reflexivity).
Qed.

Lemma handle_guarded s g w r c :
  is_guarded g = true → is_admin s r = false →
  ∃ rep, handle multipart_values s g w r c = Ret rep ∧ re_Status rep = 403.
Proof.
  intros Hg Ha. destruct g; try done; cbn [handle];
    unfold auth_handleAdmin, handlePatchSession, handleRevokeSession, handleTokenHandoffUser, handleHandoffIssue;
    rewrite Ha; simpl; eauto.
Qed.

Lemma mux_guarded s w r :
  hr_Path r ∈ guarded_paths → (AdminSecret (as_cfg s) = "" ∨ is_admin s r = false) →
  ∃ rep, serve_mux multipart_values s w r = Ret rep ∧ re_Status rep ∈ [403; 404; 405].
Proof.
  intros Hp Hs. unfold serve_mux. fold (here s (hr_Path r)). destruct (here_guarded s _ Hp) as [Hg Hn].
  destruct (List.find _ (here s (hr_Path r))) as [[[p g] c]|] eqn:Ef.
  - apply List.find_some in Ef as [Hin _]. destruct Hs as [Hs|Hs]; [by rewrite (Hn Hs) in Hin|].
    rewrite forallb_forall in Hg. specialize (Hg _ Hin). simpl in Hg.
    destruct (handle_guarded s g w r c Hg Hs) as (rep & -> & Hst). exists rep. rewrite Hst. split; [done|left].
  - destruct (here s (hr_Path r)); eexists; (split; [reflexivity|]); simpl; set_solver.
Qed.

(** C28: the server-to-server endpoints need the admin secret.  On the admin
    report, the session patch and revocation, the delegated token and the handoff
    issue paths, a request whose secret header is not exactly the configured
    secret, or any request when none is configured, is refused (403, or 404/405
    for what is not routed, 204 for a preflight) -- and nothing else happens: no
    store, provider, clock or log is touched. *)
Theorem admin_secret_needed s r
    (Hp : hr_Path r ∈ guarded_paths)
    (Hs : AdminSecret (as_cfg s) = "" ∨ header_get r "X-Admin-Secret" ≠ AdminSecret (as_cfg s)) :
  ∃ rep, Handler multipart_values s r = Ret rep ∧ re_Status rep ∈ [204; 403; 404; 405].
Proof.
  assert (Hs' : AdminSecret (as_cfg s) = "" ∨ is_admin s r = false).
  { destruct Hs as [|Hn]; [by left|right]. unfold is_admin. by apply String.eqb_neq. }
  unfold Handler. destruct (CORSAllowedOrigins (as_cfg s)) as [|o l].
  - destruct (mux_guarded s (securityHeaders ∅) r Hp Hs') as (rep & -> & Hr). exists rep. split; [done|by right].
  - unfold cors. destruct (String.eqb (hr_Method r) "OPTIONS"); [eexists; split; [reflexivity|left]|].
    edestruct (mux_guarded s) as (rep & Hm & Hr); [exact Hp|exact Hs'|]. exists rep. split; [exact Hm|by right].
Qed.

(** ** Cookies *)
Definition set_cookies (w : header) : list string := default [] (w !! "Set-Cookie").

(** A session cookie of connector [connID], or its removal. *)
Inductive hardened (s : AuthServer E) (v : string) : Prop :=
| hardened_set connID name maxAge value domain secure sameSite :
    connectorCookie s connID = (name, maxAge) →
    v = name +:+ "=" +:+ value +:+ "; Path=/; Max-Age=" +:+ Itoa maxAge +:+ "; HttpOnly" +:+ domain
        +:+ secure +:+ "; SameSite=" +:+ sameSite →
    domain = "" ∨ domain = "; Domain=" +:+ CookieDomain (as_cfg s) →
    secure = "" ∨ secure = "; Secure" →
    sameSite ∈ ["Strict"; "None"; "Lax"] →
    (sameSite = "Strict" ↔ CookieSameSite (as_cfg s) = SameSiteStrictMode) →
    (sameSite = "None" ↔ CookieSameSite (as_cfg s) = SameSiteNoneMode) →
    (HasPrefix name "__Host-" = true → domain = "" ∧ secure = "; Secure") →
    (CookieSecure (as_cfg s) = true → secure = "; Secure") →
    hardened s v
| hardened_clear connID secure :
    v = fst (connectorCookie s connID) +:+ "=; Path=/; Max-Age=0; HttpOnly" +:+ secure →
    secure = "" ∨ secure = "; Secure" →
    hardened s v.

Definition cookies_ok (s : AuthServer E) (rep : reply) : Prop :=
  Forall (hardened s) (set_cookies (re_Header rep)).
Definition header_ok (s : AuthServer E) (w : header) : Prop := Forall (hardened s) (set_cookies w).

Lemma h_set_ok s w k v : CanonicalHeaderKey k ≠ "Set-Cookie" → header_ok s w → header_ok s (h_set w k v).
Proof. unfold header_ok, set_cookies, h_set. intros Hk. by rewrite lookup_insert_ne. Qed.

Lemma h_add_ok s w v : hardened s v → header_ok s w → header_ok s (h_add w "Set-Cookie" v).
Proof.
  unfold header_ok, set_cookies, h_add. intros Hv Hw. change (CanonicalHeaderKey "Set-Cookie") with "Set-Cookie".
  rewrite lookup_insert_eq. simpl. apply Forall_app. split; [done|]. by apply List.Forall_cons; [|apply List.Forall_nil].
Qed.

Lemma session_cookie_hardened s connID name maxAge value :
  connectorCookie s connID = (name, maxAge) →
  hardened s (session_cookie name value (cookieOptsForName s name maxAge)).
Proof.
  intros Hc. unfold session_cookie.
  eapply (hardened_set _ _ connID name maxAge value
            (if String.eqb (co_domain (cookieOptsForName s name maxAge)) "" then ""
             else "; Domain=" +:+ co_domain (cookieOptsForName s name maxAge))
            (if co_secure (cookieOptsForName s name maxAge) then "; Secure" else "")
            (co_sameSite (cookieOptsForName s name maxAge))); [done|reflexivity|..].
  - unfold cookieOptsForName. simpl. destruct (HasPrefix name "__Host-"); [by left|].
    destruct (String.eqb _ ""); [by left|by right].
  - destruct (co_secure _); [by right|by left].
  - unfold cookieOptsForName. cbn [co_sameSite]. destruct (CookieSameSite _); set_solver.
  - unfold cookieOptsForName. cbn [co_sameSite]. by destruct (CookieSameSite _).
  - unfold cookieOptsForName. cbn [co_sameSite]. by destruct (CookieSameSite _).
  - intros Hh. unfold cookieOptsForName. simpl. by rewrite Hh.
  - intros Hh. unfold cookieOptsForName. simpl. by rewrite Hh, orb_true_r.
Qed.

Lemma set_session_ok s w connID value : header_ok s w → header_ok s (set_session s w connID value).
Proof.
  intros Hw. unfold set_session. destruct (connectorCookie s connID) as [name maxAge] eqn:Ec.
  destruct (String.eqb value ""); [done|]. apply h_add_ok; [|done]. by eapply session_cookie_hardened.
Qed.

Lemma clearCookie_ok s w connID : header_ok s w → header_ok s (clearCookie s w (fst (connectorCookie s connID))).
Proof.
  intros Hw. unfold clearCookie.
  assert (Hc : header_ok s (h_add w "Set-Cookie" (fst (connectorCookie s connID) +:+ "=; Path=/; Max-Age=0; HttpOnly"))).
  { apply h_add_ok; [|done]. eapply (hardened_clear _ _ connID ""); [reflexivity|by left]. }
  destruct (_ || _); [|done]. apply h_add_ok; [|done]. eapply (hardened_clear _ _ connID "; Secure"); [reflexivity|by right].
Qed.

Lemma http_redirect_ok s w r url : header_ok s w → cookies_ok s (http_redirect w r url).
Proof.
  intros Hw. unfold http_redirect, cookies_ok. fold (header_ok s). destruct (existsb _ _); simpl;
    repeat (apply h_set_ok; [vm_compute; discriminate|]); done.
Qed.

(** The replies that set no cookie. *)
Ltac plain_reply :=
  unfold cookies_ok, http_error, write_json, write_text, write, unauthorized, forbidden; cbn [re_Header];
  match goal with |- Forall (hardened ?s) (set_cookies ?w) => change (header_ok s w) end;
  unfold unauthorized, forbidden, write_json, http_error, write; cbn [re_Header];
  repeat (apply h_set_ok; [vm_compute; discriminate|]);
  repeat first [apply set_session_ok | apply clearCookie_ok]; try assumption.
Ltac handler_ok :=
  repeat match goal with
  | |- always _ (pbind _ _) => apply always_bind; intros ?
  | |- always _ (Ret _) => cbn [always]
  | |- always _ (match ?x with _ => _ end) => destruct x
  | |- cookies_ok _ (match ?x with _ => _ end) => destruct x
  | |- cookies_ok _ (http_redirect _ _ _) => apply http_redirect_ok
  | |- header_ok _ (match ?x with _ => _ end) => destruct x
  | |- header_ok _ (set_session _ _ _ _) => apply set_session_ok
  | |- header_ok _ (clearCookie _ _ _) => apply clearCookie_ok
  | |- cookies_ok _ _ => progress plain_reply
  end; try assumption.

Lemma handoff_redeem_ok s w r c : header_ok s w → always (cookies_ok s) (handleHandoffRedeem s w r c).
Proof.
  intros Hw. unfold handleHandoffRedeem, log, call. cbv zeta.
  destruct (negb _); [handler_ok|]. destruct (String.eqb _ _); [handler_ok|].
  apply always_bind. intros [[value conn]|e]; [|handler_ok].
  destruct (connectorCookie s conn) as [name maxAge] eqn:Ec. simpl. intros _.
  apply http_redirect_ok, h_add_ok; [|done]. by eapply session_cookie_hardened.
Qed.

Lemma handle_ok s g w r c : header_ok s w → always (cookies_ok s) (handle multipart_values s g w r c).
Proof.
  intros Hw. destruct g; cbn [handle];
    unfold handleHealthz, handleLivez, handleReadyz, auth_handleAdmin, handlePatchSession, handleRevokeSession,
      handleTokenHandoffUser, handleHandoffIssue, handleLogin, handleCallback, handleSession, handleMe, handleLogout,
      handleRefresh, handleResolve, log, call; cbv zeta; handler_ok.
  by apply handoff_redeem_ok.
Qed.

Lemma serve_mux_ok s w r : header_ok s w → always (cookies_ok s) (serve_mux multipart_values s w r).
Proof.
  intros Hw. unfold serve_mux. destruct (List.find _ _) as [[[p g] c]|]; [by apply handle_ok|].
  cbn [always]. destruct (omap _ _); plain_reply.
Qed.

(** C27: every cookie the server sets is hardened.  Whatever the request, the
    store and the provider answer, each Set-Cookie line of the response is a
    session cookie of some connector, HttpOnly, for the whole site, with the
    connector's own lifetime, the configured SameSite (Lax when that is neither
    Strict nor None) and no Domain but the configured one, Secure when the
    configuration says so, and Secure without a Domain whenever its name has
    the __Host- prefix; or it removes such a cookie. *)
Theorem cookies_hardened s r tr rep
    (Hx : exec (Handler multipart_values s r) tr rep) :
  Forall (hardened s) (default [] (re_Header rep !! "Set-Cookie")).
Proof.
  apply (always_exec (cookies_ok s) _ _ _) in Hx; [exact Hx|].
  assert (Hw : header_ok s (securityHeaders ∅)).
  { unfold securityHeaders. repeat (apply h_set_ok; [vm_compute; discriminate|]). apply Forall_nil_2. }
  unfold Handler. destruct (CORSAllowedOrigins (as_cfg s)); [by apply serve_mux_ok|].
  unfold cors. destruct (String.eqb _ "OPTIONS"); [cbn [always]; plain_reply|apply serve_mux_ok];
    destruct (existsb _ _); repeat (apply h_set_ok; [vm_compute; discriminate|]); done.
Qed.
End facts.

(** ** Witnesses in the concrete environment *)
#[local] Existing Instance ascii_unicode.

Definition env_server : AuthServer authE :=
  {| as_svc := env_service; as_cfg := env_cfg; as_ping := None; as_metricsHandler := None |}.
Definition get_request (path query : string) : http_request :=
  {| hr_Method := "GET"; hr_TLS := true; hr_Host := "app.example"; hr_Path := path; hr_RawQuery := query;
     hr_Header := ∅; hr_Cookies := []; hr_Body := ""; hr_RemoteAddr := "192.0.2.1:4000" |}.
Definition no_multipart (_ : http_request) : list (string * string) := [].

Lemma admin_secret_needed_witness :
  ∃ rep, Handler no_multipart env_server (get_request "/internal/session" "") = Ret rep
    ∧ re_Status rep ∈ [204; 403; 404; 405].
Proof.
  apply (admin_secret_needed no_multipart env_server (get_request "/internal/session" "")).
  - right. left.
  - left. reflexivity.
Defined.

Definition redeem_request : http_request :=
  get_request "/handoff/redeem/default" ("ticket=" +:+ live_ticket +:+ "&redirect_to=%2Fhome").

(** Redeeming the ticket of AuthAccess sets one cookie, hardened. *)
Lemma cookies_hardened_witness :
  ∃ v tr rep, exec (Handler no_multipart env_server redeem_request) tr rep ∧
    re_Header rep !! "Set-Cookie" = Some [v] ∧ hardened env_server v.
Proof.
  pose proof (run_exec env_handler (Handler no_multipart env_server redeem_request) live_world) as Hx.
  pose proof (cookies_hardened no_multipart env_server redeem_request _ _ Hx) as Hh.
  remember (fst (run env_handler (Handler no_multipart env_server redeem_request) live_world)) as rep eqn:Er.
  assert (Hv : ∃ v, re_Header rep !! "Set-Cookie" = Some [v]) by (rewrite Er; vm_compute; by eexists).
  destruct Hv as [v Hv]. exists v. eexists. exists rep. split; [exact Hx|]. split; [exact Hv|].
  rewrite Hv in Hh. simpl in Hh. by inversion Hh.
Defined.
