(* ===== verification/ResolveChain.v ===== *)
(** * The proxy and the auth server together

    The proxy resolves a session by an HTTP request to the auth server.  Here
    the client's exchange is delivered to the server's own handler, over a
    network that may lose the request or the answer, and the composition is
    compared with the call it stands for: the resolution of the cookie by the
    service. *)

From S2P Require Import Prelude.
From S2P Require Import GoStrings.
From S2P Require Import Utf8Facts.
From S2P Require Import Effects.
From S2P Require Import GoAny.
From S2P Require Import Base64.
From S2P Require Import Json.
From S2P Require Import JsonFacts.
From S2P Require Import Cookie.
From S2P Require Import Session.
From S2P Require Import SessionFacts.
From S2P Require Import AuthConfig.
From S2P Require Import GoUrl.
From S2P Require Import Handoff.
From S2P Require Import Token.
From S2P Require Import Sdk.
From S2P Require Import AuthService.
From S2P Require Import AuthFlows.
From S2P Require Import Authz.
From S2P Require Import AuthzHttp.
From S2P Require Import ProxyServer.
From S2P Require Import ProxyClient.
From S2P Require Import GoHttp.
From S2P Require Import AuthServer.
From S2P Require Import AuthEnv.
From S2P Require Import AuthAccess.

(** The client's only call. *)
Inductive clientE : Type → Type :=
| CE_Do (url : string) (headers : list (string * string)) : clientE (res (Z * string)).
#[global] Instance client_do : HttpDoE clientE := CE_Do.

(** A message over the network: the error it is lost with, if it is. *)
Class NetE (E : Type → Type) := Net : E (option string).

Section chain.
Context `{Unicode} `{StructPB} {E : Type → Type}.
Context `{!ClockE E} `{!RandE E} `{!LogE E} `{!WebhookE E} `{!AuthMetricsE E}.
Context `{!JWKSSource E} `{!JwtLib E} `{!OnceStore E} `{!NetE E}.
Context (multipart_values : http_request → list (string * string)).
Context (json_error : string → string).
Implicit Types (s : AuthServer E) (a : AuthPrincipalResolver) (v : string).

(** The request the server reads off the wire. *)
Definition wire_request (u : URL) (headers : list (string * string)) : http_request :=
  {| hr_Method := "GET"; hr_TLS := false; hr_Host := Host u; hr_Path := Path u; hr_RawQuery := RawQuery u;
     hr_Header := list_to_map ((λ kv, (kv.1, [kv.2])) <$> headers); hr_Cookies := readCookies (value_of "Cookie" headers); hr_Body := ""; hr_RemoteAddr := "" |}.

Definition exchange s (url : string) (headers : list (string * string)) : prog E (res (Z * string)) :=
  match Parse url with
  | Err e => Ret (Err e)
  | Ok u =>
      lost <- call Net ;;
      match lost with
      | Some e => Ret (Err e)
      | None =>
          rep <- Handler multipart_values s (wire_request u headers) ;;
          lost <- call Net ;;
          Ret match lost with Some e => Err e | None => Ok (re_Status rep, re_Body rep) end
      end
  end.

Definition deliver s X (e : clientE X) : prog E X :=
  match e in clientE X return prog E X with CE_Do url headers => exchange s url headers end.

(** The proxy's resolver, talking to this server. *)
Definition resolve_over s a (req : Request) : prog E (res (option Principal)) :=
  interp (deliver s) (resolver_Resolve json_error a req).

(** The resolver it stands for: a session that does not resolve is no
    principal, one that does is the principal of its token, and of its claims and
    tenant as JSON carries them. *)
Definition principal_of (r : res Resolved) : res (option Principal) :=
  match r with
  | Err _ => Ok None
  | Ok x => Ok (Some (resolveResponseToPrincipal
      {| rr_AccessToken := rs_AccessToken x; rr_Claims := read_claims (Some (rs_Claims x)); rr_TenantContext := read_claims (rs_Tenant x) |}))
  end.

(** ** The cookie on the wire *)
Definition wire_byte (c : ascii) : bool :=
  let z := byte_of c in (33 <=? z) && (z <? 127) && negb ((z =? 34) || (z =? 59) || (z =? 92)).
Definition wire_value v : Prop := v ≠ "" ∧ forallb wire_byte (String.list_ascii_of_string v) = true.
Definition cookie_name (n : string) : Prop :=
  n ≠ "" ∧ forallb token_byte (String.list_ascii_of_string n) = true.

Lemma no_byte_class (f : ascii → bool) c x :
  f c = false → forallb f (String.list_ascii_of_string x) = true → no_byte c x.
Proof. intros Hc Hx Hin%list_elem_of_In. rewrite forallb_forall in Hx. specialize (Hx _ Hin). congruence. Qed.

Lemma wire_byte_class v (f : ascii → bool) :
  (∀ c, wire_byte c = true → f c = true) → wire_value v → forallb f (String.list_ascii_of_string v) = true.
Proof. intros Hf [_ Hv]. rewrite forallb_forall in *. auto. Qed.

(** No white space at either end: nothing is trimmed. *)
Lemma cut_any_ows c x :
  32 < byte_of c → cut_any [" "; str (of_byte 9); str (of_byte 10); str (of_byte 13)] (String c x) = None.
Proof.
  intros Hc.
  assert (Hd : ∀ d, byte_of d ≤ 32 → cut_prefix (str d) (String c x) = None).
  { intros d Hd. cbn. destruct (Ascii.eqb_spec d c) as [->|]; [lia|done]. }
  change " " with (str (of_byte 32)). cbn [cut_any]. by rewrite !Hd by (vm_compute; discriminate).
Qed.

Lemma trim_left_ows c x :
  32 < byte_of c → trim_left [" "; str (of_byte 9); str (of_byte 10); str (of_byte 13)] (String c x) = String c x.
Proof. intros Hc. unfold trim_left. cbn [String.length trim_left_aux]. by rewrite cut_any_ows. Qed.

Definition visible (x : string) : Prop := Forall (λ c, 32 < byte_of c) (String.list_ascii_of_string x).

Lemma rev_string_visible x : visible x → visible (rev_string x).
Proof.
  unfold visible. induction x as [|c x IH]; intros Hx; [done|]. apply Forall_cons in Hx as [Hc Hx].
  rewrite rev_string_cons, bytes_app_ascii. apply Forall_app. split; [auto|].
  by apply List.Forall_cons; [|apply List.Forall_nil].
Qed.

Lemma trim_ows_visible x : visible x → trim_ows x = x.
Proof.
  assert (Hl : ∀ y, visible y → trim_left [" "; str (of_byte 9); str (of_byte 10); str (of_byte 13)] y = y).
  { intros [|c y] Hy; [done|]. apply Forall_cons in Hy as [Hc _]. by apply trim_left_ows. }
  intros Hx. unfold trim_ows. rewrite (Hl x) by done. rewrite Hl by by apply rev_string_visible.
  apply rev_string_invol.
Qed.

Lemma class_visible f x :
  (∀ c, f c = true → 32 < byte_of c) → forallb f (String.list_ascii_of_string x) = true → visible x.
Proof. intros Hf Hx. apply Forall_forall. intros c Hc%list_elem_of_In. rewrite forallb_forall in Hx. auto. Qed.

Lemma token_byte_visible c : token_byte c = true → 32 < byte_of c ∧ byte_of c ≠ 61 ∧ byte_of c ≠ 59.
Proof.
  unfold token_byte, byte_in. cbn [existsb]. rewrite !orb_true_iff, !andb_true_iff, !Z.leb_le, !Z.eqb_eq.
  intros Hc. lia.
Qed.

Lemma wire_byte_spec c :
  wire_byte c = true ↔ 33 ≤ byte_of c < 127 ∧ byte_of c ≠ 34 ∧ byte_of c ≠ 59 ∧ byte_of c ≠ 92.
Proof. unfold wire_byte. rewrite !andb_true_iff, negb_true_iff, !orb_false_iff, !Z.eqb_neq, Z.leb_le, Z.ltb_lt. lia. Qed.

Lemma readCookies_one n v : cookie_name n → wire_value v → readCookies (n +:+ "=" +:+ v) = [(n, v)].
Proof.
  intros [Hn0 Hn] Hv. pose proof Hv as [Hv0 Hvb].
  assert (Hvn : visible n) by (by eapply class_visible; [|exact Hn]; intros c (?&_&_)%token_byte_visible).
  assert (Hvv : visible v) by (by eapply class_visible; [|exact Hvb]; intros c Hc%wire_byte_spec; lia).
  assert (Hw : visible (n +:+ "=" +:+ v)).
  { unfold visible. rewrite !bytes_app_ascii, !Forall_app. split; [done|]. split; [|done].
    apply List.Forall_cons; [vm_compute; reflexivity|apply List.Forall_nil]. }
  assert (Hsemi : no_byte ";" (n +:+ "=" +:+ v)).
  { unfold no_byte. rewrite !bytes_app_ascii, !elem_of_app. intros [Hin|[Hin|Hin]].
    - revert Hin. apply (no_byte_class token_byte); [by vm_compute|done].
    - apply list_elem_of_singleton in Hin. discriminate Hin.
    - revert Hin. apply (no_byte_class wire_byte); [by vm_compute|done]. }
  apply cut_none in Hsemi. unfold readCookies, Split. cbn [split_aux]. change ";" with (str ";"). rewrite Hsemi.
  cbn [omap list_omap]. rewrite trim_ows_visible by done.
  destruct (String.eqb_spec (n +:+ "=" +:+ v) "") as [E0|_]; [by destruct n|].
  unfold parse_cookie. change "=" with (str "="). rewrite cut_first by (by apply (no_byte_class token_byte); [vm_compute|]).
  cbn [from_option id]. rewrite (trim_ows_visible n) by done.
  assert (Hq : dquoted v = None).
  { destruct v as [|c v]; [done|]. unfold dquoted. simpl in Hvb. apply andb_true_iff in Hvb as [Hc _].
    apply wire_byte_spec in Hc. by rewrite (proj2 (Z.eqb_neq _ _)) by lia. }
  rewrite Hq. cbn [from_option id]. rewrite (proj2 (String.eqb_neq _ _) Hn0), Hn.
  rewrite (wire_byte_class v cookie_value_byte); [done| |done].
  intros c Hc%wire_byte_spec. unfold cookie_value_byte.
  rewrite !andb_true_iff, negb_true_iff, !orb_false_iff, !Z.eqb_neq, Z.leb_le, Z.ltb_lt. lia.
Qed.

(** What the signed manager makes of an identifier is such a value. *)
Lemma signed_wire m id v : codec_Encode m id = Ok v → wire_value v.
Proof.
  assert (Hw : ∀ x, Forall (λ c, wire_byte c = true) (String.list_ascii_of_string (url_encode x))).
  { intros x. eapply Forall_impl; [apply EncodeToString_chars|]. intros c (? & (? & _ & ? & ?) & _).
    apply wire_byte_spec. split; [lia|done]. }
  unfold codec_Encode, Encode. cbn [as_string]. intros [= <-]. split; [by intros [_ ?]%app_nil_inv|].
  apply forallb_forall. intros c. rewrite <-list_elem_of_In. revert c. apply Forall_forall.
  rewrite bytes_app_ascii, Forall_app. split; [apply Hw|].
  change (signedSep +:+ ?x) with (String "." x). cbn [String.list_ascii_of_string].
  apply List.Forall_cons; [by vm_compute|apply Hw].
Qed.

(** ** The body on the wire *)

(** A resolution whose token is UTF-8 and whose claims survive JSON. *)
Definition plain_resolved (x : Resolved) : Prop :=
  utf8_str (rs_AccessToken x) ∧ plain_claims (rs_Claims x) ∧ from_option plain_claims True (rs_Tenant x).

Lemma tenant_stored (t : option (gmap string any)) :
  from_option plain_claims True t →
  ∃ j, json_of_any (from_option map_any ANil t) = Some j ∧ json_ok j ∧ dec_claims [j] = (read_claims t, true).
Proof.
  destruct t as [m|]; simpl; intros Hm; [|by exists JNull].
  destruct (claims_stored m Hm) as (js & ? & ? & ?). by exists (JObj js).
Qed.

Lemma resolve_body_decodes (x : Resolved) :
  plain_resolved x →
  decode_resolve json_error (resolve_body x) =
    Ok {| rr_AccessToken := rs_AccessToken x; rr_Claims := read_claims (Some (rs_Claims x));
          rr_TenantContext := read_claims (rs_Tenant x) |}.
Proof.
  intros (Ht & Hc & Htc). destruct (claims_stored _ Hc) as (js & Ej & Hj & Hd).
  destruct (tenant_stored _ Htc) as (jt & Et & Hjt & Hdt).
  assert (Hb : resolve_body x = print (JObj [("access_token", JStr (rs_AccessToken x)); ("claims", JObj js);
                                             ("tenant_context", jt)]) +:+ newline).
  { unfold resolve_body, encode_json. cbn [json_of_any]. unfold map_any at 1.
    unfold claims_json in Ej. rewrite Ej, Et. reflexivity. }
  unfold decode_resolve. rewrite Hb. unfold newline. rewrite parse_first_line; [| |by vm_compute].
  - set (m := [("access_token", JStr (rs_AccessToken x)); ("claims", JObj js); ("tenant_context", jt)]).
    assert (bound resolve_fields "access_token" m = [JStr (rs_AccessToken x)] ∧
            bound resolve_fields "claims" m = [JObj js] ∧ bound resolve_fields "tenant_context" m = [jt])
      as (-> & -> & ->) by done.
    rewrite Hd, Hdt. reflexivity.
  - apply json_ok_obj. repeat (apply List.Forall_cons; [split; [solve [repeat constructor]|done]|]). by apply List.Forall_nil.
Qed.

(** JSON keeps who the session is: the texts in a list, in whichever of the two
    shapes a list of texts has, and so the subject and the roles. *)
Lemma strings_carried (y : any) : stringsFromAnySlice (as_read y) = stringsFromAnySlice y.
Proof.
  destruct y as [| | | | | |l|l|]; try done; cbn [as_read stringsFromAnySlice]; unfold strings_of.
  - induction l as [|x l IH]; [done|]. cbn. by f_equal.
  - induction l as [|x l IH]; [done|]. cbn. destruct x; cbn; try done. by f_equal.
Qed.

Lemma map_index_carried k m : NoDup m.*1 → map_index k (sort_members (read_members m)) = as_read (map_index k m).
Proof.
  assert (Ha : ∀ n : list (string * any), NoDup n.*1 → ∀ y, assoc k n = Some y ↔ (k, y) ∈ n).
  { induction n as [|[k' y'] n IH]; cbn [fmap list_fmap fst assoc]; [intros _ y; by rewrite elem_of_nil|].
    intros [Hk Hnd]%NoDup_cons y. rewrite elem_of_cons, <-IH by done. destruct (String.eqb_spec k k') as [->|Hne].
    - split; [intros [= <-]; by left|]. intros [[= <-]|Hin%IH]; [done| |done]. destruct Hk. by apply list_elem_of_fmap_2' with (k', y).
    - split; [by right|]. by intros [[= ? ?]|?]. }
  intros Hnd. unfold map_index.
  assert (Hr : ∀ y, assoc k (sort_members (read_members m)) = Some y ↔ ∃ u, assoc k m = Some u ∧ y = as_read u).
  { intros y. rewrite Ha by by rewrite sort_members_perm, read_members_keys. rewrite sort_members_perm.
    setoid_rewrite Ha; [|done]. unfold read_members. rewrite list_elem_of_In, in_map_iff. setoid_rewrite <-list_elem_of_In.
    split; [intros ([k' u] & [= <- <-] & ?); eauto|]. intros (u & ? & ->). by exists (k, u). }
  destruct (assoc k m) as [u|].
  - by rewrite (proj2 (Hr (as_read u))) by eauto.
  - destruct (assoc k (sort_members _)) as [y|]; [|done]. destruct (proj1 (Hr y) eq_refl) as (u & [=] & _).
Qed.

Lemma claim_carried k c : claim k (read_claims c) = as_read (claim k c).
Proof. destruct c as [m|]; [|done]. cbn. rewrite lookup_fmap. by destruct (m !! k). Qed.

Lemma extractRoles_carried m : plain_claims m → extractRoles (read_claims (Some m)) = extractRoles (Some m).
Proof.
  intros Hm. unfold extractRoles. rewrite !claim_carried, strings_carried.
  assert (Hp : plain_any (claim "realm_access" (Some m))).
  { cbn. destruct (m !! "realm_access") as [y|] eqn:Ey; [|done]. by apply (Hm _ _ Ey). }
  destruct (claim "realm_access" (Some m)) as [| | | | | | | |r]; try done. cbn [as_read as_map mbind option_bind].
  apply plain_map in Hp as [Hnd _]. fold (read_members r). by rewrite map_index_carried, strings_carried.
Qed.

Lemma principal_identity m t tc (p := resolveResponseToPrincipal {| rr_AccessToken := t; rr_Claims := Some m; rr_TenantContext := tc |}) :
  Subject p = claim_str "sub" (Some m) ∧ Roles p = extractRoles (Some m).
Proof.
  unfold p, resolveResponseToPrincipal, normalizeClaims. cbn [rr_Claims Subject Roles]. unfold claim_str.
  destruct (extractRoles (Some m)) as [|x l] eqn:Ex; cbn [default from_option id]; [done|].
  split; [unfold claim; by rewrite lookup_insert_ne|].
  revert Ex. unfold extractRoles, claim. rewrite lookup_insert_eq, lookup_insert_ne by done.
  destruct (m' ← as_map _; _) as [roles|]; done.
Qed.

Lemma carried_identity x who : plain_resolved x → principal_of (Ok x) = Ok (Some who) →
  Subject who = claim_str "sub" (Some (rs_Claims x)) ∧ Roles who = extractRoles (Some (rs_Claims x)) ∧
  p_AccessToken who = rs_AccessToken x.
Proof.
  intros (_ & Hc & _) [= <-]. destruct (principal_identity (as_read <$> rs_Claims x) (rs_AccessToken x)
    (read_claims (rs_Tenant x))) as [Es Er]. split; [|split; [|done]].
  - refine (eq_trans Es _). unfold claim_str.
    change (Some (as_read <$> rs_Claims x)) with (read_claims (Some (rs_Claims x))). rewrite claim_carried. by destruct (claim _ _).
  - refine (eq_trans Er _). by apply extractRoles_carried.
Qed.

(** ** The server's side *)
Lemma mux_resolve s w r :
  hr_Method r = "GET" → hr_Path r = "/internal/resolve" → serve_mux multipart_values s w r = handleResolve s w r.
Proof.
  intros Hm Hp. unfold serve_mux, routes. rewrite Hm, Hp.
  destruct (String.eqb (AdminSecret (as_cfg s)) ""), (as_metricsHandler s); reflexivity.
Qed.

Lemma handler_resolve s r :
  hr_Method r = "GET" → hr_Path r = "/internal/resolve" →
  ∃ w, Handler multipart_values s r = handleResolve s w r.
Proof.
  intros Hm Hp. unfold Handler. destruct (CORSAllowedOrigins (as_cfg s)).
  - eexists. by apply mux_resolve.
  - unfold cors. rewrite Hm. simpl. eexists. by apply mux_resolve.
Qed.

(** What the proxy makes of the server's two answers. *)
Definition relayed (r : res Resolved) : res (option Principal) :=
  match r with
  | Err _ => Ok None
  | Ok x => match decode_resolve json_error (resolve_body x) with
            | Ok out => Ok (Some (resolveResponseToPrincipal out)) | Err e => Err e end
  end.

Lemma relayed_plain r : match r with Ok x => plain_resolved x | Err _ => True end → relayed r = principal_of r.
Proof. destruct r as [x|e]; [|done]. intros Hx. unfold relayed. by rewrite resolve_body_decodes. Qed.

(** The URL reaches the server's resolve page, for this connector. *)
Definition reaches (c : AuthClient) (connectorID : string) : Prop :=
  ∃ u, Parse (resolve_url c connectorID) = Ok u ∧ Path u = "/internal/resolve" ∧
       value_of "connector" (parse_query (RawQuery u)) = connectorID.

Lemma value_of_one k v : value_of k [(k, v)] = v.
Proof. unfold value_of. simpl. by rewrite String.eqb_refl. Qed.

(** The cookie the server looks up, of the one the client sends. *)
Definition seen s a v : string :=
  if String.eqb (ac_cookieName (Client a)) (fst (connectorCookie s (apr_ConnectorID a))) then v else "".

(** The handler, on the request of the client: the service resolves the cookie
    it sees. *)
Lemma handler_asks s a u v :
  v = "" ∨ wire_value v ∧ cookie_name (ac_cookieName (Client a)) →
  reaches (Client a) (apr_ConnectorID a) → Parse (resolve_url (Client a) (apr_ConnectorID a)) = Ok u →
  ∃ w, Handler multipart_values s (wire_request u (cookie_header (Client a) v)) =
    (x <- ResolveForConnector (as_svc s) (apr_ConnectorID a) (seen s a v) ;;
     Ret match x with
         | Err _ => unauthorized w
         | Ok x => write_json (set_session s w (apr_ConnectorID a) (rs_SetCookie x)) 200 (resolve_body x)
         end).
Proof.
  intros Hw (u' & Hu' & Hp & Hq) Hu. rewrite Hu in Hu'. injection Hu' as <-.
  set (r0 := wire_request u _). destruct (handler_resolve s r0) as [w Hr0]; [done|exact Hp|].
  exists w. rewrite Hr0. unfold handleResolve.
  assert (Hc : value_of "connector" (Query r0) = apr_ConnectorID a) by exact Hq.
  assert (Hs : session_cookie_of s r0 (apr_ConnectorID a) = seen s a v).
  { unfold session_cookie_of, cookie_value, r0, wire_request, cookie_header. cbn [hr_Cookies].
    destruct Hw as [->|[Hwv Hn]]; [trans ""; [reflexivity|unfold seen; by destruct (String.eqb _ _)]|].
    rewrite (proj2 (String.eqb_neq _ _) (proj1 Hwv)), value_of_one, readCookies_one by done.
    unfold seen, value_of. simpl List.find. by destruct (String.eqb _ _). }
  cbv zeta. by rewrite Hc, Hs.
Qed.

(** The composition, as the exchange it boils down to: the request is lost, or
    the service resolves the cookie it sees, and then the answer is lost or
    relayed. *)
Lemma resolve_over_exec s a req v tr x :
  default "" (Cookies req !! CookieName a) = v →
  v = "" ∨ wire_value v ∧ cookie_name (ac_cookieName (Client a)) →
  reaches (Client a) (apr_ConnectorID a) →
  exec (resolve_over s a req) tr x ↔
    (∃ e, tr = [Ev Net (Some e)] ∧ x = Err e) ∨
    ∃ t r, exec (ResolveForConnector (as_svc s) (apr_ConnectorID a) (seen s a v)) t r ∧
      ((∃ e, tr = Ev Net None :: t ++ [Ev Net (Some e)] ∧ x = Err e) ∨
       tr = Ev Net None :: t ++ [Ev Net None] ∧ x = relayed r).
Proof.
  intros Hv Hw Hurl. pose proof Hurl as (u & Hu & _). destruct (handler_asks s a u v Hw Hurl Hu) as [w Hr0].
  unfold resolve_over, resolver_Resolve, ResolveConnector. rewrite Hv, Hu.
  cbn [pbind call HttpDo client_do interp deliver]. unfold exchange. rewrite Hu. cbn [pbind call]. rewrite Hr0.
  split.
  - intros (lost & t0 & -> & Hx). destruct lost as [e|]; [destruct Hx as [-> <-]; left; eauto|]. right.
    apply exec_bind in Hx as (ans & t1 & t2 & -> & H1 & [-> <-]). rewrite app_nil_r.
    apply exec_bind in H1 as (rep & t3 & t4 & -> & H3 & (lost & t5 & -> & [-> <-])).
    apply exec_bind in H3 as (r & t6 & t7 & -> & Hr & [-> <-]). rewrite app_nil_r.
    exists t6, r. split; [done|]. destruct lost as [e|]; [left; eauto|right]. split; [done|].
    destruct r as [y|e]; [|done]. simpl. by destruct (decode_resolve _ _).
  - intros [(e & -> & ->)|(t & r & Hr & Hor)]; [by exists (Some e), []|].
    assert (∃ lost, tr = Ev Net None :: t ++ [Ev Net lost] ∧
                    x = match lost with Some e => Err e | None => relayed r end) as (lost & -> & ->).
    { destruct Hor as [(e & -> & ->)|[-> ->]]; [by exists (Some e)|by exists None]. }
    exists None, (t ++ [Ev Net lost]). split; [done|]. apply exec_bind.
    eexists _, (t ++ [Ev Net lost]), []. split; [by rewrite app_nil_r|]. split.
    + apply exec_bind. eexists _, t, _. split; [done|]. split; [|by exists lost, []].
      apply exec_bind. exists r, t, []. split; [by rewrite app_nil_r|]. by split.
    + split; [done|]. destruct lost as [e|]; [done|]. destruct r as [y|e]; [|done].
      simpl. by destruct (decode_resolve _ _).
Qed.

(** The same over a handler whose network loses nothing: the run of the
    service's own resolution, its answer relayed. *)
Lemma resolve_over_run {S : Type} (h : handler E S) s a req v w :
  (∀ w, h _ Net w = (None, w)) → default "" (Cookies req !! CookieName a) = v →
  v = "" ∨ wire_value v ∧ cookie_name (ac_cookieName (Client a)) →
  reaches (Client a) (apr_ConnectorID a) →
  run h (resolve_over s a req) w =
    let '(r, w') := run h (ResolveForConnector (as_svc s) (apr_ConnectorID a) (seen s a v)) w in (relayed r, w').
Proof.
  intros Hnet Hv Hw Hurl. pose proof Hurl as (u & Hu & _). destruct (handler_asks s a u v Hw Hurl Hu) as [p Hr0].
  unfold resolve_over, resolver_Resolve, ResolveConnector. rewrite Hv, Hu.
  cbn [pbind call HttpDo client_do interp deliver]. unfold exchange. rewrite Hu. cbn [pbind call run]. rewrite Hr0, Hnet.
  rewrite !run_bind. destruct (run h (ResolveForConnector _ _ _) w) as [r w']. cbn [pbind call run]. rewrite Hnet.
  destruct r as [x|e]; [|done]. simpl. by destruct (decode_resolve _ _).
Qed.

(** C10: the proxy's resolver refines the service's.  With a cookie of legal
    name and value, under the name the auth server expects for the connector, and a URL that reaches its
    resolve page, the resolver composed with the server, over a network that
    may lose the request or the answer, does exactly this: it fails when a
    message is lost, or it answers what the service's own resolution of that
    cookie answered: no principal for a session the service turns down, and
    the principal of the session's own token, claims and tenant otherwise (as
    JSON carries them, for sessions it can carry), with the subject and the
    roles of the session's claims.  And every answer of the service is so relayed
    when nothing is lost. *)
Theorem resolve_refines s a req v
    (Hv : Cookies req !! CookieName a = Some v) (Hwire : wire_value v)
    (Hn : cookie_name (ac_cookieName (Client a)))
    (Hsame : ac_cookieName (Client a) = fst (connectorCookie s (apr_ConnectorID a)))
    (Hurl : reaches (Client a) (apr_ConnectorID a)) :
  let service := ResolveForConnector (as_svc s) (apr_ConnectorID a) v in
  let carried r := match r with Ok x => plain_resolved x | Err _ => True end in
  (∀ tr x, exec (resolve_over s a req) tr x →
    (∃ e, tr = [Ev Net (Some e)] ∧ x = Err e) ∨
    ∃ t r, exec service t r ∧
      ((∃ e, tr = Ev Net None :: t ++ [Ev Net (Some e)] ∧ x = Err e) ∨
       tr = Ev Net None :: t ++ [Ev Net None] ∧ (carried r → x = principal_of r))) ∧
  (∀ t r, exec service t r → carried r →
    exec (resolve_over s a req) (Ev Net None :: t ++ [Ev Net None]) (principal_of r)) ∧
  (∀ x who, plain_resolved x → principal_of (Ok x) = Ok (Some who) →
    Subject who = claim_str "sub" (Some (rs_Claims x)) ∧ Roles who = extractRoles (Some (rs_Claims x)) ∧
    p_AccessToken who = rs_AccessToken x).
Proof.
  intros service carried.
  assert (Hs : seen s a v = v) by (unfold seen; by rewrite Hsame, String.eqb_refl).
  split; [|split; [|intros x who; apply carried_identity]].
  - intros tr x Hx. apply (resolve_over_exec s a req v) in Hx; [|by rewrite Hv|by right|done]. rewrite Hs in Hx.
    destruct Hx as [?|(t & r & Hr & Hor)]; [by left|right]. exists t, r. split; [done|].
    destruct Hor as [?|[-> ->]]; [by left|right]. split; [done|]. apply relayed_plain.
  - intros t r Hr Hc. apply (resolve_over_exec s a req v); [by rewrite Hv|by right|done|]. rewrite Hs. right.
    exists t, r. split; [done|]. right. split; [done|]. by rewrite relayed_plain.
Qed.

(** A cookie under another name is never seen.  When the proxy's client sends
    the session cookie under a name other than the connector's own, no request
    ever resolves: the answer is no principal or a network error, and neither
    the session store nor the provider is asked. *)
Theorem other_name_never_resolves s a req v tr x
    (Hv : Cookies req !! CookieName a = Some v) (Hwire : wire_value v)
    (Hn : cookie_name (ac_cookieName (Client a)))
    (Hother : ac_cookieName (Client a) ≠ fst (connectorCookie s (apr_ConnectorID a)))
    (Hurl : reaches (Client a) (apr_ConnectorID a))
    (Hx : exec (resolve_over s a req) tr x) :
  ((∃ e, x = Err e) ∨ x = Ok None) ∧ Forall (λ ev, ∃ lost, ev = Ev Net lost) tr.
Proof.
  apply (resolve_over_exec s a req v) in Hx; [|by rewrite Hv|by right|done].
  assert (Hs : seen s a v = "") by (unfold seen; by rewrite (proj2 (String.eqb_neq _ _) Hother)).
  rewrite Hs in Hx. destruct Hx as [(e & -> & ->)|(t & r & [-> <-] & [(e & -> & ->)|[-> ->]])];
    (split; [eauto|]); repeat (apply List.Forall_cons; [eauto|]); apply List.Forall_nil.
Qed.
End chain.

(** ** Witnesses in the concrete environment *)
#[local] Existing Instance ascii_unicode.
#[local] Instance env_net : NetE authE := E_Net.

Definition chain_server : AuthServer authE :=
  {| as_svc := env_service; as_cfg := env_cfg; as_ping := None; as_metricsHandler := None |}.
Definition chain_multipart (_ : http_request) : list (string * string) := [].
Definition chain_error (_ : string) : string := "invalid character".
Definition chain_resolver (name : string) : AuthPrincipalResolver :=
  {| Client := NewAuthClient "http://accessgate-auth:8080/" name; CookieName := "sid"; apr_ConnectorID := "" |}.
Definition chain_request : Request :=
  {| Protocol := "https"; Method := "GET"; rq_Path := "/"; Headers := ∅; Cookies := {[ "sid" := live_cookie ]};
     Body := ""; GraphQLOperation := ""; GraphQLOperationType := ""; GRPCService := ""; GRPCMethod := "";
     RemoteAddr := "" |}.

Lemma chain_reaches name : reaches (Client (chain_resolver name)) "".
Proof. eexists. split; [vm_compute; reflexivity|]. split; reflexivity. Qed.
Lemma chain_wire : wire_value live_cookie.
Proof. split; [|vm_compute; reflexivity]. intros E. vm_compute in E. discriminate E. Qed.

(** The live session comes through the wire whole. *)
Lemma resolve_refines_witness :
  ∃ tr p, exec (resolve_over chain_multipart chain_error chain_server (chain_resolver "sid") chain_request) tr
            (Ok (Some p)) ∧ p_AccessToken p = "at" ∧ Subject p = "u1".
Proof.
  pose proof (run_exec env_handler (ResolveForConnector env_service "" live_cookie) live_world) as Hx.
  destruct (resolve_refines chain_multipart chain_error chain_server (chain_resolver "sid") chain_request live_cookie)
    as (_ & Hback & _).
  - reflexivity.
  - exact chain_wire.
  - split; [discriminate|vm_compute; reflexivity].
  - reflexivity.
  - exact (chain_reaches "sid").
  - destruct (fst (run env_handler (ResolveForConnector env_service "" live_cookie) live_world))
      as [r|e] eqn:Er; [|vm_compute in Er; discriminate Er].
    assert (Hr : plain_resolved r ∧ rs_AccessToken r = "at" ∧ rs_Claims r = {[ "sub" := AStr "u1" ]}).
    { vm_compute in Er. injection Er as <-. split; [|by split]. split; [|split; [|done]].
      - apply valid_utf8. vm_compute. reflexivity.
      - change (plain_claims {[ "sub" := AStr "u1" ]}). apply map_Forall_singleton. split; apply valid_utf8; vm_compute; reflexivity. }
    destruct Hr as (Hp & Ht & Hc). eexists. eexists. split; [exact (Hback _ _ Hx Hp)|].
    split; [exact Ht|]. unfold resolveResponseToPrincipal. rewrite Hc. vm_compute. reflexivity.
Defined.

(** The same session under another cookie name is nobody's. *)
Lemma other_name_never_resolves_witness :
  ∃ tr x, exec (resolve_over chain_multipart chain_error chain_server (chain_resolver "sid_other") chain_request)
            tr x ∧ ((∃ e, x = Err e) ∨ x = Ok None).
Proof.
  pose proof (run_exec env_handler
    (resolve_over chain_multipart chain_error chain_server (chain_resolver "sid_other") chain_request) live_world) as Hx.
  eexists. eexists. split; [exact Hx|].
  refine (proj1 (other_name_never_resolves chain_multipart chain_error chain_server (chain_resolver "sid_other")
    chain_request live_cookie _ _ _ _ _ _ _ Hx)).
  - reflexivity.
  - exact chain_wire.
  - split; [discriminate|vm_compute; reflexivity].
  - intros E. vm_compute in E. discriminate E.
  - exact (chain_reaches "sid_other").
Defined.
