(* ===== verification/Policy.v ===== *)
(** * Policy engines (internal/policy)

    The Rego and WASM engines, the bundle loader with its cache and signature
    check, and the watcher that reloads a bundle.  An object the Go code mutates
    is a record that its operations take and give back.  Files, the clock's
    zone, wazero, OPA and the Ed25519 primitives are external: calls, or
    parameters where they are pure.  Log lines leave out times. *)

From S2P Require Import Prelude.
From S2P Require Import GoStrings.
From S2P Require Import Effects.
From S2P Require Import GoTime.
From S2P Require Import GoAny.
From S2P Require Import Base64.
From S2P Require Import Json.
From S2P Require Import Session.
From S2P Require Import Handoff.
From S2P Require Import Token.
From S2P Require Import AuthService.
From S2P Require Import AuthFlows.
From S2P Require Import Authz.
From S2P Require Import ProxyConfig.

(** ** What is outside *)
Variant read_answer := Data (s : string) | NotExist (msg : string) | ReadError (msg : string).
Definition read_error (a : read_answer) : string := match a with Data _ => "" | NotExist m | ReadError m => m end.

(** [os.Stat(path).ModTime()] and [os.ReadFile(path)]. *)
Class FileE (E : Type → Type) := { Stat : string → E (res Z); ReadFile : string → E read_answer }.

(** crypto/ed25519, encoding/pem and crypto/x509: the bytes of a PEM block, and
    the Ed25519 key in a PKIX document, or the name of another key's type. *)
Class Ed25519 := {
  ed25519_Verify : string → string → string → bool;
  pem_Decode : string → option string;
  ParsePKIXPublicKey : string → res (string + string) }.

(** wazero: modules have a memory that survives their calls. *)
Class Wazero (E : Type → Type) := {
  CompiledModule : Type; Module : Type;
  CompileModule : string → E (res CompiledModule);
  InstantiateModule : CompiledModule → E (res Module);
  CloseModule : Module → E unit;
  exports_evaluate : Module → bool; exports_memory : Module → bool;
  mem_Write : Module → Z → string → E bool;
  mem_Read : Module → Z → Z → E (option string);
  call_evaluate : Module → Z → Z → E (res (list Z)) }.

(** OPA: a prepared query, and the values of the expressions of each result. *)
Class Rego (E : Type → Type) := {
  PreparedEvalQuery : Type;
  PrepareForEval : string → string → E (res PreparedEvalQuery);
  rego_Eval : PreparedEvalQuery → Input → E (res (list (list any))) }.

(** A time in JSON, in the local zone; [None] outside the years 0 to 9999. *)
Class LocalTime := time_text : Z → option string.

(** ** Fallback *)
Record FallbackConfig := { fb_Allow : bool }.
Definition DefaultFallbackDeny : FallbackConfig := {| fb_Allow := false |}.
Definition DefaultFallbackAllow : FallbackConfig := {| fb_Allow := true |}.

Definition fallbackDecision (f : FallbackConfig) : Decision :=
  if fb_Allow f
  then {| d_Allow := true; d_StatusCode := 200; d_Headers := ∅; d_Reason := ""; d_Obligations := ∅ |}
  else {| d_Allow := false; d_StatusCode := 503; d_Headers := ∅; d_Reason := "policy unavailable";
          d_Obligations := ∅ |}.

(** ** Decisions of dynamic values (rego.go) *)

(** [strconv.ParseInt(s, 10, 64)]: a sign may lead. *)
Definition ParseInt64 (s : string) : option Z :=
  match s with
  | String c r => if byte_of c =? 43 then (if HasPrefix r "-" then None else int_of_lit r) else int_of_lit s
  | "" => None
  end.
Definition asInt (v : any) : option Z :=
  match v with
  | AInt z => Some z
  | AFloat f => Some (f64_trunc f)
  | ANumber lit => ParseInt64 lit
  | AStr s => ParseInt64 s
  | _ => None
  end.

Definition string_headers (m : list (string * any)) : gmap string string :=
  list_to_map (omap (λ kv, match kv.2 with AStr s => Some (kv.1, s) | _ => None end) m).

Definition decisionFromAny (m : list (string * any)) (fallback : Decision) : Decision :=
  {| d_Allow := default (d_Allow fallback) (as_bool (map_index "allow" m));
     d_StatusCode := default (d_StatusCode fallback) (asInt (map_index "status_code" m));
     d_Headers := match as_map (map_index "headers" m) with
                  | Some raw => string_headers raw ∪ d_Headers fallback | None => d_Headers fallback end;
     d_Reason := default (d_Reason fallback) (as_string (map_index "reason" m));
     d_Obligations := match as_map (map_index "obligations" m) with
                      | Some raw => list_to_map raw | None => d_Obligations fallback end |}.

(** ** Signatures (signature.go) *)
Section signature.
Context `{Unicode} `{Ed25519}.

Definition SignatureSuffix : string := ".sig".
Definition signaturePath (bundlePath : string) : string := bundlePath +:+ SignatureSuffix.

Definition parseEd25519PublicKey (pemBytes : string) : res string :=
  let trimmed := TrimSpace pemBytes in
  if String.eqb trimmed "" then Err "policy: empty public key"
  else
    match pem_Decode trimmed with
    | Some block =>
        match ParsePKIXPublicKey block with
        | Err e => Err ("policy: parse PKIX public key: " +:+ e)
        | Ok (inr t) => Err ("policy: public key is not Ed25519 (got " +:+ t +:+ ")")
        | Ok (inl pub) => Ok pub
        end
    | None =>
        match std_decode trimmed with
        | Some raw => if (String.length raw =? 32)%nat then Ok raw
                      else Err "policy: public key is not a valid PEM-encoded Ed25519 key"
        | None => Err "policy: public key is not a valid PEM-encoded Ed25519 key"
        end
    end.

(** The text of the base64 error is a parameter of the message only. *)
Context (base64_error : string → string).

Definition decodeSignature (sig : string) : res string :=
  if (String.length sig =? 64)%nat then Ok sig
  else
    match std_decode (TrimSpace sig) with
    | None => Err ("policy: signature is neither raw 64 bytes nor valid base64: " +:+ base64_error (TrimSpace sig))
    | Some decoded =>
        if (String.length decoded =? 64)%nat then Ok decoded
        else Err ("policy: signature has wrong length: got " +:+ Itoa (len decoded) +:+ ", want 64")
    end.

(** [None] is a nil error. *)
Definition verifyBundleSignature (publicKeyPEM bundle signature : string) : option string :=
  match parseEd25519PublicKey publicKeyPEM with
  | Err e => Some e
  | Ok pub =>
      match decodeSignature signature with
      | Err e => Some e
      | Ok sig => if ed25519_Verify pub bundle sig then None
                  else Some "policy: bundle signature verification failed"
      end
  end.

Definition ErrSignatureMissing : string := "policy: bundle signature file is missing".
Definition verifyBundleFile {E : Type → Type} `{!FileE E} (publicKeyPEM bundlePath bundle : string)
    : prog E (option string) :=
  a <- call (ReadFile (signaturePath bundlePath)) ;;
  Ret match a with
      | NotExist _ => Some (ErrSignatureMissing +:+ ": expected " +:+ Quote (signaturePath bundlePath))
      | ReadError e => Some ("policy: read bundle signature: " +:+ e)
      | Data sig => verifyBundleSignature publicKeyPEM bundle sig
      end.
End signature.

(** ** The input in JSON *)
Definition strings_json (l : list string) : json := match l with [] => JNull | _ => JArr (JStr <$> l) end.
Definition headers_json (h : gmap string string) : json :=
  JObj (sort_members ((λ kv, (kv.1, JStr kv.2)) <$> map_to_list h)).

Definition principal_json `{LocalTime} (p : Principal) : option json :=
  cl ← claims_json (p_Claims p);
  t ← time_text (p_ExpiresAt p);
  tc ← claims_json (p_TenantContext p);
  Some (JObj [("Subject", JStr (Subject p)); ("Scopes", strings_json (Scopes p)); ("Roles", strings_json (Roles p));
              ("Claims", cl); ("ExpiresAt", JStr t); ("AccessToken", JStr (p_AccessToken p));
              ("TenantContext", tc)]).
Definition input_json `{LocalTime} (i : Input) : option string :=
  pj ← match in_Principal i with None => Some JNull | Some p => principal_json p end;
  Some (print (JObj [("Protocol", JStr (in_Protocol i)); ("Method", JStr (in_Method i)); ("Path", JStr (in_Path i));
                     ("GraphQLOperation", JStr (in_GraphQLOperation i)); ("GRPCService", JStr (in_GRPCService i));
                     ("GRPCMethod", JStr (in_GRPCMethod i)); ("Principal", pj);
                     ("Headers", headers_json (in_Headers i))])).

(** ** The output of a WASM policy *)
Definition output_fields : list string := ["allow"; "status_code"; "reason"; "obligations"; "headers"].

(** A [map[string]string] field: null empties the map, and as an element is "". *)
Definition dec_headers (vs : list json) : gmap string string * bool :=
  foldl (λ st v, match v with
                 | JNull => (∅, st.2)
                 | JObj m => foldl (λ st kv, match kv.2 with
                                             | JStr s => (<[kv.1 := s]> st.1, st.2)
                                             | JNull => (<[kv.1 := ""]> st.1, st.2)
                                             | _ => (st.1, false) end) st m
                 | _ => (st.1, false)
                 end) (∅, true) vs.

Definition decode_output `{Unicode} (buf : string) : option Decision :=
  match parse buf with
  | Some (JObj m) =>
      let '(allow, o1) := dec_bool (bound output_fields "allow" m) in
      let '(code, o2) := dec_int (bound output_fields "status_code" m) in
      let '(reason, o3) := dec_string (bound output_fields "reason" m) in
      let '(obl, o4) := dec_claims (bound output_fields "obligations" m) in
      let '(hs, o5) := dec_headers (bound output_fields "headers" m) in
      if o1 && o2 && o3 && o4 && o5
      then Some {| d_Allow := allow; d_StatusCode := code; d_Headers := hs; d_Reason := reason;
                   d_Obligations := default ∅ obl |}
      else None
  | Some JNull => Some {| d_Allow := false; d_StatusCode := 0; d_Headers := ∅; d_Reason := ""; d_Obligations := ∅ |}
  | _ => None
  end.

(** ** The WASM engine (wasm.go) *)
Section engines.
Context `{Unicode} `{LocalTime} `{Ed25519} {E : Type → Type} `{!FileE E} `{WZ : !Wazero E} `{RG : !Rego E} `{!LogE E}.
Context (base64_error : string → string).

Record WASMRuntime := {
  wr_compiled : option CompiledModule; wr_module : option Module; wr_fallback : FallbackConfig;
  wr_bundlePath : string }.
Definition NewWASMRuntime (f : FallbackConfig) : WASMRuntime :=
  {| wr_compiled := None; wr_module := None; wr_fallback := f; wr_bundlePath := "" |}.

Definition loadCompiled (w : WASMRuntime) (c : CompiledModule) : prog E (WASMRuntime * option string) :=
  r <- call (InstantiateModule c) ;;
  match r with
  | Err e => Ret (w, Some ("policy: instantiate wasm: " +:+ e))
  | Ok m =>
      if negb (exports_evaluate m) then
        call (CloseModule m) ;;; Ret (w, Some ("policy: wasm module must export " +:+ dq "'evaluate'"))
      else if negb (exports_memory m) then
        call (CloseModule m) ;;; Ret (w, Some ("policy: wasm module must export " +:+ dq "'memory'"))
      else
        match wr_module w with Some old => call (CloseModule old) | None => Ret tt end ;;;
        Ret ({| wr_compiled := Some c; wr_module := Some m; wr_fallback := wr_fallback w;
                wr_bundlePath := wr_bundlePath w |}, None)
  end.

Definition WASM_Load (w : WASMRuntime) (path : string) : prog E (WASMRuntime * option string) :=
  a <- call (ReadFile path) ;;
  match a with
  | Data wasm =>
      r <- call (CompileModule wasm) ;;
      match r with
      | Err e => Ret (w, Some ("policy: compile wasm: " +:+ e))
      | Ok c => loadCompiled {| wr_compiled := wr_compiled w; wr_module := wr_module w;
                                wr_fallback := wr_fallback w; wr_bundlePath := path |} c
      end
  | _ => Ret (w, Some ("policy: read wasm: " +:+ read_error a))
  end.

Definition WASM_Evaluate (w : WASMRuntime) (input : Input) : prog E Decision :=
  let fallback := Ret (fallbackDecision (wr_fallback w)) in
  match wr_module w with
  | None => fallback
  | Some m =>
      match input_json input with
      | None => fallback
      | Some inputJSON =>
          if negb (exports_memory m) then fallback
          else
            ok <- call (mem_Write m 0 inputJSON) ;;
            if negb ok then fallback
            else if negb (exports_evaluate m) then fallback
            else
              r <- call (call_evaluate m 0 (len inputJSON)) ;;
              match r with
              | Ok [p; l] =>
                  let outLen := l `mod` 2 ^ 32 in
                  if outLen =? 0 then fallback
                  else
                    buf <- call (mem_Read m (p `mod` 2 ^ 32) outLen) ;;
                    Ret (default (fallbackDecision (wr_fallback w)) (match buf with Some s => decode_output s | None => None end))
              | _ => fallback
              end
      end
  end.
Definition WASM_Loaded (w : WASMRuntime) : bool := bool_decide (is_Some (wr_module w)).

(** ** The Rego engine (rego.go) *)
Record RegoEngine := {
  re_fallback : FallbackConfig; re_bundlePath : string; re_prepared : option PreparedEvalQuery }.
Definition NewRegoEngine (f : FallbackConfig) : RegoEngine :=
  {| re_fallback := f; re_bundlePath := ""; re_prepared := None |}.

Definition Rego_Load (r : RegoEngine) (path : string) : prog E (RegoEngine * option string) :=
  a <- call (ReadFile path) ;;
  match a with
  | Data src =>
      q <- call (PrepareForEval "data.accessgate.decision" src) ;;
      Ret match q with
          | Err e => (r, Some ("policy: compile rego: " +:+ e))
          | Ok q => ({| re_fallback := re_fallback r; re_bundlePath := path; re_prepared := Some q |}, None)
          end
  | _ => Ret (r, Some ("policy: read rego: " +:+ read_error a))
  end.

Definition Rego_Evaluate (r : RegoEngine) (input : Input) : prog E Decision :=
  match re_prepared r with
  | None => Ret (fallbackDecision (re_fallback r))
  | Some q =>
      rs <- call (rego_Eval q input) ;;
      Ret match rs with
          | Ok ((AMap m :: _) :: _) => decisionFromAny m (fallbackDecision (re_fallback r))
          | _ => fallbackDecision (re_fallback r)
          end
  end.
Definition Rego_Loaded (r : RegoEngine) : bool := bool_decide (is_Some (re_prepared r)).

(** ** The bundle loader (bundle.go) *)
Record cachedBundle := { cb_compiled : CompiledModule; cb_modTime : Z }.
Record BundleLoader := {
  bl_cache : gmap string cachedBundle; bl_fallback : FallbackConfig; bl_publicKeyPEM : string }.

Definition empty_loader (f : FallbackConfig) (publicKeyPEM : string) : BundleLoader :=
  {| bl_cache := ∅; bl_fallback := f; bl_publicKeyPEM := publicKeyPEM |}.
Definition NewBundleLoader (f : FallbackConfig) (publicKeyPEM : string) : prog E BundleLoader :=
  (if String.eqb publicKeyPEM ""
   then log ("warn: policy bundle signature verification is disabled; set bundle_public_key_path for integrity checks")
   else Ret tt) ;;;
  Ret (empty_loader f publicKeyPEM).

Definition instantiateEngine (b : BundleLoader) (c : CompiledModule) : prog E (res WASMRuntime) :=
  r <- loadCompiled (NewWASMRuntime (bl_fallback b)) c ;;
  Ret match r with (w, None) => Ok w | (_, Some e) => Err e end.

Definition check_signature (b : BundleLoader) (path wasm : string) : prog E (option string) :=
  if String.eqb (bl_publicKeyPEM b) "" then Ret None
  else
    e <- verifyBundleFile base64_error (bl_publicKeyPEM b) path wasm ;;
    Ret ((λ e, "policy: bundle " +:+ Quote path +:+ " failed signature verification: " +:+ e) <$> e).

Definition LoadBundle (b : BundleLoader) (path : string) : prog E (BundleLoader * res WASMRuntime) :=
  st <- call (Stat path) ;;
  match st with
  | Err e => Ret (b, Err e)
  | Ok modTime =>
      a <- call (ReadFile path) ;;
      match a with
      | Data wasm =>
          let fresh :=
            e <- check_signature b path wasm ;;
            match e with
            | Some e => Ret (b, Err e)
            | None =>
                r <- call (CompileModule wasm) ;;
                match r with
                | Err e => Ret (b, Err e)
                | Ok c =>
                    let b := {| bl_cache := <[path := {| cb_compiled := c; cb_modTime := modTime |}]> (bl_cache b);
                                bl_fallback := bl_fallback b; bl_publicKeyPEM := bl_publicKeyPEM b |} in
                    w <- instantiateEngine b c ;; Ret (b, w)
                end
            end in
          match bl_cache b !! path with
          | Some entry =>
              if cb_modTime entry =? modTime
              then w <- instantiateEngine b (cb_compiled entry) ;; Ret (b, w)
              else fresh
          | None => fresh
          end
      | _ => Ret (b, Err (read_error a))
      end
  end.

(** ** Hot reload (hotwatcher.go) *)

(** [reload] works on the state [L] of the loader it closes over, and the
    watcher serves an engine [G]; a reload may answer a nil engine. *)
Section watcher.
Context {L G : Type}.
Definition ReloadFunc : Type := L → prog E (L * res (option G)).

Record HotWatcher := {
  hw_path : string; hw_interval : Z; hw_reload : ReloadFunc; hw_current : G; hw_lastMod : Z;
  hw_stopped : bool }.

Definition NewHotWatcher (path : string) (interval : Z) (initial : G) (reload : ReloadFunc) : prog E HotWatcher :=
  st <- call (Stat path) ;;
  Ret {| hw_path := path; hw_interval := if interval <=? 0 then Second else interval; hw_reload := reload;
         hw_current := initial; hw_lastMod := match st with Ok t => t | Err _ => zero_time end;
         hw_stopped := false |}.

Definition Stop (w : HotWatcher) : HotWatcher :=
  {| hw_path := hw_path w; hw_interval := hw_interval w; hw_reload := hw_reload w; hw_current := hw_current w;
     hw_lastMod := hw_lastMod w; hw_stopped := true |}.
Definition swap (w : HotWatcher) (e : G) (t : Z) : HotWatcher :=
  {| hw_path := hw_path w; hw_interval := hw_interval w; hw_reload := hw_reload w; hw_current := e;
     hw_lastMod := t; hw_stopped := hw_stopped w |}.

Definition checkAndReload (w : HotWatcher) (l : L) : prog E (HotWatcher * L * bool) :=
  st <- call (Stat (hw_path w)) ;;
  match st with
  | Err e =>
      log ("reload check: stat " +:+ Quote (hw_path w) +:+ " failed, keeping last-good policy: " +:+ e) ;;;
      Ret (w, l, false)
  | Ok t =>
      if t =? hw_lastMod w then Ret (w, l, false)
      else
        x <- hw_reload w l ;;
        match x with
        | (l, Err e) =>
            log ("reload of " +:+ Quote (hw_path w) +:+ " failed, retaining last-good policy (fail-closed, no deny-all): "
                 +:+ e) ;;;
            Ret (w, l, false)
        | (l, Ok None) =>
            log ("reload of " +:+ Quote (hw_path w) +:+ " returned nil engine, retaining last-good policy") ;;;
            Ret (w, l, false)
        | (l, Ok (Some e)) =>
            log ("reloaded policy bundle " +:+ Quote (hw_path w)) ;;;
            Ret (swap w e t, l, true)
        end
  end.

(** [run]: the ticks until the watcher is stopped. *)
Fixpoint run_ticks (n : nat) (w : HotWatcher) (l : L) : prog E (HotWatcher * L) :=
  match n with
  | O => Ret (w, l)
  | S n =>
      if hw_stopped w then Ret (w, l)
      else x <- checkAndReload w l ;; let '(w, l, _) := x in run_ticks n w l
  end.
End watcher.
Arguments HotWatcher L G : clear implicits.

(** ** Construction (cmd/accessgate-proxy/bootstrap.go) *)
Definition wasm_reload (path : string) (b : BundleLoader) : prog E (BundleLoader * res (option WASMRuntime)) :=
  x <- LoadBundle b path ;;
  let '(b, r) := x in Ret (b, match r with Ok w => Ok (Some w) | Err e => Err e end).
(** The Rego engine is its own loader: a reload changes it in place. *)
Definition rego_reload (path : string) (r : RegoEngine) : prog E (RegoEngine * res (option unit)) :=
  x <- Rego_Load r path ;;
  let '(r, e) := x in Ret (r, match e with None => Ok (Some tt) | Some e => Err e end).

(** What serves the decisions: an engine, or a watcher with the loader its
    reloads use. *)
Inductive policy_engine :=
| WasmEngine (w : WASMRuntime)
| RegoOnly (r : RegoEngine)
| WatchedWasm (b : BundleLoader) (h : HotWatcher BundleLoader WASMRuntime)
| WatchedRego (r : RegoEngine) (h : HotWatcher RegoEngine unit).

Definition read_public_key (cfg : ProxyConfig) : prog E (res string) :=
  let path := BundlePublicKeyPath cfg in
  if String.eqb path "" then Ret (Ok "")
  else
    a <- call (ReadFile path) ;;
    Ret match a with
        | Data pem => Ok pem
        | _ => Err ("read bundle public key " +:+ Quote path +:+ ": " +:+ read_error a)
        end.

(** [maybeWrapHotWatcher]: a watcher when hot reload is on. *)
Definition maybeWrapHotWatcher {L G : Type} (cfg : ProxyConfig) (eng : G) (reload : ReloadFunc (L := L) (G := G))
    : prog E (option (HotWatcher L G)) :=
  if negb (PolicyReloadEnabled cfg) then Ret None
  else
    h <- NewHotWatcher (PolicyBundlePath cfg) (PolicyReloadIntervalDuration cfg) eng reload ;;
    log ("info: policy hot-reload enabled for " +:+ Quote (PolicyBundlePath cfg)) ;;;
    Ret (Some h).

Definition build_wasm (cfg : ProxyConfig) (fallback : FallbackConfig) : prog E (res policy_engine) :=
  let path := PolicyBundlePath cfg in
  if String.eqb path "" then Ret (Ok (WasmEngine (NewWASMRuntime fallback)))
  else
    k <- read_public_key cfg ;;
    match k with
    | Err e => Ret (Err e)
    | Ok pem =>
        b <- NewBundleLoader fallback pem ;;
        x <- LoadBundle b path ;;
        match x with
        | (_, Err e) => Ret (Err e)
        | (b, Ok eng) =>
            h <- maybeWrapHotWatcher cfg eng (wasm_reload path) ;;
            Ret (Ok (match h with Some h => WatchedWasm b h | None => WasmEngine eng end))
        end
    end.
Definition build_rego (cfg : ProxyConfig) (fallback : FallbackConfig) : prog E (res policy_engine) :=
  let path := PolicyBundlePath cfg in
  let eng := NewRegoEngine fallback in
  if String.eqb path "" then Ret (Ok (RegoOnly eng))
  else
    x <- Rego_Load eng path ;;
    match x with
    | (_, Some e) => Ret (Err e)
    | (eng, None) =>
        h <- maybeWrapHotWatcher cfg tt (rego_reload path) ;;
        Ret (Ok (match h with Some h => WatchedRego eng h | None => RegoOnly eng end))
    end.

Definition buildPolicyEngine (cfg : ProxyConfig) : prog E (res policy_engine) :=
  let fallback := {| fb_Allow := PolicyFallbackAllow cfg |} in
  if String.eqb (PolicyEngine cfg) PolicyEngineWASM then build_wasm cfg fallback
  else if String.eqb (PolicyEngine cfg) PolicyEngineRego then build_rego cfg fallback
  else Ret (Ok (WasmEngine (NewWASMRuntime fallback))).

(** A tick of whatever watcher there is, and a decision. *)
Definition tick (p : policy_engine) : prog E policy_engine :=
  match p with
  | WatchedWasm b h => x <- checkAndReload h b ;; let '(h, b, _) := x in Ret (WatchedWasm b h)
  | WatchedRego r h => x <- checkAndReload h r ;; let '(h, r, _) := x in Ret (WatchedRego r h)
  | _ => Ret p
  end.
Definition evaluate (p : policy_engine) (input : Input) : prog E Decision :=
  match p with
  | WasmEngine w => WASM_Evaluate w input
  | RegoOnly r => Rego_Evaluate r input
  | WatchedWasm _ h => WASM_Evaluate (hw_current h) input
  | WatchedRego r _ => Rego_Evaluate r input
  end.

(** ** Status ([EngineWithStatus])

    A watcher asks the engine it serves, and falls back to the path it
    watches. *)
Definition HotWatcher_Loaded {L G} (loaded : G → bool) (h : HotWatcher L G) : bool := loaded (hw_current h).
Definition HotWatcher_BundlePath {L G} (path : G → string) (h : HotWatcher L G) : string :=
  let p := path (hw_current h) in if String.eqb p "" then hw_path h else p.
Definition policy_Loaded (p : policy_engine) : bool :=
  match p with
  | WasmEngine w => WASM_Loaded w
  | RegoOnly r => Rego_Loaded r
  | WatchedWasm _ h => HotWatcher_Loaded WASM_Loaded h
  | WatchedRego r h => HotWatcher_Loaded (λ _, Rego_Loaded r) h
  end.
Definition policy_BundlePath (p : policy_engine) : string :=
  match p with
  | WasmEngine w => wr_bundlePath w
  | RegoOnly r => re_bundlePath r
  | WatchedWasm _ h => HotWatcher_BundlePath wr_bundlePath h
  | WatchedRego r h => HotWatcher_BundlePath (λ _, re_bundlePath r) h
  end.
End engines.
Arguments HotWatcher {E} L G.
