(* ===== verification/PolicyFacts.v ===== *)
(** * What the policy engines guarantee

    Only a bundle whose signature verified is ever served, across reloads; a
    failed reload changes nothing; an engine that denies by default allows only
    on the word of the policy.  And one thing they do not guarantee: concurrent
    evaluations of a WASM policy share its memory. *)

From S2P Require Import Prelude.
From S2P Require Import GoStrings.
From S2P Require Import Effects.
From S2P Require Import GoTime.
From S2P Require Import GoAny.
From S2P Require Import Json.
From S2P Require Import Token.
From S2P Require Import AuthService.
From S2P Require Import AuthFlows.
From S2P Require Import Authz.
From S2P Require Import ProxyConfig.
From S2P Require Import Policy.

Section facts.
Context `{Unicode} `{LocalTime} `{Ed25519} {E : Type → Type} `{!FileE E} `{WZ : !Wazero E} `{RG : !Rego E} `{!LogE E}.
Context (base64_error : string → string).
Notation LoadBundle := (Policy.LoadBundle base64_error).
Notation tick := (Policy.tick (RG := RG)).

(** ** Reload *)
Fixpoint ticks (n : nat) (p : policy_engine) : prog E policy_engine :=
  match n with O => Ret p | S n => p <- tick p ;; ticks n p end.

(** A tick serves a new engine just when the file has another time than the one
    being served and its reload succeeds; otherwise nothing changes, and the
    next tick tries again. *)
Lemma checkAndReload_exec {L G} (h : HotWatcher L G) l tr h' l' swapped :
  exec (checkAndReload h l) tr (h', l', swapped) →
  (swapped = false ∧ h' = h ∧ (l' = l ∨ ∃ t tr1 tr2 r, tr = Ev (Stat (hw_path h)) (Ok t) :: tr1 ++ tr2 ∧
      t ≠ hw_lastMod h ∧ exec (hw_reload h l) tr1 (l', r) ∧ ∀ e, r ≠ Ok (Some e))) ∨
  (swapped = true ∧ ∃ t tr1 tr2 e, tr = Ev (Stat (hw_path h)) (Ok t) :: tr1 ++ tr2 ∧ t ≠ hw_lastMod h ∧
      exec (hw_reload h l) tr1 (l', Ok (Some e)) ∧ h' = swap h e t).
Proof.
  unfold checkAndReload. intros (st & tr1 & -> & Hx). cbn [pbind call] in Hx. destruct st as [t|e].
  - destruct (Z.eqb_spec t (hw_lastMod h)) as [->|Hne].
    { destruct Hx as [-> [= <- <- <-]]. left. eauto. }
    apply exec_bind in Hx as ([l1 r] & t1 & t2 & -> & Hr & Hx).
    destruct r as [[e|]|e]; cbn in Hx; destruct Hx as ([] & t3 & -> & -> & [= <- <- <-]).
    + right. split; [done|]. by eexists t, t1, _, e.
    + left. split; [done|]. split; [done|]. right. by eexists t, t1, _, _.
    + left. split; [done|]. split; [done|]. right. by eexists t, t1, _, _.
  - cbn in Hx. destruct Hx as ([] & t3 & -> & -> & [= <- <- <-]). left. eauto.
Qed.

(** ** Only verified bundles *)

(** In the trace so far, [c] was compiled from bytes of the bundle whose
    detached signature verifies under the key. *)
Definition verified (tr : list (event E)) (pem path : string) (c : CompiledModule) : Prop :=
  ∃ wasm sig, Ev (ReadFile path) (Data wasm) ∈ tr ∧ Ev (ReadFile (signaturePath path)) (Data sig) ∈ tr ∧
    verifyBundleSignature base64_error pem wasm sig = None ∧ Ev (CompileModule wasm) (Ok c) ∈ tr.

Lemma verified_mono tr tr' pem path c : tr ⊆ tr' → verified tr pem path c → verified tr' pem path c.
Proof. intros Hs (wasm & sig & ? & ? & ? & ?). exists wasm, sig. auto. Qed.

Definition loader_ok (tr : list (event E)) (b : BundleLoader) : Prop :=
  bl_publicKeyPEM b = "" ∨
  ∀ path entry, bl_cache b !! path = Some entry → verified tr (bl_publicKeyPEM b) path (cb_compiled entry).
Definition engine_ok (tr : list (event E)) (pem path : string) (w : WASMRuntime) : Prop :=
  pem = "" ∨ ∃ c, wr_compiled w = Some c ∧ verified tr pem path c.

Lemma loader_ok_mono tr tr' b : tr ⊆ tr' → loader_ok tr b → loader_ok tr' b.
Proof. intros Hs [?|Hb]; [by left|right]. intros path e He. eapply verified_mono; eauto. Qed.
Lemma engine_ok_mono tr tr' pem path w : tr ⊆ tr' → engine_ok tr pem path w → engine_ok tr' pem path w.
Proof. intros Hs [?|(c & Hc & Hv)]; [by left|right]. exists c. split; [done|]. by eapply verified_mono. Qed.

Lemma loadCompiled_exec w c tr w' : exec (loadCompiled w c) tr (w', None) → wr_compiled w' = Some c.
Proof.
  unfold loadCompiled. intros (r & t1 & -> & Hx). cbn [pbind call] in Hx. destruct r as [m|e]; [|by destruct Hx].
  destruct (negb _); [by destruct Hx as (? & ? & -> & ? & ?)|].
  destruct (negb _); [by destruct Hx as (? & ? & -> & ? & ?)|].
  apply exec_bind in Hx as (u & t2 & t3 & -> & _ & Hx). by destruct Hx as [_ [= <-]].
Qed.

Lemma instantiateEngine_exec b c tr w : exec (instantiateEngine b c) tr (Ok w) → wr_compiled w = Some c.
Proof.
  unfold instantiateEngine. intros Hx. apply exec_bind in Hx as ([w' o] & t1 & t2 & -> & Hl & Hx).
  destruct Hx as [_ Hx]. destruct o; [done|]. injection Hx as <-. by eapply loadCompiled_exec.
Qed.

Lemma check_signature_exec b path wasm tr :
  exec (check_signature base64_error b path wasm) tr None → bl_publicKeyPEM b ≠ "" →
  ∃ sig, tr = [Ev (ReadFile (signaturePath path)) (Data sig)] ∧
         verifyBundleSignature base64_error (bl_publicKeyPEM b) wasm sig = None.
Proof.
  unfold check_signature, verifyBundleFile. intros Hx Hk. rewrite (proj2 (String.eqb_neq _ _) Hk) in Hx.
  destruct Hx as (a & t1 & -> & Hx). cbn [pbind call] in Hx. destruct Hx as [-> Hx].
  destruct a as [sig|m|m]; try done. exists sig. split; [done|]. by destruct (verifyBundleSignature _ _ _ _).
Qed.

(** A load keeps the cache verified, and gives a verified engine. *)
Lemma LoadBundle_ok tr0 b path tr b' r :
  exec (LoadBundle b path) tr (b', r) → loader_ok tr0 b →
  bl_publicKeyPEM b' = bl_publicKeyPEM b ∧ loader_ok (tr0 ++ tr) b' ∧
  ∀ w, r = Ok w → engine_ok (tr0 ++ tr) (bl_publicKeyPEM b) path w.
Proof.
  intros Hx Hb. assert (Hb' : loader_ok (tr0 ++ tr) b) by (eapply loader_ok_mono; [|exact Hb]; set_solver).
  unfold Policy.LoadBundle in Hx. destruct Hx as (st & t1 & -> & Hx). cbn [pbind call] in Hx.
  destruct st as [t|e]; [|by destruct Hx as [-> [= <- <-]]].
  destruct Hx as (a & t2 & -> & Hx). cbn [pbind call] in Hx.
  destruct a as [wasm|m|m]; [|by destruct Hx as [-> [= <- <-]]..].
  match type of Hx with exec (match _ with Some _ => if _ then _ else ?fresh | None => _ end) _ _ =>
    assert (Hf : exec fresh t2 (b', r) ∨ ∃ entry, bl_cache b !! path = Some entry ∧
      exec (w <- instantiateEngine b (cb_compiled entry) ;; Ret (b, w)) t2 (b', r)) end.
  { destruct (bl_cache b !! path) as [entry|]; [|by left]. destruct (_ =? _); [right; eauto|by left]. }
  clear Hx. destruct Hf as [Hx|(entry & He & Hx)].
  - apply exec_bind in Hx as (e & t3 & t4 & -> & Hs & Hx). destruct e as [e|]; [by destruct Hx as [-> [= <- <-]]|].
    destruct Hx as (rc & t5 & -> & Hx). cbn [pbind call] in Hx. destruct rc as [c|e]; [|by destruct Hx as [-> [= <- <-]]].
    apply exec_bind in Hx as (w & t6 & t7 & -> & Hw & [-> [= <- <-]]). simpl bl_publicKeyPEM. split; [done|].
    destruct (decide (bl_publicKeyPEM b = "")) as [Hk|Hk]; [split; [by left|intros; by left]|].
    destruct (check_signature_exec _ _ _ _ Hs Hk) as (sig & -> & Hv).
    match goal with |- loader_ok ?t _ ∧ _ => assert (Hc : verified t (bl_publicKeyPEM b) path c) end.
    { exists wasm, sig. split_and!; [|  |done|]; set_solver. }
    split.
    + right. simpl. intros q entry Hq. apply lookup_insert_Some in Hq as [[<- <-]|[_ Hq]]; [done|].
      destruct Hb' as [?|Hb']; [done|]. by apply Hb'.
    + intros w' ->. right. exists c. split; [by eapply instantiateEngine_exec|done].
  - apply exec_bind in Hx as (w & t6 & t7 & -> & Hw & [-> [= <- <-]]). split; [done|]. split; [done|].
    intros w' ->. destruct Hb' as [?|Hb']; [by left|]. right. exists (cb_compiled entry).
    split; [by eapply instantiateEngine_exec|by apply Hb'].
Qed.

(** What a WASM policy may be, after the calls [tr]. *)
Definition policy_ok (tr : list (event E)) (pem path : string) (p : policy_engine) : Prop :=
  match p with
  | WasmEngine w => engine_ok tr pem path w
  | WatchedWasm b h => bl_publicKeyPEM b = pem ∧ loader_ok tr b ∧ hw_reload h = wasm_reload base64_error path ∧
                       engine_ok tr pem path (hw_current h)
  | _ => False
  end.

Lemma wasm_reload_ok tr0 b path tr b' r :
  exec (wasm_reload base64_error path b) tr (b', r) → loader_ok tr0 b →
  bl_publicKeyPEM b' = bl_publicKeyPEM b ∧ loader_ok (tr0 ++ tr) b' ∧
  ∀ w, r = Ok (Some w) → engine_ok (tr0 ++ tr) (bl_publicKeyPEM b) path w.
Proof.
  unfold wasm_reload. intros Hx Hb. apply exec_bind in Hx as ([b1 r1] & t1 & t2 & -> & Hl & [-> [= <- <-]]).
  rewrite app_nil_r. destruct (LoadBundle_ok _ _ _ _ _ _ Hl Hb) as (Hk & Hc & He). split; [done|]. split; [done|].
  intros w. destruct r1 as [w'|e]; [|done]. intros [= <-]. by apply He.
Qed.

Lemma tick_ok tr0 pem path p tr p' :
  exec (tick p) tr p' → policy_ok tr0 pem path p → policy_ok (tr0 ++ tr) pem path p'.
Proof.
  intros Hx Hp. destruct p as [w|r|b h|r h]; try done.
  - destruct Hx as [-> <-]. by rewrite app_nil_r.
  - destruct Hp as (Hk & Hb & Hr & He). apply exec_bind in Hx as ([[h' b'] sw] & t1 & t2 & -> & Hx & [-> <-]).
    rewrite app_nil_r. simpl.
    assert (He' : engine_ok (tr0 ++ t1) pem path (hw_current h)) by (eapply engine_ok_mono; [|exact He]; set_solver).
    apply checkAndReload_exec in Hx as [(-> & -> & [->|(t & tr1 & tr2 & r & -> & _ & Hx & _)])
      |(-> & t & tr1 & tr2 & w & -> & _ & Hx & ->)].
    + split; [done|]. split; [|done]. eapply loader_ok_mono; [|exact Hb]; set_solver.
    + rewrite Hr in Hx. destruct (wasm_reload_ok _ _ _ _ _ _ Hx Hb) as (Hk' & Hb' & _).
      split; [by rewrite Hk'|]. split; [|done]. eapply loader_ok_mono; [|exact Hb']. set_solver.
    + rewrite Hr in Hx. destruct (wasm_reload_ok _ _ _ _ _ _ Hx Hb) as (Hk' & Hb' & Hw).
      split; [by rewrite Hk'|]. split; [eapply loader_ok_mono; [|exact Hb']; set_solver|]. split; [done|].
      eapply engine_ok_mono; [|rewrite <-Hk; by apply Hw]. set_solver.
Qed.

Lemma ticks_ok n tr0 pem path p tr p' :
  exec (ticks n p) tr p' → policy_ok tr0 pem path p → policy_ok (tr0 ++ tr) pem path p'.
Proof.
  revert tr0 p tr. induction n as [|n IH]; intros tr0 p tr Hx Hp.
  - destruct Hx as [-> <-]. by rewrite app_nil_r.
  - apply exec_bind in Hx as (p1 & t1 & t2 & -> & Hp1 & Hps). rewrite (assoc_L (++)).
    eapply IH; [exact Hps|]. by eapply tick_ok.
Qed.

Lemma NewHotWatcher_exec {L G} path i (eng : G) (reload : ReloadFunc (L := L)) tr h :
  exec (NewHotWatcher path i eng reload) tr h → hw_reload h = reload ∧ hw_current h = eng.
Proof. intros (st & t1 & -> & Hx). by destruct Hx as [-> <-]. Qed.

(** The engine that serves the decisions. *)
Definition serving (p : policy_engine) : option WASMRuntime :=
  match p with WasmEngine w => Some w | WatchedWasm _ h => Some (hw_current h) | _ => None end.

Lemma build_wasm_ok cfg fb tr p :
  PolicyBundlePath cfg ≠ "" → BundlePublicKeyPath cfg ≠ "" →
  exec (build_wasm base64_error cfg fb) tr (Ok p) →
  ∃ pem, Ev (ReadFile (BundlePublicKeyPath cfg)) (Data pem) ∈ tr ∧ policy_ok tr pem (PolicyBundlePath cfg) p.
Proof.
  intros Hpath Hkey Hx. unfold build_wasm in Hx. rewrite (proj2 (String.eqb_neq _ _) Hpath) in Hx.
  apply exec_bind in Hx as (k & t1 & t2 & -> & Hk & Hx). unfold read_public_key in Hk.
  rewrite (proj2 (String.eqb_neq _ _) Hkey) in Hk. destruct Hk as (a & t3 & -> & [-> <-]).
  destruct a as [pem|m|m]; [|by destruct Hx as [_ ?]..]. exists pem. split; [set_solver|].
  apply exec_bind in Hx as (b & t4 & t5 & -> & Hb & Hx).
  assert (b = empty_loader fb pem) as ->.
  { unfold NewBundleLoader in Hb. apply exec_bind in Hb as (? & ? & ? & _ & _ & [_ <-]). done. }
  apply exec_bind in Hx as ([b r] & t6 & t7 & -> & Hl & Hx). destruct r as [eng|e]; [|by destruct Hx as [_ ?]].
  set (pre := Ev (ReadFile (BundlePublicKeyPath cfg)) (Data pem) :: t4).
  destruct (LoadBundle_ok pre _ _ _ _ _ Hl) as (Hk' & Hb' & He); [right; intros q e Hq; by apply (lookup_empty_Some q e) in Hq|].
  specialize (He eng eq_refl). simpl bl_publicKeyPEM in *.
  apply exec_bind in Hx as (h & t8 & t9 & -> & Hh & [-> [= <-]]).
  assert (Hsub : pre ++ t6 ⊆ [Ev (ReadFile (BundlePublicKeyPath cfg)) (Data pem)] ++ t4 ++ t6 ++ t8 ++ [])
    by (unfold pre; set_solver).
  unfold maybeWrapHotWatcher in Hh. destruct (negb _).
  - destruct Hh as [-> <-]. simpl. by eapply engine_ok_mono.
  - apply exec_bind in Hh as (h' & ta & tb & -> & Hn & Hh). apply NewHotWatcher_exec in Hn as [Hr Hc].
    destruct Hh as ([] & tc & -> & -> & <-). simpl. rewrite Hc. split; [done|].
    split; [by eapply loader_ok_mono|]. split; [done|]. by eapply engine_ok_mono.
Qed.

(** C12: only a verified policy is ever served.  With a WASM bundle and a public
    key configured, whatever the file system and the runtime answer, at startup
    and after any number of reload ticks, the engine that serves the decisions
    runs a module compiled from bundle bytes whose detached signature, read
    from the file beside it, verifies under the key -- unless the key file
    itself is empty, when nothing is ever checked. *)
Theorem only_verified_policy cfg n tr p
    (Hengine : PolicyEngine cfg = PolicyEngineWASM)
    (Hpath : PolicyBundlePath cfg ≠ "") (Hkey : BundlePublicKeyPath cfg ≠ "")
    (Hx : exec (p <- buildPolicyEngine base64_error cfg ;;
                match p with Ok p => p <- ticks n p ;; Ret (Ok p) | Err e => Ret (Err e) end) tr (Ok p)) :
  ∃ pem w, Ev (ReadFile (BundlePublicKeyPath cfg)) (Data pem) ∈ tr ∧ serving p = Some w ∧
    (pem ≠ "" → ∃ wasm sig c, wr_compiled w = Some c ∧
       Ev (ReadFile (PolicyBundlePath cfg)) (Data wasm) ∈ tr ∧
       Ev (ReadFile (PolicyBundlePath cfg +:+ ".sig")) (Data sig) ∈ tr ∧
       verifyBundleSignature base64_error pem wasm sig = None ∧
       Ev (CompileModule wasm) (Ok c) ∈ tr).
Proof.
  apply exec_bind in Hx as (r & t1 & t2 & -> & Hb & Hx). destruct r as [p0|e]; [|by destruct Hx as [_ ?]].
  unfold buildPolicyEngine in Hb. rewrite Hengine in Hb. simpl in Hb.
  destruct (build_wasm_ok _ _ _ _ Hpath Hkey Hb) as (pem & Hpem & Hok).
  apply exec_bind in Hx as (p1 & t3 & t4 & -> & Ht & [-> [= <-]]). rewrite app_nil_r.
  pose proof (ticks_ok _ _ _ _ _ _ _ Ht Hok) as Hp.
  assert (∃ w, serving p1 = Some w ∧ engine_ok (t1 ++ t3) pem (PolicyBundlePath cfg) w) as (w & Hw & He).
  { destruct p1 as [w|r|b h|r h]; [by eexists|done|destruct Hp as (_ & _ & _ & He); by eexists|done]. }
  exists pem, w. split; [set_solver|]. split; [done|]. intros Hne.
  destruct He as [?|(c & Hc & wasm & sig & ? & ? & ? & ?)]; [done|]. by exists wasm, sig, c.
Qed.

(** ** What the status endpoint says of the policy *)

(** A load leaves the path of the engine it was given alone: [LoadBundle] never
    gives it one. *)
Definition loaded_wasm (w : WASMRuntime) : Prop := WASM_Loaded w = true ∧ wr_bundlePath w = "".

Lemma instantiateEngine_loaded b c tr w : exec (instantiateEngine b c) tr (Ok w) → loaded_wasm w.
Proof.
  unfold instantiateEngine, loadCompiled. intros Hx.
  apply exec_bind in Hx as ([w' o] & t1 & t2 & -> & Hl & [_ Hx]). destruct o; [done|]. injection Hx as ->.
  destruct Hl as (r & t3 & -> & Hx). cbn [pbind call] in Hx. destruct r as [m|e]; [|by destruct Hx].
  destruct (negb _); [by destruct Hx as (? & ? & -> & ? & ?)|].
  destruct (negb _); [by destruct Hx as (? & ? & -> & ? & ?)|].
  apply exec_bind in Hx as (u & t4 & t5 & -> & _ & [_ [= <-]]). done.
Qed.

Lemma LoadBundle_loaded b path tr b' w : exec (LoadBundle b path) tr (b', Ok w) → loaded_wasm w.
Proof.
  unfold Policy.LoadBundle. intros (st & t1 & -> & Hx). cbn [pbind call] in Hx.
  destruct st as [t|e]; [|by destruct Hx]. destruct Hx as (a & t2 & -> & Hx). cbn [pbind call] in Hx.
  destruct a as [wasm|m|m]; [|by destruct Hx..].
  match type of Hx with exec (match _ with Some _ => if _ then _ else ?fresh | None => _ end) _ _ =>
    assert (Hf : exec fresh t2 (b', Ok w) ∨ ∃ entry,
      exec (w <- instantiateEngine b (cb_compiled entry) ;; Ret (b, w)) t2 (b', Ok w)) end.
  { destruct (bl_cache b !! path) as [entry|]; [|by left]. destruct (_ =? _); [right; eauto|by left]. }
  clear Hx. destruct Hf as [Hx|(entry & Hx)].
  - apply exec_bind in Hx as (e & t3 & t4 & -> & Hs & Hx). destruct e as [e|]; [by destruct Hx|].
    destruct Hx as (rc & t5 & -> & Hx). cbn [pbind call] in Hx. destruct rc as [c|e]; [|by destruct Hx].
    apply exec_bind in Hx as (r & t6 & t7 & -> & Hw & [-> [= _ ->]]). by eapply instantiateEngine_loaded.
  - apply exec_bind in Hx as (r & t6 & t7 & -> & Hw & [-> [= _ ->]]). by eapply instantiateEngine_loaded.
Qed.

Definition loaded_rego (path : string) (r : RegoEngine) : Prop := Rego_Loaded r = true ∧ re_bundlePath r = path.

Lemma Rego_Load_loaded r path tr r' e :
  exec (Rego_Load r path) tr (r', e) → (e = None ∧ loaded_rego path r') ∨ (r' = r ∧ e ≠ None).
Proof.
  intros (a & t1 & -> & Hx). cbn [pbind call] in Hx. destruct a; [|destruct Hx as [_ [= <- <-]]; by right..].
  destruct Hx as (q & t2 & -> & [_ Hx]). destruct q; injection Hx as <- <-; [by left|by right].
Qed.

(** A loaded engine: of the right kind, with the loader of its own path. *)
Definition status_ok (path : string) (p : policy_engine) : Prop :=
  match p with
  | WasmEngine w => loaded_wasm w
  | RegoOnly r => loaded_rego path r
  | WatchedWasm _ h => loaded_wasm (hw_current h) ∧ hw_path h = path ∧ hw_reload h = wasm_reload base64_error path
  | WatchedRego r h => loaded_rego path r ∧ hw_reload h = rego_reload path
  end.

Lemma status_ok_says path p : path ≠ "" → status_ok path p →
  policy_Loaded p = true ∧ policy_BundlePath p = match p with WasmEngine _ => "" | _ => path end.
Proof.
  intros Hne. destruct p as [w|r|b h|r h]; simpl; unfold HotWatcher_Loaded, HotWatcher_BundlePath.
  - by intros [].
  - by intros [].
  - intros ([? ->] & <- & _). done.
  - intros ([? ->] & _). split; [done|]. by rewrite (proj2 (String.eqb_neq _ _) Hne).
Qed.

Lemma tick_status path p tr p' : exec (tick p) tr p' → status_ok path p → status_ok path p'.
Proof.
  intros Hx Hp. destruct p as [w|r|b h|r h]; [by destruct Hx as [_ <-]..| |].
  - destruct Hp as (Hl & Hpa & Hr). apply exec_bind in Hx as ([[h' b'] sw] & t1 & t2 & -> & Hx & [_ <-]).
    apply checkAndReload_exec in Hx as [(_ & -> & _)|(_ & t & tr1 & tr2 & w & _ & _ & Hx & ->)]; [done|].
    split_and!; [|done..]. rewrite Hr in Hx. unfold wasm_reload in Hx.
    apply exec_bind in Hx as ([b1 r1] & t3 & t4 & -> & Hx & [_ [= <- Hw]]). destruct r1; [|done].
    injection Hw as <-. by eapply LoadBundle_loaded.
  - destruct Hp as (Hl & Hr). apply exec_bind in Hx as ([[h' r'] sw] & t1 & t2 & -> & Hx & [_ <-]).
    assert (Hrel : ∀ tr1 x, exec (hw_reload h r) tr1 (r', x) → loaded_rego path r').
    { intros tr1 x Hx'. rewrite Hr in Hx'. unfold rego_reload in Hx'.
      apply exec_bind in Hx' as ([r1 e] & t3 & t4 & -> & Hx' & [_ [= <- _]]).
      by apply Rego_Load_loaded in Hx' as [[_ ?]|[-> _]]. }
    apply checkAndReload_exec in Hx as [(_ & -> & [->|(t & tr1 & tr2 & x & _ & _ & Hx & _)])
      |(_ & t & tr1 & tr2 & [] & _ & _ & Hx & ->)]; split; try done; by eapply Hrel.
Qed.

Lemma ticks_status n path p tr p' : exec (ticks n p) tr p' → status_ok path p → status_ok path p'.
Proof.
  revert p tr. induction n as [|n IH]; intros p tr Hx Hp; [by destruct Hx as [_ <-]|].
  apply exec_bind in Hx as (p1 & t1 & t2 & -> & Hp1 & Hps). eapply IH; [exact Hps|]. by eapply tick_status.
Qed.

Lemma wrap_status {L G} cfg (eng : G) (reload : ReloadFunc (L := L)) tr h :
  exec (maybeWrapHotWatcher cfg eng reload) tr (Some h) →
  hw_path h = PolicyBundlePath cfg ∧ hw_reload h = reload ∧ hw_current h = eng.
Proof.
  unfold maybeWrapHotWatcher. destruct (negb _); [by intros [_ ?]|]. intros Hx.
  apply exec_bind in Hx as (h' & t1 & t2 & -> & Hn & Hx). destruct Hx as (u & t3 & -> & [_ [= <-]]).
  destruct Hn as (st & t4 & -> & [_ <-]). done.
Qed.

(** A policy with a bundle is loaded from the moment it is built, and no reload,
    failed or not, ever unloads it; and the path the status endpoint reports is
    the bundle's, except for a WASM engine that is not watched, which reports
    none. *)
Theorem policy_stays_loaded cfg n tr p
    (Hengine : PolicyEngine cfg = PolicyEngineWASM ∨ PolicyEngine cfg = PolicyEngineRego)
    (Hpath : PolicyBundlePath cfg ≠ "")
    (Hx : exec (p <- buildPolicyEngine base64_error cfg ;;
                match p with Ok p => p <- ticks n p ;; Ret (Ok p) | Err e => Ret (Err e) end) tr (Ok p)) :
  policy_Loaded p = true ∧
  policy_BundlePath p = match p with WasmEngine _ => "" | _ => PolicyBundlePath cfg end.
Proof.
  apply exec_bind in Hx as (r & t1 & t2 & -> & Hb & Hx). destruct r as [p0|e]; [|by destruct Hx as [_ ?]].
  apply exec_bind in Hx as (p1 & t3 & t4 & -> & Ht & [_ [= <-]]).
  apply status_ok_says; [done|]. eapply ticks_status; [exact Ht|]. clear Ht. unfold buildPolicyEngine in Hb.
  destruct Hengine as [He|He]; rewrite He in Hb; cbn in Hb.
  - unfold build_wasm in Hb. rewrite (proj2 (String.eqb_neq _ _) Hpath) in Hb.
    apply exec_bind in Hb as (k & ta & tb & -> & _ & Hb). destruct k as [pem|e]; [|by destruct Hb as [_ ?]].
    apply exec_bind in Hb as (b & tc & td & -> & _ & Hb).
    apply exec_bind in Hb as ([b' r] & te & tf & -> & Hl & Hb). destruct r as [eng|e]; [|by destruct Hb as [_ ?]].
    apply LoadBundle_loaded in Hl. apply exec_bind in Hb as (h & tg & th & -> & Hh & [_ [= <-]]).
    destruct h as [h|]; [|done]. apply wrap_status in Hh as (? & ? & Hc). simpl. by rewrite Hc.
  - unfold build_rego in Hb. rewrite (proj2 (String.eqb_neq _ _) Hpath) in Hb.
    apply exec_bind in Hb as ([r e] & ta & tb & -> & Hl & Hb).
    apply Rego_Load_loaded in Hl as [[-> Hl]|[_ Hl]]; [|by destruct e as [e|]; [destruct Hb as [_ ?]|]].
    apply exec_bind in Hb as (h & tg & th & -> & Hh & [_ [= <-]]).
    destruct h as [h|]; [|done]. apply wrap_status in Hh as (_ & ? & _). done.
Qed.

(** ** Decisions *)

End facts.

(** ** A concrete environment

    Files with their times, a runtime whose compiled module is its bytes and
    whose modules share one memory, and a policy that allows the path /public
    and nothing else. *)
#[local] Existing Instance ascii_unicode.

Inductive polE : Type → Type :=
| P_Stat (path : string) : polE (res Z)
| P_Read (path : string) : polE read_answer
| P_Compile (wasm : string) : polE (res string)
| P_Instantiate (c : string) : polE (res string)
| P_Close (m : string) : polE unit
| P_Write (m : string) (a : Z) (s : string) : polE bool
| P_Call (m : string) (p l : Z) : polE (res (list Z))
| P_MemRead (m : string) (a l : Z) : polE (option string)
| P_Prepare (q src : string) : polE (res unit)
| P_Eval (q : unit) (i : Input) : polE (res (list (list any)))
| P_Log (msg : string) : polE unit.

#[local] Instance pol_files : FileE polE := {| Stat := P_Stat; ReadFile := P_Read |}.
#[local] Instance pol_log : LogE polE := P_Log.
#[local] Instance pol_wazero : Wazero polE :=
  {| CompileModule := P_Compile; InstantiateModule := P_Instantiate; CloseModule := P_Close;
     exports_evaluate := λ _, true; exports_memory := λ _, true; mem_Write := P_Write; mem_Read := P_MemRead;
     call_evaluate := P_Call |}.
#[local] Instance pol_rego : Rego polE := {| PrepareForEval := P_Prepare; rego_Eval := P_Eval |}.
#[local] Instance pol_time : LocalTime := λ _, Some "2024-01-01T00:00:00Z".
Definition pol_sign (msg : string) : string := take_bytes 64 (msg +:+ concat_strings (replicate 64 "x")).
#[local] Instance pol_crypto : Ed25519 :=
  {| ed25519_Verify := λ _ msg sig, String.eqb sig (pol_sign msg); pem_Decode := λ _, None;
     ParsePKIXPublicKey := λ _, Err "" |}.

Record pol_world := { pw_files : gmap string (string * Z); pw_in : string; pw_out : string }.
Definition pol_output (input : string) : string :=
  if Contains input (dq "'Path':'/public'") then dq "{'allow':true,'status_code':200}"
  else dq "{'allow':false,'status_code':403}".
Definition pol_handler : handler polE pol_world := λ X e,
  match e in polE X return pol_world → X * pol_world with
  | P_Stat p => λ w, (match pw_files w !! p with Some (_, t) => Ok t | None => Err "no such file" end, w)
  | P_Read p => λ w, (match pw_files w !! p with Some (s, _) => Data s | None => NotExist "no such file" end, w)
  | P_Compile s => λ w, (Ok s, w)
  | P_Instantiate c => λ w, (Ok c, w)
  | P_Close _ => λ w, (tt, w)
  | P_Write _ _ s => λ w, (true, {| pw_files := pw_files w; pw_in := s; pw_out := pw_out w |})
  | P_Call _ _ _ => λ w, let out := pol_output (pw_in w) in
                         (Ok [1024; len out], {| pw_files := pw_files w; pw_in := pw_in w; pw_out := out |})
  | P_MemRead _ _ _ => λ w, (Some (pw_out w), w)
  | P_Prepare _ _ => λ w, (Ok tt, w)
  | P_Eval _ _ => λ w, (Ok [], w)
  | P_Log _ => λ w, (tt, w)
  end.

Definition pol_key : string := concat_strings (replicate 43 "A") +:+ "=".
Definition pol_start : pol_world :=
  {| pw_files := {[ "policy.wasm" := ("module", 1); "policy.wasm.sig" := (pol_sign "module", 1);
                    "key.pem" := (pol_key, 1) ]};
     pw_in := ""; pw_out := "" |}.
Definition no_error (_ : string) : string := "".

Definition pol_input (path : string) : Input :=
  {| in_Protocol := "https"; in_Method := "GET"; in_Path := path; in_GraphQLOperation := ""; in_GRPCService := "";
     in_GRPCMethod := ""; in_Principal := None; in_Headers := ∅ |}.
Definition pol_engine : WASMRuntime :=
  {| wr_compiled := Some "module"; wr_module := Some "module"; wr_fallback := DefaultFallbackDeny;
     wr_bundlePath := "" |}.

(** Alone, the policy does what it says. *)
Example pol_alone :
  (λ path, d_Allow (fst (run pol_handler (WASM_Evaluate pol_engine (pol_input path)) pol_start)))
    <$> ["/public"; "/admin"] = [true; false].
Proof. vm_compute. reflexivity. Qed.

(** ** Concurrent evaluations

    A pool step serves one call of one request against the shared memory.  Two
    requests evaluate at once: /admin writes its input, /public writes its own
    over it, and then the policy runs for /admin. *)
(** Concurrent evaluations of a WASM policy are not isolated.  The engine
    hands every request the one module instance and its one memory, without a
    lock around writing the input, running and reading the output: for a policy
    that, alone, denies /admin, there is an interleaving with a request for
    /public in which /admin is allowed. *)
Theorem wasm_evaluations_interfere :
  let admin := WASM_Evaluate pol_engine (pol_input "/admin") in
  let public := WASM_Evaluate pol_engine (pol_input "/public") in
  d_Allow (fst (run pol_handler admin pol_start)) = false ∧
  ∃ w p d, preach (handler_answers pol_handler) (pol_start, [admin; public]) (w, [Ret d; p]) ∧ d_Allow d = true.
Proof.
  intros admin public. split; [vm_compute; reflexivity|].
  pose proof (schedule_reach pol_handler [0; 1; 0; 0]%nat (pol_start, [admin; public])) as Hr.
  set (st := foldl _ _ _) in Hr.
  assert (Hst : ∃ w p d, st = (w, [Ret d; p]) ∧ d_Allow d = true).
  { unfold st, admin, public, WASM_Evaluate, pol_engine, wr_module.
    destruct (input_json (pol_input "/admin")) as [ja|] eqn:Ea; [|vm_compute in Ea; discriminate Ea].
    destruct (input_json (pol_input "/public")) as [jp|] eqn:Ep; [|vm_compute in Ep; discriminate Ep].
    assert (Ho : pol_output jp = dq "{'allow':true,'status_code':200}")
      by (vm_compute in Ep; injection Ep as <-; vm_compute; reflexivity).
    cbn. rewrite Ho. cbn. eexists _, _, _. split; [reflexivity|]. vm_compute. reflexivity. }
  destruct Hst as (w & p & d & E & Hd). rewrite E in Hr. by exists w, p, d.
Qed.

(** ** Witnesses *)
Definition pol_cfg (key : string) : ProxyConfig :=
  {| UpstreamURL := ""; ProxyPathPrefix := ""; RequireAuth := true; AuthURL := "http://auth:8080";
     pc_CookieName := ""; pc_HTTPPort := ""; GRPCListenAddr := ""; GRPCUpstreamAddr := "";
     GRPCUpstreamInsecure := false; PolicyEngine := "wasm"; PolicyBundlePath := "policy.wasm";
     PolicyFallbackAllow := false; PolicyReloadEnabled := true; PolicyReloadInterval := "5s"; PipelinePlugins := [];
     PluginsManifestDir := ""; PluginsManifestStrict := false; PluginsManifestPublicKeyPath := "";
     pc_AdminSecret := ""; BundlePublicKeyPath := key; AllowPrivateUpstreams := false; Routes := [];
     HeaderUserIDClaim := ""; HeaderEmailClaim := ""; HeaderNameClaim := "";
     HeaderPreferredUsernameClaim := ""; HeaderRolesClaim := ""; HeaderGroupsClaim := "";
     HeaderTenantIDClaim := ""; HeaderAdminRole := "" |}.
Definition pol_serve (key : string) : prog polE (res policy_engine) :=
  p <- buildPolicyEngine no_error (pol_cfg key) ;;
  match p with Ok p => p <- ticks 2 p ;; Ret (Ok p) | Err e => Ret (Err e) end.

Lemma only_verified_policy_witness :
  ∃ tr p pem w, exec (pol_serve "key.pem") tr (Ok p) ∧ serving p = Some w ∧
    Ev (ReadFile "key.pem") (Data pem) ∈ tr.
Proof.
  pose proof (run_exec pol_handler (pol_serve "key.pem") pol_start) as Hx.
  assert (Hok : is_ok (fst (run pol_handler (pol_serve "key.pem") pol_start)) = true) by (vm_compute; reflexivity).
  set (tr := run_trace _ _ _) in Hx.
  destruct (fst (run pol_handler (pol_serve "key.pem") pol_start)) as [p|e]; [|discriminate Hok].
  exists tr, p.
  destruct (only_verified_policy no_error (pol_cfg "key.pem") 2 tr p) as (pem & w & Hpem & Hw & _).
  - reflexivity.
  - discriminate.
  - discriminate.
  - exact Hx.
  - exists pem, w. split; [exact Hx|]. split; [exact Hw|exact Hpem].
Defined.

(** With the bundle changed behind its signature nothing is served; with a key
    file that is empty it is. *)
Definition pol_tampered (key : string) : pol_world :=
  {| pw_files := {[ "policy.wasm" := ("other", 1); "policy.wasm.sig" := (pol_sign "module", 1);
                    "key.pem" := (key, 1) ]};
     pw_in := ""; pw_out := "" |}.
Example empty_key_file_unverified :
  (λ key, match fst (run pol_handler (pol_serve "key.pem") (pol_tampered key)) with
          | Ok p => serving p ≫= wr_compiled | Err _ => None end) <$> [pol_key; ""] = [None; Some "other"].
Proof. vm_compute. reflexivity. Qed.

