(* ===== verification/Oidc.v ===== *)
(** * The OIDC client and its provider plugin (pkg/oidc, internal/plugins/oidcprovider)

    Discovery, fetched once; the authorization request; the token endpoint; the
    end of a session; revocation; and the plugin the auth service calls.  The
    client's discovery cell is state its operations take and give back. *)

From S2P Require Import Prelude.
From S2P Require Import GoStrings.
From S2P Require Import Effects.
From S2P Require Import GoAny.
From S2P Require Import Json.
From S2P Require Import GoUrl.
From S2P Require Import Token.
From S2P Require Import AuthService.
From S2P Require Import AuthzHttp.
From S2P Require Import GoHttp.
From S2P Require Import Registry.
From S2P Require Import Ratelimit.

(** ** net/url: values and the text of a URL *)
Fixpoint insert_pair (k v : string) (l : list (string * string)) : list (string * string) :=
  match l with
  | [] => [(k, v)]
  | (k', v') :: l' => if String.ltb k' k then (k', v') :: insert_pair k v l' else (k, v) :: l
  end.
(** [Values.Encode]: the pairs sorted by key, the values of a key in order. *)
Definition sort_pairs (l : list (string * string)) : list (string * string) :=
  foldr (λ kv, insert_pair kv.1 kv.2) [] l.
Definition encode_pair (kv : string * string) : string := QueryEscape kv.1 +:+ "=" +:+ QueryEscape kv.2.
Definition Encode (l : list (string * string)) : string := Join (encode_pair <$> sort_pairs l) "&".
(** [Values.Set] *)
Definition values_set (k v : string) (l : list (string * string)) : list (string * string) :=
  List.filter (λ kv, negb (String.eqb kv.1 k)) l ++ [(k, v)].

Definition validEncoded (mode : encoding) (s : string) : bool :=
  forallb (λ z, byte_in [33; 36; 38; 39; 40; 41; 42; 43; 44; 59; 61; 58; 64; 91; 93; 37] z
                || negb (shouldEscape z mode)) (bytes_of s).
(** [EscapedPath] and [EscapedFragment]: the raw text when it stands for the decoded one. *)
Definition escaped (mode : encoding) (raw s : string) : string :=
  if negb (String.eqb raw "") && validEncoded mode raw && bool_decide (unescape mode raw = Some s) then raw
  else if String.eqb s "*" && bool_decide (mode = EncPath) then "*" else escape mode s.
Definition userinfo_text (raw : string) : string :=
  let re s := escape EncUserPassword (default "" (unescape EncUserPassword s)) in
  match cut ":" raw with Some (u, p) => re u +:+ ":" +:+ re p | None => re raw end.

(** [u.String()] of a URL parsed from [raw]; the record does not keep whether
    the authority was left out, or the raw fragment, so they are read off [raw]. *)
Definition url_string (raw : string) (u : URL) : string :=
  let rawFragment := match cut "#" raw with Some (_, f) => f | None => "" end in
  let omitHost := match scheme_loop raw "" with
                  | Some (String _ _, rest) => HasPrefix rest "/" && negb (HasPrefix rest "//") | _ => false end in
  let path := escaped EncPath (RawPath u) (Path u) in
  let start := if String.eqb (Scheme u) "" then "" else Scheme u +:+ ":" in
  let body :=
    if negb (String.eqb (Opaque u) "") then start +:+ Opaque u
    else
      let has_user := bool_decide (is_Some (User u)) in
      let auth :=
        if String.eqb (Scheme u) "" && String.eqb (Host u) "" && negb has_user then ""
        else if omitHost && String.eqb (Host u) "" && negb has_user then ""
        else (if negb (String.eqb (Host u) "") || negb (String.eqb (Path u) "") || has_user then "//" else "")
             +:+ from_option (λ ui, userinfo_text ui +:+ "@") "" (User u)
             +:+ (if String.eqb (Host u) "" then "" else escape EncHost (Host u)) in
      let head := start +:+ auth +:+
        (if negb (String.eqb path "") && negb (HasPrefix path "/") && negb (String.eqb (Host u) "") then "/" else "") in
      head +:+ (if String.eqb head "" && Contains (match cut "/" path with Some (s, _) => s | None => path end) ":"
                then "./" else "") +:+ path in
  body +:+ (if ForceQuery u || negb (String.eqb (RawQuery u) "") then "?" +:+ RawQuery u else "")
       +:+ (if String.eqb (Fragment u) "" then "" else "#" +:+ escaped EncFragment rawFragment (Fragment u)).

(** ** The client (pkg/oidc) *)
Record Discovery := {
  dd_Issuer : string; AuthorizationEndpoint : string; TokenEndpoint : string; EndSessionEndpoint : string;
  JWKSURI : string; RevocationEndpoint : string }.

(** [oc_discovery]: what the one fetch gave, once it was made. *)
Record Client := {
  oc_issuer : string; oc_clientID : string; oc_clientSecret : string; oc_redirectURI : string;
  oc_scopes : list string; oc_audience : string; oc_discovery : option (res Discovery) }.

(** [scopes] nil is no scopes. *)
Definition NewClient (issuer clientID clientSecret redirectURI : string) (scopes : option (list string))
    (audience : string) : Client :=
  {| oc_issuer := TrimSuffix issuer "/"; oc_clientID := clientID; oc_clientSecret := clientSecret;
     oc_redirectURI := redirectURI; oc_scopes := default ["openid"; "profile"] scopes; oc_audience := audience;
     oc_discovery := None |}.
Definition with_discovery (c : Client) (d : res Discovery) : Client :=
  {| oc_issuer := oc_issuer c; oc_clientID := oc_clientID c; oc_clientSecret := oc_clientSecret c;
     oc_redirectURI := oc_redirectURI c; oc_scopes := oc_scopes c; oc_audience := oc_audience c;
     oc_discovery := Some d |}.

(** A form posted to a URL: the status and the body. *)
Class FormPostE (E : Type → Type) := FormPost : string → string → E (res (Z * string)).

Record TokenResponse := {
  tr_AccessToken : string; tr_RefreshToken : string; tr_IDToken : string; tr_ExpiresIn : Z; tr_TokenType : string }.

Section client.
Context `{Unicode} `{JsonErrors} {E : Type → Type} `{!HttpGetE E} `{!FormPostE E}.
Notation op A := (Client → prog E (Client * A)).

Definition discovery_fields : list string :=
  ["issuer"; "authorization_endpoint"; "token_endpoint"; "end_session_endpoint"; "jwks_uri"; "revocation_endpoint"].
Definition zero_discovery : Discovery :=
  {| dd_Issuer := ""; AuthorizationEndpoint := ""; TokenEndpoint := ""; EndSessionEndpoint := ""; JWKSURI := "";
     RevocationEndpoint := "" |}.
Definition decode_discovery (body : string) : option Discovery :=
  match parse_first body with
  | Some (JObj m) =>
      let f k := dec_string (bound discovery_fields k m) in
      let '(a, o1) := f "issuer" in let '(b, o2) := f "authorization_endpoint" in
      let '(c, o3) := f "token_endpoint" in let '(d, o4) := f "end_session_endpoint" in
      let '(e, o5) := f "jwks_uri" in let '(g, o6) := f "revocation_endpoint" in
      if o1 && o2 && o3 && o4 && o5 && o6
      then Some {| dd_Issuer := a; AuthorizationEndpoint := b; TokenEndpoint := c; EndSessionEndpoint := d;
                   JWKSURI := e; RevocationEndpoint := g |}
      else None
  | Some JNull => Some zero_discovery
  | _ => None
  end.

Definition fetchDiscovery (c : Client) : prog E (res Discovery) :=
  let u := oc_issuer c +:+ "/.well-known/openid-configuration" in
  match Parse u with
  | Err e => Ret (Err e)
  | Ok _ =>
      r <- call (HttpGet u) ;;
      Ret match r with
          | Err e => Err e
          | Ok (status, body) =>
              if negb (status =? 200) then Err ("discovery " +:+ u +:+ ": status " +:+ Itoa status)
              else
                match decode_discovery body with
                | None => Err (unmarshal_error body)
                | Some d =>
                    if String.eqb (AuthorizationEndpoint d) "" || String.eqb (TokenEndpoint d) ""
                    then Err "discovery: missing required endpoints" else Ok d
                end
          end
  end.

(** [discoveryOnce.Do]: the first call's outcome, kept. *)
Definition client_Discovery : op (res Discovery) := λ c,
  match oc_discovery c with
  | Some d => Ret (c, d)
  | None => d <- fetchDiscovery c ;; Ret (with_discovery c d, d)
  end.

Definition auth_params (c : Client) (state codeChallenge nonce : string) : list (string * string) :=
  [("response_type", "code"); ("client_id", oc_clientID c); ("redirect_uri", oc_redirectURI c);
   ("scope", Join (oc_scopes c) " "); ("state", state); ("code_challenge", codeChallenge);
   ("code_challenge_method", "S256"); ("nonce", nonce)]
  ++ (if String.eqb (oc_audience c) "" then [] else [("audience", oc_audience c)]).
Definition AuthURL (state codeChallenge nonce : string) : op (res string) := λ c,
  x <- client_Discovery c ;;
  let '(c, d) := x in
  Ret (c, try d <- d ; Ok (AuthorizationEndpoint d +:+ "?" +:+ Encode (auth_params c state codeChallenge nonce))).

Definition with_secret (c : Client) (l : list (string * string)) : list (string * string) :=
  l ++ (if String.eqb (oc_clientSecret c) "" then [] else [("client_secret", oc_clientSecret c)]).

Definition token_fields : list string := ["access_token"; "refresh_token"; "id_token"; "expires_in"; "token_type"].
Definition decode_token (data : string) : option TokenResponse :=
  match parse data with
  | Some (JObj m) =>
      let f k := dec_string (bound token_fields k m) in
      let '(a, o1) := f "access_token" in let '(r, o2) := f "refresh_token" in
      let '(i, o3) := f "id_token" in let '(e, o4) := dec_int (bound token_fields "expires_in" m) in
      let '(t, o5) := f "token_type" in
      if o1 && o2 && o3 && o4 && o5
      then Some {| tr_AccessToken := a; tr_RefreshToken := r; tr_IDToken := i; tr_ExpiresIn := e; tr_TokenType := t |}
      else None
  | Some JNull => Some {| tr_AccessToken := ""; tr_RefreshToken := ""; tr_IDToken := ""; tr_ExpiresIn := 0;
                          tr_TokenType := "" |}
  | _ => None
  end.

(** A form to the token endpoint; [what] names the operation in its error. *)
Definition token_request (what : string) (form : Client → list (string * string)) : op (res TokenResponse) := λ c,
  x <- client_Discovery c ;;
  let '(c, d) := x in
  match d with
  | Err e => Ret (c, Err e)
  | Ok d =>
      match Parse (TokenEndpoint d) with
      | Err e => Ret (c, Err e)
      | Ok _ =>
          r <- call (FormPost (TokenEndpoint d) (Encode (with_secret c (form c)))) ;;
          Ret (c, match r with
                  | Err e => Err e
                  | Ok (status, data) =>
                      if negb (status =? 200) then Err (what +:+ ": status " +:+ Itoa status +:+ ": " +:+ data)
                      else match decode_token data with Some t => Ok t | None => Err (unmarshal_error data) end
                  end)
      end
  end.
Definition Exchange (code codeVerifier : string) : op (res TokenResponse) :=
  token_request "token exchange"
    (λ c, [("grant_type", "authorization_code"); ("code", code); ("redirect_uri", oc_redirectURI c);
           ("client_id", oc_clientID c); ("code_verifier", codeVerifier)]).
Definition oidc_Refresh (refreshToken : string) : op (res TokenResponse) :=
  token_request "token refresh"
    (λ c, [("grant_type", "refresh_token"); ("refresh_token", refreshToken); ("client_id", oc_clientID c)]).

Definition validateLogoutRedirectURI (rawURI : string) : option string :=
  match Parse rawURI with
  | Err e => Some ("invalid post_logout_redirect_uri: " +:+ e)
  | Ok u =>
      if negb (String.eqb (Scheme u) "https") && negb (String.eqb (Scheme u) "http") then
        Some ("post_logout_redirect_uri scheme " +:+ Quote (Scheme u) +:+ " not allowed (must be http or https)")
      else if String.eqb (Host u) "" then Some "post_logout_redirect_uri has no host" else None
  end.

Definition oidc_EndSessionURL (idTokenHint postLogoutRedirectURI : string) : op (res string) := λ c,
  x <- client_Discovery c ;;
  let '(c, d) := x in
  Ret (c, try d <- d ;
          if String.eqb (EndSessionEndpoint d) "" then Ok ""
          else
            let hint := if String.eqb idTokenHint "" then [] else [("id_token_hint", idTokenHint)] in
            let finish l := let q := Encode l in
              Ok (if String.eqb q "" then EndSessionEndpoint d
                  else TrimSuffix (EndSessionEndpoint d) "/" +:+ "?" +:+ q) in
            if String.eqb postLogoutRedirectURI "" then finish hint
            else match validateLogoutRedirectURI postLogoutRedirectURI with
                 | Some e => Err ("end_session: " +:+ e)
                 | None => finish (hint ++ [("post_logout_redirect_uri", postLogoutRedirectURI)])
                 end).

Definition Revoke (token : string) : op (option string) := λ c,
  x <- client_Discovery c ;;
  let '(c, d) := x in
  match d with
  | Err e => Ret (c, Some e)
  | Ok d =>
      if String.eqb (RevocationEndpoint d) "" then Ret (c, None)
      else
        match Parse (RevocationEndpoint d) with
        | Err e => Ret (c, Some e)
        | Ok _ =>
            r <- call (FormPost (RevocationEndpoint d)
                         (Encode (with_secret c [("token", token); ("token_type_hint", "refresh_token");
                                                 ("client_id", oc_clientID c)]))) ;;
            Ret (c, match r with
                    | Err e => Some e
                    | Ok (status, data) =>
                        if negb (status =? 200) && negb (status =? 204)
                        then Some ("revoke: status " +:+ Itoa status +:+ ": " +:+ data) else None
                    end)
        end
  end.
End client.

(** ** The provider plugin (internal/plugins/oidcprovider) *)
Record OidcConfig := {
  op_Issuer : string; op_ClientID : string; op_ClientSecret : string; op_RedirectURI : string;
  op_Scopes : list string; op_ClaimsSource : string; op_Audience : string }.
Record OidcPlugin := { op_cfg : OidcConfig; op_oidc : option Client }.
Definition zero_oidc_config : OidcConfig :=
  {| op_Issuer := ""; op_ClientID := ""; op_ClientSecret := ""; op_RedirectURI := ""; op_Scopes := [];
     op_ClaimsSource := ""; op_Audience := "" |}.
Definition NewOidcPlugin : OidcPlugin := {| op_cfg := zero_oidc_config; op_oidc := None |}.

Definition oidc_Descriptor : PluginDescriptor :=
  {| pd_ID := "provider:oidc"; Kind := PluginKindProvider; pd_Name := "OIDC Provider";
     Description := "OIDC provider plugin (authorization code + PKCE)"; Version := "v1";
     Capabilities := ["provider:oidc"]; DependsOn := []; ConfigSchemaRef := "plugins/provider/oidc";
     pd_VersionInfo := no_version |}.

Section plugin.
Context `{Unicode} `{JsonErrors} {E : Type → Type} `{!HttpGetE E} `{!FormPostE E}.

(** [Scopes.UnmarshalJSON], also called for null. *)
Definition scope_sep (c : ascii) : bool := byte_in [32; 44; 10; 9] (byte_of c).
Fixpoint scope_words (s cur : string) : list string :=
  let flush := if String.eqb cur "" then [] else [cur] in
  match s with
  | "" => flush
  | String c r => if scope_sep c then flush ++ scope_words r "" else scope_words r (cur +:+ str c)
  end.
Definition dec_scopes (vs : list json) : list string * bool :=
  foldl (λ st v, match v with
                 | JStr s => (scope_words s "", st.2)
                 | JNull => ([], st.2)
                 | _ => match conv_strings v with Some l => (l, st.2) | None => (st.1, false) end
                 end) ([], true) vs.

Definition oidc_fields : list string :=
  ["issuer"; "client_id"; "client_secret"; "redirect_uri"; "scopes"; "claims_source"; "audience"].
Definition decode_oidc_config (data : string) : option OidcConfig :=
  match parse data with
  | Some (JObj m) =>
      let f k := dec_string (bound oidc_fields k m) in
      let '(i, o1) := f "issuer" in let '(c, o2) := f "client_id" in let '(s, o3) := f "client_secret" in
      let '(r, o4) := f "redirect_uri" in let '(sc, o5) := dec_scopes (bound oidc_fields "scopes" m) in
      let '(cs, o6) := f "claims_source" in let '(a, o7) := f "audience" in
      if o1 && o2 && o3 && o4 && o5 && o6 && o7
      then Some {| op_Issuer := i; op_ClientID := c; op_ClientSecret := s; op_RedirectURI := r; op_Scopes := sc;
                   op_ClaimsSource := cs; op_Audience := a |}
      else None
  | Some JNull => Some zero_oidc_config
  | _ => None
  end.

Definition oidc_Configure (p : OidcPlugin) (cfg : any) : res OidcPlugin :=
  match json_of_any cfg with
  | None => Err ("oidc provider: marshal config: " +:+ marshal_error cfg)
  | Some j =>
      match decode_oidc_config (print j) with
      | None => Err ("oidc provider: decode config: " +:+ unmarshal_error (print j))
      | Some o =>
          if String.eqb (op_Issuer o) "" || String.eqb (op_ClientID o) "" || String.eqb (op_RedirectURI o) ""
          then Err "oidc provider: issuer, client_id, redirect_uri are required"
          else
            let scopes := match op_Scopes o with [] => ["openid"; "profile"] | l => l end in
            Ok {| op_cfg := {| op_Issuer := op_Issuer o; op_ClientID := op_ClientID o;
                               op_ClientSecret := op_ClientSecret o; op_RedirectURI := op_RedirectURI o;
                               op_Scopes := scopes; op_ClaimsSource := op_ClaimsSource o;
                               op_Audience := op_Audience o |};
                  op_oidc := Some (NewClient (op_Issuer o) (op_ClientID o) (op_ClientSecret o) (op_RedirectURI o)
                                     (Some scopes) (op_Audience o)) |}
      end
  end.

Definition oidc_Health (p : OidcPlugin) : PluginHealth :=
  match op_oidc p with
  | None => {| ph_State := PluginStateDegraded; ph_Message := "not configured"; ph_Details := ∅ |}
  | Some _ => {| ph_State := PluginStateHealthy; ph_Message := "configured";
                 ph_Details := {[ "issuer" := AStr (op_Issuer (op_cfg p)) ]} |}
  end.

(** An operation of the plugin's client; its discovery is the plugin's. *)
Definition with_client {A} (p : OidcPlugin) (f : Client → prog E (Client * res A)) : prog E (OidcPlugin * res A) :=
  match op_oidc p with
  | None => Ret (p, Err "oidc provider: not configured")
  | Some c => x <- f c ;; let '(c, r) := x in Ret ({| op_cfg := op_cfg p; op_oidc := Some c |}, r)
  end.

Definition set_extra (l : list (string * string)) (extra : list (string * string)) : list (string * string) :=
  foldl (λ l kv, if String.eqb (TrimSpace kv.1) "" || String.eqb (TrimSpace kv.2) "" then l
                 else values_set kv.1 kv.2 l) l extra.
(** The extra parameters, in the order the map is walked. *)
Definition add_params (authURL : string) (extra : list (string * string)) : res string :=
  match extra with
  | [] => Ok authURL
  | _ =>
      match Parse authURL with
      | Err e => Err e
      | Ok u =>
          let q := Encode (set_extra (parse_query (RawQuery u)) extra) in
          Ok (url_string authURL
                {| Scheme := Scheme u; Opaque := Opaque u; User := User u; Host := Host u; Path := Path u;
                   RawPath := RawPath u; ForceQuery := ForceQuery u; RawQuery := q; Fragment := Fragment u |})
      end
  end.
Definition plugin_AuthorizationURL (p : OidcPlugin) (state codeChallenge nonce : string)
    (extra : list (string * string)) : prog E (OidcPlugin * res string) :=
  x <- with_client p (AuthURL state codeChallenge nonce) ;;
  let '(p, r) := x in Ret (p, try u <- r ; add_params u extra).

(** What the auth service takes of a token response. *)
Definition provider_tokens (t : TokenResponse) : ProviderTokens :=
  {| pt_AccessToken := tr_AccessToken t; pt_RefreshToken := tr_RefreshToken t; pt_IDToken := tr_IDToken t;
     pt_ExpiresIn := tr_ExpiresIn t |}.
(** The redirect URI of the call is not used: the client has its own. *)
Definition plugin_ExchangeCode (p : OidcPlugin) (code codeVerifier redirectURI : string) :=
  x <- with_client p (Exchange code codeVerifier) ;;
  let '(p, r) := x in Ret (p, try t <- r ; Ok (provider_tokens t)).
Definition plugin_Refresh (p : OidcPlugin) (refreshToken : string) :=
  x <- with_client p (oidc_Refresh refreshToken) ;;
  let '(p, r) := x in Ret (p, try t <- r ; Ok (provider_tokens t)).
Definition plugin_EndSessionURL (p : OidcPlugin) (idTokenHint postLogoutRedirectURI : string) :=
  with_client p (oidc_EndSessionURL idTokenHint postLogoutRedirectURI).
End plugin.
