(* ===== verification/OidcFacts.v ===== *)
(** * What the OIDC client guarantees

    The authorization request and the token requests say, once decoded, exactly
    what they were given; tokens come only from the discovered token endpoint;
    and the one discovery fetch is never repeated, not even when it failed. *)

From S2P Require Import Prelude.
From S2P Require Import GoStrings.
From S2P Require Import Effects.
From S2P Require Import GoAny.
From S2P Require Import Json.
From S2P Require Import GoUrl.
From S2P Require Import Token.
From S2P Require Import AuthzHttp.
From S2P Require Import GoHttp.
From S2P Require Import Ratelimit.
From S2P Require Import Oidc.
From S2P Require Import Authz.

(** ** Query strings read back *)
Lemma unhex_upperhex x : 0 ≤ x < 16 → unhex (upperhex x) = Some x.
Proof.
  intros Hx. unfold upperhex, unhex. destruct (Z.ltb_spec x 10); rewrite byte_of_of by lia.
  - rewrite (proj2 (Z.leb_le 48 _)), (proj2 (Z.leb_le _ 57)) by lia. simpl. f_equal. lia.
  - rewrite (proj2 (Z.leb_gt _ 57)), andb_false_r by lia.
    rewrite (proj2 (Z.leb_gt 97 _)) by lia. simpl.
    rewrite (proj2 (Z.leb_le 65 _)), (proj2 (Z.leb_le _ 70)) by lia. simpl. f_equal. lia.
Qed.

(** The bytes [QueryEscape] writes. *)
Definition query_byte (c : ascii) : bool :=
  is_alnum (byte_of c) || byte_in [43; 37; 45; 95; 46; 126] (byte_of c).

Lemma upperhex_query x : 0 ≤ x < 16 → query_byte (upperhex x) = true.
Proof.
  intros Hx. unfold query_byte, is_alnum, upperhex. apply orb_true_iff. left. rewrite !orb_true_iff, !andb_true_iff, !Z.leb_le.
  destruct (Z.ltb_spec x 10); rewrite byte_of_of by lia; lia.
Qed.

Lemma unreserved_query z : shouldEscape z EncQueryComponent = false → is_alnum z = true ∨ byte_in [45; 95; 46; 126] z = true.
Proof.
  unfold shouldEscape. destruct (is_alnum z); [by left|]. destruct (byte_in [45; 95; 46; 126] z); [by right|].
  cbn [andb]. by destruct (byte_in [36; 38; 43; 44; 47; 58; 59; 61; 63; 64] z).
Qed.

Lemma QueryEscape_cons c s : QueryEscape (String c s) =
  (if byte_of c =? 32 then "+"
   else if shouldEscape (byte_of c) EncQueryComponent then
     String (of_byte 37) (String (upperhex (byte_of c / 16)) (str (upperhex (byte_of c `mod` 16))))
   else str c) +:+ QueryEscape s.
Proof. unfold QueryEscape. cbn [escape]. rewrite (bool_decide_true (EncQueryComponent = _)) by done. by rewrite andb_true_r. Qed.

Lemma QueryEscape_bytes s : forallb query_byte (String.list_ascii_of_string (QueryEscape s)) = true.
Proof.
  induction s as [|c s IH]; [done|]. rewrite QueryEscape_cons.
  pose proof (byte_of_range c). destruct (byte_of c =? 32); [by cbn; rewrite IH|].
  destruct (shouldEscape (byte_of c) EncQueryComponent) eqn:Ee.
  - cbn. rewrite !upperhex_query by (Z.to_euclidean_division_equations; lia). rewrite IH. done.
  - cbn. rewrite IH, andb_true_r. unfold query_byte. apply unreserved_query in Ee as [->| Hb]; [done|].
    apply orb_true_iff. right. unfold byte_in in *. simpl in *. rewrite !orb_true_iff in *. tauto.
Qed.

Lemma unescape_QueryEscape s : unescape EncQueryComponent (QueryEscape s) = Some s.
Proof.
  induction s as [|c s IH]; [done|]. rewrite QueryEscape_cons. pose proof (byte_of_range c) as Hc.
  destruct (Z.eqb_spec (byte_of c) 32) as [E|_].
  - cbn. rewrite IH. do 2 f_equal. apply byte_of_inj. by rewrite E.
  - destruct (shouldEscape (byte_of c) EncQueryComponent) eqn:Ee.
    + cbn. rewrite !unhex_upperhex by (Z.to_euclidean_division_equations; lia). rewrite IH. do 2 f_equal.
      rewrite <-(of_byte_of c) at 3. f_equal. Z.to_euclidean_division_equations; lia.
    + assert (byte_of c ≠ 37 ∧ byte_of c ≠ 43) as [H37 H43].
      { split; intros E; rewrite E in Ee; vm_compute in Ee; discriminate. }
      cbn. rewrite (proj2 (Z.eqb_neq _ _) H37), (proj2 (Z.eqb_neq _ _) H43). cbn. by rewrite IH.
Qed.

Lemma escaped_no_byte c s : query_byte c = false → no_byte c (QueryEscape s).
Proof.
  intros Hc Hin%list_elem_of_In. pose proof (QueryEscape_bytes s) as Hb. rewrite forallb_forall in Hb.
  specialize (Hb _ Hin). congruence.
Qed.

Lemma query_pair_encode kv : query_pair (encode_pair kv) = Some kv.
Proof.
  destruct kv as [k v]. unfold query_pair, encode_pair. cbn [fst snd].
  assert (Hne : QueryEscape k +:+ "=" +:+ QueryEscape v ≠ "") by (by destruct (QueryEscape k)).
  rewrite (proj2 (String.eqb_neq _ _) Hne).
  assert (Hs : Contains (QueryEscape k +:+ "=" +:+ QueryEscape v) ";" = false).
  { unfold Contains. change ";" with (str ";"). rewrite (proj2 (cut_none _ _)); [done|].
    unfold no_byte. rewrite !bytes_app_ascii, !not_elem_of_app.
    split; [by apply escaped_no_byte|]. split; [|by apply escaped_no_byte]. intros Hin.
    apply list_elem_of_singleton in Hin. discriminate Hin. }
  rewrite Hs. cbn [orb]. change "=" with (str "="). rewrite cut_first by by apply escaped_no_byte.
  cbn [from_option id]. by rewrite !unescape_QueryEscape.
Qed.

Lemma encode_pair_no_amp kv : no_byte (of_byte 38) (encode_pair kv).
Proof.
  unfold encode_pair. rewrite !no_byte_app. split; [by apply escaped_no_byte|]. split; [|by apply escaped_no_byte].
  intros Hin. apply list_elem_of_singleton in Hin. discriminate Hin.
Qed.

Lemma Join_length c l : (length l ≤ S (String.length (Join l (str c))))%nat.
Proof.
  induction l as [|x [|y l] IH]; [simpl; lia..|]. set (l' := y :: l) in *.
  change (Join (x :: l') (str c)) with (x +:+ str c +:+ Join l' (str c)).
  rewrite !length_app_str. unfold str in *. cbn [length String.length] in *. lia.
Qed.

Lemma split_aux_Join c n l : l ≠ [] → Forall (no_byte c) l → (length l ≤ n)%nat →
  split_aux n (str c) (Join l (str c)) = l.
Proof.
  revert l. induction n as [|n IH]; intros l Hl Hc Hn; [destruct l; simpl in *; [done|lia]|].
  destruct l as [|x l]; [done|]. apply Forall_cons in Hc as [Hx Hc]. cbn [length] in Hn. cbn [split_aux].
  destruct l as [|y l]; [by rewrite (proj2 (cut_none _ _))|]. set (l' := y :: l) in *.
  change (Join (x :: l') (str c)) with (x +:+ str c +:+ Join l' (str c)).
  rewrite cut_first by done. f_equal. by apply IH; [|done|lia].
Qed.

(** Decoding gives the pairs back, in the order they were written. *)
Lemma parse_query_encode l : l ≠ [] → parse_query (Encode l) = sort_pairs l.
Proof.
  intros Hl. unfold parse_query, Encode, Split. change "&" with (str (of_byte 38)).
  assert (Hs : sort_pairs l ≠ []).
  { destruct l as [|[k v] l]; [done|]. simpl. by destruct (sort_pairs l) as [|[k' v'] l']; simpl; [|case_match]. }
  rewrite split_aux_Join.
  - clear Hs. induction (sort_pairs l) as [|kv l' IH]; [done|]. simpl. rewrite query_pair_encode. f_equal. exact IH.
  - by destruct (sort_pairs l).
  - apply Forall_fmap, Forall_forall. intros kv _. apply encode_pair_no_amp.
  - apply Join_length.
Qed.

Lemma insert_pair_perm k v l : insert_pair k v l ≡ₚ (k, v) :: l.
Proof.
  induction l as [|[k' v'] l IH]; [done|]. simpl. case_match; [|done]. rewrite IH. apply Permutation_swap.
Qed.
Lemma sort_pairs_perm l : sort_pairs l ≡ₚ l.
Proof. induction l as [|[k v] l IH]; [done|]. simpl. by rewrite insert_pair_perm, IH. Qed.

Lemma encode_decode l : l ≠ [] → parse_query (Encode l) ≡ₚ l.
Proof. intros. by rewrite parse_query_encode, sort_pairs_perm. Qed.

(** ** The client *)
Section client_facts.
Context `{Unicode} `{JsonErrors} {E : Type → Type} `{!HttpGetE E} `{!FormPostE E}.
Implicit Types (c : Client) (d : Discovery).

Lemma discovery_known c r tr x : oc_discovery c = Some r →
  exec (client_Discovery (E := E) c) tr x ↔ tr = [] ∧ x = (c, r).
Proof. unfold client_Discovery. intros ->. rewrite exec_ret. naive_solver. Qed.

(** The outcome is kept, whichever it is, and nothing else of the client changes. *)
Lemma discovery_kept c tr c' r : exec (client_Discovery (E := E) c) tr (c', r) →
  oc_discovery c' = Some r ∧ (c' = c ∨ c' = with_discovery c r).
Proof.
  unfold client_Discovery. destruct (oc_discovery c) as [r0|] eqn:Ed.
  - intros [-> [= -> ->]]. auto.
  - intros (r1 & t1 & t2 & -> & _ & [-> [= <- <-]])%exec_bind. auto.
Qed.

Lemma discovery_keeps_client c tr c' r : exec (client_Discovery (E := E) c) tr (c', r) →
  oc_clientID c' = oc_clientID c ∧ oc_clientSecret c' = oc_clientSecret c ∧ oc_redirectURI c' = oc_redirectURI c ∧
  oc_scopes c' = oc_scopes c ∧ oc_audience c' = oc_audience c.
Proof. intros [_ [-> | ->]]%discovery_kept; done. Qed.

(** C24: the authorization request says what it was asked to say. A URL that
    [AuthURL] returns is the authorization endpoint of the discovery document
    followed by a query that decodes to exactly the code flow's parameters:
    the client's id, redirect URI and scopes, the caller's state, nonce and
    PKCE challenge with method S256, and the audience when there is one;
    nothing in these texts can add, drop or change a parameter. *)
Theorem auth_request_exact c state codeChallenge nonce tr c' url :
  exec (AuthURL (E := E) state codeChallenge nonce c) tr (c', Ok url) →
  ∃ d q, exec (client_Discovery c) tr (c', Ok d) ∧ url = AuthorizationEndpoint d +:+ "?" +:+ q ∧
    parse_query q ≡ₚ
      [("response_type", "code"); ("client_id", oc_clientID c); ("redirect_uri", oc_redirectURI c);
       ("scope", Join (oc_scopes c) " "); ("state", state); ("code_challenge", codeChallenge);
       ("code_challenge_method", "S256"); ("nonce", nonce)]
      ++ (if String.eqb (oc_audience c) "" then [] else [("audience", oc_audience c)]).
Proof.
  unfold AuthURL. intros ([c1 r] & t1 & t2 & -> & Hd & [-> Hx])%exec_bind.
  rewrite app_nil_r. destruct r as [d|]; [|by injection Hx]. injection Hx as -> <-.
  exists d, (Encode (auth_params c' state codeChallenge nonce)). split; [done|]. split; [done|].
  rewrite encode_decode by done. unfold auth_params.
  by destruct (discovery_keeps_client _ _ _ _ Hd) as (-> & _ & -> & -> & ->).
Qed.

Lemma token_request_sound what form c tr c' t : (∀ r, form (with_discovery c r) = form c) →
  exec (token_request (E := E) what form c) tr (c', Ok t) →
  ∃ d body data t0, exec (client_Discovery c) t0 (c', Ok d) ∧
    tr = t0 ++ [Ev (FormPost (TokenEndpoint d) body) (Ok (200, data))] ∧
    decode_token data = Some t ∧ body = Encode (with_secret c (form c)).
Proof.
  intros Hform. unfold token_request. intros ([c1 r] & t1 & t2 & -> & Hd & Hx)%exec_bind.
  destruct r as [d|]; [|by destruct Hx as [_ [=]]].
  destruct (Parse (TokenEndpoint d)); [|by destruct Hx as [_ [=]]].
  destruct Hx as (r & t3 & -> & -> & Hr). destruct r as [[status data]|]; [|by injection Hr].
  destruct (Z.eqb_spec status 200) as [->|]; [|by injection Hr]. simpl in Hr.
  destruct (decode_token data) as [t'|] eqn:Et; [|by injection Hr]. injection Hr as -> ->.
  exists d, (Encode (with_secret c' (form c'))), data, t1. repeat split; try done.
  destruct (discovery_keeps_client _ _ _ _ Hd) as (_ & Hs & _).
  apply discovery_kept in Hd as [_ [-> | ->]]; [done|]. unfold with_secret. by rewrite Hs, Hform.
Qed.

(** C23: tokens come only from the token endpoint, for this code and verifier.
    When [Exchange] returns tokens, its last call was a POST to the token
    endpoint of the discovery document, of a form that decodes to exactly the
    code grant (the code, the client's id and redirect URI, the PKCE verifier,
    and the client's secret when it has one); it was answered with status 200,
    and the tokens are those of the answer's JSON. *)
Theorem exchange_sound c code codeVerifier tr c' t :
  exec (Exchange (E := E) code codeVerifier c) tr (c', Ok t) →
  ∃ d body data t0, exec (client_Discovery c) t0 (c', Ok d) ∧
    tr = t0 ++ [Ev (FormPost (TokenEndpoint d) body) (Ok (200, data))] ∧
    decode_token data = Some t ∧
    parse_query body ≡ₚ
      [("grant_type", "authorization_code"); ("code", code); ("redirect_uri", oc_redirectURI c);
       ("client_id", oc_clientID c); ("code_verifier", codeVerifier)]
      ++ (if String.eqb (oc_clientSecret c) "" then [] else [("client_secret", oc_clientSecret c)]).
Proof.
  intros (d & body & data & t0 & Hd & -> & Ht & ->)%token_request_sound; [|done].
  eexists d, _, data, t0. repeat split; try done. by apply encode_decode.
Qed.

Lemma sticky_bind {A} c e (f : Client * res Discovery → prog E A) tr x : oc_discovery c = Some (Err e) →
  exec (pbind (client_Discovery (E := E) c) f) tr x → exec (f (c, Err e)) tr x.
Proof.
  intros Hc (y & t1 & t2 & -> & Hd & Hx)%exec_bind. by apply (discovery_known _ _ _ _ Hc) in Hd as [-> ->].
Qed.

(** C38: a failed discovery is final. The client asks for the discovery document
    once: after an attempt that failed, whatever the reason (a timeout, a 503
    while the provider restarts), every later operation of this client (an
    authorization URL, an exchange, a refresh, an end-session URL, a
    revocation) fails with that same error without sending a request, and
    leaves the client as it was. *)
Theorem discovery_failure_sticks c tr c1 e : oc_discovery c = None →
  exec (client_Discovery (E := E) c) tr (c1, Err e) →
  (∀ s ch n tr' c2 r, exec (AuthURL (E := E) s ch n c1) tr' (c2, r) → tr' = [] ∧ c2 = c1 ∧ r = Err e) ∧
  (∀ code v tr' c2 r, exec (Exchange (E := E) code v c1) tr' (c2, r) → tr' = [] ∧ c2 = c1 ∧ r = Err e) ∧
  (∀ t tr' c2 r, exec (oidc_Refresh (E := E) t c1) tr' (c2, r) → tr' = [] ∧ c2 = c1 ∧ r = Err e) ∧
  (∀ t u tr' c2 r, exec (oidc_EndSessionURL (E := E) t u c1) tr' (c2, r) → tr' = [] ∧ c2 = c1 ∧ r = Err e) ∧
  (∀ t tr' c2 r, exec (Revoke (E := E) t c1) tr' (c2, r) → tr' = [] ∧ c2 = c1 ∧ r = Some e).
Proof.
  intros _ [Hc _]%discovery_kept.
  repeat split_and; intros; match goal with H : exec _ _ _ |- _ => apply (sticky_bind _ _ _ _ _ Hc) in H as [-> [= <- <-]] end; done.
Qed.
End client_facts.

(** ** A provider to ask *)
Inductive oidcE : Type → Type :=
| OE_Get (url : string) : oidcE (res (Z * string))
| OE_Post (url form : string) : oidcE (res (Z * string)).
#[local] Instance oidc_get : HttpGetE oidcE := OE_Get.
#[local] Instance oidc_post : FormPostE oidcE := OE_Post.
#[local] Existing Instance ascii_unicode.
#[local] Instance plain_json_errors : JsonErrors :=
  {| marshal_error _ := "json: unsupported value"; unmarshal_error _ := "json: syntax error" |}.

(** The provider answers discovery from its second request on. *)
Definition provider (X : Type) (e : oidcE X) : bool → X * bool :=
  match e with
  | OE_Get _ => λ up, if up then (Ok (200, dq "{'authorization_endpoint':'https://idp.example/auth','token_endpoint':'https://idp.example/token'}"), up)
                      else (Err "connection refused", true)
  | OE_Post _ _ => λ up, (Ok (200, dq "{'access_token':'at','id_token':'it','expires_in':300}"), up)
  end.
Definition demo_client : Client := NewClient "https://idp.example/" "web&x=1" "s3" "https://app.example/cb" None "".


Lemma auth_request_exact_witness :
  ∃ tr c' url d q, exec (AuthURL (E := oidcE) "st" "ch" "no" demo_client) tr (c', Ok url) ∧
    url = AuthorizationEndpoint d +:+ "?" +:+ q ∧ ("client_id", "web&x=1") ∈ parse_query q.
Proof.
  pose proof (run_exec provider (AuthURL "st" "ch" "no" demo_client) true) as Hx.
  assert (Hok : is_ok (fst (run provider (AuthURL "st" "ch" "no" demo_client) true)).2 = true) by (vm_compute; reflexivity).
  destruct (fst (run provider (AuthURL "st" "ch" "no" demo_client) true)) as [c' [url|e]]; [|discriminate Hok].
  destruct (auth_request_exact demo_client "st" "ch" "no" _ c' url Hx) as (d & q & Hd & Hu & Hq).
  exists (run_trace provider (AuthURL "st" "ch" "no" demo_client) true), c', url, d, q.
  split; [exact Hx|]. split; [exact Hu|]. rewrite Hq. apply list_elem_of_further, list_elem_of_here.
Defined.

Lemma exchange_sound_witness :
  ∃ tr c' t d body data, exec (Exchange (E := oidcE) "code" "verifier" demo_client) tr (c', Ok t) ∧
    Ev (FormPost (TokenEndpoint d) body) (Ok (200, data)) ∈ tr ∧ ("code_verifier", "verifier") ∈ parse_query body.
Proof.
  pose proof (run_exec provider (Exchange "code" "verifier" demo_client) true) as Hx.
  assert (Hok : is_ok (fst (run provider (Exchange "code" "verifier" demo_client) true)).2 = true) by (vm_compute; reflexivity).
  destruct (fst (run provider (Exchange "code" "verifier" demo_client) true)) as [c' [t|e]]; [|discriminate Hok].
  destruct (exchange_sound demo_client "code" "verifier" _ c' t Hx) as (d & body & data & t0 & Hd & Htr & Ht & Hq).
  exists (run_trace provider (Exchange "code" "verifier" demo_client) true), c', t, d, body, data.
  split; [exact Hx|]. split; [rewrite Htr; apply elem_of_app; right; apply list_elem_of_here|].
  rewrite Hq. do 4 apply list_elem_of_further. apply list_elem_of_here.
Defined.

(** The provider is back for the second call: the client does not ask. *)
Lemma discovery_failure_sticks_witness :
  ∃ c1, fst (run provider (client_Discovery demo_client) false) = (c1, Err "connection refused") ∧
    snd (run provider (client_Discovery demo_client) false) = true ∧
    ∀ tr c2 r, exec (Exchange (E := oidcE) "code" "verifier" c1) tr (c2, r) → tr = [] ∧ r = Err "connection refused".
Proof.
  exists (with_discovery demo_client (Err "connection refused")). split; [reflexivity|]. split; [reflexivity|].
  intros tr c2 r Hx.
  destruct (discovery_failure_sticks demo_client [Ev (OE_Get "https://idp.example/.well-known/openid-configuration") (Err "connection refused")]
              (with_discovery demo_client (Err "connection refused")) "connection refused" eq_refl) as (_ & He & _).
  - exists (Err "connection refused"), []. split; [reflexivity|]. split; reflexivity.
  - destruct (He _ _ _ _ _ Hx) as (-> & _ & ->). split; reflexivity.
Defined.
