(* ===== verification/Grpc.v ===== *)
(** * The gRPC front end (internal/grpc, cmd/accessgate-proxy/grpcserver.go)

    The interceptors that authorize a call through the engine, the forwarder
    that opens the same call at the upstream, and the two pumps that then relay
    the frames.  grpc-go is external: its streams and connections are calls of
    the environment, its metadata operations a class.  The director and its two
    pumps run at once, so the relay is a step relation over the three. *)

From S2P Require Import Prelude.
From S2P Require Import GoStrings.
From S2P Require Import Effects.
From S2P Require Import Token.
From S2P Require Import Authz.

(** ** Metadata and statuses (grpc-go) *)
Notation MD := (gmap string (list string)).

(** [MD.Set]: the key is lower-cased. *)
Class Metadata `{Unicode} := {
  md_Set : MD → string → list string → MD;
  md_Set_spec : ∀ md k v, md_Set md k [v] = <[ToLower k := [v]]> md }.

Record status := { st_code : Z; st_msg : string }.
Definition codes_PermissionDenied : Z := 7.
Definition codes_Unimplemented : Z := 12.
Definition codes_Internal : Z := 13.
Definition codes_Unavailable : Z := 14.
Definition codes_Unauthenticated : Z := 16.
Definition status_Error (code : Z) (msg : string) : status := {| st_code := code; st_msg := msg |}.

(** What a stream operation fails with. *)
Inductive stream_error := io_EOF | StatusError (s : status).

(** ** The authorization of a call (internal/grpc) *)
Section authorize.
Context `{MapRange} {E : Type → Type}.

(** [LastIndex] of a slash, as the parts around it. *)
Definition ExtractMethod (fullMethod : string) : string * string :=
  if String.eqb fullMethod "" then ("", "")
  else
    let trimmed := TrimPrefix fullMethod "/" in
    match cut_last "/" trimmed with
    | None => (trimmed, "")
    | Some (service, method) => (service, method)
    end.

(** nil headers are an empty map. *)
Definition ToProxyRequest (fullMethod : string) (headers : gmap string string) (body : string) : Request :=
  let '(svc, method) := ExtractMethod fullMethod in
  {| Protocol := "grpc"; Method := "POST"; rq_Path := fullMethod; Headers := headers; Cookies := ∅; Body := body;
     GraphQLOperation := ""; GraphQLOperationType := ""; GRPCService := svc; GRPCMethod := method;
     RemoteAddr := "" |}.

Definition join_values (v : string) (vs : list string) : string :=
  foldl (λ joined v, if String.eqb v "" then joined else if String.eqb joined "" then v
                     else joined +:+ "," +:+ v) v vs.
(** [md] is [None] when the context carries no metadata. *)
Definition headersFromIncomingContext (md : option MD) : gmap string string :=
  match md with
  | None => ∅
  | Some md => omap (M := gmap string) (λ vs, match vs with [] => None | v :: vs => Some (join_values v vs) end) md
  end.

Definition buildRequest (md : option MD) (fullMethod : string) : Request :=
  let '(service, method) := ExtractMethod fullMethod in
  let headers := headersFromIncomingContext md in
  let headers := match headers !! ":path" with Some _ => headers | None => <[":path" := fullMethod]> headers end in
  {| Protocol := "grpc"; Method := "POST"; rq_Path := fullMethod; Headers := headers; Cookies := ∅; Body := "";
     GraphQLOperation := ""; GraphQLOperationType := ""; GRPCService := service; GRPCMethod := method;
     RemoteAddr := "" |}.

(** [authz.Engine], and the default engine as one: it never fails. *)
Definition Engine : Type := Request → prog E (res (option Response)).
Definition default_engine `{!ProxyMetricsE E} (e : DefaultEngine E) : Engine := λ req,
  resp <- Handle e req ;; Ret (Ok (Some resp)).

Definition statusFromResponse (resp : option Response) : status :=
  match resp with
  | None => status_Error codes_PermissionDenied "request denied by accessgate policy"
  | Some r =>
      if StatusCode r =? 401 then status_Error codes_Unauthenticated "unauthenticated"
      else if StatusCode r =? 403 then status_Error codes_PermissionDenied "permission denied"
      else status_Error codes_PermissionDenied "request denied by accessgate policy"
  end.

(** [reject] is the result of a call that ends with a status. *)
Definition UnaryServerInterceptor {R} (reject : status → R) (engine : Engine) (md : option MD) (fullMethod : string)
    (handler : prog E R) : prog E R :=
  r <- engine (buildRequest md fullMethod) ;;
  match r with
  | Err _ => Ret (reject (status_Error codes_Internal "authorization error"))
  | Ok None => Ret (reject (statusFromResponse None))
  | Ok (Some resp) => if Allow resp then handler else Ret (reject (statusFromResponse (Some resp)))
  end.

(** The stream handed to the handler: the headers its wrapper carries, [None]
    for one that is not wrapped. *)
Definition ServerStream : Type := option (gmap string string).
Definition NewAuthorizedStream (headers : gmap string string) : ServerStream := Some headers.
Definition IdentityHeaders (ss : ServerStream) : gmap string string := default ∅ ss.

Definition StreamServerInterceptor {R} (reject : status → R) (engine : Engine) (md : option MD) (fullMethod : string)
    (handler : ServerStream → prog E R) : prog E R :=
  r <- engine (buildRequest md fullMethod) ;;
  match r with
  | Err _ => Ret (reject (status_Error codes_Internal "authorization error"))
  | Ok None => Ret (reject (statusFromResponse None))
  | Ok (Some resp) =>
      if Allow resp then handler (NewAuthorizedStream (UpstreamHeaders resp))
      else Ret (reject (statusFromResponse (Some resp)))
  end.
End authorize.
Arguments Engine : clear implicits.

(** ** The raw codec (cmd/accessgate-proxy/grpcserver.go) *)
Inductive codec_value := VBytes (b : string) | VBytesPtr | VOther (type_name : string).
Definition rawCodecName : string := "accessgate-raw-bytes".
Definition type_of (v : codec_value) : string :=
  match v with VBytes _ => "[]uint8" | VBytesPtr => "*[]uint8" | VOther t => t end.
Definition raw_Marshal (v : codec_value) : res string :=
  match v with VBytes b => Ok b | _ => Err ("rawCodec: expected []byte, got " +:+ type_of v) end.
(** What is stored through the pointer. *)
Definition raw_Unmarshal (data : string) (v : codec_value) : res string :=
  match v with VBytesPtr => Ok data | _ => Err ("rawCodec: expected *[]byte, got " +:+ type_of v) end.

(** ** Streams and connections (grpc-go) *)
Definition frame : Type := string.
Inductive recv := Frame (f : frame) | RecvFailed (e : stream_error).
Definition conn_id : Type := nat.

Inductive grpcE : Type → Type :=
| G_Method : grpcE (option string)
| G_NewClient (addr : string) (insecure : bool) : grpcE (res conn_id)
| G_CloseConn (c : conn_id) : grpcE (option string)
| G_NewStream (c : conn_id) (md : MD) (method : string) : grpcE (option string)
| G_ClientRecv : grpcE recv
| G_UpstreamSend (f : frame) : grpcE (option stream_error)
| G_CloseSend : grpcE (option stream_error)
| G_UpstreamHeader : grpcE (res MD)
| G_SetHeader (md : MD) : grpcE unit
| G_UpstreamRecv : grpcE recv
| G_ClientSend (f : frame) : grpcE (option stream_error)
| G_Trailer : grpcE MD
| G_SetTrailer (md : MD) : grpcE unit.

(** ** The forwarder *)
Record upstreamForwarder := { uf_addr : string; uf_insecure : bool; uf_conn : option conn_id }.
Definition newUpstreamForwarder (addr : string) (insecureTransport : bool) : upstreamForwarder :=
  {| uf_addr := addr; uf_insecure := insecureTransport; uf_conn := None |}.
Definition with_conn (f : upstreamForwarder) (c : option conn_id) : upstreamForwarder :=
  {| uf_addr := uf_addr f; uf_insecure := uf_insecure f; uf_conn := c |}.

(** Under the forwarder's mutex. *)
Definition clientConn (f : upstreamForwarder) : prog grpcE (upstreamForwarder * res conn_id) :=
  match uf_conn f with
  | Some c => Ret (f, Ok c)
  | None =>
      r <- call (G_NewClient (uf_addr f) (uf_insecure f)) ;;
      Ret match r with Err e => (f, Err e) | Ok c => (with_conn f (Some c), Ok c) end
  end.
Definition Close (f : upstreamForwarder) : prog grpcE (upstreamForwarder * option string) :=
  match uf_conn f with
  | None => Ret (f, None)
  | Some c => err <- call (G_CloseConn c) ;; Ret (with_conn f None, err)
  end.

Section director.
Context `{MapRange} `{Metadata}.

Definition outgoingContext (md : option MD) (ss : ServerStream) : MD :=
  foldl (λ out kv, md_Set out (ToLower kv.1) [kv.2]) (default ∅ md) (range (IdentityHeaders ss)).

(** The director up to the pumps: the upstream stream is open, or the status. *)
Definition director_open (f : upstreamForwarder) (md : option MD) (ss : ServerStream)
    : prog grpcE (upstreamForwarder * (unit + status)) :=
  m <- call G_Method ;;
  match m with
  | None => Ret (f, inr (status_Error codes_Internal "accessgate-proxy: could not determine method for forwarding"))
  | Some fullMethod =>
      x <- clientConn f ;;
      let '(f, c) := x in
      match c with
      | Err e => Ret (f, inr (status_Error codes_Unavailable ("accessgate-proxy: upstream dial failed: " +:+ e)))
      | Ok c =>
          err <- call (G_NewStream c (outgoingContext md ss) fullMethod) ;;
          Ret (f, match err with
                  | Some e => inr (status_Error codes_Unavailable ("accessgate-proxy: upstream stream failed: " +:+ e))
                  | None => inl tt
                  end)
      end
  end.

Definition unknownServiceHandler `{Unicode} : prog grpcE status :=
  m <- call G_Method ;;
  Ret (status_Error codes_Unimplemented
         ("accessgate-proxy authorized the call but no grpc_upstream_addr is configured for forwarding (method "
          +:+ Quote (default "" m) +:+ ")")).
End director.

(** ** The pumps *)

(** One turn of a pump: [Some r] when it reports [r] and returns. *)
Definition pump (receive : grpcE recv) (send : frame → grpcE (option stream_error))
    (on_eof : prog grpcE (option stream_error)) : prog grpcE (option (option stream_error)) :=
  r <- call receive ;;
  match r with
  | RecvFailed io_EOF => e <- on_eof ;; Ret (Some e)
  | RecvFailed e => Ret (Some (Some e))
  | Frame f =>
      e <- call (send f) ;;
      Ret match e with Some e => Some (Some e) | None => None end
  end.
Definition forwardClientToUpstream : prog grpcE (option (option stream_error)) :=
  pump G_ClientRecv G_UpstreamSend (call G_CloseSend).
Definition forwardUpstreamToClient : prog grpcE (option (option stream_error)) :=
  pump G_UpstreamRecv G_ClientSend (Ret None).
(** What the second does before its first turn. *)
Definition forward_header : prog grpcE (option (option stream_error)) :=
  h <- call G_UpstreamHeader ;;
  match h with
  | Ok md => if bool_decide (md = ∅) then Ret None else call (G_SetHeader md) ;;; Ret None
  | Err _ => Ret None
  end.

(** A goroutine that takes turns: what is left of this one, or what it reported. *)
Inductive pump_state :=
| Turning (p : prog grpcE (option (option stream_error)))
| Reported (r : option stream_error).
Inductive director_state :=
| Waiting
| Trailing (upstreamErr : option stream_error) (p : prog grpcE unit)
| Returned (r : option stream_error).
Record relay := {
  c2u : pump_state; u2c : pump_state; director : director_state; relay_trace : list (event grpcE) }.

Definition relay_start : relay :=
  {| c2u := Turning forwardClientToUpstream; u2c := Turning forward_header; director := Waiting; relay_trace := [] |}.

Definition propagate_trailer : prog grpcE unit := md <- call G_Trailer ;; call (G_SetTrailer md).
(** The status the director returns; it only looks at the first pump's channel. *)
Definition director_result (upstreamErr : option stream_error) (c2u : pump_state) : option stream_error :=
  match upstreamErr with
  | Some e => Some e
  | None => match c2u with Reported (Some (StatusError s)) => Some (StatusError s) | _ => None end
  end.

(** The next call of a program, whatever it is answered. *)
Definition next_call {A} (p : prog grpcE A) (evs : list (event grpcE)) (p' : prog grpcE A) : Prop :=
  match p with
  | Vis e k => ∃ x, evs = [Ev e x] ∧ p' = k x
  | Ret _ => False
  end.
(** A step of a pump whose turn is [body]: a call, the next turn, or the report. *)
Definition pump_step (body : prog grpcE (option (option stream_error))) (t : pump_state)
    (evs : list (event grpcE)) (t' : pump_state) : Prop :=
  match t with
  | Turning (Ret None) => evs = [] ∧ t' = Turning body
  | Turning (Ret (Some r)) => evs = [] ∧ t' = Reported r
  | Turning p => ∃ p', next_call p evs p' ∧ t' = Turning p'
  | Reported _ => False
  end.

Inductive relay_step : relay → relay → Prop :=
| step_c2u s t evs : pump_step forwardClientToUpstream (c2u s) evs t →
    relay_step s {| c2u := t; u2c := u2c s; director := director s; relay_trace := relay_trace s ++ evs |}
| step_u2c s t evs : pump_step forwardUpstreamToClient (u2c s) evs t →
    relay_step s {| c2u := c2u s; u2c := t; director := director s; relay_trace := relay_trace s ++ evs |}
| step_reported s r : u2c s = Reported r → director s = Waiting →
    relay_step s {| c2u := c2u s; u2c := u2c s; director := Trailing r propagate_trailer;
                    relay_trace := relay_trace s |}
| step_trailer s r p evs p' : director s = Trailing r p → next_call p evs p' →
    relay_step s {| c2u := c2u s; u2c := u2c s; director := Trailing r p';
                    relay_trace := relay_trace s ++ evs |}
| step_return s r : director s = Trailing r (Ret tt) →
    relay_step s {| c2u := c2u s; u2c := u2c s; director := Returned (director_result r (c2u s));
                    relay_trace := relay_trace s |}.
Definition relay_reach : relay → Prop := rtc relay_step relay_start.

(** ** The server *)
Record GRPCServer (E : Type → Type) := { gs_engine : Engine E; gs_forwarding : bool }.
Arguments gs_engine {E}.
Arguments gs_forwarding {E}.
Definition newGRPCServer {E} (engine : Engine E) (grpcUpstreamAddr : string) (grpcUpstreamInsecure : bool)
    : GRPCServer E * option upstreamForwarder :=
  if String.eqb grpcUpstreamAddr "" then ({| gs_engine := engine; gs_forwarding := false |}, None)
  else ({| gs_engine := engine; gs_forwarding := true |},
        Some (newUpstreamForwarder grpcUpstreamAddr grpcUpstreamInsecure)).

(** The engine's calls and the streams', together. *)
Inductive frontE (E : Type → Type) : Type → Type :=
| FE {X} (e : E X) : frontE E X
| FG {X} (g : grpcE X) : frontE E X.
Arguments FE {E X} e.
Arguments FG {E X} g.

(** A call of any method: no service is registered, so each is a stream for the
    unknown-service handler, behind the stream interceptor.  The forwarder
    after it, and [inl] when frames are to be relayed. *)
Definition serve_call `{MapRange} `{Metadata} {E} (engine : Engine E) (fwd : option upstreamForwarder)
    (md : option MD) (fullMethod : string) : prog (frontE E) (option upstreamForwarder * (unit + status)) :=
  StreamServerInterceptor (λ s, (fwd, inr s)) (λ req, interp (λ _ e, call (FE e)) (engine req)) md fullMethod (λ ss,
    interp (λ _ g, call (FG g))
      match fwd with
      | None => s <- unknownServiceHandler ;; Ret (None, inr s)
      | Some f => x <- director_open f md ss ;; Ret (Some x.1, x.2)
      end).
