(* ===== verification/GrpcFacts.v ===== *)
(** * What the gRPC front end guarantees

    A call is forwarded only when the engine allowed it, with the engine's
    headers over the client's metadata; the relay keeps the frames of each
    direction in order; and the identity the front end does not set is the
    client's to choose. *)

From S2P Require Import Prelude.
From S2P Require Import GoStrings.
From S2P Require Import Effects.
From S2P Require Import Token.
From S2P Require Import Authz.
From S2P Require Import GoAny.
From S2P Require Import Json.
From S2P Require Import Cookie.
From S2P Require Import Session.
From S2P Require Import Handoff.
From S2P Require Import AuthConfig.
From S2P Require Import GoUrl.
From S2P Require Import GoHttp.
From S2P Require Import Sdk.
From S2P Require Import AuthService.
From S2P Require Import AuthServer.
From S2P Require Import AuthzFacts.
From S2P Require Import AuthzHttp.
From S2P Require Import ProxyClient.
From S2P Require Import AuthEnv.
From S2P Require Import AuthAccess.
From S2P Require Import ResolveChain.
From S2P Require Import Grpc.

(** ** The metadata of a forwarded call *)
Section outgoing.
Context `{MapRange} `{Metadata}.

(** The metadata key of a header. *)
Definition md_key (k : string) : string := ToLower (ToLower k).

Lemma outgoing_fold l md k :
  (foldl (λ out kv, md_Set out (ToLower kv.1) [kv.2]) md l) !! k =
  match last (List.filter (λ kv, String.eqb (md_key kv.1) k) l) with
  | Some kv => Some [kv.2] | None => md !! k end.
Proof.
  induction l as [|kv l IH] using rev_ind; [done|].
  rewrite foldl_app, List.filter_app. cbn [foldl List.filter]. rewrite md_Set_spec.
  fold (md_key kv.1). destruct (String.eqb_spec (md_key kv.1) k) as [<-|Hne].
  - by rewrite last_snoc, lookup_insert_eq.
  - by rewrite app_nil_r, lookup_insert_ne.
Qed.

(** A header of the engine's is the metadata under its key, whatever the client sent there. *)
Lemma outgoing_identity md ss h v :
  IdentityHeaders ss !! h = Some v →
  (∀ h' v', IdentityHeaders ss !! h' = Some v' → md_key h' = md_key h → h' = h) →
  outgoingContext md ss !! md_key h = Some [v].
Proof.
  intros Hh Hu. unfold outgoingContext. rewrite outgoing_fold.
  destruct (last (List.filter _ _)) as [[h' v']|] eqn:El.
  - apply last_Some_elem_of, list_elem_of_In, List.filter_In in El as [Hin Hk%String.eqb_eq].
    apply list_elem_of_In, range_elem in Hin. simpl in Hk. pose proof (Hu h' v' Hin Hk) as ->. naive_solver.
  - apply last_None in El. exfalso.
    assert (Hin : (h, v) ∈ List.filter (λ kv, String.eqb (md_key kv.1) (md_key h)) (range (IdentityHeaders ss))).
    { apply list_elem_of_In, List.filter_In. split; [by apply list_elem_of_In, range_elem|apply String.eqb_refl]. }
    rewrite El in Hin. by apply elem_of_nil in Hin.
Qed.

(** Any other metadata is the client's own. *)
Lemma outgoing_client md ss k :
  (∀ h v, IdentityHeaders ss !! h = Some v → md_key h ≠ k) → outgoingContext md ss !! k = default ∅ md !! k.
Proof.
  intros Hk. unfold outgoingContext. rewrite outgoing_fold.
  destruct (last (List.filter _ _)) as [[h' v']|] eqn:El; [|done].
  apply last_Some_elem_of, list_elem_of_In, List.filter_In in El as [Hin He%String.eqb_eq].
  apply list_elem_of_In, range_elem in Hin. by destruct (Hk h' v' Hin).
Qed.
End outgoing.

(** ** A call *)
Section call.
Context `{MapRange} `{Metadata} {E : Type → Type} `{!ProxyMetricsE E}.

Lemma default_engine_exec (e : DefaultEngine E) req tr x :
  exec (default_engine e req) tr x ↔ ∃ resp, x = Ok (Some resp) ∧ exec (Handle e req) tr resp.
Proof.
  unfold default_engine. rewrite exec_bind. split.
  - intros (resp & t1 & t2 & -> & Hh & [-> <-]). rewrite app_nil_r. eauto.
  - intros (resp & -> & Hh). exists resp, tr, []. by rewrite app_nil_r.
Qed.

(** What the director does until it relays: one method lookup, a dial when
    there is no connection, one stream. *)
Lemma director_open_exec f md ss tr f' r : exec (director_open f md ss) tr (f', r) →
  (∀ c md' m x, Ev (G_NewStream c md' m) x ∈ tr → md' = outgoingContext md ss ∧ Ev G_Method (Some m) ∈ tr) ∧
  (r = inl tt → ∃ c md' m, uf_conn f' = Some c ∧ Ev (G_NewStream c md' m) None ∈ tr).
Proof.
  unfold director_open. cbn [pbind call]. intros (m & tr' & -> & Hx).
  destruct m as [m|]; [|destruct Hx as [-> [= <- <-]]; split; [set_solver|done]].
  apply exec_bind in Hx as ([f1 c] & t1 & t2 & -> & Hc & Hx).
  assert (Hnone : ∀ c0 md' m0 x, Ev (G_NewStream c0 md' m0) x ∉ t1 ∧ (c = Ok c0 → uf_conn f1 = Some c0)).
  { intros c0 md' m0 x. unfold clientConn in Hc. destruct (uf_conn f) as [c1|] eqn:Ef.
    - destruct Hc as [-> [= <- <-]]. split; [set_solver|]. by intros [= ->].
    - destruct Hc as (ans & t3 & -> & -> & Ha). split; [by intros Hin%list_elem_of_singleton|].
      destruct ans; injection Ha as <- <-; [by intros [= ->]|done]. }
  destruct c as [c|e]; [|destruct Hx as [-> [= <- <-]]].
  - destruct Hx as (err & t3 & -> & -> & [= <- <-]). split.
    + intros c0 md' m0 x. rewrite elem_of_cons, elem_of_app, list_elem_of_singleton.
      intros [?|[Hin|Heq]]; [done|by destruct (Hnone c0 md' m0 x) as [Hn _]|].
      inversion Heq; subst. split; [done|]. apply list_elem_of_here.
    + destruct err; [done|]. intros _. exists c, (outgoingContext md ss), m.
      split; [by apply (Hnone c ∅ m None)|]. apply list_elem_of_further, elem_of_app. right. apply list_elem_of_here.
  - split; [|done]. intros c0 md' m0 x. rewrite app_nil_r, elem_of_cons. intros [?|Hin]; [done|].
    by destruct (Hnone c0 md' m0 x) as [Hn _].
Qed.

(** A call: the engine's answer, then, when it allowed, the handler's calls. *)
Lemma serve_call_exec (e : DefaultEngine E) fwd md fullMethod tr fwd' r :
  exec (serve_call (default_engine e) fwd md fullMethod) tr (fwd', r) →
  ∃ resp th tg, exec (Handle e (buildRequest md fullMethod)) th resp ∧
    tr = (lift_event (λ _, FE) <$> th) ++ (lift_event (λ _, FG) <$> tg) ∧
    (Allow resp = false → tg = [] ∧ fwd' = fwd ∧
       ∃ s, r = inr s ∧ st_code s = if StatusCode resp =? 401 then codes_Unauthenticated else codes_PermissionDenied) ∧
    (Allow resp = true →
       exec match fwd with
            | None => s <- unknownServiceHandler ;; Ret (None, inr s)
            | Some f => x <- director_open f md (NewAuthorizedStream (UpstreamHeaders resp)) ;; Ret (Some x.1, x.2)
            end tg (fwd', r)).
Proof.
  unfold serve_call, StreamServerInterceptor. intros (ans & t1 & t2 & -> & He & Hx)%exec_bind.
  apply exec_lift in He as (th & -> & (resp & -> & Hh)%default_engine_exec). exists resp, th.
  destruct (Allow resp) eqn:Ea.
  - apply exec_lift in Hx as (tg & -> & Hx). by exists tg.
  - destruct Hx as [-> [= <- <-]]. exists []. split; [done|]. split; [done|]. split; [|done].
    intros _. split; [done|]. split; [done|]. eexists. split; [done|]. unfold statusFromResponse.
    destruct (StatusCode resp =? 401); [done|]. by destruct (StatusCode resp =? 403).
Qed.

(** C5: a gRPC call is forwarded only when the engine allowed it, with the
    engine's identity over the client's metadata. A call is first put to the
    engine, as the request of its method and metadata; only when that allows
    it is anything asked of the upstream, and otherwise the call ends with
    Unauthenticated for a 401 and PermissionDenied for the rest. The stream
    opened upstream is for the call's own method, and its metadata holds each
    header of the engine's, alone, under its lower-case key, and under every
    other key exactly what the client sent (of two of the engine's headers
    that differ in case only, one is left): so identity metadata the engine
    does not set reaches the upstream as the client wrote it. *)
Theorem grpc_forward_exact (e : DefaultEngine E) fwd md fullMethod tr fwd' r
    (Hx : exec (serve_call (default_engine e) fwd md fullMethod) tr (fwd', r)) :
  ∃ resp th tg, exec (Handle e (buildRequest md fullMethod)) th resp ∧
    tr = (lift_event (λ _, FE) <$> th) ++ (lift_event (λ _, FG) <$> tg) ∧
    (Allow resp = false → tg = [] ∧ fwd' = fwd ∧
       ∃ s, r = inr s ∧ st_code s = if StatusCode resp =? 401 then codes_Unauthenticated else codes_PermissionDenied) ∧
    (r = inl tt → Allow resp = true ∧ ∃ c md' m, Ev (G_NewStream c md' m) None ∈ tg) ∧
    (∀ c md' m x, Ev (G_NewStream c md' m) x ∈ tg →
       Allow resp = true ∧ Ev G_Method (Some m) ∈ tg ∧
       (∀ h v, UpstreamHeaders resp !! h = Some v →
          (∀ h' v', UpstreamHeaders resp !! h' = Some v' → md_key h' = md_key h → h' = h) →
          md' !! md_key h = Some [v]) ∧
       (∀ k, (∀ h v, UpstreamHeaders resp !! h = Some v → md_key h ≠ k) → md' !! k = default ∅ md !! k)).
Proof.
  apply serve_call_exec in Hx as (resp & th & tg & Hh & -> & Hdeny & Hallow).
  exists resp, th, tg. split; [done|]. split; [done|]. split; [done|].
  destruct (Allow resp) eqn:Ea.
  2: { destruct (Hdeny eq_refl) as (-> & _ & st & -> & _). split; [done|set_solver]. }
  specialize (Hallow eq_refl). destruct fwd as [f|].
  2: { apply exec_bind in Hallow as (st & t3 & t4 & -> & Hu & [-> [= <- <-]]). rewrite app_nil_r.
       destruct Hu as (m & t5 & -> & -> & _). split; [done|]. by intros c md' m0 x Hin%list_elem_of_singleton. }
  apply exec_bind in Hallow as ([f1 r1] & t3 & t4 & -> & Hd & [-> [= <- <-]]). rewrite app_nil_r.
  destruct (director_open_exec f md _ t3 f1 r1 Hd) as [Hs Ho]. split.
  - intros (c & md' & m & _ & Hin)%Ho. split; [done|]. eauto.
  - intros c md' m x (-> & Hm)%Hs. split; [done|]. split; [done|]. split.
    + intros h v Hh' Hu. by apply outgoing_identity.
    + intros k Hk. by apply outgoing_client.
Qed.
End call.

(** ** The relay *)

(** What the frames of each direction are, in a trace. *)
Definition client_frame (ev : event grpcE) : option frame :=
  match ev with
  | Ev e x => (match e in grpcE X return X → option frame with
               | G_ClientRecv => λ r, match r with Frame f => Some f | RecvFailed _ => None end
               | _ => λ _, None end) x
  end.
Definition upstream_frame (ev : event grpcE) : option frame :=
  match ev with
  | Ev e x => (match e in grpcE X return X → option frame with
               | G_UpstreamRecv => λ r, match r with Frame f => Some f | RecvFailed _ => None end
               | _ => λ _, None end) x
  end.
Definition sent_upstream (ev : event grpcE) : option frame :=
  match ev with
  | Ev e x => (match e in grpcE X return X → option frame with
               | G_UpstreamSend f => λ r, match r with None => Some f | Some _ => None end
               | _ => λ _, None end) x
  end.
Definition sent_client (ev : event grpcE) : option frame :=
  match ev with
  | Ev e x => (match e in grpcE X return X → option frame with
               | G_ClientSend f => λ r, match r with None => Some f | Some _ => None end
               | _ => λ _, None end) x
  end.
Definition is_close (ev : event grpcE) : bool := match ev with Ev G_CloseSend _ => true | _ => false end.

Section pump.
Context (receive : grpcE recv) (send : frame → grpcE (option stream_error)) (close : option (grpcE (option stream_error))).
Context (got sent : event grpcE → option frame) (closes own : event grpcE → bool).
Definition on_eof : prog grpcE (option stream_error) := match close with Some c => call c | None => Ret None end.
Notation body := (pump receive send on_eof).

(** The pump's calls, and how the trace shows them. *)
Class PumpCalls : Prop := {
  got_frame f : got (Ev receive (Frame f)) = Some f;
  got_failed e : got (Ev receive (RecvFailed e)) = None;
  sent_ok f : sent (Ev (send f) None) = Some f;
  sent_failed f e : sent (Ev (send f) (Some e)) = None;
  got_send f x : got (Ev (send f) x) = None;
  sent_receive x : sent (Ev receive x) = None;
  got_close c x : close = Some c → got (Ev c x) = None ∧ sent (Ev c x) = None;
  closes_receive x : closes (Ev receive x) = false;
  closes_send f x : closes (Ev (send f) x) = false;
  own_receive x : own (Ev receive x) = true;
  own_send f x : own (Ev (send f) x) = true;
  own_close c x : close = Some c → own (Ev c x) = true }.
Context `{!PumpCalls}.

Definition saw_eof (tr : list (event grpcE)) : Prop := Ev receive (RecvFailed io_EOF) ∈ tr.

(** At most the frame in hand is missing from those passed on; the end is
    reported, and passed on, only after every frame was. *)
Definition pump_inv (t : pump_state) (tr : list (event grpcE)) : Prop :=
  ∃ pend, omap got tr = omap sent tr ++ pend ∧
    (((t = Turning body ∨ t = Turning (Ret None)) ∧ pend = [] ∧ existsb closes tr = false) ∨
     (∃ f, t = Turning (e <- call (send f) ;; Ret match e with Some e => Some (Some e) | None => None end) ∧
           pend = [f] ∧ existsb closes tr = false) ∨
     (t = Turning (e <- on_eof ;; Ret (Some e)) ∧ pend = [] ∧ saw_eof tr ∧ existsb closes tr = false) ∨
     (∃ r, (t = Turning (Ret (Some r)) ∨ t = Reported r) ∧ (length pend ≤ 1)%nat ∧
           (r = None → pend = [] ∧ saw_eof tr) ∧ (existsb closes tr = true → pend = [] ∧ saw_eof tr))).

Lemma saw_eof_more tr evs : saw_eof tr → saw_eof (tr ++ evs).
Proof. intros Hs. apply elem_of_app. by left. Qed.

Lemma pump_inv_step t tr evs t' : pump_inv t tr → pump_step body t evs t' → pump_inv t' (tr ++ evs).
Proof.
  intros (pend & Hp & Hc) Hs. unfold pump_inv. rewrite !omap_app, existsb_app, Hp.
  destruct Hc as [([->| ->] & -> & Hcl)|[(f & -> & -> & Hcl)|[(-> & -> & He & Hcl)|(r & [->| ->] & Hl & Hn & Hcl)]]].
  - destruct Hs as (p' & (x & -> & ->) & ->). cbn [omap list_omap existsb]. rewrite sent_receive, closes_receive, Hcl, !app_nil_r.
    destruct x as [f|[|s]].
    + exists [f]. rewrite got_frame. split; [done|]. right. left. by exists f.
    + exists []. rewrite got_failed, !app_nil_r. split; [done|]. right. right. left. repeat split.
      apply elem_of_app. right. apply list_elem_of_here.
    + exists []. rewrite got_failed, !app_nil_r. split; [done|]. right. right. right. exists (Some (StatusError s)).
      split; [by left|]. split; [simpl; lia|]. done.
  - destruct Hs as [-> ->]. exists []. cbn. rewrite !app_nil_r, Hcl. split; [done|]. left. auto.
  - destruct Hs as (p' & (x & -> & ->) & ->). cbn [omap list_omap existsb]. rewrite got_send, closes_send, Hcl.
    destruct x as [e|].
    + exists [f]. rewrite sent_failed, !app_nil_r. split; [done|]. right. right. right. exists (Some e).
      split; [by left|]. by split; [simpl; lia|].
    + exists []. rewrite sent_ok, !app_nil_r. split; [done|]. left. auto.
  - unfold on_eof in Hs. destruct close as [c|] eqn:Eclose.
    + destruct Hs as (p' & (x & -> & ->) & ->). cbn [omap list_omap]. destruct (got_close c x Eclose) as [-> ->].
      exists []. rewrite !app_nil_r. split; [done|]. right. right. right. exists x. split; [by left|].
      split; [simpl; lia|]. split; intros _; (split; [done|]); by apply saw_eof_more.
    + destruct Hs as [-> ->]. exists []. cbn. rewrite !app_nil_r. split; [done|]. right. right. right. exists None.
      split; [by right|]. split; [simpl; lia|]. split; [done|]. by rewrite Hcl.
  - destruct Hs as [-> ->]. exists pend. cbn. rewrite !app_nil_r, orb_false_r. split; [done|]. right. right. right.
    exists r. split; [by right|]. by split.
  - destruct Hs.
Qed.

Lemma pump_step_own t tr evs t' : pump_inv t tr → pump_step body t evs t' →
  evs = [] ∨ ∃ ev, evs = [ev] ∧ own ev = true.
Proof.
  intros (pend & _ & Hc) Hs.
  destruct Hc as [([->| ->] & _)|[(f & -> & _)|[(-> & _)|(r & [->| ->] & _)]]].
  - destruct Hs as (p' & (x & -> & _) & _). right. eexists. split; [done|]. apply own_receive.
  - left. by destruct Hs.
  - destruct Hs as (p' & (x & -> & _) & _). right. eexists. split; [done|]. apply own_send.
  - unfold on_eof in Hs. destruct close as [c|] eqn:Eclose; [|left; by destruct Hs].
    destruct Hs as (p' & (x & -> & _) & _). right. eexists. split; [done|]. by apply own_close.
  - left. by destruct Hs.
  - destruct Hs.
Qed.

(** Calls of others leave a pump where it is. *)
Lemma pump_inv_other t tr ev : got ev = None → sent ev = None → closes ev = false →
  pump_inv t tr → pump_inv t (tr ++ [ev]).
Proof.
  intros Hg Hs Hc (pend & Hp & Hcs). exists pend. rewrite !omap_app. cbn [omap list_omap]. rewrite Hg, Hs, !app_nil_r.
  split; [done|]. unfold saw_eof in *. setoid_rewrite existsb_app. cbn [existsb]. rewrite Hc. cbn [orb].
  setoid_rewrite orb_false_r. setoid_rewrite elem_of_app.
  destruct Hcs as [?|[?|[?|(r & ? & ? & Hn & Hcl)]]]; [tauto|tauto|tauto|]. right. right. right. exists r. tauto.
Qed.
End pump.

(** Both directions of the relay. *)
Definition up_close : option (grpcE (option stream_error)) := Some G_CloseSend.
Definition no_event (ev : event grpcE) : bool := false.
Definition up_call (ev : event grpcE) : bool :=
  match ev with Ev e _ => match e with G_ClientRecv | G_UpstreamSend _ | G_CloseSend => true | _ => false end end.
Definition down_call (ev : event grpcE) : bool :=
  match ev with Ev e _ => match e with G_UpstreamRecv | G_ClientSend _ => true | _ => false end end.
Definition is_header (ev : event grpcE) : bool := match ev with Ev (G_SetHeader _) _ => true | _ => false end.
#[local] Instance up_calls : PumpCalls G_ClientRecv G_UpstreamSend up_close client_frame sent_upstream is_close up_call.
Proof. by split; try done; intros c x [= <-]. Qed.
#[local] Instance down_calls : PumpCalls G_UpstreamRecv G_ClientSend None upstream_frame sent_client no_event down_call.
Proof. by split. Qed.
Notation up_inv := (pump_inv G_ClientRecv G_UpstreamSend up_close client_frame sent_upstream is_close).
Notation down_inv := (pump_inv G_UpstreamRecv G_ClientSend None upstream_frame sent_client no_event).

Lemma up_inv_step t tr evs t' : up_inv t tr → pump_step forwardClientToUpstream t evs t' →
  up_inv t' (tr ++ evs) ∧ (evs = [] ∨ ∃ ev, evs = [ev] ∧ up_call ev = true).
Proof.
  intros Hi Hs. split.
  - exact (pump_inv_step _ _ up_close _ _ _ up_call t tr evs t' Hi Hs).
  - exact (pump_step_own _ _ up_close _ _ _ up_call t tr evs t' Hi Hs).
Qed.
Lemma down_inv_step t tr evs t' : down_inv t tr → pump_step forwardUpstreamToClient t evs t' →
  down_inv t' (tr ++ evs) ∧ (evs = [] ∨ ∃ ev, evs = [ev] ∧ down_call ev = true).
Proof.
  intros Hi Hs. split.
  - exact (pump_inv_step _ _ None _ _ _ down_call t tr evs t' Hi Hs).
  - exact (pump_step_own _ _ None _ _ _ down_call t tr evs t' Hi Hs).
Qed.
Lemma up_inv_other t tr ev : up_call ev = false → up_inv t tr → up_inv t (tr ++ [ev]).
Proof. intros He. destruct ev as [X e x]. eapply pump_inv_other; by destruct e. Qed.
Lemma down_inv_other t tr ev : down_call ev = false → down_inv t tr → down_inv t (tr ++ [ev]).
Proof. intros He. destruct ev as [X e x]. eapply pump_inv_other; by destruct e. Qed.

(** The response header is set before anything is sent to the client. *)
Definition header_first (tr : list (event grpcE)) : Prop :=
  ∀ tr1 ev tr2, tr = tr1 ++ ev :: tr2 → is_header ev = true → existsb down_call tr1 = false.
Lemma header_first_more tr ev : header_first tr → (is_header ev = true → existsb down_call tr = false) →
  header_first (tr ++ [ev]).
Proof.
  intros Hf He tr1 ev' tr2 Heq Hh. destruct tr2 as [|y tr2 _] using rev_ind.
  - apply app_inj_tail in Heq as [-> ->]. auto.
  - rewrite app_comm_cons, app_assoc in Heq. apply app_inj_tail in Heq as [-> ->]. by eapply Hf.
Qed.

(** The second pump before its first turn. *)
Definition header_state (t : pump_state) : Prop :=
  t = Turning forward_header ∨ ∃ md, t = Turning (call (G_SetHeader md) ;;; Ret None).
Definition u2c_inv (t : pump_state) (tr : list (event grpcE)) : Prop :=
  down_inv t tr ∨ (header_state t ∧ existsb down_call tr = false).

Definition trailer_set (tr : list (event grpcE)) : Prop :=
  ∃ md, Ev G_Trailer md ∈ tr ∧ Ev (G_SetTrailer md) tt ∈ tr.
Definition director_inv (s : relay) : Prop :=
  match director s with
  | Waiting => True
  | Trailing r p => u2c s = Reported r ∧
      (p = propagate_trailer ∨ (∃ md, p = call (G_SetTrailer md) ∧ Ev G_Trailer md ∈ relay_trace s) ∨
       (p = Ret tt ∧ trailer_set (relay_trace s)))
  | Returned r => ∃ r0, u2c s = Reported r0 ∧ trailer_set (relay_trace s) ∧
      (r0 = None ∧ r = None ∨ (∃ e, r0 = Some e ∧ r = Some e) ∨
       (r0 = None ∧ ∃ e, r = Some (StatusError e) ∧ c2u s = Reported r))
  end.
Definition relay_inv (s : relay) : Prop :=
  up_inv (c2u s) (relay_trace s) ∧ u2c_inv (u2c s) (relay_trace s) ∧ header_first (relay_trace s) ∧ director_inv s.

Lemma trailer_set_more tr evs : trailer_set tr → trailer_set (tr ++ evs).
Proof. intros (md & ? & ?). exists md. rewrite !elem_of_app. auto. Qed.

(** A pump's step keeps what the director knows. *)
Lemma director_inv_more s t t' evs :
  director_inv s → (∀ r, c2u s = Reported r → t = Reported r) → (∀ r, u2c s = Reported r → t' = Reported r) →
  director_inv {| c2u := t; u2c := t'; director := director s; relay_trace := relay_trace s ++ evs |}.
Proof.
  unfold director_inv. cbn [c2u u2c director relay_trace]. intros Hd Ht Ht'. destruct (director s) as [|r p|r]; [done| |].
  - destruct Hd as [Hr Hp]. split; [by apply Ht'|]. setoid_rewrite elem_of_app.
    destruct Hp as [?|[(md & ? & ?)|[? ?]]]; [by left|right; left; eauto|right; right]. by split; [|apply trailer_set_more].
  - destruct Hd as (r0 & Hr & Htr & Hc). exists r0. split; [by apply Ht'|]. split; [by apply trailer_set_more|].
    destruct Hc as [?|[?|(? & e & ? & ?)]]; [by left|by right; left|right; right]. eauto.
Qed.

Lemma reported_stays body t evs t' r : pump_step body t evs t' → t ≠ Reported r.
Proof. by intros Hs ->. Qed.

Lemma no_down_frames tr : existsb down_call tr = false → omap upstream_frame tr = [] ∧ omap sent_client tr = [].
Proof.
  induction tr as [|[X e x] l IH]; [done|]. cbn [existsb]. intros [He Hl]%orb_false_iff.
  destruct (IH Hl) as [Hu Hc]. cbn. by destruct e; try done; rewrite ?Hu, ?Hc.
Qed.

Lemma u2c_inv_step t tr evs t' : u2c_inv t tr → pump_step forwardUpstreamToClient t evs t' →
  u2c_inv t' (tr ++ evs) ∧
  (evs = [] ∨ ∃ ev, evs = [ev] ∧ up_call ev = false ∧ (is_header ev = true → existsb down_call tr = false)).
Proof.
  intros [Hi|[Hh Hno]] Hs.
  - destruct (down_inv_step _ _ _ _ Hi Hs) as [Hi' Hown]. split; [by left|].
    destruct Hown as [?|([X e x] & -> & Hown)]; [by left|right]. eexists. split; [done|]. by destruct e.
  - assert (Hstart : existsb down_call (tr ++ evs) = false → t' = Turning (Ret None) → u2c_inv t' (tr ++ evs)).
    { intros Hn ->. left. exists [].
      destruct (no_down_frames _ Hn) as [-> ->]. split; [done|]. left. split; [by right|]. split; [done|].
      clear. by induction (tr ++ evs). }
    destruct Hh as [->|[md ->]].
    + destruct Hs as (p' & (h & -> & ->) & ->).
      assert (Hn : existsb down_call (tr ++ [Ev G_UpstreamHeader h]) = false) by by rewrite existsb_app, Hno.
      split; [|right; by eexists]. destruct h as [md|e]; [|by apply Hstart].
      cbn [pbind] in *. destruct (bool_decide (md = ∅)); [by apply Hstart|]. right. split; [|done]. right. by exists md.
    + destruct Hs as (p' & (u & -> & ->) & ->). split; [|right; by eexists]. apply Hstart; [|done].
      by rewrite existsb_app, Hno.
Qed.

Lemma relay_inv_step s s' : relay_inv s → relay_step s s' → relay_inv s'.
Proof.
  intros (Hu & Hd & Hh & Hdir) Hs. unfold relay_inv. destruct Hs as [s t evs Hs|s t evs Hs|s r Hr Hw|s r p evs p' Hp Hn|s r Hp];
    cbn [c2u u2c relay_trace].
  - destruct (up_inv_step _ _ _ _ Hu Hs) as [Hu' Hown]. split; [done|].
    assert (Hk : u2c_inv (u2c s) (relay_trace s ++ evs) ∧ header_first (relay_trace s ++ evs)).
    { destruct Hown as [->|(ev & -> & Hown)]; [by rewrite app_nil_r|].
      assert (down_call ev = false ∧ is_header ev = false) as [Hdc Hhd] by (destruct ev as [X e x]; by destruct e).
      split; [|by apply header_first_more; [|rewrite Hhd]].
      destruct Hd as [Hd|[? ?]]; [left; by apply down_inv_other|right]. split; [done|].
      rewrite existsb_app. cbn. rewrite Hdc. by apply orb_false_iff. }
    destruct Hk as [? ?]. do 2 (split; [done|]). apply director_inv_more; [done| |done].
    intros r Hr. by apply reported_stays with (r := r) in Hs.
  - destruct (u2c_inv_step _ _ _ _ Hd Hs) as [Hd' Hev]. split; [|split; [done|split]].
    + destruct Hev as [->|(ev & -> & Hup & _)]; [by rewrite app_nil_r|]. by apply up_inv_other.
    + destruct Hev as [->|(ev & -> & _ & Hhd)]; [by rewrite app_nil_r|]. by apply header_first_more.
    + apply director_inv_more; [done|done|]. intros r Hr. by apply reported_stays with (r := r) in Hs.
  - do 3 (split; [done|]). split; [done|]. by left.
  - unfold director_inv in Hdir. rewrite Hp in Hdir. destruct Hdir as [Hr Hcase].
    assert (∃ ev, evs = [ev] ∧ up_call ev = false ∧ down_call ev = false ∧ is_header ev = false ∧
      ((∃ md, p' = call (G_SetTrailer md) ∧ Ev G_Trailer md ∈ relay_trace s ++ evs) ∨
       (p' = Ret tt ∧ trailer_set (relay_trace s ++ evs)))) as (ev & -> & H1 & H2 & H3 & Hp').
    { destruct Hcase as [->|[(md & -> & Hmd)|[-> _]]]; [| |done].
      - destruct Hn as (md & -> & ->). eexists. do 4 (split; [done|]). left. exists md. split; [done|].
        apply elem_of_app. right. apply list_elem_of_here.
      - destruct Hn as ([] & -> & ->). eexists. do 4 (split; [done|]). right. split; [done|]. exists md.
        rewrite !elem_of_app. split; [by left|]. right. apply list_elem_of_here. }
    split; [by apply up_inv_other|]. split; [|split; [by apply header_first_more; [|rewrite H3]|]].
    + destruct Hd as [Hd|[? ?]]; [left; by apply down_inv_other|right]. split; [done|].
      rewrite existsb_app. cbn. rewrite H2. by apply orb_false_iff.
    + split; [done|]. by right.
  - do 3 (split; [done|]). unfold director_inv in *. rewrite Hp in Hdir. cbn. destruct Hdir as [Hr Hcase].
    destruct Hcase as [?|[(md & ? & _)|[_ Htr]]]; [done|done|]. exists r. split; [done|]. split; [done|].
    unfold director_result. destruct r as [e|]; [right; left; eauto|].
    destruct (c2u s) as [p|[[|e]|]] eqn:Ec; [by left|by left|right; right; eauto|by left].
Qed.

Lemma relay_inv_reach s : relay_reach s → relay_inv s.
Proof.
  intros Hr. assert (Hs : relay_inv relay_start).
  { split; [exists []; split; [done|left; auto]|]. split; [right; split; [by left|done]|]. split; [|done].
    intros tr1 ev tr2 Heq. by destruct tr1. }
  revert Hs. induction Hr as [|a b c Hab _ IH]; [done|]. intros Ha. apply IH. by eapply relay_inv_step.
Qed.

Lemma pump_inv_frames receive send close got sent closes t tr :
  pump_inv receive send close got sent closes t tr →
  ∃ pend, omap got tr = omap sent tr ++ pend ∧ (length pend ≤ 1)%nat.
Proof.
  intros (pend & Hp & [(_ & -> & _)|[(f & _ & -> & _)|[(_ & -> & _)|(r & _ & Hl & _)]]]);
    by (eexists; split; [exact Hp|]; simpl; lia).
Qed.
Lemma u2c_inv_frames t tr : u2c_inv t tr →
  ∃ pend, omap upstream_frame tr = omap sent_client tr ++ pend ∧ (length pend ≤ 1)%nat.
Proof.
  intros [Hd|[_ Hn]]; [by eapply pump_inv_frames|]. destruct (no_down_frames _ Hn) as [-> ->]. exists [].
  split; [done|simpl; lia].
Qed.

(** C6: the relay keeps the frames. However the two pumps and the director
    interleave, and whatever the streams answer, at every moment the frames
    sent upstream are those received from the client, in order and without
    loss or repetition, but for the one in hand; the same the other way; the
    upstream is told of the end only after the client ended and all its frames
    were sent; and the response header is never set after a response frame. *)
Theorem relay_in_order s : relay_reach s →
  let tr := relay_trace s in
  (∃ pend, omap client_frame tr = omap sent_upstream tr ++ pend ∧ (length pend ≤ 1)%nat) ∧
  (∃ pend, omap upstream_frame tr = omap sent_client tr ++ pend ∧ (length pend ≤ 1)%nat) ∧
  (existsb is_close tr = true →
     omap client_frame tr = omap sent_upstream tr ∧ Ev G_ClientRecv (RecvFailed io_EOF) ∈ tr) ∧
  header_first tr.
Proof.
  intros (Hu & Hd & Hh & _)%relay_inv_reach tr. split; [by eapply pump_inv_frames|].
  split; [exact (u2c_inv_frames _ _ Hd)|]. split; [|done]. intros Hc.
  destruct Hu as (pend & Hp & [(_ & _ & Hn)|[(f & _ & _ & Hn)|[(_ & _ & _ & Hn)|(r & _ & _ & _ & Hcl)]]]);
    [unfold tr in Hc; congruence..|]. destruct (Hcl Hc) as [-> He]. by rewrite app_nil_r in Hp.
Qed.

(** A call that ends well delivered the whole response. When the director
    has returned, the client's trailer is the upstream's. If it returned
    success, the upstream had ended its stream cleanly and every frame it sent
    was passed on to the client. A failure is the upstream's own status
    verbatim (or the failure to pass a frame on to the client); a failure of
    the client's side is reported only when the upstream had ended cleanly and
    its whole response was passed on. *)
Theorem relay_result s r : relay_reach s → director s = Returned r →
  let tr := relay_trace s in
  let complete := omap upstream_frame tr = omap sent_client tr ∧ Ev G_UpstreamRecv (RecvFailed io_EOF) ∈ tr in
  (∃ md, Ev G_Trailer md ∈ tr ∧ Ev (G_SetTrailer md) tt ∈ tr) ∧
  (r = None → complete) ∧
  (∀ e, r = Some e → u2c s = Reported (Some e) ∨ (complete ∧ u2c s = Reported None ∧ c2u s = Reported (Some e))).
Proof.
  intros (Hu & Hd & Hh & Hdir)%relay_inv_reach Hr tr complete. unfold director_inv in Hdir. rewrite Hr in Hdir.
  destruct Hdir as (r0 & Hr0 & Htr & Hc). split; [done|].
  assert (Hcomplete : r0 = None → complete).
  { intros ->. rewrite Hr0 in Hd. destruct Hd as [Hd|[[?|[? ?]] _]]; [|done..].
    destruct Hd as (pend & Hp & [([?|?] & _)|[(f & ? & _)|[(? & _)|(r' & [?|Hrep] & _ & Hn & _)]]]); try done.
    injection Hrep as <-. destruct (Hn eq_refl) as [-> He]. by rewrite app_nil_r in Hp. }
  destruct Hc as [[-> ->]|[(e & -> & ->)|(-> & e & -> & Hc)]].
  - split; [auto|done].
  - split; [done|]. intros e' [= <-]. by left.
  - split; [done|]. intros e' [= <-]. right. auto.
Qed.

(** ** Whose call it is *)
Section unidentified.
Context `{MapRange} `{Metadata} `{StructPB} {E E' : Type → Type} `{!ProxyMetricsE E'}.
Context `{!ClockE E} `{!RandE E} `{!LogE E} `{!WebhookE E} `{!AuthMetricsE E}.
Context `{!JWKSSource E} `{!JwtLib E} `{!OnceStore E} `{!NetE E}.
Context (multipart_values : http_request → list (string * string)).
Context (json_error : string → string).
Notation resolve_over := (resolve_over multipart_values json_error).

(** No metadata is a session cookie to the resolver. *)
Lemma grpc_no_principal (s : AuthServer E) a md fullMethod tr x
    (Hurl : reaches (Client a) (apr_ConnectorID a))
    (Hx : exec (resolve_over s a (buildRequest md fullMethod)) tr x) :
  (∃ e, x = Err e) ∨ x = Ok None.
Proof.
  apply (resolve_over_exec _ _ s a _ "") in Hx; [| |by left|done].
  2: { unfold buildRequest. by destruct (ExtractMethod fullMethod). }
  assert (Hs : seen s a "" = "") by (unfold seen; by destruct (String.eqb _ _)).
  rewrite Hs in Hx. destruct Hx as [(e & -> & ->)|(t & r & [-> <-] & [(e & -> & ->)|[-> ->]])]; eauto.
Qed.

(** A gRPC caller is never authenticated. The request built of a call has
    no cookies, whatever metadata the client sends (a cookie entry included),
    so the resolver never finds a session: through an engine that requires
    authentication, and whose resolver is the proxy's against the auth server,
    no call is ever authorized. Each ends with a status, and nothing is asked
    of the upstream. *)
Theorem grpc_never_authenticated (s : AuthServer E) a (e : DefaultEngine E') fwd md fullMethod tr fwd' r
    (Hurl : reaches (Client a) (apr_ConnectorID a))
    (Hauth : e_RequireAuth e = true)
    (Hres : ∀ req x, Ev (FE (e_Resolve e req)) x ∈ tr → ∃ t, exec (resolve_over s a req) t x)
    (Hx : exec (serve_call (default_engine e) fwd md fullMethod) tr (fwd', r)) :
  (∃ st, r = inr st ∧ (st_code st = codes_Unauthenticated ∨ st_code st = codes_PermissionDenied)) ∧
  ∃ th, tr = lift_event (λ _, FE) <$> th.
Proof.
  apply serve_call_exec in Hx as (resp & th & tg & Hh & -> & Hdeny & _).
  destruct (Allow resp) eqn:Ea.
  - exfalso. destruct (proj1 (handle_allows e _ th resp) (conj Hh Ea)) as (p & d & dtr & Hp & _ & _ & _ & ->).
    destruct (Hres (buildRequest md fullMethod) (Ok p)) as [t Ht]; [apply list_elem_of_here|].
    destruct (grpc_no_principal s a md fullMethod t (Ok p) Hurl Ht) as [[? ?]|[= ->]]; [done|].
    destruct Hp as [Hp|Hp]; [done|congruence].
  - destruct (Hdeny eq_refl) as (-> & _ & st & -> & Hc). split; [exists st; split; [done|]|exists th; by rewrite app_nil_r].
    destruct (StatusCode resp =? 401); auto.
Qed.
End unidentified.

(** ** Witnesses *)
#[local] Existing Instance sorted_range.
#[local] Existing Instance ascii_unicode.
#[local] Existing Instance env_net.
#[local] Existing Instance web_metrics.
#[local] Instance plain_metadata : Metadata :=
  {| md_Set md k vals := match vals with [] => md | _ => <[ToLower k := vals]> md end; md_Set_spec _ _ _ := eq_refl |}.

Definition front_engine (auth : bool) : DefaultEngine webE :=
  {| e_Resolve := W_Resolve; e_Evaluate := W_Evaluate; e_Plugins := []; e_RequireAuth := auth;
     e_HeaderBuilder := None; e_UnauthenticatedMode := ""; e_LoginRedirectURL := ""; e_Metrics := false |}.
(** The auth server knows no session; the policy allows; the streams of the
    call opened are listed. *)
Definition front_handler : handler (frontE webE) (list MD) := λ X e,
  match e in frontE _ X return list MD → X * list MD with
  | FE e => (match e in webE X return list MD → X * list MD with
             | W_Resolve _ => λ s, (Ok None, s)
             | W_Evaluate _ => λ s, (Ok (Some web_decision), s)
             | W_AuthDecision _ _ => λ s, (tt, s)
             | W_Forward _ => λ s, (tt, s)
             | W_Write _ _ _ => λ s, (tt, s)
             end)
  | FG g => (match g in grpcE X return list MD → X * list MD with
             | G_Method => λ s, (Some "/shop.Orders/List", s)
             | G_NewClient _ _ => λ s, (Ok 0%nat, s)
             | G_CloseConn _ => λ s, (None, s)
             | G_NewStream _ md _ => λ s, (None, md :: s)
             | G_ClientRecv | G_UpstreamRecv => λ s, (RecvFailed io_EOF, s)
             | G_UpstreamSend _ | G_ClientSend _ | G_CloseSend => λ s, (None, s)
             | G_UpstreamHeader => λ s, (Err "", s)
             | G_Trailer => λ s, (∅, s)
             | G_SetHeader _ | G_SetTrailer _ => λ s, (tt, s)
             end)
  end.
Definition spoofed : MD := {[ "x-is-admin" := ["true"]; "x-user-id" := ["root"] ]}.
Definition front_call (auth : bool) : prog (frontE webE) (option upstreamForwarder * (unit + status)) :=
  serve_call (default_engine (front_engine auth)) (Some (newUpstreamForwarder "up:9090" false)) (Some spoofed)
    "/shop.Orders/List".

(** The policy allows the call of nobody: the upstream is told it is root's. *)
Lemma grpc_forward_exact_witness :
  snd (run front_handler (front_call false) []) = [spoofed] ∧
  ∃ tr r resp th, exec (front_call false) tr r ∧ r.2 = inl tt ∧
    exec (Handle (front_engine false) (buildRequest (Some spoofed) "/shop.Orders/List")) th resp ∧ Allow resp = true.
Proof.
  split; [vm_compute; reflexivity|].
  pose proof (run_exec front_handler (front_call false) []) as Hx.
  assert (Hr : (fst (run front_handler (front_call false) [])).2 = inl tt) by (vm_compute; reflexivity).
  destruct (fst (run front_handler (front_call false) [])) as [fwd' r].
  destruct (grpc_forward_exact (front_engine false) (Some (newUpstreamForwarder "up:9090" false)) (Some spoofed)
              "/shop.Orders/List" _ fwd' r Hx) as (resp & th & tg & Hh & _ & _ & Ho & _).
  exists (run_trace front_handler (front_call false) []), (fwd', r), resp, th.
  split; [exact Hx|]. split; [exact Hr|]. split; [exact Hh|]. exact (proj1 (Ho Hr)).
Defined.

(** The engine asks for authentication: the same call ends unauthenticated,
    although its metadata carries the cookie of a live session. *)
Definition cookie_md : MD := {[ "cookie" := ["sid=" +:+ live_cookie] ]}.
Definition guarded_call : prog (frontE webE) (option upstreamForwarder * (unit + status)) :=
  serve_call (default_engine (front_engine true)) (Some (newUpstreamForwarder "up:9090" false)) (Some cookie_md)
    "/shop.Orders/List".
Definition unresolved_request : Request := buildRequest (Some cookie_md) "/shop.Orders/List".
Definition resolving : prog authE (res (option Principal)) :=
  resolve_over chain_multipart chain_error chain_server (chain_resolver "sid") unresolved_request.

(** The request a resolution is for, and its answer. *)
Definition resolution (ev : event (frontE webE)) : option (Request * res (option Principal)) :=
  match ev with
  | Ev e x => (match e in frontE _ X return X → option (Request * res (option Principal)) with
               | FE e => match e in webE X return X → option (Request * res (option Principal)) with
                         | W_Resolve r => λ x, Some (r, x) | _ => λ _, None end
               | FG _ => λ _, None end) x
  end.

Lemma resolving_none : fst (run env_handler resolving live_world) = Ok None.
Proof. vm_compute. reflexivity. Qed.

Lemma grpc_never_authenticated_witness :
  ∃ tr fwd' st, exec guarded_call tr (fwd', inr st) ∧ st_code st = codes_Unauthenticated ∧
    ∃ th, tr = lift_event (λ _, FE) <$> th.
Proof.
  set (tr := [Ev (FE (W_Resolve unresolved_request)) (Ok None)] : list (event (frontE webE))).
  assert (Hx : exec guarded_call tr (Some (newUpstreamForwarder "up:9090" false), inr (status_Error codes_Unauthenticated "unauthenticated"))).
  { exists (Ok None), []. split; [reflexivity|]. split; reflexivity. }
  assert (Hres : ∀ req x, Ev (FE (e_Resolve (front_engine true) req)) x ∈ tr →
                 ∃ t, exec (resolve_over chain_multipart chain_error chain_server (chain_resolver "sid") req) t x).
  { intros req x Hin. apply list_elem_of_singleton in Hin.
    apply (f_equal resolution) in Hin. injection Hin as -> ->.
    pose proof (run_exec env_handler resolving live_world) as Hr. rewrite resolving_none in Hr.
    eexists. exact Hr. }
  destruct (grpc_never_authenticated chain_multipart chain_error chain_server (chain_resolver "sid") (front_engine true)
              (Some (newUpstreamForwarder "up:9090" false)) (Some cookie_md) "/shop.Orders/List" tr _ _
              (chain_reaches "sid") eq_refl Hres Hx) as [_ Hth].
  exists tr. eexists. eexists. split; [exact Hx|]. split; [reflexivity|exact Hth].
Defined.

(** A unary call, relayed: one frame each way, the client's end before the upstream's. *)
Ltac relay_do step answer :=
  eapply rtc_l; [eapply step; eexists; (split; [exists answer; split; reflexivity|reflexivity])|cbn].
Ltac relay_go step := eapply rtc_l; [eapply step; split; reflexivity|cbn].

Lemma unary_relay : ∃ s, relay_reach s ∧ director s = Returned None ∧
  omap client_frame (relay_trace s) = ["ping"] ∧ omap upstream_frame (relay_trace s) = ["pong"] ∧
  existsb is_close (relay_trace s) = true.
Proof.
  eexists. split.
  - unfold relay_reach, relay_start.
    relay_do step_c2u (Frame "ping"). relay_do step_u2c (Ok {[ "x-served-by" := ["up1"] ]} : res MD).
    relay_do step_c2u (None : option stream_error). relay_do step_u2c tt. relay_go step_c2u. relay_go step_u2c.
    relay_do step_c2u (RecvFailed io_EOF). relay_do step_u2c (Frame "pong").
    relay_do step_c2u (None : option stream_error). relay_do step_u2c (None : option stream_error).
    relay_go step_u2c. relay_do step_u2c (RecvFailed io_EOF). relay_go step_u2c. relay_go step_c2u.
    eapply rtc_l; [eapply step_reported; reflexivity|cbn].
    eapply rtc_l; [eapply step_trailer; [reflexivity|exists (∅ : MD); split; reflexivity]|cbn].
    eapply rtc_l; [eapply step_trailer; [reflexivity|exists tt; split; reflexivity]|cbn].
    eapply rtc_l; [eapply step_return; reflexivity|cbn]. apply rtc_refl.
  - split; [reflexivity|]. split; [reflexivity|]. split; reflexivity.
Qed.

Lemma relay_in_order_witness : ∃ s, relay_reach s ∧ omap sent_upstream (relay_trace s) = ["ping"].
Proof.
  destruct unary_relay as (s & Hs & _ & Hc & _ & Hclose). exists s. split; [exact Hs|].
  destruct (relay_in_order s Hs) as (_ & _ & Hcl & _). destruct (Hcl Hclose) as [Heq _]. rewrite <-Heq. exact Hc.
Defined.

Lemma relay_result_witness : ∃ s, relay_reach s ∧ director s = Returned None ∧
  omap sent_client (relay_trace s) = ["pong"].
Proof.
  destruct unary_relay as (s & Hs & Hr & _ & Hu & _). exists s. split; [exact Hs|]. split; [exact Hr|].
  destruct (relay_result s None Hs Hr) as (_ & Hok & _). destruct (Hok eq_refl) as [Heq _]. rewrite <-Heq. exact Hu.
Defined.
