(* ===== verification/Manifest.v ===== *)
(** * Plugin manifests and hosts (internal/plugin, internal/plugins/register)

    Discovery of manifests in a directory, their structural checks, their
    inline signatures, the built-in plugins, and the services a plugin is
    scoped to.  The file system and the Ed25519 primitives are external. *)

From S2P Require Import Prelude.
From S2P Require Import GoStrings.
From S2P Require Import Effects.
From S2P Require Import GoAny.
From S2P Require Import Base64.
From S2P Require Import Json.
From S2P Require Import Session.
From S2P Require Import Policy.
From S2P Require Import Registry.
From S2P Require Import Ratelimit.
From S2P Require Import Oidc.

(** ** Data *)
Record ManifestSignature := { Algorithm : string; sig_Value : string }.
(** nil slices, maps and pointers are [None]: the signed bytes tell them apart. *)
Record Manifest := {
  mf_ID : string; mf_Kind : string; mf_Name : string; mf_Description : string; mf_Version : string;
  mf_Capabilities : option (list string); mf_DependsOn : option (list string); mf_ConfigSchemaRef : string;
  mf_Enabled : option bool; mf_Metadata : option (gmap string any); mf_Signature : option ManifestSignature }.

(** An entry of a directory walk. *)
Variant walk_entry := WalkFailed (not_exist : bool) (e : string) | WalkDirectory | WalkFile (path name : string).
Class WalkE (E : Type → Type) := WalkDir : string → E (list walk_entry).

(** The error of a discovery; [true] when [os.IsNotExist] holds of it. *)
Definition discovery_error : Type := bool * string.

(** ** JSON *)
Section json.
Context `{Unicode}.

Definition dec_opt {A} (conv : json → option A) (vs : list json) : option A * bool :=
  foldl (λ st v, match v with
                 | JNull => (None, st.2)
                 | _ => match conv v with Some a => (Some a, st.2) | None => (st.1, false) end
                 end) (None, true) vs.

Definition signature_fields : list string := ["algorithm"; "value"].
Definition dec_signature (vs : list json) : option ManifestSignature * bool :=
  foldl (λ st v, match v with
                 | JNull => (None, st.2)
                 | JObj m =>
                     let old := default {| Algorithm := ""; sig_Value := "" |} st.1 in
                     let '(a, o1) := dec_field conv_string (Algorithm old) (bound signature_fields "algorithm" m) in
                     let '(s, o2) := dec_field conv_string (sig_Value old) (bound signature_fields "value" m) in
                     (Some {| Algorithm := a; sig_Value := s |}, st.2 && o1 && o2)
                 | _ => (st.1, false)
                 end) (None, true) vs.

Definition manifest_fields : list string :=
  ["id"; "kind"; "name"; "description"; "version"; "capabilities"; "depends_on"; "config_schema_ref"; "enabled";
   "metadata"; "signature"].
Definition zero_manifest : Manifest :=
  {| mf_ID := ""; mf_Kind := ""; mf_Name := ""; mf_Description := ""; mf_Version := ""; mf_Capabilities := None;
     mf_DependsOn := None; mf_ConfigSchemaRef := ""; mf_Enabled := None; mf_Metadata := None; mf_Signature := None |}.
Definition decode_manifest (data : string) : option Manifest :=
  match parse data with
  | Some (JObj m) =>
      let f k := bound manifest_fields k m in
      let '(i, o1) := dec_string (f "id") in let '(k, o2) := dec_string (f "kind") in
      let '(n, o3) := dec_string (f "name") in let '(d, o4) := dec_string (f "description") in
      let '(v, o5) := dec_string (f "version") in let '(c, o6) := dec_opt conv_strings (f "capabilities") in
      let '(dp, o7) := dec_opt conv_strings (f "depends_on") in let '(r, o8) := dec_string (f "config_schema_ref") in
      let '(e, o9) := dec_opt conv_bool (f "enabled") in let '(md, o10) := dec_claims (f "metadata") in
      let '(s, o11) := dec_signature (f "signature") in
      if o1 && o2 && o3 && o4 && o5 && o6 && o7 && o8 && o9 && o10 && o11
      then Some {| mf_ID := i; mf_Kind := k; mf_Name := n; mf_Description := d; mf_Version := v; mf_Capabilities := c;
                   mf_DependsOn := dp; mf_ConfigSchemaRef := r; mf_Enabled := e; mf_Metadata := md;
                   mf_Signature := s |}
      else None
  | Some JNull => Some zero_manifest
  | _ => None
  end.
End json.

Definition opt_strings_json (l : option (list string)) : json :=
  match l with None => JNull | Some l => JArr (JStr <$> l) end.
(** The manifest without its signature, in JSON. *)
Definition manifest_json (m : Manifest) : option json :=
  md ← claims_json (mf_Metadata m);
  Some (JObj [("id", JStr (mf_ID m)); ("kind", JStr (mf_Kind m)); ("name", JStr (mf_Name m));
              ("description", JStr (mf_Description m)); ("version", JStr (mf_Version m));
              ("capabilities", opt_strings_json (mf_Capabilities m));
              ("depends_on", opt_strings_json (mf_DependsOn m));
              ("config_schema_ref", JStr (mf_ConfigSchemaRef m));
              ("enabled", from_option JBool JNull (mf_Enabled m)); ("metadata", md)]).

(** ** Signatures (internal/plugin/signature.go) *)
Section signature.
Context `{Unicode} `{Ed25519} `{JsonErrors} (base64_error : string → string).

Definition ManifestSignatureAlgorithm : string := "ed25519".
Definition ErrManifestSignatureMissing : string := "plugin: manifest signature is missing".
Record Ed25519Verifier := { ev_publicKey : string }.

Definition plugin_parseEd25519PublicKey (pemBytes : string) : res string :=
  let trimmed := TrimSpace pemBytes in
  if String.eqb trimmed "" then Err "plugin: empty public key"
  else
    match pem_Decode trimmed with
    | Some block =>
        match ParsePKIXPublicKey block with
        | Err e => Err ("plugin: parse PKIX public key: " +:+ e)
        | Ok (inr t) => Err ("plugin: public key is not Ed25519 (got " +:+ t +:+ ")")
        | Ok (inl pub) => Ok pub
        end
    | None =>
        match std_decode trimmed with
        | Some raw => if (String.length raw =? 32)%nat then Ok raw
                      else Err "plugin: public key is not a valid PEM-encoded Ed25519 key"
        | None => Err "plugin: public key is not a valid PEM-encoded Ed25519 key"
        end
    end.
Definition NewEd25519Verifier (publicKeyPEM : string) : res Ed25519Verifier :=
  match plugin_parseEd25519PublicKey publicKeyPEM with
  | Err e => Err e | Ok pub => Ok {| ev_publicKey := pub |} end.
Definition NewEd25519VerifierFromFile {E : Type → Type} `{!FileE E} (path : string) : prog E (res Ed25519Verifier) :=
  a <- call (ReadFile path) ;;
  Ret match a with
      | Data data => NewEd25519Verifier data
      | a => Err ("plugin: read manifest public key " +:+ Quote path +:+ ": " +:+ read_error a)
      end.

Definition decodeManifestSignature (value : string) : res string :=
  if (String.length value =? 64)%nat then Ok value
  else
    match std_decode (TrimSpace value) with
    | None => Err ("signature is neither raw 64 bytes nor valid base64: " +:+ base64_error (TrimSpace value))
    | Some decoded =>
        if (String.length decoded =? 64)%nat then Ok decoded
        else Err ("signature has wrong length: got " +:+ Itoa (len decoded) +:+ ", want 64")
    end.

Definition signingPayload (m : Manifest) : res string :=
  match manifest_json m with
  | Some j => Ok (print j)
  | None => Err ("marshal signing payload: " +:+ marshal_error (from_option (λ c, AMap (map_to_list c)) ANil (mf_Metadata m)))
  end.

(** [None] is a nil error. *)
Definition Verify (v : Ed25519Verifier) (manifestPath : string) (m : Manifest) : option string :=
  let here := "plugin: manifest " +:+ manifestPath +:+ " (id=" +:+ Quote (mf_ID m) +:+ ")" in
  let missing := ErrManifestSignatureMissing +:+ ": manifest " +:+ manifestPath +:+ " (id=" +:+ Quote (mf_ID m) +:+ ")" in
  match mf_Signature m with
  | None => Some missing
  | Some s =>
      if String.eqb (TrimSpace (sig_Value s)) "" then Some missing
      else if negb (String.eqb (ToLower (TrimSpace (Algorithm s))) ManifestSignatureAlgorithm) then
        Some (here +:+ " unsupported signature algorithm " +:+ Quote (Algorithm s) +:+ " (want "
              +:+ Quote ManifestSignatureAlgorithm +:+ ")")
      else
        match signingPayload m with
        | Err e => Some (here +:+ ": " +:+ e)
        | Ok payload =>
            match decodeManifestSignature (sig_Value s) with
            | Err e => Some (here +:+ ": " +:+ e)
            | Ok sig => if ed25519_Verify (ev_publicKey v) payload sig then None
                        else Some (here +:+ " signature verification failed")
            end
        end
  end.
End signature.

(** ** Discovery (internal/plugin/discovery.go) *)
Definition knownKind (kind : string) : bool :=
  String.eqb kind PluginKindPipeline || String.eqb kind PluginKindProvider || String.eqb kind PluginKindIntegration.

(** The index of the first blank entry. *)
Fixpoint first_blank `{Unicode} (i : Z) (l : list string) : option Z :=
  match l with
  | [] => None
  | s :: l => if String.eqb (TrimSpace s) "" then Some i else first_blank (i + 1) l
  end.

Section validate.
Context `{Unicode}.

Definition validateManifest (path : string) (m : Manifest) : option string :=
  let here := "plugin: manifest " +:+ path +:+ " (id=" +:+ Quote (mf_ID m) +:+ "): " in
  let caps := default [] (mf_Capabilities m) in
  if String.eqb (TrimSpace (mf_ID m)) "" then
    Some ("plugin: manifest " +:+ path +:+ ": missing required field " +:+ Quote "id")
  else if String.eqb (TrimSpace (mf_Kind m)) "" then Some (here +:+ "missing required field " +:+ Quote "kind")
  else if negb (knownKind (mf_Kind m)) then
    Some (here +:+ "unknown kind " +:+ Quote (mf_Kind m) +:+ " (want one of " +:+ Quote PluginKindPipeline +:+ ", "
          +:+ Quote PluginKindProvider +:+ ", " +:+ Quote PluginKindIntegration +:+ ")")
  else
    match caps, first_blank 0 caps, first_blank 0 (default [] (mf_DependsOn m)) with
    | [], _, _ => Some (here +:+ "missing required field " +:+ Quote "capabilities")
    | _, Some i, _ => Some (here +:+ "empty capability at index " +:+ Itoa i)
    | _, None, Some i => Some (here +:+ "empty depends_on entry at index " +:+ Itoa i)
    | _, None, None => None
    end.

Definition toDescriptor (m : Manifest) : res PluginDescriptor :=
  if negb (knownKind (mf_Kind m)) then Err ("unknown plugin kind " +:+ Quote (mf_Kind m))
  else Ok {| pd_ID := mf_ID m; Kind := mf_Kind m; pd_Name := mf_Name m; Description := mf_Description m;
             Version := mf_Version m; Capabilities := default [] (mf_Capabilities m);
             DependsOn := default [] (mf_DependsOn m); ConfigSchemaRef := mf_ConfigSchemaRef m;
             pd_VersionInfo := no_version |}.
End validate.

(** The factories there are: the built-in ones, and a manifest's, which always fails. *)
Inductive factory := RatelimitFactory | OidcFactory | ManifestFactory.
Inductive plugin := RatelimitPlugin (p : Ratelimit.Plugin) | OidcProvider (p : OidcPlugin).
Definition run_factory (f : factory) (d : PluginDescriptor) : res plugin :=
  match f with
  | RatelimitFactory => Ok (RatelimitPlugin New)
  | OidcFactory => Ok (OidcProvider NewOidcPlugin)
  | ManifestFactory => Err ("plugin: factory not provided for plugin " +:+ pd_ID d)
  end.

Definition RegisterBuiltins `{MapRange} (reg : Registry factory) : res (Registry factory) :=
  match Register reg ratelimit_Descriptor RatelimitFactory with
  | Err e => Err e
  | Ok reg => Register reg oidc_Descriptor OidcFactory
  end.

(** The registry is shared: what was registered before an error stays. *)
Section discovery.
Context `{Unicode} `{MapRange} `{Ed25519} `{JsonErrors} (base64_error : string → string).
Context {E : Type → Type} `{!FileE E} `{!WalkE E}.

(** What discovery makes of a manifest's bytes; [None] is no verifier. *)
Definition load_manifest (verifier : option Ed25519Verifier) (path data : string) : res Manifest :=
  match decode_manifest data with
  | None => Err ("unmarshal manifest " +:+ path +:+ ": " +:+ unmarshal_error data)
  | Some m =>
      match validateManifest path m with
      | Some e => Err e
      | None =>
          match verifier with
          | None => Ok m
          | Some v => match Verify base64_error v path m with
                      | Some e => Err ("verify manifest " +:+ path +:+ ": " +:+ e)
                      | None => Ok m
                      end
          end
      end
  end.
Definition register_manifest (reg : Registry factory) (path : string) (m : Manifest)
    : Registry factory * option string :=
  match toDescriptor m with
  | Err e => (reg, Some ("manifest " +:+ path +:+ ": " +:+ e))
  | Ok desc =>
      match Register reg desc ManifestFactory with
      | Err e => (reg, Some e)
      | Ok reg =>
          (if bool_decide (mf_Enabled m = Some false)
           then match Disable reg (pd_ID desc) with Ok reg => reg | Err _ => reg end else reg, None)
      end
  end.
Definition discoverSingle (reg : Registry factory) (path : string) (verifier : option Ed25519Verifier)
    : prog E (Registry factory * option string) :=
  a <- call (ReadFile path) ;;
  Ret match a with
      | Data data =>
          match load_manifest verifier path data with
          | Err e => (reg, Some e)
          | Ok m => register_manifest reg path m
          end
      | a => (reg, Some ("read manifest " +:+ path +:+ ": " +:+ read_error a))
      end.

(** [filepath.Ext] of a file name. *)
Definition Ext (name : string) : string :=
  match cut_last "." name with Some (_, e) => "." +:+ e | None => "" end.

Fixpoint walk (reg : Registry factory) (l : list walk_entry) (verifier : option Ed25519Verifier)
    : prog E (Registry factory * option discovery_error) :=
  match l with
  | [] => Ret (reg, None)
  | WalkFailed not_exist e :: _ => Ret (reg, Some (not_exist, e))
  | WalkDirectory :: l => walk reg l verifier
  | WalkFile path name :: l =>
      if negb (String.eqb (Ext name) ".json") then walk reg l verifier
      else
        x <- discoverSingle reg path verifier ;;
        match x with
        | (reg, Some e) => Ret (reg, Some (false, "plugin: " +:+ e))
        | (reg, None) => walk reg l verifier
        end
  end.
Definition DiscoverFromDir (reg : Registry factory) (root : string) (verifier : option Ed25519Verifier)
    : prog E (Registry factory * option string) :=
  l <- call (WalkDir root) ;;
  x <- walk reg l verifier ;;
  Ret (x.1, match x.2 with None | Some (true, _) => None | Some (false, e) => Some e end).
End discovery.
