(* ===== verification/ManifestFacts.v ===== *)
(** * What discovery lets into the registry

    With a verifier, only what a signed manifest says is registered, and
    nothing that was registered before is replaced. *)

From S2P Require Import Prelude.
From S2P Require Import GoStrings.
From S2P Require Import Effects.
From S2P Require Import GoAny.
From S2P Require Import Json.
From S2P Require Import Policy.
From S2P Require Import Registry.
From S2P Require Import Ratelimit.
From S2P Require Import Manifest.

Section facts.
Context `{Unicode} `{MapRange} `{Ed25519} `{JsonErrors} (base64_error : string → string).
Context {E : Type → Type} `{!FileE E} `{!WalkE E}.
Implicit Types (reg : Registry factory) (v : option Ed25519Verifier) (m : Manifest).

(** The signature of [m] is the key's over its canonical bytes. *)
Definition signed_by (key : string) m : Prop :=
  ∃ s sig payload, mf_Signature m = Some s ∧ ToLower (TrimSpace (Algorithm s)) = ManifestSignatureAlgorithm ∧
    decodeManifestSignature base64_error (sig_Value s) = Ok sig ∧ signingPayload m = Ok payload ∧
    ed25519_Verify key payload sig = true.

Lemma Verify_ok (w : Ed25519Verifier) path m : Verify base64_error w path m = None ↔
  signed_by (ev_publicKey w) m ∧ ∀ s, mf_Signature m = Some s → TrimSpace (sig_Value s) ≠ "".
Proof.
  unfold Verify, signed_by. destruct (mf_Signature m) as [s|] eqn:Es; [|by split; [done|intros [(? & ? & ? & ? & _) _]]].
  destruct (String.eqb_spec (TrimSpace (sig_Value s)) "") as [Ev|Ev].
  { split; [done|]. intros [_ Hs]. by destruct (Hs s). }
  destruct (String.eqb_spec (ToLower (TrimSpace (Algorithm s))) ManifestSignatureAlgorithm) as [Ea|Ea]; simpl; cycle 1.
  { split; [done|]. intros [(s' & ? & ? & [= <-] & ? & _) _]. done. }
  destruct (signingPayload m) as [payload|e] eqn:Ep; cycle 1.
  { split; [done|]. intros [(? & ? & ? & _ & _ & _ & ? & _) _]. done. }
  destruct (decodeManifestSignature base64_error (sig_Value s)) as [sig|e] eqn:Ed; cycle 1.
  { split; [done|]. intros [(s' & sig & ? & [= <-] & _ & Hd & _) _]. congruence. }
  destruct (ed25519_Verify (ev_publicKey w) payload sig) eqn:Ev'.
  - split; [|done]. intros _. split; [|by intros s' [= <-]]. exists s, sig, payload. auto.
  - split; [done|]. intros [(s' & sig' & p' & [= <-] & _ & Hd & [= <-] & Hv) _]. congruence.
Qed.

(** What a manifest registers. *)
Definition registered_as m (x : Registration factory) : Prop :=
  toDescriptor m = Ok (Descriptor x) ∧ Factory x = ManifestFactory ∧
  Enabled x = negb (bool_decide (mf_Enabled m = Some false)).

Lemma register_manifest_spec reg path m reg' err : register_manifest reg path m = (reg', err) →
  ∀ id x, byID reg' !! id = Some x →
    byID reg !! id = Some x ∨ (byID reg !! id = None ∧ id = mf_ID m ∧ registered_as m x).
Proof.
  unfold register_manifest. destruct (toDescriptor m) as [d|e] eqn:Ed; [|intros [= <- <-]; auto].
  unfold Register. destruct (byID reg !! pd_ID d) as [y|] eqn:Ey; [intros [= <- <-]; auto|].
  intros [= <- <-] id x. assert (Hid : pd_ID d = mf_ID m).
  { revert Ed. unfold toDescriptor. destruct (negb _); [done|]. by intros [= <-]. }
  destruct (bool_decide (mf_Enabled m = Some false)) eqn:Ee.
  - unfold Disable, switch. cbn [byID]. rewrite lookup_insert_eq. cbn [byID set_byID].
    destruct (decide (pd_ID d = id)) as [<-|Hne].
    + rewrite lookup_insert_eq. intros [= <-]. right. unfold registered_as. rewrite Ee. by rewrite Ed, Ey.
    + rewrite !lookup_insert_ne by done. auto.
  - cbn [byID]. destruct (decide (pd_ID d = id)) as [<-|Hne].
    + rewrite lookup_insert_eq. intros [= <-]. right. unfold registered_as. rewrite Ee. by rewrite Ed, Ey.
    + rewrite lookup_insert_ne by done. auto.
Qed.

(** Where a registration came from: it was there before, or a manifest file that
    was read, checked, and verified when there is a verifier. *)
Definition comes_from reg v (tr : list (event E)) id (x : Registration factory) : Prop :=
  byID reg !! id = Some x ∨
  (byID reg !! id = None ∧ ∃ path data m, Ev (ReadFile path) (Data data) ∈ tr ∧ decode_manifest data = Some m ∧
     validateManifest path m = None ∧ id = mf_ID m ∧ registered_as m x ∧
     ∀ w, v = Some w → signed_by (ev_publicKey w) m).

Lemma comes_from_more reg v tr1 tr tr2 id x : comes_from reg v tr id x → comes_from reg v (tr1 ++ tr ++ tr2) id x.
Proof.
  intros [?|(Hn & path & data & m & Hin & Hm)]; [by left|right]. split; [done|]. exists path, data, m.
  split; [rewrite !elem_of_app; auto|done].
Qed.

Lemma discoverSingle_exec reg path v tr reg' err :
  exec (discoverSingle base64_error reg path v) tr (reg', err) →
  ∀ id x, byID reg' !! id = Some x → comes_from reg v tr id x.
Proof.
  intros (a & t & -> & -> & Hx) id x. destruct a as [data| |]; try (injection Hx as <- <-; by left).
  unfold load_manifest in Hx. destruct (decode_manifest data) as [m|] eqn:Em; [|injection Hx as <- <-; by left].
  destruct (validateManifest path m) as [e|] eqn:Hval; [injection Hx as <- <-; by left|].
  assert (Hok : ∀ w, v = Some w → Verify base64_error w path m = None →
                signed_by (ev_publicKey w) m) by (by intros w _ [Hs _]%Verify_ok).
  assert (Hreg : register_manifest reg path m = (reg', err) → (∀ w, v = Some w → Verify base64_error w path m = None) →
                 byID reg' !! id = Some x → comes_from reg v [Ev (ReadFile path) (Data data)] id x).
  { intros Hr Hv Hl. destruct (register_manifest_spec _ _ _ _ _ Hr id x Hl) as [?|(Hn & Hi & Hx')]; [by left|right].
    split; [done|]. exists path, data, m. split; [apply list_elem_of_here|]. repeat (split; [done|]). auto. }
  destruct v as [w|]; [|by apply Hreg].
  destruct (Verify base64_error w path m) as [e|] eqn:Hw; [injection Hx as <- <-; by left|].
  apply Hreg; [done|]. by intros w' [= <-].
Qed.

Lemma comes_from_trans reg reg1 v tr1 tr2 id x :
  (∀ id x, byID reg1 !! id = Some x → comes_from reg v tr1 id x) →
  (∀ id x, byID reg !! id = Some x → byID reg1 !! id = Some x) →
  comes_from reg1 v tr2 id x → comes_from reg v (tr1 ++ tr2) id x.
Proof.
  intros Hfrom Hk [Hx|(Hn & path & data & m & Hin & Hm)].
  - apply Hfrom, (comes_from_more _ _ [] _ tr2) in Hx. exact Hx.
  - right. split; [destruct (byID reg !! id) as [y|] eqn:Ey; [apply Hk in Ey; congruence|done]|].
    exists path, data, m. split; [apply elem_of_app; by right|done].
Qed.

Lemma register_manifest_keeps reg path m reg' err id x : register_manifest reg path m = (reg', err) →
  byID reg !! id = Some x → byID reg' !! id = Some x.
Proof.
  unfold register_manifest. destruct (toDescriptor m) as [d|e]; [|intros [= <- <-]; auto].
  unfold Register. destruct (byID reg !! pd_ID d) as [y|] eqn:Ey; [intros [= <- <-]; auto|].
  intros [= <- <-] Hx. assert (Hne : pd_ID d ≠ id) by congruence.
  destruct (bool_decide _); unfold Disable, switch; cbn [byID]; rewrite ?lookup_insert_eq; cbn [byID set_byID];
    by rewrite !lookup_insert_ne.
Qed.

Lemma discoverSingle_keeps reg path v tr reg' err id x :
  exec (discoverSingle base64_error reg path v) tr (reg', err) →
  byID reg !! id = Some x → byID reg' !! id = Some x.
Proof.
  intros (a & t & -> & -> & Hx). destruct a as [data| |]; try (by injection Hx as <- <-).
  destruct (load_manifest base64_error v path data); [by eapply register_manifest_keeps|by injection Hx as <- <-].
Qed.

Lemma walk_exec l reg v tr reg' err :
  exec (walk base64_error reg l v) tr (reg', err) →
  (∀ id x, byID reg !! id = Some x → byID reg' !! id = Some x) ∧
  (∀ id x, byID reg' !! id = Some x → comes_from reg v tr id x).
Proof.
  revert reg tr. induction l as [|[ne e| |path name] l IH]; intros reg tr; cbn [walk].
  - intros [-> [= <- <-]]. split; [done|by left].
  - intros [-> [= <- <-]]. split; [done|by left].
  - apply IH.
  - destruct (negb _); [apply IH|]. intros ([reg1 e1] & t1 & t2 & -> & Hs & Hx)%exec_bind.
    pose proof (discoverSingle_exec _ _ _ _ _ _ Hs) as Hfrom.
    assert (Hk : ∀ id x, byID reg !! id = Some x → byID reg1 !! id = Some x) by (intros id x; by eapply discoverSingle_keeps).
    destruct e1 as [e1|].
    + destruct Hx as [-> [= <- <-]]. rewrite app_nil_r. auto.
    + destruct (IH _ _ Hx) as [Hk' Hf]. split; [auto|]. intros id x Hid.
      by eapply comes_from_trans; [exact Hfrom|exact Hk|apply Hf].
Qed.

Lemma DiscoverFromDir_exec reg root v tr reg' err :
  exec (DiscoverFromDir base64_error reg root v) tr (reg', err) →
  (∀ id x, byID reg !! id = Some x → byID reg' !! id = Some x) ∧
  (∀ id x, byID reg' !! id = Some x → comes_from reg v tr id x).
Proof.
  intros (l & t & -> & Hx). cbn [pbind] in Hx. apply exec_bind in Hx as ([reg1 e] & t1 & t2 & -> & Hw & Hr).
  destruct Hr as [-> Hr]. simpl in Hr. injection Hr as <- _.
  apply walk_exec in Hw as [Hk Hf]. split; [done|]. intros id x Hid.
  by apply (comes_from_more _ _ [Ev (WalkDir root) l] t1 []), Hf.
Qed.
End facts.
