(* ===== verification/PluginHost.v ===== *)
(** * What a plugin gets from its host (internal/plugin/platform.go, config.go)

    The services scoped to one plugin: log lines and metrics that carry its id,
    a cache whose keys are prefixed, within bounds; and a plugin's configuration
    envelope checked against a schema. *)

From S2P Require Import Prelude.
From S2P Require Import GoStrings.
From S2P Require Import Effects.
From S2P Require Import GoAny.
From S2P Require Import Json.
From S2P Require Import GoHttp.
From S2P Require Import Policy.
From S2P Require Import Ratelimit.

(** ** The host's services *)
Variant level := Debug | Info | Warn | Error.
Variant metric := Counter | Gauge | Histogram.
Class HostE (E : Type → Type) := {
  HostLog : level → string → gmap string any → E unit;
  HostMetric : metric → string → gmap string string → E unit;
  CacheGet : string → E (res string);
  CacheSet : string → string → Z → E (option string);
  CacheDel : string → E (option string) }.

Definition defaultMaxPluginIDLength : Z := 128.
Definition defaultMaxCacheKeyLength : Z := 256.
Definition ErrInvalidPluginID : string := "plugin: invalid plugin id".
Definition ErrCacheKeyTooLong : string := "plugin: cache key too long".

Record PlatformOptions := { MaxPluginIDLength : Z; MaxCacheKeyLength : Z }.
(** The services themselves are calls. *)
Record SharedPlatform := { maxPluginIDLength : Z; maxCacheKeyLength : Z }.
Definition NewSharedPlatform (opts : PlatformOptions) : SharedPlatform :=
  {| maxPluginIDLength := if MaxPluginIDLength opts <=? 0 then defaultMaxPluginIDLength else MaxPluginIDLength opts;
     maxCacheKeyLength := if MaxCacheKeyLength opts <=? 0 then defaultMaxCacheKeyLength else MaxCacheKeyLength opts |}.

Record scopedHost := { platform : SharedPlatform; pluginID : string }.

Section host.
Context `{Unicode} {E : Type → Type} `{!HostE E}.

Definition Scope (p : SharedPlatform) (id : string) : res scopedHost :=
  let sid := TrimSpace id in
  if String.eqb sid "" || (maxPluginIDLength p <? len sid) then Err (ErrInvalidPluginID +:+ ": " +:+ Quote id)
  else Ok {| platform := p; pluginID := sid |}.

(** nil fields and labels are empty maps. *)
Definition withPluginField (fields : gmap string any) (id : string) : gmap string any :=
  <["plugin_id" := AStr id]> fields.
Definition withPluginLabel (labels : gmap string string) (id : string) : gmap string string :=
  <["plugin_id" := id]> labels.
Definition scoped_log (h : scopedHost) (l : level) (msg : string) (fields : gmap string any) : prog E unit :=
  call (HostLog l msg (withPluginField fields (pluginID h))).
Definition metric_name (h : scopedHost) (name : string) : string :=
  if String.eqb (TrimSpace name) "" then "plugin." +:+ pluginID h +:+ ".invalid"
  else "plugin." +:+ pluginID h +:+ "." +:+ name.
Definition scoped_metric (h : scopedHost) (m : metric) (name : string) (labels : gmap string string) : prog E unit :=
  call (HostMetric m (metric_name h name) (withPluginLabel labels (pluginID h))).

Definition cache_key (h : scopedHost) (key : string) : res string :=
  if maxCacheKeyLength (platform h) <? len key then
    Err (ErrCacheKeyTooLong +:+ ": " +:+ Itoa (len key) +:+ " > " +:+ Itoa (maxCacheKeyLength (platform h)))
  else Ok ("plugin:" +:+ pluginID h +:+ ":" +:+ key).
Definition cache_Get (h : scopedHost) (key : string) : prog E (res string) :=
  match cache_key h key with Err e => Ret (Err e) | Ok ck => call (CacheGet ck) end.
Definition cache_Set (h : scopedHost) (key value : string) (ttl : Z) : prog E (option string) :=
  match cache_key h key with Err e => Ret (Some e) | Ok ck => call (CacheSet ck value ttl) end.
Definition cache_Del (h : scopedHost) (key : string) : prog E (option string) :=
  match cache_key h key with Err e => Ret (Some e) | Ok ck => call (CacheDel ck) end.

(** A plugin's keys stay apart, and apart from those of a plugin whose id, like
    its own, holds no colon. *)
Lemma cache_keys_apart h h' k k' ck :
  cache_key h k = Ok ck → cache_key h' k' = Ok ck →
  (pluginID h = pluginID h' → k = k') ∧
  (no_byte ":" (pluginID h) → no_byte ":" (pluginID h') → pluginID h = pluginID h' ∧ k = k').
Proof.
  unfold cache_key. do 2 case_match; try done. intros [= Hk] [= Hk'].
  assert (He : pluginID h +:+ str ":" +:+ k = pluginID h' +:+ str ":" +:+ k') by (rewrite <-Hk' in Hk; by injection Hk).
  split.
  - intros Hid. rewrite Hid in He. revert He. generalize (pluginID h'). clear.
    induction s as [|c s IH]; simpl; [by intros [= ->]|]. intros [= He]. by apply IH.
  - intros Hn Hn'. pose proof (cut_first ":" (pluginID h) k Hn) as Hc. pose proof (cut_first ":" (pluginID h') k' Hn') as Hc'.
    rewrite He, Hc' in Hc. by injection Hc as -> ->.
Qed.
End host.

(** The ids of the built-in plugins do hold a colon: one plugin's entry can be
    another's. *)
Example cache_keys_collide :
  let host id := {| platform := NewSharedPlatform {| MaxPluginIDLength := 0; MaxCacheKeyLength := 0 |}; pluginID := id |} in
  cache_key (host "provider") "oidc:token" = cache_key (host "provider:oidc") "token".
Proof. reflexivity. Qed.

(** ** Configuration envelopes (config.go) *)
Record Envelope := {
  en_ID : string; en_Kind : string; en_Type : string; en_Version : string; SchemaRef : string; en_Enabled : bool;
  Raw : option (gmap string any) }.

Section config.
Context `{Unicode} `{JsonErrors} {E : Type → Type} `{!FileE E}.

(** [filepath.Join] of two elements. *)
Definition join_path (a b : string) : string :=
  if String.eqb a "" then (if String.eqb b "" then "" else Clean b)
  else if String.eqb b "" then Clean a else Clean (a +:+ "/" +:+ b).
Definition schema_Resolve (root ref : string) : prog E (res string) :=
  if String.eqb ref "" then Ret (Err "plugin: empty schema ref")
  else
    let path := join_path root (ref +:+ ".schema.json") in
    s <- call (Stat path) ;;
    Ret match s with Err e => Err e | Ok _ => Ok path end.

(** The resolver and the validator are interfaces; [None] is nil. *)
Definition ValidateAgainstSchema (env : Envelope) (resolver : option (string → prog E (res string)))
    (validator : option (string → option (gmap string any) → prog E (option string))) : prog E (option string) :=
  if String.eqb (SchemaRef env) "" then Ret None
  else
    match resolver, validator with
    | Some resolve, Some validate =>
        r <- resolve (SchemaRef env) ;;
        match r with
        | Err e => Ret (Some ("plugin: resolve schema " +:+ Quote (SchemaRef env) +:+ ": " +:+ e))
        | Ok path =>
            v <- validate path (Raw env) ;;
            Ret match v with
                | Some e => Some ("plugin: validate schema " +:+ Quote (SchemaRef env) +:+ ": " +:+ e)
                | None => None
                end
        end
    | _, _ => Ret None
    end.

(** What is decoded into the caller's struct; [None] leaves it as it is. *)
Definition DecodeRaw {A} (decode : string → option A) (env : Envelope) : res (option A) :=
  match Raw env with
  | None => Ok None
  | Some m =>
      match json_of_any (AMap (map_to_list m)) with
      | None => Err (marshal_error (AMap (map_to_list m)))
      | Some j => match decode (print j) with Some a => Ok (Some a) | None => Err (unmarshal_error (print j)) end
      end
  end.
End config.
