(* ===== verification/Bootstrap.v ===== *)
(** * How the proxy is put together (cmd/accessgate-proxy/bootstrap.go, main.go)

    From a configuration: the built-in plugins and the manifests in the
    registry, the policy engine, the configured pipeline plugins, one engine
    per route, the HTTP server over them and the gRPC server over the first.
    The built engines' resolvers, policy and plugins are interfaces: calls that
    name the object asked. *)

From S2P Require Import Prelude.
From S2P Require Import GoStrings.
From S2P Require Import Effects.
From S2P Require Import GoAny.
From S2P Require Import Handoff.
From S2P Require Import Token.
From S2P Require Import AuthConfig.
From S2P Require Import AuthService.
From S2P Require Import AuthFlows.
From S2P Require Import Authz.
From S2P Require Import ProxyConfig.
From S2P Require Import Registry.
From S2P Require Import Ratelimit.
From S2P Require Import ProxyServer.
From S2P Require Import ProxyClient.
From S2P Require Import Policy.
From S2P Require Import Oidc.
From S2P Require Import Grpc.
From S2P Require Import Manifest.

(** The methods of the objects the engines hold: a resolver's, the shared
    policy's, and those of a pipeline plugin, by its place in the list. *)
Class ProxyObjectsE (E : Type → Type) := {
  ResolveWith : AuthPrincipalResolver → Request → E (res (option Principal));
  EvaluatePolicy : Input → E (res (option Decision));
  PolicyLoaded : E bool;
  PolicyBundle : E string;
  RunPlugin : nat → Request → option Principal → E (res (option Decision));
  ServeMetrics : E unit }.

Section bootstrap.
Context `{Unicode} `{LocalTime} `{Ed25519} `{JsonErrors} `{MapRange} {E : Type → Type}.
Context `{!FileE E} `{!Wazero E} `{!Rego E} `{!LogE E} `{!WalkE E} `{!ProxyObjectsE E}.
Context (base64_error : string → string).

Definition connectorCookieName (cfg : ProxyConfig) (connectorID : string) : string :=
  if String.eqb connectorID "" then pc_CookieName cfg else pc_CookieName cfg +:+ "_" +:+ connectorID.

(** The error of a non-strict discovery is logged, and the start goes on. *)
Definition discoverManifests (cfg : ProxyConfig) (reg : Registry factory)
    : prog E (Registry factory * option string) :=
  let discover (verifier : option Ed25519Verifier) :=
    x <- DiscoverFromDir base64_error reg (PluginsManifestDir cfg) verifier ;;
    match x with
    | (reg, Some e) =>
        if PluginsManifestStrict cfg then Ret (reg, Some ("plugin manifest discovery (strict): " +:+ e))
        else log ("manifest discovery error (non-strict, continuing): " +:+ e) ;;; Ret (reg, None)
    | (reg, None) =>
        match default (reg, None) (BuildDependencyGraph reg) with
        | (reg, Some e) =>
            if PluginsManifestStrict cfg then Ret (reg, Some ("plugin dependency graph (strict): " +:+ e))
            else log ("plugin dependency graph error (non-strict, continuing): " +:+ e) ;;; Ret (reg, None)
        | (reg, None) => Ret (reg, None)
        end
    end in
  let path := PluginsManifestPublicKeyPath cfg in
  if String.eqb path "" then discover None
  else
    v <- NewEd25519VerifierFromFile path ;;
    match v with
    | Err e => Ret (reg, Some ("plugin manifest verifier: " +:+ e))
    | Ok v => discover (Some v)
    end.

(** A configured plugin that can be one of the pipeline's: only the rate limiter is. *)
Definition build_plugin (reg : Registry factory) (entry : PipelinePluginEntry) : res Ratelimit.Plugin :=
  let what := "pipeline plugin " +:+ Quote (pe_ID entry) in
  let raw := from_option (λ m, AMap (map_to_list m)) ANil (pe_Raw entry) in
  match RegistrationFor reg (pe_ID entry) with
  | None => Err (what +:+ " not registered")
  | Some r =>
      match run_factory (Factory r) (Descriptor r) with
      | Err e => Err (what +:+ " factory: " +:+ e)
      | Ok (RatelimitPlugin p) =>
          match Configure p raw with
          | Err e => Err (what +:+ " configure: " +:+ e)
          | Ok p => Ok p
          end
      | Ok (OidcProvider p) =>
          match oidc_Configure p raw with
          | Err e => Err (what +:+ " configure: " +:+ e)
          | Ok _ => Err (what +:+ " is not a PipelinePlugin")
          end
      end
  end.
Fixpoint build_plugins (reg : Registry factory) (l : list PipelinePluginEntry) : res (list Ratelimit.Plugin) :=
  match l with
  | [] => Ok []
  | entry :: l =>
      if String.eqb (pe_ID entry) "" then build_plugins reg l
      else
        match build_plugin reg entry with
        | Err e => Err e
        | Ok p => match build_plugins reg l with Err e => Err e | Ok ps => Ok (p :: ps) end
        end
  end.
Definition buildPipelinePlugins (cfg : ProxyConfig) (reg : Registry factory) : res (list Ratelimit.Plugin) :=
  build_plugins reg (PipelinePlugins cfg).

(** The resolver of a route, and its engine: the policy and the plugins are shared. *)
Definition route_resolver (cfg : ProxyConfig) (rc : RouteConfig) : AuthPrincipalResolver :=
  {| ProxyClient.Client := NewAuthClient (ProxyConfig.AuthURL cfg) (pc_CookieName cfg);
     CookieName := connectorCookieName cfg (ConnectorID rc); apr_ConnectorID := ConnectorID rc |}.
Definition route_engine (cfg : ProxyConfig) (plugins : nat) (rc : RouteConfig) : DefaultEngine E :=
  {| e_Resolve := ResolveWith (route_resolver cfg rc); e_Evaluate := EvaluatePolicy;
     e_Plugins := List.map (λ i, Some (RunPlugin i)) (seq 0 plugins);
     e_RequireAuth := rc_RequireAuth rc; e_HeaderBuilder := None; e_UnauthenticatedMode := UnauthenticatedMode rc;
     e_LoginRedirectURL := LoginRedirectURL rc; e_Metrics := true |}.
Definition build_route (cfg : ProxyConfig) (plugins : nat) (rc : RouteConfig) : Route E :=
  {| rt_Config := rc; rt_Engine := route_engine cfg plugins rc; rt_Policy := WithStatus PolicyLoaded PolicyBundle |}.

(** What was built: the server, the first route's engine, and the shared
    objects its engines call. *)
Record Proxy := {
  px_server : Server E factory; px_first : option (DefaultEngine E); px_policy : policy_engine (E := E);
  px_plugins : list Ratelimit.Plugin }.

Definition buildProxyHandler (cfg : ProxyConfig) : prog E (res Proxy) :=
  let cfg := match Routes cfg with [] => ProxyNormalize cfg | _ => cfg end in
  match RegisterBuiltins NewRegistry with
  | Err e => Ret (Err ("register built-in plugins: " +:+ e))
  | Ok reg =>
      x <- (if String.eqb (PluginsManifestDir cfg) "" then Ret (reg, None) else discoverManifests cfg reg) ;;
      match x with
      | (_, Some e) => Ret (Err e)
      | (reg, None) =>
          p <- buildPolicyEngine base64_error cfg ;;
          Ret match p with
              | Err e => Err ("policy engine: " +:+ e)
              | Ok p =>
                  match buildPipelinePlugins cfg reg with
                  | Err e => Err ("pipeline plugins: " +:+ e)
                  | Ok plugins =>
                      let routes := List.map (build_route cfg (length plugins)) (Routes cfg) in
                      Ok {| px_server := SetMetrics (NewWithRoutes cfg routes (Some reg) (Some ServeMetrics)) true;
                            px_first := rt_Engine <$> head routes; px_policy := p; px_plugins := plugins |}
                  end
              end
      end
  end.

(** The gRPC server beside it, over the first route's engine. *)
Definition proxy_grpc `{!ProxyMetricsE E} (cfg : ProxyConfig) (p : Proxy)
    : option (GRPCServer E * option upstreamForwarder) :=
  if String.eqb (GRPCListenAddr cfg) "" then None
  else
    (λ e, newGRPCServer (default_engine e) (GRPCUpstreamAddr cfg) (GRPCUpstreamInsecure cfg)) <$> px_first p.
End bootstrap.
