(* ===== verification/BootstrapFacts.v ===== *)
(** * What the built proxy guarantees

    The parts together: the registry holds the built-in plugins and what signed
    manifests say; and a request reaches the upstream of a route that requires
    authentication only for a session the auth service itself resolved. *)

From S2P Require Import Prelude.
From S2P Require Import GoStrings.
From S2P Require Import Effects.
From S2P Require Import GoAny.
From S2P Require Import Json.
From S2P Require Import Cookie.
From S2P Require Import Session.
From S2P Require Import Handoff.
From S2P Require Import Token.
From S2P Require Import Sdk.
From S2P Require Import AuthConfig.
From S2P Require Import GoUrl.
From S2P Require Import AuthService.
From S2P Require Import AuthFlows.
From S2P Require Import Graphql.
From S2P Require Import Authz.
From S2P Require Import AuthzFacts.
From S2P Require Import AuthzHttp.
From S2P Require Import ProxyConfig.
From S2P Require Import Registry.
From S2P Require Import Ratelimit.
From S2P Require Import ProxyServer.
From S2P Require Import ProxyClient.
From S2P Require Import ProxyServerFacts.
From S2P Require Import GoHttp.
From S2P Require Import AuthServer.
From S2P Require Import ResolveChain.
From S2P Require Import AuthEnv.
From S2P Require Import AuthAccess.
From S2P Require Import Base64.
From S2P Require Import Policy.
From S2P Require Import PolicyFacts.
From S2P Require Import Oidc.
From S2P Require Import Manifest.
From S2P Require Import ManifestFacts.
From S2P Require Import Bootstrap.

Section built.
Context `{Unicode} `{LocalTime} `{Ed25519} `{JsonErrors} `{MapRange} `{UnicodeDigit} {E : Type → Type}.
Context `{!FileE E} `{!Wazero E} `{!Rego E} `{!LogE E} `{!WalkE E} `{!ProxyObjectsE E}.
Context `{!ProxyMetricsE E} `{!RouteMetricsE E} `{!ForwardE E} `{!WriteE E} `{!RedirectE E}.
Context (base64_error : string → string).
Implicit Types (cfg : ProxyConfig) (reg : Registry factory).

Lemma graph_keeps_plugins reg reg' err : BuildDependencyGraph reg = Some (reg', err) → byID reg' = byID reg.
Proof.
  unfold BuildDependencyGraph. destruct (link_all _ _ _) as [deps [e|]]; [by intros [= <- <-]|].
  destruct (kahn _ _ _ _ _) as [order|]; [|done]. simpl. intros [= Hr]. by destruct (negb _); injection Hr as <- _.
Qed.

(** Whatever the outcome, a registration was there before, or came out of a
    manifest; with a key configured, a signed one. *)
Lemma discoverManifests_exec cfg reg tr reg' err :
  exec (discoverManifests base64_error cfg reg) tr (reg', err) →
  (∀ id x, byID reg !! id = Some x → byID reg' !! id = Some x) ∧
  (PluginsManifestPublicKeyPath cfg ≠ "" → ∀ id x, byID reg' !! id = Some x →
     byID reg !! id = Some x ∨
     ∃ pem pub path data m, Ev (ReadFile (PluginsManifestPublicKeyPath cfg)) (Data pem) ∈ tr ∧
       plugin_parseEd25519PublicKey pem = Ok pub ∧ Ev (ReadFile path) (Data data) ∈ tr ∧
       decode_manifest data = Some m ∧ validateManifest path m = None ∧ id = mf_ID m ∧ registered_as m x ∧
       signed_by base64_error pub m).
Proof.
  set (tail := λ cfg (x : Registry factory * option string), match x with
    | (reg, Some e) =>
        if PluginsManifestStrict cfg then Ret (reg, Some ("plugin manifest discovery (strict): " +:+ e))
        else log ("manifest discovery error (non-strict, continuing): " +:+ e) ;;; Ret (reg, None)
    | (reg, None) =>
        match default (reg, None) (BuildDependencyGraph reg) with
        | (reg, Some e) =>
            if PluginsManifestStrict cfg then Ret (reg, Some ("plugin dependency graph (strict): " +:+ e))
            else log ("plugin dependency graph error (non-strict, continuing): " +:+ e) ;;; Ret (reg, None)
        | (reg, None) => Ret (reg, None)
        end
    end : prog E (Registry factory * option string)).
  assert (Htail : ∀ x t y, exec (tail cfg x) t y → byID y.1 = byID x.1).
  { intros [reg1 [e|]] t y; unfold tail.
    - destruct (PluginsManifestStrict cfg); [by intros [_ <-]|]. by intros ([] & t' & -> & [_ <-]).
    - destruct (BuildDependencyGraph reg1) as [[reg2 e2]|] eqn:Eg; [|by intros [_ <-]].
      apply graph_keeps_plugins in Eg. cbn [from_option id]. destruct e2 as [e|]; [|by intros [_ <-]].
      destruct (PluginsManifestStrict cfg); [by intros [_ <-]|]. by intros ([] & t' & -> & [_ <-]). }
  assert (Hdisc : ∀ v t y, exec (x <- DiscoverFromDir base64_error reg (PluginsManifestDir cfg) v ;; tail cfg x) t y →
    (∀ id x, byID reg !! id = Some x → byID y.1 !! id = Some x) ∧
    (∀ id x, byID y.1 !! id = Some x → comes_from base64_error reg v t id x)).
  { intros v t y ([reg1 e] & t1 & t2 & -> & Hd & Ht)%exec_bind. apply Htail in Ht. simpl in Ht. rewrite Ht.
    apply DiscoverFromDir_exec in Hd as [Hk Hf]. split; [done|]. intros id x Hid.
    by apply (comes_from_more _ _ _ [] t1 t2), Hf. }
  unfold discoverManifests. fold (tail cfg). cbv zeta.
  destruct (String.eqb_spec (PluginsManifestPublicKeyPath cfg) "") as [Ek|Ek].
  - intros [Hk _]%Hdisc. split; [done|]. by intros Hn.
  - intros (v & t1 & t2 & -> & Hv & Hx)%exec_bind.
    destruct Hv as (a & t3 & -> & -> & <-). destruct a as [pem| |]; [|by destruct Hx as [-> [= <- <-]]; auto..].
    unfold NewEd25519Verifier in Hx. destruct (plugin_parseEd25519PublicKey pem) as [pub|e] eqn:Ep;
      [|by destruct Hx as [-> [= <- <-]]; auto].
    apply Hdisc in Hx as [Hk Hf]. split; [done|]. intros _ id x Hid.
    destruct (Hf id x Hid) as [?|(_ & path & data & m & Hin & Hm & Hval & Hi & Hr & Hs)]; [by left|right].
    exists pem, pub, path, data, m. split; [apply list_elem_of_here|]. split; [done|].
    split; [by apply list_elem_of_further|]. repeat (split; [done|]). by apply (Hs _ eq_refl).
Qed.

(** The configuration the proxy is built from. *)
Definition effective cfg : ProxyConfig := match Routes cfg with [] => ProxyNormalize cfg | _ => cfg end.

Lemma buildProxyHandler_exec cfg tr p : exec (buildProxyHandler base64_error cfg) tr (Ok p) →
  let c := effective cfg in
  ∃ reg0 reg t1 t2, RegisterBuiltins NewRegistry = Ok reg0 ∧ tr = t1 ++ t2 ∧
    (reg = reg0 ∧ t1 = [] ∨ exec (discoverManifests base64_error c reg0) t1 (reg, None)) ∧
    exec (buildPolicyEngine base64_error c) t2 (Ok (px_policy p)) ∧
    buildPipelinePlugins c reg = Ok (px_plugins p) ∧
    px_server p = SetMetrics (NewWithRoutes c (List.map (build_route c (length (px_plugins p))) (Routes c))
                                (Some reg) (Some ServeMetrics)) true.
Proof.
  unfold buildProxyHandler. fold (effective cfg). cbv zeta. set (c := effective cfg).
  destruct (RegisterBuiltins NewRegistry) as [reg0|e] eqn:Er; [|by intros [_ [=]]].
  intros ([reg err] & t1 & t2 & -> & Hd & Hx)%exec_bind. destruct err as [e|]; [by destruct Hx as [_ [=]]|].
  apply exec_bind in Hx as (r & t3 & t4 & -> & Hp & [-> Hr]). rewrite app_nil_r.
  destruct r as [pe|e]; [|done]. destruct (buildPipelinePlugins c reg) as [plugins|e] eqn:Eb; [|done].
  injection Hr as <-. exists reg0, reg, t1, t3. split; [done|]. split; [done|]. split; [|done].
  destruct (String.eqb (PluginsManifestDir c) ""); [|by right]. left. by destruct Hd as [-> [= <-]].
Qed.

Lemma build_plugin_ok reg entry q : build_plugin reg entry = Ok q →
  ∃ x, byID reg !! pe_ID entry = Some x ∧ Factory x = RatelimitFactory ∧
       Configure New (from_option (λ m, AMap (map_to_list m)) ANil (pe_Raw entry)) = Ok q.
Proof.
  unfold build_plugin, RegistrationFor. destruct (byID reg !! pe_ID entry) as [x|]; [|done].
  destruct (Factory x) eqn:Ef; cbn [run_factory]; [|by destruct (Oidc.oidc_Configure _ _)|done].
  destruct (Configure New _) as [p|e] eqn:Ec; [|done]. intros [= <-]. eauto.
Qed.

Lemma build_plugins_ok reg l qs : build_plugins reg l = Ok qs →
  Forall2 (λ entry q, build_plugin reg entry = Ok q) (List.filter (λ e, negb (String.eqb (pe_ID e) "")) l) qs.
Proof.
  revert qs. induction l as [|e l IH]; intros qs; simpl; [by intros [= <-]|].
  destruct (String.eqb (pe_ID e) ""); simpl; [apply IH|].
  destruct (build_plugin reg e) as [q|] eqn:Eq; [|done]. destruct (build_plugins reg l) as [qs'|]; [|done].
  intros [= <-]. constructor; [done|]. by apply IH.
Qed.

Lemma builtin_factory reg0 id x : RegisterBuiltins NewRegistry = Ok reg0 → byID reg0 !! id = Some x →
  Factory x ≠ ManifestFactory.
Proof.
  unfold RegisterBuiltins, Register. cbn [byID NewRegistry]. rewrite lookup_empty. cbn [byID].
  rewrite lookup_insert_ne by done. rewrite lookup_empty. intros [= <-]. cbn [byID].
  intros Hx. apply lookup_insert_Some in Hx as [[_ <-]|[_ Hx]]; [done|].
  apply lookup_insert_Some in Hx as [[_ <-]|[_ Hx]]; [done|]. by rewrite lookup_empty in Hx.
Qed.

(** C13: only signed plugins. With a manifest key configured, every plugin in the
    registry of a proxy that was built is a built-in one as it was registered,
    or was read from a manifest file that passed the structural checks and
    whose inline Ed25519 signature, under the key in the configured file,
    verified over its canonical bytes; no manifest replaces a built-in plugin,
    strict mode or not. And the pipeline runs, in the configured order, only
    the built-in rate limiter: a manifest brings no code into it. *)
Theorem only_signed_plugins cfg tr p : exec (buildProxyHandler base64_error cfg) tr (Ok p) →
  ∃ reg0 reg, RegisterBuiltins NewRegistry = Ok reg0 ∧ sv_registry (px_server p) = Some reg ∧
    (∀ id x, byID reg0 !! id = Some x → byID reg !! id = Some x) ∧
    (PluginsManifestPublicKeyPath cfg ≠ "" → ∀ id x, byID reg !! id = Some x →
       byID reg0 !! id = Some x ∨
       ∃ pem pub path data m, Ev (ReadFile (PluginsManifestPublicKeyPath cfg)) (Data pem) ∈ tr ∧
         plugin_parseEd25519PublicKey pem = Ok pub ∧ Ev (ReadFile path) (Data data) ∈ tr ∧
         decode_manifest data = Some m ∧ validateManifest path m = None ∧ id = mf_ID m ∧ registered_as m x ∧
         signed_by base64_error pub m) ∧
    Forall2 (λ entry q, ∃ x, byID reg !! pe_ID entry = Some x ∧ Factory x = RatelimitFactory ∧
               Configure New (from_option (λ m, AMap (map_to_list m)) ANil (pe_Raw entry)) = Ok q)
      (List.filter (λ e, negb (String.eqb (pe_ID e) "")) (PipelinePlugins cfg)) (px_plugins p).
Proof.
  intros (reg0 & reg & t1 & t2 & Hr0 & -> & Hd & _ & Hb & Hs)%buildProxyHandler_exec.
  assert (Hc : PluginsManifestPublicKeyPath (effective cfg) = PluginsManifestPublicKeyPath cfg ∧
               PipelinePlugins (effective cfg) = PipelinePlugins cfg) by (unfold effective; by destruct (Routes cfg)).
  destruct Hc as [Hkey Hpl]. exists reg0, reg. split; [done|]. split; [by rewrite Hs|].
  assert (Hplugins : Forall2 (λ entry q, build_plugin reg entry = Ok q)
    (List.filter (λ e, negb (String.eqb (pe_ID e) "")) (PipelinePlugins cfg)) (px_plugins p))
    by (rewrite <-Hpl; by apply build_plugins_ok).
  destruct Hd as [[-> ->]|[Hk Hf]%discoverManifests_exec].
  - split; [done|]. split; [by left|]. eapply Forall2_impl; [exact Hplugins|]. intros e q. apply build_plugin_ok.
  - split; [done|]. rewrite Hkey in Hf. split; [|eapply Forall2_impl; [exact Hplugins|]; intros e q; apply build_plugin_ok].
    intros Hn id x Hid. destruct (Hf Hn id x Hid) as [?|(pem & pub & path & data & m & H1' & Hp & H2' & Hm)]; [by left|right].
    exists pem, pub, path, data, m. rewrite !elem_of_app. auto.
Qed.
End built.

(** ** From the browser to the upstream *)
Section chain.
Context `{Unicode} `{LocalTime} `{Ed25519} `{JsonErrors} `{MapRange} `{UnicodeDigit} `{StructPB} {E E' : Type → Type}.
Context `{!FileE E} `{!Wazero E} `{!Rego E} `{!LogE E} `{!WalkE E} `{!ProxyObjectsE E}.
Context `{!ProxyMetricsE E} `{!RouteMetricsE E} `{!ForwardE E} `{!WriteE E} `{!RedirectE E}.
Context `{!ClockE E'} `{!RandE E'} `{!LogE E'} `{!WebhookE E'} `{!AuthMetricsE E'}.
Context `{!JWKSSource E'} `{!JwtLib E'} `{!OnceStore E'} `{!NetE E'}.
Context (base64_error json_error : string → string).
Context (multipart_values : http_request → list (string * string)).
Notation resolve_over := (resolve_over multipart_values json_error).

(** The proxy's resolver finds someone only when the auth service resolves the
    very cookie, under the name the auth server expects for the connector. *)
Lemma resolved_by_service (s : AuthServer E') a req v t who :
  default "" (Cookies req !! CookieName a) = v →
  v = "" ∨ wire_value v ∧ cookie_name (ac_cookieName (ProxyClient.Client a)) →
  reaches (ProxyClient.Client a) (apr_ConnectorID a) →
  exec (resolve_over s a req) t (Ok (Some who)) →
  v ≠ "" ∧ ac_cookieName (ProxyClient.Client a) = fst (connectorCookie s (apr_ConnectorID a)) ∧
  ∃ t' x, exec (ResolveForConnector (as_svc s) (apr_ConnectorID a) v) t' (Ok x) ∧
    relayed json_error (Ok x) = Ok (Some who).
Proof.
  intros Hv Hw Hurl Hx. apply (resolve_over_exec _ _ s a req v) in Hx; [|done..].
  destruct Hx as [(e & _ & [=])|(t' & r & Hr & [(e & _ & [=])|[_ Hx]])].
  assert (Hseen : seen s a v ≠ "").
  { intros Hn. rewrite Hn in Hr. destruct Hr as [_ <-]. discriminate Hx. }
  unfold seen in *. destruct (String.eqb_spec (ac_cookieName (ProxyClient.Client a)) (fst (connectorCookie s (apr_ConnectorID a))))
    as [Hname|]; [|done]. split; [done|]. split; [done|]. destruct r as [x|e]; [|discriminate Hx]. by exists t', x.
Qed.

(** C7: from the browser to the upstream. In the proxy built of a configuration,
    with resolvers that ask the auth server, a request (outside the proxy's own
    pages, its cookie a legal one) for a route that requires authentication is answered by that route's engine alone, and it is
    allowed (the only way it can be forwarded) only if: it carries a session
    cookie, under the name the proxy derives for the route's connector; the auth
    server expects the very name the proxy's client sends; and the auth service
    resolved that cookie, for the route's own connector, to a live session whose
    principal the engine then used. *)
Theorem proxy_end_to_end cfg tr0 p (s : AuthServer E') r tr rt
    (Hbuild : exec (buildProxyHandler base64_error cfg) tr0 (Ok p))
    (Hp : hr_Path r ∉ own_paths) (Hx : exec (serve (px_server p) r) tr tt)
    (Hres : ∀ a req x, Ev (ResolveWith a req) x ∈ tr → ∃ t, exec (resolve_over s a req) t x)
    (Hroute : matchRoute (px_server p) (hr_Host r) (hr_Path r) = Some rt)
    (Hauth : rc_RequireAuth (rt_Config rt) = true) :
  let c := effective cfg in
  let connector := ConnectorID (rt_Config rt) in
  let v := default "" (Cookies (RequestFromHTTP r) !! connectorCookieName c connector) in
  rt_Config rt ∈ Routes c ∧
  (v = "" ∨ wire_value v ∧ cookie_name (pc_CookieName c) →
   reaches (NewAuthClient (ProxyConfig.AuthURL c) (pc_CookieName c)) connector →
   ∃ resp th tail, tr = th ++ tail ∧ proxied (px_server p) r rt resp tail ∧
     (Allow resp = true →
        v ≠ "" ∧ pc_CookieName c = fst (connectorCookie s connector) ∧
        ∃ who t x, exec (ResolveForConnector (as_svc s) connector v) t (Ok x) ∧
          relayed json_error (Ok x) = Ok (Some who) ∧
          Ev (ResolveWith (route_resolver c (rt_Config rt)) (RequestFromHTTP r)) (Ok (Some who)) ∈ th)).
Proof.
  intros c connector v. apply buildProxyHandler_exec in Hbuild as (reg0 & reg & t1 & t2 & _ & _ & _ & _ & _ & Hs).
  fold c in Hs. rewrite serve_proxies in Hx by done. apply handleProxy_exec in Hx. rewrite Hroute in Hx.
  assert (Hrt : ∃ rc, rc ∈ Routes c ∧ rt = build_route c (length (px_plugins p)) rc).
  { pose proof (matchRoute_longest (sv_routes (px_server p)) (hr_Host r) (hr_Path r)) as Hl.
    change (foldl _ None _) with (matchRoute (px_server p) (hr_Host r) (hr_Path r)) in Hl. rewrite Hroute in Hl.
    destruct Hl as (l1 & l2 & Hl & _). rewrite Hs in Hl. cbn in Hl.
    assert (Hin : In rt (List.map (build_route c (length (px_plugins p))) (Routes c))).
    { rewrite Hl. apply in_or_app. right. by left. }
    apply in_map_iff in Hin as (rc & <- & Hrc). exists rc. split; [by apply list_elem_of_In|done]. }
  destruct Hrt as (rc & Hrc & ->). simpl in Hauth, connector. split; [done|]. intros Hw Hurl.
  destruct Hx as (resp & th & tail & -> & Hh & Hpr). exists resp, th, tail. split; [done|]. split; [done|].
  intros Ha. destruct (proj1 (handle_allows _ _ _ _) (conj Hh Ha)) as (who & d & dtr & Hwho & _ & _ & _ & ->).
  destruct Hwho as [Hwho|Hwho]; [|simpl in Hwho; congruence]. destruct who as [who|]; [|done].
  destruct (Hres (route_resolver c rc) (RequestFromHTTP r) (Ok (Some who))) as [t Ht]; [apply list_elem_of_here|].
  destruct (resolved_by_service s (route_resolver c rc) (RequestFromHTTP r) v t who) as (Hv & Hn & t' & x & Hex & Hrel);
    [done|done|done|exact Ht|].
  split; [done|]. split; [done|]. exists who, t', x. split; [done|]. split; [done|]. apply list_elem_of_here.
Qed.
End chain.

(** ** Witnesses *)
#[local] Existing Instance ascii_unicode.
#[local] Existing Instance sorted_range.
#[local] Existing Instance env_net.
#[local] Existing Instance pol_crypto.
#[local] Existing Instance pol_time.
#[local] Instance boot_digits : UnicodeDigit := λ _, false.
#[local] Instance boot_errors : JsonErrors :=
  {| marshal_error _ := "json: unsupported value"; unmarshal_error _ := "json: syntax error" |}.

Inductive bootE : Type → Type :=
| B_Files {X} (e : polE X) : bootE X
| B_Walk (root : string) : bootE (list walk_entry)
| B_Resolve (a : AuthPrincipalResolver) (r : Request) : bootE (res (option Principal))
| B_Evaluate (i : Input) : bootE (res (option Decision))
| B_Plugin (i : nat) (r : Request) (p : option Principal) : bootE (res (option Decision))
| B_Loaded : bootE bool
| B_Bundle : bootE string
| B_Metrics : bootE unit
| B_Server {X} (e : srvE X) : bootE X.
#[local] Instance boot_files : FileE bootE := {| Stat p := B_Files (P_Stat p); ReadFile p := B_Files (P_Read p) |}.
#[local] Instance boot_log : LogE bootE := λ m, B_Files (P_Log m).
#[local] Instance boot_wazero : Wazero bootE :=
  {| CompileModule s := B_Files (P_Compile s); InstantiateModule c := B_Files (P_Instantiate c);
     CloseModule m := B_Files (P_Close m); exports_evaluate := λ _, true; exports_memory := λ _, true;
     mem_Write m a s := B_Files (P_Write m a s); mem_Read m a l := B_Files (P_MemRead m a l);
     call_evaluate m a l := B_Files (P_Call m a l) |}.
#[local] Instance boot_rego : Rego bootE :=
  {| PrepareForEval q s := B_Files (P_Prepare q s); rego_Eval q i := B_Files (P_Eval q i) |}.
#[local] Instance boot_walk : WalkE bootE := B_Walk.
#[local] Instance boot_objects : ProxyObjectsE bootE :=
  {| ResolveWith := B_Resolve; EvaluatePolicy := B_Evaluate; PolicyLoaded := B_Loaded; PolicyBundle := B_Bundle;
     RunPlugin := B_Plugin; ServeMetrics := B_Metrics |}.
#[local] Instance boot_metrics : ProxyMetricsE bootE := λ a s, B_Server (S_AuthDecision a s).
#[local] Instance boot_outcome : RouteMetricsE bootE := λ r o, B_Server (S_Outcome r o).
#[local] Instance boot_forward : ForwardE bootE := λ f, B_Server (S_Forward f).
#[local] Instance boot_redirect : RedirectE bootE := λ u s, B_Server (S_Redirect u s).
#[local] Instance boot_write : WriteE bootE := λ st h b, B_Server (S_Write st h b).

(** The proxy's resolver, asking the auth server. *)
Definition boot_resolving (a : AuthPrincipalResolver) (r : Request) : prog authE (res (option Principal)) :=
  resolve_over chain_multipart chain_error chain_server a r.
Definition boot_resolve (a : AuthPrincipalResolver) (r : Request) : res (option Principal) :=
  fst (run env_handler (boot_resolving a r) live_world).

Definition boot_manifest : Manifest :=
  {| mf_ID := "acme:audit"; mf_Kind := "integration"; mf_Name := "Audit"; mf_Description := ""; mf_Version := "v1";
     mf_Capabilities := Some ["audit"]; mf_DependsOn := None; mf_ConfigSchemaRef := ""; mf_Enabled := None;
     mf_Metadata := None; mf_Signature := None |}.
(** The manifest as a file, signed or not. *)
Definition manifest_file (m : Manifest) (sig : list (string * json)) : string :=
  match manifest_json m with Some (JObj l) => print (JObj (l ++ sig)) | _ => "" end.
Definition good_signature : list (string * json) :=
  [("signature", JObj [("algorithm", JStr "Ed25519");
                       ("value", JStr (EncodeToString StdAlphabet true
                          (pol_sign (manifest_file boot_manifest []))))])].
Definition boot_world : pol_world :=
  {| pw_files := {[ "key.pem" := (pol_key, 1);
                    "plugins/audit.json" := (manifest_file boot_manifest good_signature, 1);
                    "plugins/rogue.json" := (manifest_file boot_manifest [], 1) ]};
     pw_in := ""; pw_out := "" |}.
Definition boot_handler : handler bootE pol_world := λ X e,
  match e in bootE X return pol_world → X * pol_world with
  | B_Files e => pol_handler _ e
  | B_Walk _ => λ w, ([WalkDirectory; WalkFile "plugins/audit.json" "audit.json"; WalkFile "plugins/notes.txt" "notes.txt";
                       WalkFile "plugins/rogue.json" "rogue.json"], w)
  | B_Resolve a r => λ w, (boot_resolve a r, w)
  | B_Evaluate _ => λ w, (Ok (Some {| d_Allow := true; d_StatusCode := 200; d_Headers := ∅; d_Reason := "";
                                      d_Obligations := ∅ |}), w)
  | B_Plugin _ _ _ => λ w, (Ok None, w)
  | B_Loaded => λ w, (true, w)
  | B_Bundle => λ w, ("", w)
  | B_Metrics => λ w, (tt, w)
  | B_Server e => λ w, (fst (srv_handler None _ e []), w)
  end.
Definition boot_cfg : ProxyConfig :=
  {| UpstreamURL := "https://up.example"; ProxyPathPrefix := "/"; RequireAuth := true;
     ProxyConfig.AuthURL := "http://accessgate-auth:8080/"; pc_CookieName := "sid"; pc_HTTPPort := "8081";
     GRPCListenAddr := ""; GRPCUpstreamAddr := ""; GRPCUpstreamInsecure := false; PolicyEngine := "wasm";
     PolicyBundlePath := ""; PolicyFallbackAllow := false; PolicyReloadEnabled := false; PolicyReloadInterval := "";
     PipelinePlugins := [{| pe_ID := "pipeline:ratelimit"; pe_Type := "";
                            pe_Raw := Some {[ "requests_per_minute" := AInt 60; "burst" := AInt 5; "key_strategy" := AStr "ip" ]} |}];
     PluginsManifestDir := "plugins"; PluginsManifestStrict := false; PluginsManifestPublicKeyPath := "key.pem";
     pc_AdminSecret := ""; BundlePublicKeyPath := ""; AllowPrivateUpstreams := false; Routes := [];
     HeaderUserIDClaim := "sub"; HeaderEmailClaim := ""; HeaderNameClaim := ""; HeaderPreferredUsernameClaim := "";
     HeaderRolesClaim := ""; HeaderGroupsClaim := ""; HeaderTenantIDClaim := ""; HeaderAdminRole := "" |}.
Definition boot : prog bootE (res (Proxy (E := bootE))) := buildProxyHandler no_error boot_cfg.

(** The signed manifest is registered; discovery stops at the unsigned one. *)
Example boot_registers :
  match fst (run boot_handler boot boot_world) with
  | Ok p => (AllPluginIDs <$> sv_registry (px_server p), length (px_plugins p))
  | Err _ => (None, 0%nat) end
  = (Some ["acme:audit"; "pipeline:ratelimit"; "provider:oidc"], 1%nat).
Proof. vm_compute. reflexivity. Qed.

Lemma boot_ok : is_ok (fst (run boot_handler boot boot_world)) = true.
Proof. vm_compute. reflexivity. Qed.

Lemma only_signed_plugins_witness : ∃ tr p reg, exec boot tr (Ok p) ∧ sv_registry (px_server p) = Some reg ∧
  ∀ id x, byID reg !! id = Some x → Factory x = ManifestFactory →
    ∃ path data m, Ev (ReadFile path) (Data data) ∈ tr ∧ decode_manifest data = Some m ∧ id = mf_ID m.
Proof.
  pose proof (run_exec boot_handler boot boot_world) as Hx. pose proof boot_ok as Hok.
  destruct (fst (run boot_handler boot boot_world)) as [p|e]; [|discriminate Hok].
  destruct (only_signed_plugins no_error boot_cfg _ p Hx) as (reg0 & reg & Hr0 & Hreg & _ & Hsigned & _).
  exists (run_trace boot_handler boot boot_world), p, reg. split; [exact Hx|]. split; [exact Hreg|].
  intros id x Hid Hf. destruct (Hsigned ltac:(discriminate) id x Hid) as [Hb|Hm].
  - exfalso. exact (builtin_factory reg0 id x Hr0 Hb Hf).
  - destruct Hm as (pem & pub & path & data & m & _ & _ & Hd & Hm & _ & Hi & _). exists path, data, m.
    split; [exact Hd|]. split; [exact Hm|exact Hi].
Defined.

(** The answer a run gives to a resolution. *)
Definition resolution (ev : event bootE) : option (AuthPrincipalResolver * Request * res (option Principal)) :=
  match ev with
  | Ev e x => (match e in bootE X return X → option (AuthPrincipalResolver * Request * res (option Principal)) with
               | B_Resolve a r => λ x, Some (a, r, x) | _ => λ _, None end) x
  end.
Lemma boot_resolutions {A} (q : prog bootE A) w a r x :
  Ev (ResolveWith a r) x ∈ run_trace boot_handler q w → x = boot_resolve a r.
Proof.
  revert w. induction q as [b|X e k IH]; intros w; simpl; [by intros Hin%elem_of_nil|].
  destruct (boot_handler X e w) as [y w'] eqn:Eh. intros [Heq|Hin]%elem_of_cons; [|by eapply IH].
  apply (f_equal resolution) in Heq. cbn in Heq. destruct e; try discriminate Heq.
  cbn in Eh, Heq. injection Eh as <- <-. by injection Heq as -> -> ->.
Qed.

Definition boot_request : http_request :=
  {| hr_Method := "GET"; hr_TLS := true; hr_Host := "app.example"; hr_Path := "/orders"; hr_RawQuery := "";
     hr_Header := ∅; hr_Cookies := [("sid", live_cookie)]; hr_Body := ""; hr_RemoteAddr := "198.51.100.7:1234" |}.
Definition boot_serve (p : Proxy (E := bootE)) : prog bootE unit := serve (px_server p) boot_request.
Definition is_forward (ev : event bootE) : bool := match ev with Ev (B_Server (S_Forward _)) _ => true | _ => false end.
Definition boot_forwards (p : Proxy (E := bootE)) : bool :=
  from_option is_forward false (last (run_trace boot_handler (boot_serve p) boot_world)).

(** What ends with a forwarded request was allowed. *)
Lemma forward_allowed (s : Server bootE factory) r rt resp th tail :
  proxied s r rt resp tail → from_option is_forward false (last (th ++ tail)) = true → Allow resp = true.
Proof. intros [? | t ? ? | st hs ?]; [|done|]; by rewrite !app_assoc, last_snoc. Qed.

Lemma boot_facts :
  match fst (run boot_handler boot boot_world) with
  | Ok p => boot_forwards p &&
            from_option (λ rt : Route bootE, rc_RequireAuth (rt_Config rt) && String.eqb (ConnectorID (rt_Config rt)) "")
              false (matchRoute (px_server p) "app.example" "/orders")
  | Err _ => false
  end = true.
Proof. vm_compute. reflexivity. Qed.

Lemma boot_reaches : reaches (NewAuthClient "http://accessgate-auth:8080/" "sid") "".
Proof. exact (chain_reaches "sid"). Qed.

Lemma proxy_end_to_end_witness : ∃ tr0 p tr x t,
  exec boot tr0 (Ok p) ∧ exec (boot_serve p) tr tt ∧ boot_forwards p = true ∧
  exec (ResolveForConnector env_service "" live_cookie) t (Ok x).
Proof.
  pose proof (run_exec boot_handler boot boot_world) as Hb. pose proof boot_facts as Hf.
  destruct (fst (run boot_handler boot boot_world)) as [p|e]; [|discriminate Hf].
  apply andb_true_iff in Hf as [Ha Hf].
  destruct (matchRoute (px_server p) "app.example" "/orders") as [rt|] eqn:Hrt; [|discriminate Hf].
  apply andb_true_iff in Hf as [Hauth Hconn%String.eqb_eq].
  pose proof (run_exec boot_handler (boot_serve p) boot_world) as Hx.
  destruct (fst (run boot_handler (boot_serve p) boot_world)).
  set (tr := run_trace boot_handler (boot_serve p) boot_world) in Hx.
  assert (Hres : ∀ a req x, Ev (ResolveWith a req) x ∈ tr → ∃ t, exec (boot_resolving a req) t x).
  { intros a req x ->%boot_resolutions. eexists. apply run_exec. }
  destruct (proxy_end_to_end no_error chain_error chain_multipart boot_cfg _ p chain_server boot_request tr rt Hb)
    as (_ & Hend).
  - by apply (bool_decide_unpack (hr_Path boot_request ∉ own_paths)).
  - exact Hx.
  - exact Hres.
  - exact Hrt.
  - exact Hauth.
  - rewrite Hconn in Hend. destruct Hend as (resp & th & tail & Htr & Hpr & Hallow).
    + right. split; [exact chain_wire|]. split; [discriminate|vm_compute; reflexivity].
    + exact boot_reaches.
    + destruct Hallow as (_ & _ & who & t & x & Hex & _).
      * apply (forward_allowed _ _ _ _ th tail Hpr). rewrite <-Htr. exact Ha.
      * exists (run_trace boot_handler boot boot_world), p, tr, x, t.
        split; [exact Hb|]. split; [exact Hx|]. split; [exact Ha|exact Hex].
Defined.
