(* ===== verification/BundleSign.v ===== *)
(** * The bundle signing tool (cmd/bundle-sign)

    Key generation and signing, as the tool does them against a file system,
    and the round trip that matters: what the tool signs, the proxy accepts.
    Ed25519, PKCS#8, PKIX and PEM are external. *)

From S2P Require Import Prelude.
From S2P Require Import GoStrings.
From S2P Require Import Effects.
From S2P Require Import Base64.
From S2P Require Import Policy.

(** The other half of [Ed25519]: keys are made, written and used. *)
Class Ed25519Signing := {
  ed25519_Sign : string → string → string;
  MarshalPKCS8PrivateKey : string → res string;
  ParsePKCS8PrivateKey : string → res (string + string);
  MarshalPKIXPublicKey : string → res string;
  pem_Encode : string → string → string }.

(** [os.WriteFile], and creating a file that must not be there; a key pair. *)
Class SignE (E : Type → Type) := {
  WriteFile : string → string → E (option string);
  CreateExclusive : string → string → E (res (option string));
  GenerateKey : E (res (string * string)) }.

Section sign.
Context `{Unicode} `{Ed25519} `{!Ed25519Signing} {E : Type → Type} `{!FileE E} `{!SignE E}.

Definition signatureSuffix : string := ".sig".
Definition defaultSignaturePath (bundlePath : string) : string := bundlePath +:+ signatureSuffix.
Definition newline : string := str (of_byte 10).

(** [None] is a nil error. The exclusive creation fails with [Err]; a failed
    write or close of the file it made is [Ok (Some _)]. *)
Definition generateKeypair (privPath pubPath : string) : prog E (option string) :=
  k <- call GenerateKey ;;
  match k with
  | Err e => Ret (Some ("generate key: " +:+ e))
  | Ok (pub, priv) =>
      match MarshalPKCS8PrivateKey priv, MarshalPKIXPublicKey pub with
      | Err e, _ => Ret (Some ("marshal private key: " +:+ e))
      | Ok _, Err e => Ret (Some ("marshal public key: " +:+ e))
      | Ok privDER, Ok pubDER =>
          c <- call (CreateExclusive privPath (pem_Encode "PRIVATE KEY" privDER)) ;;
          match c with
          | Err e => Ret (Some ("create private key " +:+ Quote privPath +:+ " (refusing to overwrite): " +:+ e))
          | Ok (Some e) => Ret (Some ("write private key: " +:+ e))
          | Ok None =>
              e <- call (WriteFile pubPath (pem_Encode "PUBLIC KEY" pubDER)) ;;
              Ret match e with Some e => Some ("write public key: " +:+ e) | None => None end
          end
      end
  end.

Definition parsePublicKeyPEM (data : string) : res string :=
  match pem_Decode data with
  | None => Err "public key is not valid PEM"
  | Some block =>
      match ParsePKIXPublicKey block with
      | Err e => Err ("parse PKIX public key: " +:+ e)
      | Ok (inr t) => Err ("public key is not Ed25519 (got " +:+ t +:+ ")")
      | Ok (inl key) => Ok key
      end
  end.

Definition loadPrivateKey (path : string) : prog E (res string) :=
  a <- call (ReadFile path) ;;
  Ret match a with
      | Data data =>
          match pem_Decode data with
          | None => Err "private key is not valid PEM"
          | Some block =>
              match ParsePKCS8PrivateKey block with
              | Err e => Err ("parse PKCS#8 private key: " +:+ e)
              | Ok (inr t) => Err ("private key is not Ed25519 (got " +:+ t +:+ ")")
              | Ok (inl key) => Ok key
              end
          end
      | a => Err ("read private key: " +:+ read_error a)
      end.

Definition signBundle (privPath bundlePath sigPath : string) : prog E (option string) :=
  k <- loadPrivateKey privPath ;;
  match k with
  | Err e => Ret (Some e)
  | Ok key =>
      a <- call (ReadFile bundlePath) ;;
      match a with
      | Data bundle =>
          e <- call (WriteFile sigPath (EncodeToString StdAlphabet true (ed25519_Sign key bundle) +:+ newline)) ;;
          Ret match e with Some e => Some ("write signature: " +:+ e) | None => None end
      | a => Ret (Some ("read bundle: " +:+ read_error a))
      end
  end.

(** [run], its flags parsed (package flag): the lines it logs, or its error. *)
Record flags := { fl_genkey : bool; fl_priv : string; fl_pub : string; fl_bundle : string; fl_out : string }.
Definition run_tool (f : flags) : prog E (res string) :=
  if fl_genkey f then
    if String.eqb (fl_priv f) "" || String.eqb (fl_pub f) "" then Ret (Err "-genkey requires -priv <out> and -pub <out>")
    else
      e <- generateKeypair (fl_priv f) (fl_pub f) ;;
      Ret match e with
          | Some e => Err e
          | None => Ok ("wrote private key " +:+ fl_priv f +:+ " and public key " +:+ fl_pub f +:+ newline)
          end
  else if String.eqb (fl_priv f) "" || String.eqb (fl_bundle f) "" then
    Ret (Err "signing requires -priv <key.pem> and -bundle <path.wasm> (or use -genkey)")
  else
    let sigPath := if String.eqb (fl_out f) "" then defaultSignaturePath (fl_bundle f) else fl_out f in
    e <- signBundle (fl_priv f) (fl_bundle f) sigPath ;;
    Ret match e with Some e => Err e | None => Ok ("wrote signature " +:+ sigPath +:+ newline) end.
End sign.
