(* ===== verification/BundleSignFacts.v ===== *)
(** * What the signing tool signs, the proxy accepts

    The tool run against a file system, and the proxy's verification of the
    files it leaves there. *)

From S2P Require Import Prelude.
From S2P Require Import GoStrings.
From S2P Require Import Effects.
From S2P Require Import Base64.
From S2P Require Import Sha256.
From S2P Require Import Policy.
From S2P Require Import BundleSign.

(** ** A line of visible characters, trimmed *)
Definition printable (x : string) : Prop := Forall (λ c, 32 < c < 128) (bytes_of x).

(** None of [ps] begins with a visible ASCII character. *)
Definition blank_heads (ps : list string) : bool :=
  forallb (λ p, match p with
                | String d _ => (byte_of d <=? 32) || (128 <=? byte_of d)
                | "" => false end) ps.

Lemma cut_any_printable ps c x : blank_heads ps = true → 32 < byte_of c < 128 → cut_any ps (String c x) = None.
Proof.
  intros Hps Hc. induction ps as [|[|d p] ps IH]; [done..|].
  cbn [blank_heads forallb] in Hps. apply andb_true_iff in Hps as [Hd Hps].
  cbn [cut_any cut_prefix]. destruct (Ascii.eqb_spec d c) as [->|]; [bool_prop; lia|auto].
Qed.

Lemma trim_left_printable n ps x : blank_heads ps = true → printable x → trim_left_aux n ps x = x.
Proof.
  intros Hps Hx. destruct n as [|n]; [done|]. destruct x as [|c x]; cycle 1.
  - apply Forall_cons in Hx as [Hc _]. cbn [trim_left_aux]. by rewrite cut_any_printable.
  - cbn [trim_left_aux]. replace (cut_any ps "") with (@None string); [done|].
    clear Hx n. induction ps as [|[|d p] ps IH]; [done..|].
    cbn [blank_heads forallb] in Hps. apply andb_true_iff in Hps as [_ Hps]. cbn. by apply IH.
Qed.

Lemma rev_string_printable x : printable x → printable (rev_string x).
Proof.
  unfold printable. induction x as [|c x IH]; intros Hx; [done|]. apply Forall_cons in Hx as [Hc Hx].
  unfold bytes_of in *. rewrite rev_string_cons, bytes_app_ascii, fmap_app. apply Forall_app. split; [auto|]. by apply Forall_singleton.
Qed.

Lemma TrimSpace_line x : x ≠ "" → printable x → TrimSpace (x +:+ newline) = x.
Proof.
  intros Hne Hx. unfold TrimSpace, trim_left at 2.
  assert (trim_left_aux (String.length (x +:+ newline)) space_encodings (x +:+ newline) = x +:+ newline) as ->.
  { destruct x as [|c x]; [done|]. apply Forall_cons in Hx as [Hc _].
    cbn [String.length String.append trim_left_aux]. by rewrite cut_any_printable. }
  rewrite rev_string_app. unfold trim_left.
  change (rev_string newline +:+ rev_string x) with (String "010" (rev_string x)).
  cbn [String.length trim_left_aux].
  change (cut_any (rev_string <$> space_encodings) (String "010" (rev_string x))) with (Some (rev_string x)).
  cbv iota. rewrite trim_left_printable; [apply rev_string_invol|done|by apply rev_string_printable].
Qed.

Lemma TrimSpace_printable x : printable x → TrimSpace x = x.
Proof.
  intros Hx. unfold TrimSpace, trim_left.
  rewrite (trim_left_printable _ space_encodings x) by done.
  rewrite trim_left_printable; [apply rev_string_invol|done|by apply rev_string_printable].
Qed.

Lemma encoded_printable al padded s : printable (EncodeToString al padded s).
Proof.
  pose proof (enc_chars al padded (bytes_of s) (bytes_of_range s)) as Hc.
  unfold printable, EncodeToString. rewrite bytes_of_of.
  - eapply Forall_impl; [exact Hc|]. intros ? [? _]. cbn beta. lia.
  - eapply Forall_impl; [exact Hc|]. intros ? [? _]. cbn beta. lia.
Qed.

Lemma encoded_length s :
  String.length (EncodeToString StdAlphabet true s) = (4 * ((String.length s + 2) / 3))%nat.
Proof.
  assert (∀ x, String.length x = length (bytes_of x)) as Hl.
  { intros x. induction x as [|c x IH]; [done|]. unfold bytes_of in *. cbn. by rewrite IH. }
  rewrite !Hl. unfold EncodeToString. rewrite bytes_of_of; cycle 1.
  { eapply Forall_impl; [apply enc_chars, bytes_of_range|]. intros ? [? _]. cbn beta. lia. }
  generalize (bytes_of s) as l. intros l. induction l as [|a|a b|a b c l IH] using list_ind3; [done..|].
  cbn [enc length]. rewrite IH. replace (S (S (S (length l))) + 2)%nat with (1 * 3 + (length l + 2))%nat by lia.
  rewrite Nat.div_add_l by lia. lia.
Qed.

(** A signature in base64 on a line of its own is read back. *)
Lemma decodeSignature_line base64_error sig :
  String.length sig = 64%nat →
  decodeSignature base64_error (EncodeToString StdAlphabet true sig +:+ newline) = Ok sig.
Proof.
  intros Hl. unfold decodeSignature.
  assert (String.length (EncodeToString StdAlphabet true sig +:+ newline) =? 64 = false)%nat as ->.
  { by rewrite length_app_str, encoded_length, Hl. }
  assert (EncodeToString StdAlphabet true sig ≠ "") as Hne.
  { intros He. pose proof (DecodeString_EncodeToString StdAlphabet true sig) as Hd.
    rewrite He in Hd. apply (f_equal (option_map String.length)) in Hd. cbn [option_map] in Hd.
    rewrite Hl in Hd. vm_compute in Hd. discriminate. }
  rewrite TrimSpace_line by (done || apply encoded_printable).
  unfold std_decode. by rewrite DecodeString_EncodeToString, Hl.
Qed.

(** ** The tool and the proxy on one file system *)
Variant toolE : Type → Type :=
| T_Stat (p : string) : toolE (res Z)
| T_Read (p : string) : toolE read_answer
| T_Write (p d : string) : toolE (option string)
| T_Create (p d : string) : toolE (res (option string))
| T_Generate : toolE (res (string * string)).
#[global] Instance tool_file : FileE toolE := {| Stat := T_Stat; ReadFile := T_Read |}.
#[global] Instance tool_sign : SignE toolE :=
  {| WriteFile := T_Write; CreateExclusive := T_Create; GenerateKey := T_Generate |}.

(** A file system that answers; [keys] is the pair the next generation gives. *)
Definition disk (keys : string * string) : handler toolE (gmap string string) := λ X e fs,
  match e in toolE X return X * gmap string string with
  | T_Stat p => (match fs !! p with Some _ => Ok 0 | None => Err "no such file" end, fs)
  | T_Read p => (match fs !! p with Some d => Data d | None => NotExist "no such file" end, fs)
  | T_Write p d => (None, <[p := d]> fs)
  | T_Create p d => match fs !! p with
                    | Some _ => (Err "file exists", fs)
                    | None => (Ok None, <[p := d]> fs) end
  | T_Generate => (Ok keys, fs)
  end.

Section roundtrip.
Context `{Unicode} `{Ed25519} `{!Ed25519Signing} (base64_error : string → string).
Context (pub priv privDER pubDER : string).

(** What the Ed25519, x509 and PEM packages promise for one key pair. *)
Record key_pair : Prop := {
  kp_sign : ∀ m, String.length (ed25519_Sign priv m) = 64%nat ∧ ed25519_Verify pub m (ed25519_Sign priv m) = true;
  kp_priv : MarshalPKCS8PrivateKey priv = Ok privDER ∧ ParsePKCS8PrivateKey privDER = Ok (inl priv);
  kp_pub : MarshalPKIXPublicKey pub = Ok pubDER ∧ ParsePKIXPublicKey pubDER = Ok (inl pub);
  kp_pem : pem_Decode (pem_Encode "PRIVATE KEY" privDER) = Some privDER ∧
           pem_Decode (TrimSpace (pem_Encode "PUBLIC KEY" pubDER)) = Some pubDER;
  kp_pem_empty : pem_Decode "" = None }.
Context (HK : key_pair).

Lemma parse_own_key : parseEd25519PublicKey (pem_Encode "PUBLIC KEY" pubDER) = Ok pub.
Proof.
  unfold parseEd25519PublicKey. destruct (String.eqb_spec (TrimSpace (pem_Encode "PUBLIC KEY" pubDER)) "") as [He|_].
  - pose proof (kp_pem_empty HK). pose proof (proj2 (kp_pem HK)). congruence.
  - rewrite (proj2 (kp_pem HK)). by rewrite (proj2 (kp_pub HK)).
Qed.

Definition genkey_flags (privPath pubPath : string) : flags :=
  {| fl_genkey := true; fl_priv := privPath; fl_pub := pubPath; fl_bundle := ""; fl_out := "" |}.
Definition sign_flags (privPath bundlePath : string) : flags :=
  {| fl_genkey := false; fl_priv := privPath; fl_pub := ""; fl_bundle := bundlePath; fl_out := "" |}.

Lemma run_genkey fs privPath pubPath :
  privPath ≠ "" → pubPath ≠ "" → fs !! privPath = None →
  run (disk (pub, priv)) (run_tool (E := toolE) (genkey_flags privPath pubPath)) fs =
  (Ok ("wrote private key " +:+ privPath +:+ " and public key " +:+ pubPath +:+ newline),
   <[pubPath := pem_Encode "PUBLIC KEY" pubDER]> (<[privPath := pem_Encode "PRIVATE KEY" privDER]> fs)).
Proof.
  intros Hp Hu Hf. unfold run_tool. cbn [fl_genkey fl_priv fl_pub genkey_flags].
  rewrite (proj2 (String.eqb_neq _ _) Hp), (proj2 (String.eqb_neq _ _) Hu). cbn [orb].
  unfold generateKeypair. cbn [pbind call run disk GenerateKey tool_sign CreateExclusive WriteFile].
  rewrite (proj1 (kp_priv HK)), (proj1 (kp_pub HK)). cbn [pbind call run disk]. rewrite Hf. done.
Qed.

Lemma run_sign keys fs privPath bundlePath wasm :
  privPath ≠ "" → bundlePath ≠ "" →
  fs !! privPath = Some (pem_Encode "PRIVATE KEY" privDER) → fs !! bundlePath = Some wasm →
  run (disk keys) (run_tool (E := toolE) (sign_flags privPath bundlePath)) fs =
  (Ok ("wrote signature " +:+ signaturePath bundlePath +:+ newline),
   <[signaturePath bundlePath := EncodeToString StdAlphabet true (ed25519_Sign priv wasm) +:+ newline]> fs).
Proof.
  intros Hp Hb Hk Hw. unfold run_tool. cbn [fl_genkey fl_priv fl_bundle fl_out sign_flags].
  rewrite (proj2 (String.eqb_neq _ _) Hp), (proj2 (String.eqb_neq _ _) Hb). cbn [orb].
  unfold signBundle, loadPrivateKey. cbn [pbind call run disk ReadFile tool_file WriteFile tool_sign].
  rewrite Hk, (proj1 (kp_pem HK)), (proj2 (kp_priv HK)). cbn [pbind call run disk]. rewrite Hw. done.
Qed.

(** C39: signing and verifying agree. On a file system where the private key
    file does not exist yet and the four files are different, generating a key
    pair and then signing a bundle both succeed; afterwards, with the public
    key file the tool wrote, the proxy accepts exactly the bundles whose bytes
    Ed25519 verifies against the signature made - the signed bundle among
    them - and every other file is as it was. *)
Theorem signed_bundle_accepted fs privPath pubPath bundlePath wasm :
  privPath ≠ "" → pubPath ≠ "" → bundlePath ≠ "" → fs !! privPath = None → fs !! bundlePath = Some wasm →
  NoDup [privPath; pubPath; bundlePath; signaturePath bundlePath] →
  ∃ l1 l2 fs' pem,
    run (disk (pub, priv)) (r1 <- run_tool (E := toolE) (genkey_flags privPath pubPath) ;;
                            r2 <- run_tool (E := toolE) (sign_flags privPath bundlePath) ;; Ret (r1, r2)) fs
      = ((Ok l1, Ok l2), fs') ∧
    fs' !! pubPath = Some pem ∧ fs' !! bundlePath = Some wasm ∧
    (∀ wasm', fst (run (disk (pub, priv)) (verifyBundleFile (E := toolE) base64_error pem bundlePath wasm') fs') = None ↔
              ed25519_Verify pub wasm' (ed25519_Sign priv wasm) = true) ∧
    ed25519_Verify pub wasm (ed25519_Sign priv wasm) = true ∧
    ∀ p, p ∉ [privPath; pubPath; signaturePath bundlePath] → fs' !! p = fs !! p.
Proof.
  intros Hp Hu Hb Hf Hw Hnd.
  rewrite !NoDup_cons, !not_elem_of_cons in Hnd. destruct Hnd as ((?&?&?&_)&(?&?&_)&(?&_)&_).
  eexists _, _, _, (pem_Encode "PUBLIC KEY" pubDER).
  split; [|split; [|split; [|split; [|split]]]].
  - rewrite run_bind, run_genkey by done. rewrite run_bind, (run_sign _ _ _ _ wasm); [reflexivity|done..| |].
    + by rewrite lookup_insert_ne, lookup_insert_eq.
    + by rewrite !lookup_insert_ne.
  - by rewrite lookup_insert_ne, lookup_insert_eq.
  - by rewrite !lookup_insert_ne.
  - intros wasm'. unfold verifyBundleFile. cbn [pbind call run disk ReadFile tool_file fst].
    rewrite lookup_insert_eq. unfold verifyBundleSignature. rewrite parse_own_key.
    rewrite decodeSignature_line by apply (kp_sign HK). by case_match.
  - apply (kp_sign HK).
  - intros p Hin. rewrite !not_elem_of_cons in Hin. destruct Hin as (?&?&?&_). by rewrite !lookup_insert_ne.
Qed.
End roundtrip.

(** An existing private key is never overwritten: nothing is written at all. *)
Lemma existing_key_kept `{Unicode} `{Ed25519} `{!Ed25519Signing} keys fs privPath pubPath old :
  fs !! privPath = Some old →
  is_ok (fst (run (disk keys) (run_tool (E := toolE) (genkey_flags privPath pubPath)) fs)) = false ∧
  snd (run (disk keys) (run_tool (E := toolE) (genkey_flags privPath pubPath)) fs) = fs.
Proof.
  intros Hf. unfold run_tool. cbn [fl_genkey fl_priv fl_pub genkey_flags]. case_match; [done|].
  unfold generateKeypair. cbn [pbind call run disk GenerateKey tool_sign CreateExclusive WriteFile].
  destruct keys as [pub priv]. destruct (MarshalPKCS8PrivateKey priv); [|done].
  destruct (MarshalPKIXPublicKey pub); [|done]. cbn [pbind call run disk]. by rewrite Hf.
Qed.

#[local] Existing Instance ascii_unicode.

(** A toy scheme that keeps the promises: what witnesses compute with. *)
Definition pad64 : string := of_bytes (replicate 64 65).
Definition toy_sign (k m : string) : string := String.substring 0 64 (k +:+ m +:+ pad64).
#[local] Instance toy_verify : Ed25519 :=
  {| ed25519_Verify := λ pub m sig, String.eqb sig (toy_sign pub m);
     pem_Decode := λ s, cut_prefix "x" s; ParsePKIXPublicKey := λ s, Ok (inl s) |}.
#[local] Instance toy_signing : Ed25519Signing :=
  {| ed25519_Sign := toy_sign; MarshalPKCS8PrivateKey := Ok; ParsePKCS8PrivateKey := λ s, Ok (inl s);
     MarshalPKIXPublicKey := Ok; pem_Encode := λ _ s, "x" +:+ s |}.

Lemma length_substring n s : (n ≤ String.length s)%nat → String.length (String.substring 0 n s) = n.
Proof.
  revert n. induction s as [|c s IH]; intros [|n] Hn; cbn in *; [done|lia|done|]. rewrite IH by lia. done.
Qed.

Lemma signed_bundle_accepted_witness :
  let fs : gmap string string := {[ "p.wasm" := "code" ]} in
  ∃ l1 l2 fs' pem,
    run (disk ("k", "k")) (r1 <- run_tool (E := toolE) (genkey_flags "priv" "pub") ;;
                           r2 <- run_tool (E := toolE) (sign_flags "priv" "p.wasm") ;; Ret (r1, r2)) fs
      = ((Ok l1, Ok l2), fs') ∧
    fs' !! "pub" = Some pem ∧ fs' !! "p.wasm" = Some "code" ∧
    (∀ wasm', fst (run (disk ("k", "k")) (verifyBundleFile (E := toolE) id pem "p.wasm" wasm') fs') = None ↔
              ed25519_Verify "k" wasm' (ed25519_Sign "k" "code") = true) ∧
    ed25519_Verify "k" "code" (ed25519_Sign "k" "code") = true ∧
    ∀ p : string, p ∉ ["priv"; "pub"; "p.wasm.sig"] → fs' !! p = fs !! p.
Proof.
  apply (@signed_bundle_accepted ascii_unicode toy_verify toy_signing id "k" "k" "k" "k"); try done.
  - split; try done. intros m. split; [|by apply String.eqb_refl].
    apply length_substring. rewrite !length_app_str. vm_compute String.length at 3. lia.
  - by apply (bool_decide_eq_true_1 _); vm_compute.
Defined.
