(* ===== verification/AuthMain.v ===== *)
(** * How the auth server is put together (cmd/accessgate-auth/main.go)

    From a loaded configuration: one Redis store and one configured provider
    plugin per connector, the service over them, handoff on the default
    connector's store, and the HTTP server. A store is the Redis program of
    its operation under the connector's key layout; a provider's state lives
    in the plugin the connector was given. Redis itself and the
    providers' HTTP are outside; the process around it is in Lifecycle. *)

From S2P Require Import Prelude.
From S2P Require Import GoStrings.
From S2P Require Import Effects.
From S2P Require Import GoAny.
From S2P Require Import Cookie.
From S2P Require Import Handoff.
From S2P Require Import Session.
From S2P Require Import Redis.
From S2P Require Import AuthConfig.
From S2P Require Import Token.
From S2P Require Import AuthService.
From S2P Require Import AuthFlows.
From S2P Require Import Registry.
From S2P Require Import Ratelimit.
From S2P Require Import Oidc.
From S2P Require Import Manifest.
From S2P Require Import AuthServer.

(** The objects the service calls: the Redis client of a URL, and the plugin
    of a connector, by the connector's id. [F] is what a plugin itself calls. *)
Class AuthObjectsE (E F : Type → Type) := {
  RedisParseURL : string → E (option string);
  RedisClose : E (option string);
  RedisDo : ∀ A, prog redisE A → E A;
  ProviderDo : ∀ A, string → OidcPlugin → (OidcPlugin → prog F (OidcPlugin * A)) → E A;
  ServeAuthMetrics : E unit }.
Arguments RedisDo {E F _ A}.
Arguments ProviderDo {E F _ A}.

Section provider.
Context `{Unicode} `{MapRange} `{JsonErrors}.

Definition providerCfg (cc : ConnectorConfig) : any :=
  AMap [("issuer", AStr (cc_OIDCIssuer cc)); ("client_id", AStr (cc_OIDCClientID cc));
        ("client_secret", AStr (cc_OIDCClientSecret cc)); ("redirect_uri", AStr (cc_OIDCRedirectURI cc));
        ("scopes", AStrs (cc_OIDCScopes cc)); ("claims_source", AStr (cc_OIDCClaimsSource cc));
        ("audience", AStr (cc_OIDCAudience cc))].

Definition provider_id (cc : ConnectorConfig) : string :=
  let id := TrimSpace (cc_ProviderPluginID cc) in
  if String.eqb id "" then "provider:oidc"
  else if negb (Contains id ":") then "provider:" +:+ id else id.

(** Only the OIDC plugin is a provider, and it is configurable. *)
Definition buildProviderPlugin (cc : ConnectorConfig) : res OidcPlugin :=
  match RegisterBuiltins NewRegistry with
  | Err e => Err e
  | Ok reg =>
      let id := provider_id cc in
      match RegistrationFor reg id with
      | None => Err ("provider plugin " +:+ Quote id +:+ " not registered")
      | Some regEntry =>
          match run_factory (Factory regEntry) (Descriptor regEntry) with
          | Err e => Err e
          | Ok (RatelimitPlugin _) => Err ("provider plugin " +:+ Quote id +:+ " does not implement ProviderPlugin")
          | Ok (OidcProvider p) => oidc_Configure p (providerCfg cc)
          end
      end
  end.
End provider.

Section start.
Context `{Unicode} `{MapRange} `{JsonErrors} {E F : Type → Type} `{!HttpGetE F} `{!FormPostE F} `{!LogE E}.
Context `{!AuthObjectsE E F}.

(** The pages a scan of the sessions may take. *)
Context (pages : nat).

(** ** The stores of a connector *)
Definition redis_sessions (layout : KeyLayout) : SessionStore E :=
  {| SS_Get id := RedisDo (getSession layout id);
     SS_Set id s ttl := RedisDo (setSession layout id s ttl);
     SS_Delete id := RedisDo (deleteSession layout id) |}.
Definition redis_pkce (layout : KeyLayout) : PKCEStore E :=
  {| PS_Get id := RedisDo (getPKCE layout id);
     PS_Set id p ttl := RedisDo (setPKCE layout id p ttl);
     PS_Delete id := RedisDo (deletePKCE layout id) |}.
Definition redis_lock (layout : KeyLayout) : RefreshLockStore E :=
  {| RL_Obtain id ttl := RedisDo (obtainRefreshLock layout id ttl);
     RL_Release id := RedisDo (releaseRefreshLock layout id) |}.
Definition redis_finder (layout : KeyLayout) (subject email : string) : E (res (option Session)) :=
  RedisDo (r <- FindSessionBySubjectEmail layout pages subject email ;;
           Ret (default (Err "scan not finished") r)).
Definition redis_pinger (layout : KeyLayout) : Pinger E :=
  {| AuthServer.Ping := RedisDo Redis.Ping;
     pg_Delete := Some (λ subject email,
       RedisDo (r <- DeleteSessionsBySubjectEmail layout pages subject email ;;
                Ret match r with
                    | None => Err "scan not finished"
                    | Some (_, Some e) => Err e
                    | Some (n, None) => Ok n
                    end));
     pg_Find := Some (redis_finder layout) |}.
(** The one-time store of the handoff tickets. *)
Definition redis_once (layout : KeyLayout) : OnceStore E := λ key ttl, RedisDo (redis_ConsumeOnce layout key ttl).

(** [redis.New]. *)
Definition NewStore (url : string) : prog E (option string) :=
  r <- call (RedisParseURL url) ;;
  match r with
  | Some e => Ret (Some ("redis url: " +:+ e))
  | None =>
      r <- call (RedisDo Redis.Ping) ;;
      match r with
      | Some e => call RedisClose ;;; Ret (Some ("redis ping: " +:+ e))
      | None => Ret None
      end
  end.

(** ** The provider of a connector *)
Definition provider_of (id : string) (p : OidcPlugin) : ProviderPlugin E :=
  {| AuthorizationURL state challenge nonce extra :=
       ProviderDo id p (λ p, plugin_AuthorizationURL p state challenge nonce extra);
     ExchangeCode code verifier redirectURI := ProviderDo id p (λ p, plugin_ExchangeCode p code verifier redirectURI);
     ProviderRefresh token := ProviderDo id p (λ p, plugin_Refresh p token);
     EndSessionURL hint redirectURI := ProviderDo id p (λ p, plugin_EndSessionURL p hint redirectURI) |}.

Definition wire (cc : ConnectorConfig) (p : OidcPlugin) : Connector E :=
  let layout := connector_KeyLayout cc in
  {| K_Config := cc; K_Provider := Some (provider_of (cc_ID cc) p); K_Sessions := redis_sessions layout;
     K_PKCE := redis_pkce layout; K_RefreshLock := redis_lock layout; K_Finder := Some (redis_finder layout) |}.

(** The loop over the connectors; the layout of the default store so far. *)
Fixpoint connect (url : string) (l : list ConnectorConfig) (acc : list (Connector E)) (dflt : option KeyLayout)
    : prog E (res (list (Connector E) * option KeyLayout)) :=
  match l with
  | [] => Ret (Ok (acc, dflt))
  | cc :: l =>
      r <- NewStore url ;;
      match r with
      | Some e => Ret (Err ("redis (connector " +:+ cc_ID cc +:+ "): " +:+ e))
      | None =>
          match buildProviderPlugin cc with
          | Err e => Ret (Err ("provider plugin (connector " +:+ cc_ID cc +:+ "): " +:+ e))
          | Ok p =>
              let layout := connector_KeyLayout cc in
              connect url l (acc ++ [wire cc p])
                (if cc_Default cc || match dflt with None => true | Some _ => false end then Some layout else dflt)
          end
      end
  end.

(** What is served: the HTTP server, and the store that makes its tickets
    one-time. *)
Record AuthApp := { app_server : AuthServer E; app_once : OnceStore E }.

(** [logger.Fatalf]: the message is logged and the process ends. *)
Definition fatal {A} (msg : string) : prog E (res A) := call (Log msg) ;;; Ret (Err msg).

(** The default store is nil only when there are no connectors, which the
    service refuses. *)
Definition start (loaded : res AuthConfig.Config) : prog E (res AuthApp) :=
  call (Log "starting accessgate-auth") ;;;
  match loaded with
  | Err e => fatal ("config load: " +:+ e)
  | Ok cfg =>
      r <- connect (RedisURL cfg) (Connectors cfg) [] None ;;
      match r with
      | Err e => fatal e
      | Ok (connectors, dflt) =>
          match NewMultiConnector cfg connectors (NewSignedManager (CookieSigningSecret cfg)) true, dflt with
          | Err e, _ => fatal ("service: " +:+ e)
          | Ok _, None => fatal "service: at least one connector is required"
          | Ok svc, Some layout =>
              let svc := EnableHandoff svc true 0 in
              Ret (Ok {| app_server := {| as_svc := svc; as_cfg := s_cfg svc; as_ping := Some (redis_pinger layout);
                                          as_metricsHandler := Some ServeAuthMetrics |};
                         app_once := redis_once layout |})
          end
      end
  end.
End start.

(** [loadConfig]: the file the configuration is read from. *)
Definition config_path (env : string → string) : string :=
  or_str (env "CONFIG_PATH") (or_str (env "AUTH_CONFIG") (env "AGENT_CONFIG")).
