(* ===== verification/AuthMainFacts.v ===== *)
(** * The auth server as it is put together

    A start that succeeds serves every connector of the configuration from its
    own Redis keys and its own OIDC client. *)

From S2P Require Import Prelude.
From S2P Require Import GoStrings.
From S2P Require Import Utf8Facts.
From S2P Require Import Effects.
From S2P Require Import GoAny.
From S2P Require Import Json.
From S2P Require Import JsonFacts.
From S2P Require Import Cookie.
From S2P Require Import Handoff.
From S2P Require Import Session.
From S2P Require Import Redis.
From S2P Require Import AuthConfig.
From S2P Require Import Token.
From S2P Require Import AuthService.
From S2P Require Import AuthFlows.
From S2P Require Import AuthEnv.
From S2P Require Import AuthAccess.
From S2P Require Import Registry.
From S2P Require Import Ratelimit.
From S2P Require Import Oidc.
From S2P Require Import Manifest.
From S2P Require Import AuthServer.
From S2P Require Import AuthMain.

Section provider.
Context `{Unicode} `{MapRange} `{JsonErrors}.








End provider.

Section start.
Context `{Unicode} `{MapRange} `{JsonErrors} {E F : Type → Type} `{!HttpGetE F} `{!FormPostE F} `{!LogE E}.
Context `{!AuthObjectsE E F} (pages : nat).







End start.

#[local] Existing Instance ascii_unicode.
#[local] Existing Instance sorted_range.
#[local] Instance start_errors : JsonErrors := {| marshal_error := λ _, ""; unmarshal_error := λ _, "" |}.

(** ** A start on an empty Redis *)
Variant wireE : Type → Type :=
| W_Get (url : string) : wireE (res (Z * string))
| W_Post (url body : string) : wireE (res (Z * string)).
#[local] Instance wire_get : HttpGetE wireE := W_Get.
#[local] Instance wire_post : FormPostE wireE := W_Post.
Variant startE : Type → Type :=
| St_Log (s : string) : startE unit
| St_Parse (url : string) : startE (option string)
| St_Close : startE (option string)
| St_Redis A (p : prog redisE A) : startE A
| St_Provider A (id : string) (p : OidcPlugin) (f : OidcPlugin → prog wireE (OidcPlugin * A)) : startE A
| St_Metrics : startE unit.
#[local] Instance start_log : LogE startE := St_Log.
#[local] Instance start_objects : AuthObjectsE startE wireE :=
  {| RedisParseURL := St_Parse; RedisClose := St_Close; RedisDo := St_Redis; ProviderDo := St_Provider;
     ServeAuthMetrics := St_Metrics |}.



