(* ===== verification/BrowserSession.v ===== *)
(** * Cookie values and browser sessions (pkg/cookie/codec.go, encrypt.go,
    internal/session/store.go)

    A value as JSON, sealed with AES-256-GCM or not, in URL base64; and the
    sessions of browsers, whose cookie carries only the session's id. The
    session manager is written against a codec and a store: a codec is a
    record of its two functions, and the law it owes its clients a class,
    which the signed codec discharges. AES-GCM is external. *)

From S2P Require Import Prelude.
From S2P Require Import GoStrings.
From S2P Require Import Effects.
From S2P Require Import GoAny.
From S2P Require Import Base64.
From S2P Require Import Sha256.
From S2P Require Import Json.
From S2P Require Import JsonFacts.
From S2P Require Import Cookie.
From S2P Require Import Session.
From S2P Require Import AuthService.

(** crypto/aes and crypto/cipher: GCM under a 32-byte key and a 12-byte nonce,
    no additional data. *)
Class AEAD := {
  gcm_Seal : string → string → string → string;
  gcm_Open : string → string → string → option string }.

Definition aesGCMNonceSize : Z := 12.
Definition aesGCMTagSize : Z := 16.
Definition aesKeySize : Z := 32.
Definition ErrDecrypt : string := "cookie: decrypt failed".
Definition ErrCodecDecode : string := "cookie: decode failed".

Definition deriveKey (key : string) : string := if len key =? aesKeySize then key else sha256_string key.

(** ** Cookie values *)
Section value.
Context `{AEAD}.

Definition decrypt (ciphertext key : string) : res string :=
  if len ciphertext <=? aesGCMNonceSize + aesGCMTagSize then Err ErrDecrypt
  else
    let nonce := String.substring 0 12 ciphertext in
    let sealed := String.substring 12 (String.length ciphertext - 12) ciphertext in
    match gcm_Open (deriveKey key) nonce sealed with
    | Some plain => Ok plain
    | None => Err ErrDecrypt
    end.

(** [json.Unmarshal] of the plain bytes, by the destination's type. *)
Definition DecodeValue {A} (unmarshal : string → option A) (raw key : string) : res A :=
  match url_decode raw with
  | None => Err ErrCodecDecode
  | Some data =>
      let plain := if 0 <? len key then decrypt data key
                   else match url_decode data with Some d => Ok d | None => Err ErrCodecDecode end in
      match plain with
      | Err e => Err e
      | Ok plain => match unmarshal plain with Some v => Ok v | None => Err ErrCodecDecode end
      end
  end.

Context {E : Type → Type} `{!RandE E}.

(** [io.ReadFull] of the random source fills the nonce or fails. *)
Definition encrypt (plaintext key : string) : prog E (res string) :=
  if len plaintext =? 0 then Ret (Ok "")
  else
    r <- call (RandRead 12) ;;
    Ret match r with
        | Err e => Err e
        | Ok nonce => Ok (nonce +:+ gcm_Seal (deriveKey key) nonce plaintext)
        end.

Definition EncodeValue (marshal_error : any → string) (v : any) (key : string) : prog E (res string) :=
  match json_of_any v with
  | None => Ret (Err (marshal_error v))
  | Some j =>
      if 0 <? len key then
        r <- encrypt (print j) key ;;
        Ret match r with Err e => Err e | Ok data => Ok (url_encode data) end
      else Ret (Ok (url_encode (url_encode (print j))))
  end.
End value.

(** ** Browser sessions *)
Record Codec := { codec_enc : string → res string; codec_dec : string → res string }.
(** What a codec promises: an encoded id is not empty and decodes to the id. *)
Class CodecLaws (c : Codec) := {
  codec_round_trip : ∀ id v, codec_enc c id = Ok v → codec_dec c v = Ok id;
  codec_not_empty : ∀ id v, codec_enc c id = Ok v → v ≠ "" }.

Definition SignedCodec (m : SignedManager) : Codec :=
  {| codec_enc := codec_Encode m; codec_dec := codec_Decode m |}.

Section manager.
Context {E : Type → Type} (store : SessionStore E).

Record BrowserSessionManager := {
  bm_codec : Codec; bm_cookieConfig : SessionCookieConfig; bm_keyLayout : KeyLayout }.
Context (m : BrowserSessionManager).

(** The cookie written on the response, when one is; a nil session is [None]. *)
Definition StartSession (sess : option Session) (ttlSeconds : Z) : prog E (res (option http_cookie)) :=
  match sess with
  | None => Ret (Ok None)
  | Some sess =>
      if String.eqb (s_ID sess) "" then Ret (Ok None)
      else
        e <- call (SS_Set (s_ID sess) sess ttlSeconds) ;;
        Ret match e with
            | Some e => Err e
            | None =>
                match codec_enc (bm_codec m) (s_ID sess) with
                | Err e => Err e
                | Ok value => Ok (Some (WriteOutCookie {| oc_Name := scc_Name (bm_cookieConfig m); oc_Value := value;
                                                          oc_Options := cookie_Options (bm_cookieConfig m) |}))
                end
            end
  end.

(** The id a request's cookie carries, when it carries one. *)
Definition cookie_id (cookies : list (string * string)) : option string :=
  match request_cookie cookies (scc_Name (bm_cookieConfig m)) with
  | Some value =>
      if String.eqb value "" then None
      else match codec_dec (bm_codec m) value with
           | Ok id => if String.eqb id "" then None else Some id
           | Err _ => None
           end
  | None => None
  end.
Definition ResolveSession (cookies : list (string * string)) : prog E (res (option Session)) :=
  match cookie_id cookies with
  | None => Ret (Ok None)
  | Some id => call (SS_Get id)
  end.

Definition expired_options : CookieOptions :=
  let o := cookie_Options (bm_cookieConfig m) in
  {| Path := Path o; Domain := Domain o; Secure := Secure o; HTTPOnly := HTTPOnly o; Same := Same o; MaxAge := -1 |}.
(** A failure to delete is dropped. *)
Definition EndSession (cookies : list (string * string)) : prog E http_cookie :=
  match cookie_id cookies with
  | Some id => call (SS_Delete id) ;;; Ret tt
  | None => Ret tt
  end ;;;
  Ret (WriteOutCookie {| oc_Name := scc_Name (bm_cookieConfig m); oc_Value := ""; oc_Options := expired_options |}).

Definition SessionFromCookie (cookieValue : string) (decodeCookie : string → res string) : prog E (res (option Session)) :=
  if String.eqb cookieValue "" then Ret (Ok None)
  else match decodeCookie cookieValue with
       | Err e => Ret (Err e)
       | Ok sessionID => call (SS_Get sessionID)
       end.
End manager.

(** ** The signed codec keeps the promise *)
#[global] Instance signed_codec_laws m : CodecLaws (SignedCodec m).
Proof.
  split; cbn [codec_enc codec_dec SignedCodec].
  - intros id v Hv. eapply codec_round; [left|exact Hv].
  - intros id v Hv. unfold codec_Encode, Encode in Hv. cbn [as_string] in Hv. injection Hv as <-.
    intros [_ [=]]%app_nil_inv.
Qed.

(** ** Values *)
Section value_facts.
Context `{AEAD} {E : Type → Type} `{!RandE E} (marshal_error : any → string).

Lemma substring_app n s t : String.length s = n → String.substring 0 n (s +:+ t) = s ∧
  String.substring n (String.length (s +:+ t) - n) (s +:+ t) = t.
Proof.
  intros <-. assert (∀ x, String.substring 0 (String.length x) x = x) as Hall.
  { induction x as [|c x IH]; [done|]. cbn. by rewrite IH. }
  induction s as [|c s [IH1 IH2]]; cbn in *.
  - split; [by destruct t|]. by rewrite Nat.sub_0_r.
  - by rewrite IH1.
Qed.

(** What GCM promises under one key. *)
Record gcm_laws (k : string) : Prop := {
  gcm_open_seal : ∀ n p, String.length n = 12%nat → gcm_Open k n (gcm_Seal k n p) = Some p;
  gcm_overhead : ∀ n p, len (gcm_Seal k n p) = len p + aesGCMTagSize }.

(** A cookie value is read back as it was written. What [EncodeValue] makes
    of a value, keyed or not, [DecodeValue] under the same key hands to the
    destination as exactly the value's JSON - whenever GCM opens what it
    sealed and the random source filled the nonce. *)
Theorem cookie_value_roundtrip v j key tr raw
    (Hj : json_of_any v = Some j) (Hne : print j ≠ "")
    (Hx : exec (EncodeValue marshal_error v key) tr (Ok raw))
    (Hn : ∀ nonce, Ev (RandRead 12) (Ok nonce) ∈ tr → String.length nonce = 12%nat)
    (Hg : key ≠ "" → gcm_laws (deriveKey key)) :
  ∀ A (unmarshal : string → option A),
    DecodeValue unmarshal raw key = match unmarshal (print j) with Some a => Ok a | None => Err ErrCodecDecode end.
Proof.
  intros A unmarshal. unfold EncodeValue in Hx. rewrite Hj in Hx. unfold DecodeValue.
  destruct (0 <? len key) eqn:Ek; cycle 1.
  { destruct Hx as [_ [= <-]]. unfold url_decode, url_encode. by rewrite !DecodeString_EncodeToString. }
  assert (key ≠ "") as Hk by (intros ->; discriminate Ek).
  apply exec_bind in Hx as (r & t1 & t2 & -> & He & Hx). unfold encrypt in He.
  destruct (len (print j) =? 0) eqn:El.
  { exfalso. apply Z.eqb_eq in El. destruct (print j); [done|]. unfold len in El. cbn [String.length] in El. lia. }
  destruct He as (x & t3 & -> & Hr). destruct x as [nonce|e]; destruct Hr as [-> <-]; [|by destruct Hx].
  destruct Hx as [-> [= <-]]. specialize (Hn nonce ltac:(by left)). specialize (Hg Hk).
  unfold url_decode, url_encode. rewrite DecodeString_EncodeToString. unfold decrypt.
  destruct (substring_app 12 nonce (gcm_Seal (deriveKey key) nonce (print j)) Hn) as [-> ->].
  rewrite (gcm_open_seal _ Hg) by done.
  assert (len (nonce +:+ gcm_Seal (deriveKey key) nonce (print j)) <=? aesGCMNonceSize + aesGCMTagSize = false) as ->;
    [|done].
  apply Z.leb_gt. rewrite len_app, (gcm_overhead _ Hg). unfold len in *. apply Z.eqb_neq in El. rewrite Hn.
  unfold aesGCMNonceSize, aesGCMTagSize. lia.
Qed.
End value_facts.

(** ** Sessions against a store *)
Variant sessE : Type → Type :=
| Se_Get (id : string) : sessE (res (option Session))
| Se_Set (id : string) (s : Session) (ttl : Z) : sessE (option string)
| Se_Delete (id : string) : sessE (option string).
Definition sess_store : SessionStore sessE := {| SS_Get := Se_Get; SS_Set := Se_Set; SS_Delete := Se_Delete |}.
(** A store that keeps what it is given. *)
Definition mem_store : handler sessE (gmap string Session) := λ X e m,
  match e in sessE X return X * gmap string Session with
  | Se_Get id => (Ok (m !! id), m)
  | Se_Set id s _ => (None, <[id := s]> m)
  | Se_Delete id => (None, delete id m)
  end.

(** What a session reached through a cookie went through, whatever the store
    answers: the cookie of the configured name decoded to the id looked up. *)
Lemma ResolveSession_exec {E} (store : SessionStore E) m cookies tr s :
  exec (ResolveSession store m cookies) tr (Ok (Some s)) →
  ∃ value id, request_cookie cookies (scc_Name (bm_cookieConfig m)) = Some value ∧ id ≠ "" ∧
    codec_dec (bm_codec m) value = Ok id ∧ tr = [Ev (SS_Get id) (Ok (Some s))].
Proof.
  unfold ResolveSession, cookie_id. destruct (request_cookie _ _) as [value|]; [|by intros [_ [=]]].
  destruct (String.eqb_spec value ""); [by intros [_ [=]]|].
  destruct (codec_dec (bm_codec m) value) as [id|] eqn:Ed; [|by intros [_ [=]]].
  destruct (String.eqb_spec id ""); [by intros [_ [=]]|].
  intros (x & tr' & -> & -> & ->). by exists value, id.
Qed.

(** C40: the life of a browser session. With a codec that keeps its promise,
    starting a session stores it under its id and issues one cookie with the
    configured name and attributes; a request that brings that cookie back -
    among any others - resolves to that very session, and one without it to
    none; ending the session with it clears the cookie and deletes exactly
    that session, after which the same cookie resolves to none. *)
Theorem browser_session_life (m : BrowserSessionManager) `{!CodecLaws (bm_codec m)} sess ttl value sessions
    (Hid : s_ID sess ≠ "") (Hv : codec_enc (bm_codec m) (s_ID sess) = Ok value) :
  let name := scc_Name (bm_cookieConfig m) in
  let c := cookie_Set name value (cookie_Options (bm_cookieConfig m)) in
  let sessions1 := <[s_ID sess := sess]> sessions in
  run mem_store (StartSession sess_store m (Some sess) ttl) sessions = (Ok (Some c), sessions1) ∧
  (∀ cookies, request_cookie cookies name = None → run mem_store (ResolveSession sess_store m cookies) sessions1 = (Ok None, sessions1)) ∧
  ∀ cookies, request_cookie cookies name = Some (hc_value c) →
    run mem_store (ResolveSession sess_store m cookies) sessions1 = (Ok (Some sess), sessions1) ∧
    run mem_store (EndSession sess_store m cookies) sessions1 =
      (cookie_Clear name (cookie_Options (bm_cookieConfig m)), delete (s_ID sess) sessions) ∧
    run mem_store (ResolveSession sess_store m cookies) (delete (s_ID sess) sessions) =
      (Ok None, delete (s_ID sess) sessions).
Proof.
  cbv zeta. apply String.eqb_neq in Hid.
  split; [|split].
  - unfold StartSession. rewrite Hid. cbn [pbind call run mem_store SS_Set sess_store]. by rewrite Hv.
  - intros cookies Hc. unfold ResolveSession, cookie_id. by rewrite Hc.
  - intros cookies Hc. cbn [hc_value cookie_Set] in Hc.
    assert (cookie_id m cookies = Some (s_ID sess)) as Hci.
    { unfold cookie_id. rewrite Hc, (proj2 (String.eqb_neq _ _) (codec_not_empty _ _ Hv)).
      by rewrite (codec_round_trip _ _ Hv), Hid. }
    unfold ResolveSession, EndSession. rewrite Hci. cbn [pbind call run mem_store SS_Get SS_Delete sess_store].
    by rewrite lookup_insert_eq, delete_insert_eq, lookup_delete_eq.
Qed.

Definition demo_manager : BrowserSessionManager :=
  {| bm_codec := SignedCodec (NewSignedManager "0123456789abcdef"); bm_cookieConfig := DefaultSessionCookieConfig "sid";
     bm_keyLayout := DefaultKeyLayout |}.
Definition demo_browser_session : Session :=
  {| s_ID := "abc"; AccessToken := "at"; RefreshToken := ""; IDToken := ""; ExpiresAt := 0; Claims := None;
     s_Tenant := None |}.

Lemma browser_session_life_witness :
  ∃ value, run mem_store (ResolveSession sess_store demo_manager [("other", "x"); ("sid", value)])
             {[ "abc" := demo_browser_session ]} =
           (Ok (Some demo_browser_session), {[ "abc" := demo_browser_session ]}).
Proof.
  destruct (codec_enc (bm_codec demo_manager) "abc") as [value|e] eqn:Ev; [|vm_compute in Ev; discriminate].
  exists value.
  destruct (browser_session_life demo_manager demo_browser_session 60 value ∅) as (_ & _ & Hr); [done|exact Ev|].
  apply (Hr [("other", "x"); ("sid", value)]). reflexivity.
Defined.

#[local] Instance toy_gcm : AEAD :=
  {| gcm_Seal := λ k n p, p +:+ of_bytes (replicate 16 7);
     gcm_Open := λ k n s, Some (String.substring 0 (String.length s - 16) s) |}.
Variant randE : Type → Type := Rn_Read (n : Z) : randE (res string).
#[local] Instance rand_read : RandE randE := Rn_Read.

Lemma cookie_value_roundtrip_witness :
  let v := AMap [("sid", AStr "abc"); ("n", AInt 3)] in
  ∃ tr raw, exec (E := randE) (EncodeValue (λ _, "") v "k") tr (Ok raw) ∧
    DecodeValue parse raw "k" = Ok (JObj [("n", JNum "3"); ("sid", JStr "abc")]).
Proof.
  cbv zeta.
  set (h := (λ X (e : randE X) s, (match e in randE X return X with Rn_Read _ => Ok "abcdefghijkl" end, s)) : handler randE unit).
  set (p := EncodeValue (E := randE) (λ _, "") (AMap [("sid", AStr "abc"); ("n", AInt 3)]) "k").
  assert (is_ok (fst (run h p tt)) = true) as Hok by (vm_compute; reflexivity).
  pose proof (run_exec h p tt) as Hx.
  assert (run_trace h p tt = [Ev (RandRead 12) (Ok "abcdefghijkl")]) as Ht by (vm_compute; reflexivity).
  rewrite Ht in Hx. destruct (fst (run h p tt)) as [raw|e]; [|discriminate Hok].
  exists [Ev (RandRead 12) (Ok "abcdefghijkl")], raw. split; [exact Hx|].
  rewrite (cookie_value_roundtrip (λ _, "") (AMap [("sid", AStr "abc"); ("n", AInt 3)])
             (JObj [("n", JNum "3"); ("sid", JStr "abc")]) "k"
             [Ev (RandRead 12) (Ok "abcdefghijkl")] raw).
  - vm_compute. reflexivity.
  - vm_compute. reflexivity.
  - done.
  - exact Hx.
  - intros nonce [Hn|Hn]%elem_of_cons; [|by apply elem_of_nil in Hn].
    assert (∀ n m : res string, Ev (E := randE) (RandRead 12) n = Ev (RandRead 12) m → n = m) as Hinj.
    { intros n m He.
      exact (f_equal (λ ev : event randE, match ev with Ev e x => match e in randE X return X → res string with Rn_Read _ => λ x, x end x end) He). }
    apply Hinj in Hn. by injection Hn as ->.
  - intros _. split.
    + intros n q _. cbn [gcm_Open gcm_Seal toy_gcm].
      rewrite length_app_str. cbn [of_bytes].
      replace (String.length q + String.length (of_bytes (replicate 16 7%Z)) - 16)%nat with (String.length q) by (change (String.length (of_bytes (replicate 16 7%Z))) with 16%nat; lia).
      by rewrite (proj1 (substring_app _ q _ eq_refl)).
    + intros n q. cbn [gcm_Seal toy_gcm]. by rewrite len_app.
Defined.
