(* ===== verification/ObservabilityFacts.v ===== *)
(** * What the logger, the tracer and the counters guarantee *)

From S2P Require Import Prelude.
From S2P Require Import GoStrings.
From S2P Require Import GoAny.
From S2P Require Import Json.
From S2P Require Import GoUrl.
From S2P Require Import AuthService.
From S2P Require Import Authz.
From S2P Require Import Observability.

(** ** Replacing one byte *)
Fixpoint replace_byte (c : ascii) (new s : string) : string :=
  match s with
  | "" => ""
  | String d s' => if Ascii.eqb d c then new +:+ replace_byte c new s' else String d (replace_byte c new s')
  end.

Lemma replace_byte_app c new s t : replace_byte c new (s +:+ t) = replace_byte c new s +:+ replace_byte c new t.
Proof.
  induction s as [|d s IH]; [done|]. cbn. rewrite IH. destruct (Ascii.eqb d c); [|done]. by rewrite app_assoc_str.
Qed.

Lemma replace_byte_none c new s : no_byte c s → replace_byte c new s = s.
Proof.
  unfold no_byte. induction s as [|d s IH]; [done|]. cbn. rewrite not_elem_of_cons. intros [Hd Hs].
  destruct (Ascii.eqb_spec d c); [congruence|]. by rewrite IH.
Qed.

Lemma split_aux_ne n sep s : split_aux n sep s ≠ [].
Proof. destruct n; cbn; [done|]. by destruct (cut sep s) as [[? ?]|]. Qed.

Lemma ReplaceAll_byte c new s : ReplaceAll s (str c) new = replace_byte c new s.
Proof.
  unfold ReplaceAll, Split. assert (∀ n s, (String.length s < n)%nat →
    Join (split_aux n (str c) s) new = replace_byte c new s) as Hn; [|by apply Hn; lia].
  clear s. induction n as [|n IH]; intros s Hl; [lia|]. cbn [split_aux].
  destruct (cut (str c) s) as [[a b]|] eqn:Ec.
  - pose proof (cut_some_no_byte _ _ _ _ Ec) as Ha. apply cut_sound in Ec as ->.
    rewrite !replace_byte_app, (replace_byte_none c new a) by done.
    unfold str at 2. cbn [replace_byte]. rewrite Ascii.eqb_refl, app_empty_r.
    rewrite <-IH by (rewrite !length_app_str in Hl; cbn in Hl; lia).
    pose proof (split_aux_ne n (str c) b) as Hne. destruct (split_aux n (str c) b); [done|].
    reflexivity.
  - rewrite replace_byte_none by by apply cut_none. done.
Qed.

(** ** Reading a log line back *)

(** A quoted text, its opening quote taken, up to the closing one. *)
Fixpoint read_quoted (s : string) : option (string * string) :=
  match s with
  | "" => None
  | String c r =>
      if Ascii.eqb c dquote then Some ("", r)
      else if Ascii.eqb c backslash then
        match r with
        | "" => None
        | String d r' => match read_quoted r' with Some (v, q) => Some (String d v, q) | None => None end
        end
      else match read_quoted r with Some (v, q) => Some (String c v, q) | None => None end
  end.
Definition space : ascii := of_byte 32.
Definition read_value (s : string) : option (string * string) :=
  match s with
  | String c r =>
      if Ascii.eqb c dquote then read_quoted r
      else Some (match cut (str space) s with Some (v, q) => (v, str space +:+ q) | None => (s, "") end)
  | "" => Some ("", "")
  end.
(** The fields of a line; [n] bounds their number. *)
Fixpoint read_fields (n : nat) (s : string) : option (list (string * string)) :=
  match n with
  | O => None
  | S n' =>
      match cut "=" s with
      | None => None
      | Some (k, r) =>
          match read_value r with
          | None => None
          | Some (v, "") => Some [(k, v)]
          | Some (v, String c r) => if Ascii.eqb c space
                                    then match read_fields n' r with Some l => Some ((k, v) :: l) | None => None end
                                    else None
          end
      end
  end.

Definition escape_value (s : string) : string :=
  replace_byte dquote (String backslash (str dquote)) (replace_byte backslash (String backslash (str backslash)) s).

Lemma escape_value_cons c s :
  escape_value (String c s) =
  if Ascii.eqb c backslash then String backslash (String backslash (escape_value s))
  else if Ascii.eqb c dquote then String backslash (String dquote (escape_value s))
  else String c (escape_value s).
Proof.
  unfold escape_value. cbn [replace_byte]. destruct (Ascii.eqb_spec c backslash) as [->|Hb].
  - by rewrite replace_byte_app.
  - cbn [replace_byte]. by destruct (Ascii.eqb c dquote).
Qed.

Lemma read_quoted_escaped s rest : read_quoted (escape_value s +:+ String dquote rest) = Some (s, rest).
Proof.
  induction s as [|c s IH]; [done|]. rewrite escape_value_cons.
  assert (Ascii.eqb backslash dquote = false) as Hbd by done.
  destruct (Ascii.eqb_spec c backslash) as [->|Hb]; [|destruct (Ascii.eqb_spec c dquote) as [->|Hd]];
    cbn [String.append read_quoted]; rewrite ?Hbd, ?Ascii.eqb_refl, ?IH; [done..|].
  by rewrite (proj2 (Ascii.eqb_neq _ _) Hd), (proj2 (Ascii.eqb_neq _ _) Hb).
Qed.

Lemma quoteIfNeeded_cases s :
  (quoteIfNeeded s = s ∧ existsb needs_quotes (String.list_ascii_of_string s) = false) ∨
  quoteIfNeeded s = String dquote (escape_value s +:+ str dquote).
Proof.
  unfold quoteIfNeeded. destruct (existsb needs_quotes (String.list_ascii_of_string s)) eqn:Eq; cbn [negb]; [|by left].
  right. rewrite !ReplaceAll_byte. reflexivity.
Qed.

Lemma plain_no_byte c s : existsb needs_quotes (String.list_ascii_of_string s) = false → needs_quotes c = true → no_byte c s.
Proof.
  intros Hs Hc Hin%list_elem_of_In. assert (existsb needs_quotes (String.list_ascii_of_string s) = true); [|congruence].
  apply existsb_exists. eauto.
Qed.

Definition ends (rest : string) : Prop := rest = "" ∨ ∃ r, rest = String space r.

Lemma read_value_quoted s rest : ends rest → read_value (quoteIfNeeded s +:+ rest) = Some (s, rest).
Proof.
  intros Hr. destruct (quoteIfNeeded_cases s) as [[-> Hp]| ->]; cycle 1.
  { cbn [String.append read_value]. rewrite Ascii.eqb_refl, app_assoc_str. apply read_quoted_escaped. }
  pose proof (plain_no_byte space s Hp eq_refl) as Hsp. pose proof (plain_no_byte dquote s Hp eq_refl) as Hdq.
  destruct s as [|c s].
  - destruct Hr as [-> |[r ->]]; [done|]. cbn [String.append read_value].
    change (Ascii.eqb space dquote) with false. cbv iota. cbn [cut cut_prefix str]. by rewrite Ascii.eqb_refl.
  - cbn [String.append read_value]. destruct (Ascii.eqb_spec c dquote) as [->|_].
    { destruct Hdq. unfold no_byte. cbn. left. }
    change (String c (s +:+ rest)) with (String c s +:+ rest).
    destruct Hr as [-> |[r ->]].
    + rewrite app_empty_r, (proj2 (cut_none _ _) Hsp). done.
    + change (String space r) with (str space +:+ r). rewrite cut_first by done. done.
Qed.

(** ** A line is its fields *)
Fixpoint render (l : list (string * string)) : string :=
  match l with
  | [] => ""
  | [(k, v)] => k +:+ "=" +:+ quoteIfNeeded v
  | (k, v) :: l => k +:+ "=" +:+ quoteIfNeeded v +:+ " " +:+ render l
  end.

Lemma render_app l k v : l ≠ [] → render (l ++ [(k, v)]) = render l +:+ " " +:+ k +:+ "=" +:+ quoteIfNeeded v.
Proof.
  intros Hne. induction l as [|[k1 v1] l IH]; [done|]. destruct l as [|kv l].
  - cbn. by rewrite !app_assoc_str.
  - specialize (IH ltac:(done)). change (render (((k1, v1) :: kv :: l) ++ [(k, v)])) with
      (k1 +:+ "=" +:+ quoteIfNeeded v1 +:+ " " +:+ render ((kv :: l) ++ [(k, v)])).
    rewrite IH. change (render ((k1, v1) :: kv :: l)) with (k1 +:+ "=" +:+ quoteIfNeeded v1 +:+ " " +:+ render (kv :: l)).
    by rewrite !app_assoc_str.
Qed.

Lemma render_ne l : l ≠ [] → render l ≠ "".
Proof.
  destruct l as [|[k v] l]; [done|]. intros _ He. destruct l; cbn [render] in He;
    by apply app_nil_inv in He as [_ [=]].
Qed.

Lemma read_render l n :
  l ≠ [] → Forall (λ kv, no_byte "=" kv.1) l → (length l ≤ n)%nat → read_fields n (render l) = Some l.
Proof.
  revert n. induction l as [|[k v] l IH]; intros n Hne Hk Hn; [done|].
  apply Forall_cons in Hk as [Hk Hl]. destruct n as [|n]; [cbn in Hn; lia|].
  destruct l as [|kv l].
  - cbn [render read_fields]. change ("=" +:+ quoteIfNeeded v) with (str "=" +:+ quoteIfNeeded v).
    change (cut "=") with (cut (str "=")). rewrite cut_first by done.
    rewrite <-(app_empty_r (quoteIfNeeded v)), read_value_quoted by by left. done.
  - change (render ((k, v) :: kv :: l)) with
      (k +:+ (str "=" +:+ (quoteIfNeeded v +:+ String space (render (kv :: l))))).
    cbn [read_fields]. change (cut "=") with (cut (str "=")). rewrite cut_first by done.
    rewrite read_value_quoted by (right; by eexists). rewrite Ascii.eqb_refl. cbv iota.
    rewrite IH by (done || cbn in *; lia). done.
Qed.

Section lines.
Context (Sprint : any → string).

Definition field_of (kv : any * any) : string * string := (Sprint_any Sprint kv.1, Sprint_any Sprint kv.2).

Lemma append_render l keyvals : l ≠ [] →
  appendKeyvals Sprint (render l) keyvals = render (l ++ List.map field_of (pairs keyvals)).
Proof.
  unfold appendKeyvals. generalize (pairs keyvals). clear keyvals. intros kvs. revert l.
  induction kvs as [|[k v] kvs IH]; intros l Hl; cbn [foldl List.map]; [by rewrite app_nil_r|].
  rewrite (proj2 (String.eqb_neq _ _) (render_ne l Hl)). cbn [fst snd].
  change (formatKey Sprint k) with (fst (field_of (k, v))).
  change (formatValue Sprint v) with (quoteIfNeeded (snd (field_of (k, v)))).
  rewrite <-(render_app l) by done. rewrite <-surjective_pairing, IH by by destruct l.
  by rewrite <-app_assoc.
Qed.

(** The fields of a line: the level, the message, the logger's own and the call's. *)
Definition line_fields (s : StdLogger) (level msg : string) (keyvals : list any) : list (string * string) :=
  ("level", level) :: ("msg", msg) :: List.map field_of (pairs (pre s) ++ pairs keyvals).

(** What is logged can be read back. A line written at one of the three
    levels, by a logger with any fields of its own, parses to exactly the
    level, the message and the fields given, in order, whatever bytes the
    message and the values hold - spaces, quotes, backslashes, equals signs and
    line breaks included - as long as no key holds an equals sign: no value can
    forge another field. *)
Theorem log_line_reads_back s level msg keyvals
    (Hlevel : level ∈ ["info"; "warn"; "error"])
    (Hkeys : Forall (λ kv, no_byte "=" kv.1) (List.map field_of (pairs (pre s) ++ pairs keyvals))) :
  read_fields (length (line_fields s level msg keyvals)) (emit Sprint s level msg keyvals) =
  Some (line_fields s level msg keyvals).
Proof.
  assert (quoteIfNeeded level = level) as Hq.
  { repeat (apply elem_of_cons in Hlevel as [->|Hlevel]; [reflexivity|]). by apply elem_of_nil in Hlevel. }
  assert ("level=" +:+ level +:+ " msg=" +:+ formatValue Sprint (AStr msg) = render [("level", level); ("msg", msg)]) as Hh.
  { cbn [render]. by rewrite Hq. }
  unfold emit. rewrite Hh, !append_render by done.
  unfold line_fields in *. rewrite <-app_assoc, <-List.map_app. cbn [app].
  apply read_render; [done| |done]. repeat (apply Forall_cons; split; [by vm_compute; set_solver|]). done.
Qed.
End lines.

Lemma log_line_reads_back_witness :
  let kvs := [AStr "path"; AStr (dq "a 'b' level=error\"); AStr "n"; AInt 3; AStr "lost"] in
  read_fields 4 (emit (λ v, match v with AInt z => Itoa z | _ => "" end) NewStdLogger "info" "" kvs) =
  Some [("level", "info"); ("msg", ""); ("path", dq "a 'b' level=error\"); ("n", "3")].
Proof.
  apply (log_line_reads_back (λ v, match v with AInt z => Itoa z | _ => "" end) NewStdLogger "info" ""
           [AStr "path"; AStr (dq "a 'b' level=error\"); AStr "n"; AInt 3; AStr "lost"]).
  - by vm_compute; left.
  - repeat (apply Forall_cons; split; [by vm_compute; set_solver|]). by apply Forall_nil.
Defined.

(** A line break in a value stays one: the line is two for a reader of lines. *)
Example newline_kept : ¬ no_byte (of_byte 10) (Info (λ _, "") NewStdLogger "m" [AStr "k"; AStr (str (of_byte 10))]).
Proof. intros Hn. apply Hn. vm_compute. repeat (first [by left|right]). Qed.
(** A trailing key given to [With] takes the next key for its value. *)
Example trailing_key_shifts :
  Info (λ v, match v with AInt z => Itoa z | _ => "" end)
    (With (With NewStdLogger [AStr "request"]) [AStr "user"; AInt 7]) "m" [] = "level=info msg=m request=user".
Proof. reflexivity. Qed.

(** ** Spans *)
Section spans.
Context `{Unicode} (Sprint : any → string).

Lemma len_take n s : len (take_bytes n s) ≤ Z.of_nat n.
Proof.
  unfold len. revert s. induction n as [|n IH]; intros [|c s]; cbn [take_bytes String.length]; [lia..|].
  specialize (IH s). lia.
Qed.

Lemma limit_text_len s : len (limit_text s) ≤ maxAttributeLen + 3.
Proof.
  unfold limit_text. destruct (maxAttributeLen <? len s) eqn:El; unfold maxAttributeLen in *; [|lia].
  rewrite len_app. pose proof (len_take 256 s). change (len ellipsis) with 3. lia.
Qed.

(** No secrets in spans. Every attribute exported for a span stands for a pair
    of its arguments with a non-blank text key, in the order of the arguments;
    its key holds none of the sensitive words in any case; and a text value is
    at most 256 bytes and the ellipsis. Pairs with another kind of key, or a
    sensitive one, are exported as nothing. *)
Theorem spans_without_secrets keyvals :
  (∃ kvs, sublist kvs (pairs keyvals) ∧ Forall2 (λ kv a, exported Sprint kv = Some a ∧ kv.1 = AStr (attr_key a))
            kvs (keyvalsToAttributes Sprint keyvals)) ∧
  Forall (λ a, TrimSpace (attr_key a) ≠ "" ∧
               (∀ w, w ∈ sensitive_words → Contains (ToLower (attr_key a)) w = false) ∧
               match a with AttrString _ v => len v ≤ maxAttributeLen + 3 | _ => True end)
    (keyvalsToAttributes Sprint keyvals).
Proof.
  assert (∀ kv a, exported Sprint kv = Some a → kv.1 = AStr (attr_key a) ∧ TrimSpace (attr_key a) ≠ "" ∧
    isSensitiveKey (attr_key a) = false ∧ match a with AttrString _ v => len v ≤ maxAttributeLen + 3 | _ => True end) as Hx.
  { intros [k v] a He. unfold exported in He. cbn [fst snd] in He. destruct k as [| | | | |k| | |]; try done.
    destruct (String.eqb_spec (TrimSpace k) ""); [done|]. destruct (isSensitiveKey k) eqn:Es; [done|].
    injection He as <-. destruct v; cbn [attributeFromAny attr_key]; (do 3 (split; [done|])); try done; apply limit_text_len. }
  unfold keyvalsToAttributes. induction (pairs keyvals) as [|kv l [(kvs & Hs & Hf) IH]]; cbn [omap list_omap].
  - split; [exists []; by split|by apply Forall_nil].
  - destruct (exported Sprint kv) as [a|] eqn:Ea; cycle 1.
    { split; [|done]. exists kvs. split; [by apply sublist_cons|done]. }
    destruct (Hx kv a Ea) as (Hk & Ht & Hn & Hl). split.
    + exists (kv :: kvs). split; [by apply sublist_skip|]. constructor; [by split|done].
    + apply Forall_cons. split; [|done]. split; [done|]. split; [|done].
      intros w Hw. destruct (Contains (ToLower (attr_key a)) w) eqn:Ec; [|done].
      exfalso. unfold isSensitiveKey in Hn. rewrite <-not_true_iff_false in Hn. apply Hn.
      apply existsb_exists. exists w. split; [by apply list_elem_of_In|done].
Qed.
End spans.

(** The path of the endpoint is not kept: the exporter is given the host alone. *)
Example exporter_path_dropped :
  exporter_from_env (H := ascii_unicode)
    (λ v, if String.eqb v "OTEL_EXPORTER_OTLP_ENDPOINT" then "http://collector:4318/tenant"
          else if String.eqb v "OTEL_EXPORTER_OTLP_PROTOCOL" then "http/protobuf" else "") =
  Some {| ex_http := true; ex_endpoint := "collector:4318"; ex_insecure := true; ex_service := "accessgate" |}.
Proof. vm_compute. reflexivity. Qed.

(** ** Counters *)
Definition same_counter (v : counter_vec) (labels : list string) (c : metric_call) : bool :=
  bool_decide (counted c = Some (v, labels)).

(** The counters count. After any calls, a counter's value under any labels is
    the number of the calls that mean it, and a plugin's health is that of the
    last report. *)
Theorem counters_exact calls v labels :
  default 0 (counters (foldl record_metric NewPrometheusMetrics calls) v !! labels) =
  Z.of_nat (length (List.filter (same_counter v labels) calls)).
Proof.
  assert (∀ p, default 0 (counters (foldl record_metric p calls) v !! labels) =
    default 0 (counters p v !! labels) + Z.of_nat (length (List.filter (same_counter v labels) calls))) as Hp.
  { induction calls as [|c calls IH]; intros p; cbn [foldl List.filter length]; [lia|]. rewrite IH.
    assert (default 0 (counters (record_metric p c) v !! labels) =
            default 0 (counters p v !! labels) + if same_counter v labels c then 1 else 0) as ->.
    { unfold same_counter. destruct (counted c) as [[w l]|] eqn:Ec.
      - assert (record_metric p c = inc p w l) as -> by (destruct c; try discriminate Ec; unfold record_metric; by rewrite Ec).
        cbn [inc counters]. destruct (decide (v = w)) as [->|Hne].
        + destruct (decide (l = labels)) as [->|Hl].
          * rewrite lookup_insert_eq. rewrite bool_decide_eq_true_2 by done. done.
          * rewrite lookup_insert_ne by done. rewrite bool_decide_eq_false_2 by congruence. lia.
        + rewrite bool_decide_eq_false_2 by congruence. lia.
      - assert (counters (record_metric p c) = counters p) as -> by (by destruct c as [| | | | |[]|]).
        rewrite bool_decide_eq_false_2 by done. lia. }
    destruct (same_counter v labels c); cbn [length]; lia. }
  rewrite Hp. cbn. by rewrite lookup_empty.
Qed.
