(* ===== verification/ConfigLoad.v ===== *)
(** * Reading configuration (internal/configload)

    The go-config loader merges a file and the environment into a tree and
    decodes it into the configuration struct; between the two, the resolver
    here turns comma-separated texts into lists. Sources, parsers and decoder
    are external: a load is a call that is given the resolver. *)

From S2P Require Import Prelude.
From S2P Require Import GoStrings.
From S2P Require Import Effects.
From S2P Require Import GoAny.
From S2P Require Import AuthConfig.

Section configload.
Context `{Unicode}.

(** A field of the target struct, by what reflection shows: the [json] tag and
    whether its type is a slice of strings. *)
Record struct_field := { sf_tag : string; sf_strings : bool }.

Definition commaListKeys (fields : list struct_field) : gset string :=
  list_to_set (omap (λ f,
    if sf_strings f then
      let name := default "" (head (Split (sf_tag f) ",")) in
      if String.eqb name "" || String.eqb name "-" then None else Some (ToLower name)
    else None) fields).

(** The non-empty parts, trimmed. *)
Fixpoint comma_parts (l : list string) (out : list any) : list any :=
  match l with
  | [] => out
  | p :: l => let t := TrimSpace p in comma_parts l (if String.eqb t "" then out else out ++ [AStr t])
  end.

(** [commaResolver.Resolve]: each entry of the tree on its own. *)
Definition resolve_entry (keys : gset string) (k : string) (v : any) : any :=
  if bool_decide (ToLower k ∈ keys) then
    match v with AStr s => AList (comma_parts (Split s ",") []) | _ => v end
  else v.
Definition Resolve (keys : gset string) (tree : gmap string any) : gmap string any :=
  if bool_decide (keys = ∅) then tree else map_imap (λ k v, Some (resolve_entry keys k v)) tree.

(** [filepath.Ext]: from the last dot of the last element of the path. *)
Definition file_ext (path : string) : string :=
  let name := match cut_last "/" path with Some (_, n) => n | None => path end in
  match cut_last "." name with Some (_, e) => "." +:+ e | None => "" end.

Inductive config_parser := YamlParser | JsonParser.
Definition parserForPath (configPath : string) : config_parser :=
  let ext := ToLower (file_ext configPath) in
  if String.eqb ext ".yaml" || String.eqb ext ".yml" then YamlParser else JsonParser.

(** go-config: making and closing the YAML parser; loading the sources - a file
    with its parser, then the environment - through the resolver. *)
Class GoConfigE (E : Type → Type) := {
  NewYamlParser : E (option string);
  CloseYamlParser : E unit;
  LoaderLoad : option (string * config_parser) → (gmap string any → gmap string any) → E (res (gmap string any)) }.

Context {E : Type → Type} `{!GoConfigE E}.

(** [LoadInto] a struct: the tree that is decoded into it, or the error. *)
Definition LoadInto (configPath : string) (fields : list struct_field) : prog E (res (gmap string any)) :=
  let resolver := Resolve (commaListKeys fields) in
  let load file :=
    r <- call (LoaderLoad file resolver) ;;
    Ret match r with Err e => Err ("load config: " +:+ e) | Ok t => Ok t end in
  if String.eqb configPath "" then load None
  else
    match parserForPath configPath with
    | JsonParser => load (Some (configPath, JsonParser))
    | YamlParser =>
        e <- call NewYamlParser ;;
        match e with
        | Some e => Ret (Err ("create yaml parser: " +:+ e))
        | None => r <- load (Some (configPath, YamlParser)) ;; call CloseYamlParser ;;; Ret r
        end
    end.

(** ** The environment and the file agree *)
Lemma comma_parts_filter l out :
  comma_parts l out = out ++ (AStr <$> List.filter (λ t, negb (String.eqb t "")) (TrimSpace <$> l)).
Proof.
  revert out. induction l as [|p l IH]; intros out; cbn [comma_parts]; [by rewrite app_nil_r|].
  rewrite IH. cbn [fmap list_fmap List.filter]. destruct (String.eqb (TrimSpace p) ""); cbn; [done|].
  by rewrite <-app_assoc.
Qed.

(** The resolver's list is the one [CommaStrings] reads from the same text in a
    file, the empty text included. *)
Lemma comma_parts_splitTrim s : comma_parts (Split s ",") [] = AStr <$> splitTrim s ",".
Proof.
  rewrite comma_parts_filter. unfold splitTrim. destruct (String.eqb_spec s "") as [->|]; [|done].
  by vm_compute.
Qed.

(** A list in the environment is the list in the file. What the resolver
    leaves at a key depends on that key alone: under a key of a string-list
    field, in any case, a text becomes exactly the list [CommaStrings] makes
    of it and anything else stays; no other key changes and none is added or
    lost; and resolving again changes nothing. *)
Theorem comma_lists_agree keys tree k :
  Resolve keys tree !! k =
    (λ v, match v with
          | AStr s => if bool_decide (ToLower k ∈ keys) then AList (AStr <$> splitTrim s ",") else v
          | _ => v end) <$> tree !! k ∧
  Resolve keys (Resolve keys tree) = Resolve keys tree.
Proof.
  assert (∀ t k, Resolve keys t !! k = resolve_entry keys k <$> t !! k) as Hr.
  { intros t j. unfold Resolve. destruct (bool_decide (keys = ∅)) eqn:Ek.
    - apply bool_decide_eq_true_1 in Ek as ->. destruct (t !! j); [|done]. cbn. unfold resolve_entry.
      by rewrite bool_decide_eq_false_2 by set_solver.
    - rewrite map_lookup_imap. by destruct (t !! j). }
  split.
  - rewrite Hr. destruct (tree !! k) as [v|]; [|done]. cbn. f_equal. unfold resolve_entry.
    destruct v; case_bool_decide; try done. by rewrite comma_parts_splitTrim.
  - apply map_eq. intros j. rewrite !Hr. destruct (tree !! j) as [v|]; [|done]. cbn. f_equal.
    unfold resolve_entry. by destruct (bool_decide _), v.
Qed.
End configload.

(** The string lists at the top of the auth server's [Config]; every other
    field has another type. *)
Definition auth_list_fields : list struct_field :=
  (λ t, {| sf_tag := t; sf_strings := true |}) <$>
    ["oidc_scopes"; "allowed_redirect_origins"; "allowed_redirect_paths"; "cors_allowed_origins"].

#[local] Existing Instance ascii_unicode.
(** Only the top of the tree is resolved: a text in a connector's entry stays. *)
Example nested_lists_stay :
  let nested := AList [AMap [("oidc_scopes", AStr "openid,email")]] in
  Resolve (commaListKeys auth_list_fields) {[ "OIDC_SCOPES" := AStr "openid, email,"; "connectors" := nested ]} =
  {[ "OIDC_SCOPES" := AList [AStr "openid"; AStr "email"]; "connectors" := nested ]}.
Proof. vm_compute. reflexivity. Qed.
