(* ===== verification/Lifecycle.v ===== *)
(** * The life of the two processes (cmd/accessgate-proxy, cmd/accessgate-auth)

    What [main] does around the server it has built: the health check
    subcommand, the listeners, the wait for a signal, and the shutdown. The
    listeners, signals, the runtime's servers and the tracer's exporter are
    calls; a process is the program that ends with its exit status, and
    [Fatalf] ends it without the deferred calls. *)

From S2P Require Import Prelude.
From S2P Require Import GoStrings.
From S2P Require Import Effects.
From S2P Require Import GoAny.
From S2P Require Import GoUrl.
From S2P Require Import Handoff.
From S2P Require Import AuthConfig.
From S2P Require Import AuthService.
From S2P Require Import AuthFlows.
From S2P Require Import Authz.
From S2P Require Import ProxyConfig.
From S2P Require Import Registry.
From S2P Require Import Ratelimit.
From S2P Require Import Token.
From S2P Require Import Redis.
From S2P Require Import ProxyServer.
From S2P Require Import Policy.
From S2P Require Import Oidc.
From S2P Require Import Grpc.
From S2P Require Import Manifest.
From S2P Require Import Bootstrap.
From S2P Require Import AuthMain.

(** Why the wait ended: a signal, or the HTTP server failing (a failure before
    the wait is seen by it). *)
Inductive stop_cause := Signal | ServerFailed (msg : string).

(** [GracefulStop] answers whether it ended before the deadline of the
    shutdown. *)
Class ProcessE (E : Type → Type) := {
  Stderr : string → E unit;
  ProbeGet : string → E (res Z);
  Listen : string → E unit;
  GrpcListen : string → E (res string);
  AwaitStop : E stop_cause;
  StopWatcher : E unit;
  TracerShutdown : E (option string);
  GracefulStop : E bool;
  GrpcStop : E unit;
  ForwarderClose : E (option string);
  ServerShutdown : E (option string);
  StoreClose : string → E (option string) }.

(** ** The health check (internal/healthcheck) *)
Section healthcheck.
Context `{Unicode} {E : Type → Type} `{!ProcessE E}.

Definition healthcheck_Run (env : string → string) (portEnv defaultPort path : string) : prog E (option string) :=
  let port := or_str (env portEnv) defaultPort in
  let url := "http://127.0.0.1:" +:+ port +:+ path in
  match Parse url with
  | Err e => Ret (Some ("build healthcheck request: " +:+ e))
  | Ok _ =>
      r <- call (ProbeGet url) ;;
      Ret match r with
          | Err e => Some ("healthcheck GET " +:+ url +:+ ": " +:+ e)
          | Ok status => if (status <? 200) || (300 <=? status)
                         then Some ("healthcheck GET " +:+ url +:+ ": unhealthy status " +:+ Itoa status) else None
          end
  end.
(** The subcommand: its exit status. *)
Definition probe (env : string → string) (defaultPort : string) : prog E Z :=
  r <- healthcheck_Run env "HTTP_PORT" defaultPort "/healthz" ;;
  match r with Some e => call (Stderr e) ;;; Ret 1 | None => Ret 0 end.
Definition is_probe (args : list string) : bool :=
  match args with _ :: a :: _ => String.eqb a "healthcheck" | _ => false end.
End healthcheck.

Section processes.
Context `{Unicode} `{LocalTime} `{Ed25519} `{JsonErrors} `{MapRange} {E F : Type → Type}.
Context `{!FileE E} `{!Wazero E} `{!Rego E} `{!LogE E} `{!WalkE E} `{!ProxyObjectsE E} `{!ProcessE E}.
Context `{!HttpGetE F} `{!FormPostE F} `{!AuthObjectsE E F}.
Context (base64_error : string → string) (pages : nat).
(** Whether a tracer was set up from the environment. *)
Context (tracing : bool).

Definition fatal_exit (msg : string) : prog E Z := log msg ;;; Ret 1.
Definition log_error (prefix : string) (e : option string) : prog E unit :=
  match e with Some e => log (prefix +:+ e) | None => Ret tt end.

(** ** The proxy *)
Definition watched (p : policy_engine (E := E)) : bool :=
  match p with WatchedWasm _ _ | WatchedRego _ _ => true | _ => false end.
(** The hook [buildProxyHandler] returns. *)
Definition shutdown_hooks (p : Proxy (E := E)) : prog E (option string) :=
  (if watched (px_policy p) then call StopWatcher else Ret tt) ;;;
  if tracing then call TracerShutdown else Ret None.

Definition stop_grpc (cfg : ProxyConfig) : prog E unit :=
  if String.eqb (GRPCListenAddr cfg) "" then Ret tt
  else
    in_time <- call GracefulStop ;;
    (if in_time then Ret tt
     else log "grpc graceful shutdown timed out; forcing stop" ;;; call GrpcStop) ;;;
    if String.eqb (GRPCUpstreamAddr cfg) "" then Ret tt
    else e <- call ForwarderClose ;; log_error "grpc upstream connection close: " e.

Definition proxy_shutdown (cfg : ProxyConfig) (p : Proxy (E := E)) : prog E Z :=
  log "shutting down accessgate-proxy" ;;;
  e <- shutdown_hooks p ;;
  log_error "shutdown hooks: " e ;;;
  stop_grpc cfg ;;;
  e <- call ServerShutdown ;;
  log_error "graceful shutdown failed: " e ;;;
  Ret 0.

Definition start_grpc (cfg : ProxyConfig) : prog E (option string) :=
  if String.eqb (GRPCListenAddr cfg) "" then Ret None
  else
    r <- call (GrpcListen (GRPCListenAddr cfg)) ;;
    match r with
    | Err e => Ret (Some ("grpc listen " +:+ Quote (GRPCListenAddr cfg) +:+ ": " +:+ e))
    | Ok lis =>
        log (if negb (String.eqb (GRPCUpstreamAddr cfg) "")
             then "grpc server listening on " +:+ lis +:+ ", forwarding authorized calls to upstream "
                  +:+ GRPCUpstreamAddr cfg
             else "grpc server listening on " +:+ lis
                  +:+ " (no grpc_upstream_addr; authorized calls return Unimplemented)") ;;;
        Ret None
    end.

Definition proxy_main (args : list string) (env : string → string) (loaded : res ProxyConfig) : prog E Z :=
  if is_probe args then probe env "8081"
  else
    log "starting accessgate-proxy" ;;;
    match loaded with
    | Err e => fatal_exit ("config load: " +:+ e)
    | Ok cfg =>
        b <- buildProxyHandler base64_error cfg ;;
        match b with
        | Err e => fatal_exit ("proxy bootstrap: " +:+ e)
        | Ok p =>
            call (Listen (":" +:+ pc_HTTPPort cfg)) ;;;
            g <- start_grpc cfg ;;
            match g with
            | Some e => fatal_exit e
            | None =>
                why <- call AwaitStop ;;
                match why with
                | ServerFailed e => fatal_exit ("http server error: " +:+ e)
                | Signal => proxy_shutdown cfg p
                end
            end
        end
    end.

(** ** The auth server *)

(** The deferred calls, last deferred first. *)
Fixpoint close_stores (ids : list string) : prog E unit :=
  match ids with
  | [] => Ret tt
  | id :: ids =>
      e <- call (StoreClose id) ;;
      log_error ("redis close (connector " +:+ id +:+ "): ") e ;;;
      close_stores ids
  end.

Definition auth_shutdown (cfg : AuthConfig.Config) : prog E Z :=
  log "shutting down accessgate-auth" ;;;
  (if tracing then e <- call TracerShutdown ;; log_error "tracer shutdown: " e else Ret tt) ;;;
  e <- call ServerShutdown ;;
  log_error "graceful shutdown failed: " e ;;;
  close_stores (reverse (cc_ID <$> Connectors cfg)) ;;;
  Ret 0.

Definition auth_main (args : list string) (env : string → string) (loaded : res AuthConfig.Config) : prog E Z :=
  if is_probe args then probe env "8080"
  else
    a <- start pages loaded ;;
    match a, loaded with
    | Ok app, Ok cfg =>
        call (Listen (":" +:+ HTTPPort cfg)) ;;;
        why <- call AwaitStop ;;
        match why with
        | ServerFailed e => log ("http server error: " +:+ e) ;;; Ret 1
        | Signal => auth_shutdown cfg
        end
    | _, _ => Ret 1
    end.

(** ** What the processes do *)
Definition logged (prefix : string) (e : option string) : list (event E) :=
  match e with Some e => [Ev (Log (prefix +:+ e)) tt] | None => [] end.

Lemma log_error_exec prefix e tr u : exec (log_error prefix e) tr u ↔ tr = logged prefix e.
Proof.
  destruct u, e as [e|]; simpl; [|naive_solver].
  split; [intros ([] & ? & -> & -> & _); done|intros ->; by eexists tt, []].
Qed.

(** The traces of the steps of a shutdown. *)
Definition hooks_trace (p : Proxy (E := E)) (tr : list (event E)) (e : option string) : Prop :=
  tr = (if watched (px_policy p) then [Ev StopWatcher tt] else []) ++ (if tracing then [Ev TracerShutdown e] else []) ∧
  (tracing = false → e = None).
Definition grpc_stopped (cfg : ProxyConfig) (tr : list (event E)) : Prop :=
  if String.eqb (GRPCListenAddr cfg) "" then tr = []
  else ∃ (in_time : bool) (e : option string),
    tr = Ev GracefulStop in_time
         :: (if in_time then [] else [Ev (Log "grpc graceful shutdown timed out; forcing stop") tt; Ev GrpcStop tt])
         ++ (if String.eqb (GRPCUpstreamAddr cfg) "" then []
             else Ev ForwarderClose e :: logged "grpc upstream connection close: " e).

Lemma shutdown_hooks_exec p tr e : exec (shutdown_hooks p) tr e → hooks_trace p tr e.
Proof.
  unfold shutdown_hooks, hooks_trace. intros ([] & t1 & t2 & -> & Hw & Ht)%exec_bind.
  assert (t1 = if watched (px_policy p) then [Ev StopWatcher tt] else []) as ->.
  { destruct (watched _); [by destruct Hw as ([] & ? & -> & -> & _)|by destruct Hw as [-> _]]. }
  destruct tracing; [by destruct Ht as (x & ? & -> & -> & ->)|by destruct Ht as [-> <-]].
Qed.

Lemma stop_grpc_exec cfg tr u : exec (stop_grpc cfg) tr u → grpc_stopped cfg tr.
Proof.
  unfold stop_grpc, grpc_stopped. destruct (String.eqb _ ""); [by intros [-> _]|].
  intros (b & t1 & -> & Hx). cbn [pbind call] in Hx. exists b.
  apply exec_bind in Hx as ([] & t2 & t3 & -> & Hb & Hx).
  assert (t2 = if b then [] else [Ev (Log "grpc graceful shutdown timed out; forcing stop") tt; Ev GrpcStop tt]) as ->.
  { destruct b; [by destruct Hb as [-> _]|]. by destruct Hb as ([] & ? & -> & [] & ? & -> & -> & _). }
  destruct (String.eqb _ ""); [destruct Hx as [-> _]; by exists None|].
  destruct Hx as (e & t4 & -> & ->%log_error_exec). by exists e.
Qed.

(** The proxy shuts down completely and in order, whatever fails on the way:
    the policy watcher is stopped, the tracer flushed, the gRPC server ended
    (by force when its calls outlast the deadline), the upstream connection
    closed only after that, and the HTTP server last; every error is logged
    and none skips a later step; the exit status is 0. *)
Theorem proxy_shutdown_exact cfg p tr code (Hx : exec (proxy_shutdown cfg p) tr code) :
  code = 0 ∧ ∃ t1 t2 e e', hooks_trace p t1 e ∧ grpc_stopped cfg t2 ∧
    tr = Ev (Log "shutting down accessgate-proxy") tt :: t1 ++ logged "shutdown hooks: " e ++ t2
         ++ Ev ServerShutdown e' :: logged "graceful shutdown failed: " e'.
Proof.
  destruct Hx as ([] & t0 & -> & Hx). cbn [pbind call] in Hx.
  apply exec_bind in Hx as (e & t1 & tx & -> & Hh%shutdown_hooks_exec & Hx).
  apply exec_bind in Hx as ([] & tl & ty & -> & ->%log_error_exec & Hx).
  apply exec_bind in Hx as ([] & t2 & tz & -> & Hg%stop_grpc_exec & Hx).
  destruct Hx as (e' & t3 & -> & Hx). cbn [pbind call] in Hx.
  apply exec_bind in Hx as ([] & t4 & t5 & -> & ->%log_error_exec & [-> <-]).
  split; [done|]. exists t1, t2, e, e'. split; [done|]. split; [done|]. by rewrite app_nil_r.
Qed.

(** The proxy serves only what it could build, and ends well only on a signal:
    with status 0 the configuration was loaded, the handler built, the gRPC
    listener (when configured) bound, the wait ended with a signal, and the
    shutdown ran; any other end has status 1. *)
Theorem proxy_process args env loaded tr code
    (Hx : exec (proxy_main args env loaded) tr code) (Hp : is_probe args = false) :
  code = 1 ∨
  code = 0 ∧ ∃ cfg p t1 t2 t3, loaded = Ok cfg ∧ exec (buildProxyHandler base64_error cfg) t1 (Ok p) ∧
    exec (start_grpc cfg) t2 None ∧ exec (proxy_shutdown cfg p) t3 0 ∧
    tr = Ev (Log "starting accessgate-proxy") tt :: t1 ++ Ev (Listen (":" +:+ pc_HTTPPort cfg)) tt :: t2
         ++ Ev AwaitStop Signal :: t3.
Proof.
  unfold proxy_main in Hx. rewrite Hp in Hx. destruct Hx as ([] & t0 & -> & Hx). cbn [pbind call] in Hx.
  destruct loaded as [cfg|e]; [|left; by destruct Hx as (? & ? & ? & ? & <-)].
  apply exec_bind in Hx as (b & t1 & tx & -> & Hb & Hx).
  destruct b as [p|e]; [|left; by destruct Hx as (? & ? & ? & ? & <-)].
  destruct Hx as ([] & ty & -> & Hx). cbn [pbind call] in Hx.
  apply exec_bind in Hx as ([e|] & t2 & tz & -> & Hg & Hx); [left; by destruct Hx as (? & ? & ? & ? & <-)|].
  destruct Hx as ([|e] & t3 & -> & Hx); cbn [pbind call] in Hx; [right|left; by destruct Hx as (? & ? & ? & ? & <-)].
  assert (code = 0) as -> by by destruct (proxy_shutdown_exact _ _ _ _ Hx).
  split; [done|]. by exists cfg, p, t1, t2, t3.
Qed.

(** Every store is closed, the last opened first. *)
Lemma close_stores_exec ids tr u :
  exec (close_stores ids) tr u →
  ∃ es, length es = length ids ∧
    tr = concat (zip_with (λ id e, Ev (StoreClose id) e :: logged ("redis close (connector " +:+ id +:+ "): ") e) ids es).
Proof.
  revert tr. induction ids as [|id ids IH]; intros tr; [by intros [-> _]; exists []|].
  intros (e & t1 & -> & Hx). cbn [pbind call] in Hx.
  apply exec_bind in Hx as ([] & t2 & t3 & -> & ->%log_error_exec & Hx).
  destruct (IH _ Hx) as (es & Hl & ->). exists (e :: es). split; [by simpl; rewrite Hl|done].
Qed.

(** The auth server's end on a signal: the tracer, the HTTP server, then the
    connectors' stores, the last one first. *)
Theorem auth_shutdown_exact cfg tr code (Hx : exec (auth_shutdown cfg) tr code) :
  code = 0 ∧ ∃ e e' t, tr = Ev (Log "shutting down accessgate-auth") tt
      :: (if tracing then Ev TracerShutdown e :: logged "tracer shutdown: " e else [])
      ++ Ev ServerShutdown e' :: logged "graceful shutdown failed: " e' ++ t ∧
    exec (close_stores (reverse (cc_ID <$> Connectors cfg))) t tt.
Proof.
  destruct Hx as ([] & t0 & -> & Hx). cbn [pbind call] in Hx.
  apply exec_bind in Hx as ([] & t1 & tx & -> & Ht & Hx).
  assert (∃ e, t1 = if tracing then Ev TracerShutdown e :: logged "tracer shutdown: " e else []) as [e ->].
  { destruct tracing; [|destruct Ht as [-> _]; by exists None].
    destruct Ht as (e & t2 & -> & ->%log_error_exec). by exists e. }
  destruct Hx as (e' & ty & -> & Hx). cbn [pbind call] in Hx.
  apply exec_bind in Hx as ([] & t3 & tz & -> & ->%log_error_exec & Hx).
  apply exec_bind in Hx as ([] & t4 & t5 & -> & Hc & [-> <-]).
  split; [done|]. exists e, e', t4. split; [by rewrite app_nil_r|done].
Qed.
End processes.
