(* ===== verification/UrlFacts.v ===== *)
(** * URLs with a query

    Appending an encoded query to the text of a URL adds that query to the
    parsed URL and changes nothing else of it, and writing the parsed URL out
    again appends the query to its text: what the parties of a login rely on
    when they hand parameters to each other through the browser. *)

From S2P Require Import Prelude.
From S2P Require Import GoStrings.
From S2P Require Import GoUrl.
From S2P Require Import JsonFacts.
From S2P Require Import AuthzHttp.
From S2P Require Import GoHttp.
From S2P Require Import Oidc.
From S2P Require Import OidcFacts.

Definition with_query (u : URL) (q : string) : URL :=
  {| Scheme := Scheme u; Opaque := Opaque u; User := User u; Host := Host u; Path := Path u;
     RawPath := RawPath u; ForceQuery := ForceQuery u; RawQuery := q; Fragment := Fragment u |}.

(** Two results that differ in the query alone. *)
Definition res_query (r : res URL) (q : string) : res URL :=
  match r with Ok u => Ok (with_query u q) | Err e => Err e end.

Lemma scheme_loop_query s acc q :
  scheme_loop (s +:+ String "?" q) acc =
  match scheme_loop s acc with Some (a, r) => Some (a, r +:+ String "?" q) | None => None end.
Proof.
  revert acc. induction s as [|c s IH]; intros acc; [done|]. cbn [scheme_loop String.append].
  destruct (_ || _); [apply IH|]. destruct (_ || _); [destruct (String.eqb acc ""); [done|apply IH]|].
  by destruct (byte_of c =? 58).
Qed.

Lemma getScheme_query s q sch r :
  getScheme s = Ok (sch, r) → getScheme (s +:+ String "?" q) = Ok (sch, r +:+ String "?" q).
Proof.
  unfold getScheme. rewrite scheme_loop_query.
  destruct (scheme_loop s "") as [[[|c a] r']|]; intros [= <- <-]; done.
Qed.
Lemma getScheme_sub c s sch r : getScheme s = Ok (sch, r) → no_byte c s → no_byte c r.
Proof.
  unfold getScheme. destruct (scheme_loop s "") as [[[|d a] r']|] eqn:Es; intros [= <- <-]; [|done].
  apply scheme_loop_sound in Es. simpl in Es. rewrite Es.
  change (String d (a +:+ String ":" r')) with (String d a +:+ (":" +:+ r')).
  rewrite !no_byte_app. tauto.
Qed.

Lemma set_path_query u p q : set_path (with_query u q) p = res_query (set_path u p) q.
Proof. unfold set_path. by destruct (unescape EncPath p). Qed.

Lemma has_ctl_app s t : has_ctl (s +:+ t) = has_ctl s || has_ctl t.
Proof. unfold has_ctl, bytes_of. by rewrite bytes_app_ascii, fmap_app, existsb_app. Qed.

Section parse.
Context `{Unicode}.

Lemma parse_url_query e u q :
  parse_url e = Ok u → no_byte "?" e → e ≠ "*" → q ≠ "" → has_ctl q = false →
  parse_url (e +:+ "?" +:+ q) = Ok (with_query u q).
Proof.
  unfold parse_url. intros Hp Hno Hstar Hq Hctl. rewrite !has_ctl_app.
  destruct (has_ctl e); [done|]. rewrite Hctl. cbn [orb has_ctl].
  rewrite (proj2 (String.eqb_neq e "*") Hstar) in Hp.
  assert (Hs' : String.eqb (e +:+ "?" +:+ q) "*" = false).
  { apply String.eqb_neq. destruct e as [|c [|d e]]; [done|by destruct q|done]. }
  rewrite Hs'. destruct (getScheme e) as [[sch r]|] eqn:Eg; [|done].
  change ("?" +:+ q) with (String "?" q). rewrite (getScheme_query _ _ _ _ Eg). cbn [res_bind fst snd] in *.
  pose proof (getScheme_sub _ _ _ _ Eg Hno) as Hr. pose proof (proj2 (cut_none "?"%char r) Hr) as Hc.
  pose proof (cut_first "?"%char r q Hr) as Hc'. unfold str in Hc, Hc'. cbn [String.append] in Hc'.
  rewrite Hc in Hp. rewrite Hc'. clear Hc Hc'. destruct q as [|c q]; [done|].
  set (q' := String c q) in *. clearbody q'. clear Hctl.
  destruct (_ && _) in Hp |- *; [by injection Hp as <-|].
  destruct (_ && _) in Hp |- *; [done|].
  destruct (split_authority (ToLower sch) r) as [[a|] rest'].
  - destruct (parseAuthority a) as [uh|]; [|done]. cbn [res_bind] in *.
    match type of Hp with set_path ?v _ = _ => exact (eq_trans (set_path_query v rest' q') ltac:(by rewrite Hp)) end.
  - match type of Hp with set_path ?v _ = _ => exact (eq_trans (set_path_query v rest' q') ltac:(by rewrite Hp)) end.
Qed.

Lemma Parse_query e u q :
  Parse e = Ok u → no_byte "?" e → no_byte "#" e → e ≠ "*" → q ≠ "" → no_byte "#" q → has_ctl q = false →
  Parse (e +:+ "?" +:+ q) = Ok (with_query u q).
Proof.
  unfold Parse. intros Hp Hno Hh Hstar Hq Hqh Hctl.
  assert (Hh' : no_byte "#" (e +:+ "?" +:+ q)).
  { rewrite !no_byte_app. split; [done|]. split; [|done]. intros Hin%list_elem_of_singleton. discriminate Hin. }
  pose proof (proj2 (cut_none "#"%char _) Hh) as Hc. pose proof (proj2 (cut_none "#"%char _) Hh') as Hc'.
  unfold str in Hc, Hc'. rewrite Hc in Hp. rewrite Hc'.
  destruct (parse_url e) as [v|] eqn:Ev; [|done]. injection Hp as ->.
  by rewrite (parse_url_query _ _ _ Ev).
Qed.
End parse.

Lemma url_string_query raw u q :
  ForceQuery u = false → RawQuery u = "" → Fragment u = "" → q ≠ "" →
  url_string raw (with_query u q) = url_string raw u +:+ "?" +:+ q.
Proof.
  intros Hf Hr Hg Hq. unfold url_string, with_query. cbn [Scheme Opaque User Host Path RawPath ForceQuery RawQuery Fragment].
  rewrite Hf, Hr, Hg, (proj2 (String.eqb_neq q "") Hq). cbn [orb negb String.eqb]. by rewrite !app_empty_r.
Qed.

(** ** The bytes of an encoded query *)
Definition encoded_byte (c : ascii) : bool := query_byte c || byte_in [38; 61] (byte_of c).

Lemma forallb_app_str (f : ascii → bool) s t :
  forallb f (String.list_ascii_of_string (s +:+ t)) =
  forallb f (String.list_ascii_of_string s) && forallb f (String.list_ascii_of_string t).
Proof. by rewrite bytes_app_ascii, forallb_app. Qed.

Lemma Encode_bytes l : forallb encoded_byte (String.list_ascii_of_string (Encode l)) = true.
Proof.
  assert (Hesc : ∀ s, forallb encoded_byte (String.list_ascii_of_string (QueryEscape s)) = true).
  { intros s. pose proof (QueryEscape_bytes s) as Hb. rewrite forallb_forall in *. intros c Hc.
    unfold encoded_byte. by rewrite (Hb c Hc). }
  unfold Encode. induction (sort_pairs l) as [|kv [|kv' m] IH]; [done| |].
  - cbn. unfold encode_pair. by rewrite !forallb_app_str, !Hesc.
  - change (Join (encode_pair <$> kv :: kv' :: m) "&")
      with (encode_pair kv +:+ "&" +:+ Join (encode_pair <$> kv' :: m) "&").
    rewrite !forallb_app_str, IH. unfold encode_pair. by rewrite !forallb_app_str, !Hesc.
Qed.

Lemma Encode_no_byte c l : encoded_byte c = false → no_byte c (Encode l).
Proof.
  intros Hc Hin%list_elem_of_In. pose proof (Encode_bytes l) as Hb. rewrite forallb_forall in Hb.
  specialize (Hb _ Hin). congruence.
Qed.

Lemma encoded_range c : encoded_byte c = true → 33 ≤ byte_of c < 127.
Proof.
  unfold encoded_byte, query_byte, is_alnum, byte_in. cbn [existsb].
  rewrite !orb_true_iff, !andb_true_iff, !Z.leb_le, !Z.eqb_eq. intuition (try discriminate; lia).
Qed.

Lemma Encode_no_ctl l : has_ctl (Encode l) = false.
Proof.
  apply existsb_false_iff. intros z (c & -> & Hc)%list_elem_of_fmap.
  pose proof (Encode_bytes l) as Hb. rewrite forallb_forall in Hb. apply list_elem_of_In in Hc.
  specialize (Hb _ Hc). apply encoded_range in Hb.
  rewrite (proj2 (Z.ltb_ge _ _)), (proj2 (Z.eqb_neq _ _)) by lia. done.
Qed.

Lemma Encode_ascii l : ascii_str (Encode l).
Proof.
  apply Forall_forall. intros c Hc%list_elem_of_In.
  pose proof (Encode_bytes l) as Hb. rewrite forallb_forall in Hb.
  specialize (Hb _ Hc). apply encoded_range in Hb. simpl. lia.
Qed.

Lemma Encode_nonempty l : l ≠ [] → Encode l ≠ "".
Proof.
  intros Hl He. pose proof (sort_pairs_perm l) as Hp. rewrite <-(parse_query_encode l Hl), He in Hp.
  by apply Permutation_nil_l in Hp.
Qed.

(** The query of a URL that was given one. *)
Lemma Parse_encoded `{Unicode} e u l :
  Parse e = Ok u → no_byte "?" e → no_byte "#" e → e ≠ "*" → l ≠ [] →
  Parse (e +:+ "?" +:+ Encode l) = Ok (with_query u (Encode l)).
Proof.
  intros. apply Parse_query; try done;
    [by apply Encode_nonempty|by apply Encode_no_byte; vm_compute|apply Encode_no_ctl].
Qed.

Lemma hex_escape_ascii s : ascii_str s → hex_escape s = s.
Proof.
  induction s as [|c s IH]; [done|]. intros [Hc Hs]%ascii_str_cons.
  unfold hex_escape in *. cbn [String.list_ascii_of_string fmap list_fmap concat_strings].
  by rewrite IH, (proj2 (Z.ltb_lt _ _) Hc).
Qed.

(** [http.Redirect] leaves an absolute URL as it is. *)
Lemma redirect_location_absolute `{Unicode} path url u :
  Parse url = Ok u → Scheme u ≠ "" → ascii_str url → redirect_location path url = url.
Proof.
  intros Hp Hs Ha. unfold redirect_location. rewrite Hp, (proj2 (String.eqb_neq _ _) Hs). by apply hex_escape_ascii.
Qed.
