(* ===== verification/Tools.v ===== *)
(** * The configuration tools (cmd/schema, cmd/validateconfig)

    The schemas are generated from the configuration structs by a library and
    rewritten here: objects closed, the optional keys taken off the required
    lists, nested requirements relaxed. The checker finds the schema of a
    binary above the working directory, validates a file against it and loads
    it as the binary would. *)

From S2P Require Import Prelude.
From S2P Require Import GoStrings.
From S2P Require Import Effects.
From S2P Require Import GoAny.
From S2P Require Import Json.
From S2P Require Import GoUrl.
From S2P Require Import AuthConfig.
From S2P Require Import AuthzHttp.
From S2P Require Import GoHttp.
From S2P Require Import Policy.
From S2P Require Import PluginHost.
From S2P Require Import Registry.
From S2P Require Import Ratelimit.
From S2P Require Import Oidc.
From S2P Require Import OidcFacts.
From S2P Require Import UrlFacts.
From S2P Require Import ProxyServer.

(** ** Generated schemas (cmd/schema) *)
Definition optionalTopLevelFields : list string := ["connectors"; "routes"].

(** [m[k] = v] *)
Fixpoint set_key (k : string) (v : any) (m : list (string * any)) : list (string * any) :=
  match m with
  | [] => [(k, v)]
  | (k', v') :: m' => if String.eqb k k' then (k, v) :: m' else (k', v') :: set_key k v m'
  end.

Definition is_optional (v : any) : bool :=
  match v with AStr s => existsb (String.eqb s) optionalTopLevelFields | _ => false end.
(** What one node of the schema is turned into, before its children. *)
Definition close_object (m : list (string * any)) : list (string * any) :=
  if String.eqb (default "" (as_string (map_index "type" m))) "object"
  then match assoc "additionalProperties" m with
       | Some _ => m
       | None => set_key "additionalProperties" (ABool false) m
       end
  else m.
Definition prune_required (m : list (string * any)) : list (string * any) :=
  match map_index "required" m with
  | AList req => set_key "required" (AList (List.filter (λ x, negb (is_optional x)) req)) m
  | _ => m
  end.
Definition bound_node (m : list (string * any)) : list (string * any) := prune_required (close_object m).

(** The fuel is a bound on the nesting. *)
Fixpoint boundSchemaValue (n : nat) (v : any) : any :=
  match n with
  | O => v
  | S n' =>
      match v with
      | AMap m => AMap (List.map (λ kv, (kv.1, boundSchemaValue n' kv.2)) (bound_node m))
      | AList l => AList (List.map (boundSchemaValue n') l)
      | _ => v
      end
  end.
Fixpoint any_depth (v : any) : nat :=
  match v with
  | AList l => S (foldr (λ x d, Nat.max (any_depth x) d) O l)
  | AMap m => S (foldr (λ kv d, Nat.max (any_depth kv.2) d) O m)
  | _ => O
  end.

(** [json.MarshalIndent v "" "  "] *)
Definition indent (d : nat) : string := newline +:+ concat_strings (replicate (2 * d) " ").
Fixpoint print_indent (d : nat) (j : json) : string :=
  match j with
  | JArr ((_ :: _) as l) =>
      "[" +:+ indent (S d) +:+ Join (List.map (print_indent (S d)) l) ("," +:+ indent (S d)) +:+ indent d +:+ "]"
  | JObj ((_ :: _) as m) =>
      "{" +:+ indent (S d)
      +:+ Join (List.map (λ kv, print_string kv.1 +:+ ": " +:+ print_indent (S d) kv.2) m) ("," +:+ indent (S d))
      +:+ indent d +:+ "}"
  | _ => print j
  end.
Example print_indent_ex : print_indent 0 (JObj [("a", JArr [JNum "1"; JNum "2"]); ("b", JObj [])]) =
  of_bytes ([123; 10; 32; 32; 34; 97; 34; 58; 32; 91; 10] ++ [32; 32; 32; 32; 49; 44; 10] ++ [32; 32; 32; 32; 50; 10]
            ++ [32; 32; 93; 44; 10; 32; 32; 34; 98; 34; 58; 32; 123; 125; 10; 125]).
Proof. vm_compute. reflexivity. Qed.

Section schema.
Context `{JsonErrors}.

Definition decode_any (data : string) : res any :=
  match parse data ≫= any_of_json with Some v => Ok v | None => Err (unmarshal_error data) end.
Definition MarshalIndent (v : any) : res string :=
  match json_of_any v with Some j => Ok (print_indent 0 j) | None => Err (marshal_error v) end.

Definition boundSchema (schemaBytes : string) : res string :=
  try v <- decode_any schemaBytes ; MarshalIndent (boundSchemaValue (S (any_depth v)) v).

Definition empty_required (props : list (string * any)) (name : string) : list (string * any) :=
  match map_index name props with
  | AMap sub => set_key name (AMap (set_key "required" (AList []) sub)) props
  | _ => props
  end.
Definition relax_items (required fullyOptional : list string) (items : list (string * any)) : list (string * any) :=
  let items := set_key "required" (AList (AStr <$> required)) items in
  match map_index "properties" items with
  | AMap itemProps => set_key "properties" (AMap (foldl empty_required itemProps fullyOptional)) items
  | _ => items
  end.
Definition relax_prop (fullyOptional : list string) (props : list (string * any)) (pr : string * list string)
    : list (string * any) :=
  match map_index pr.1 props with
  | AMap arr =>
      match map_index "items" arr with
      | AMap items => set_key pr.1 (AMap (set_key "items" (AMap (relax_items pr.2 fullyOptional items)) arr)) props
      | _ => props
      end
  | _ => props
  end.
(** The document must be an object; null is an empty one. *)
Definition decode_doc (data : string) : res (list (string * any)) :=
  match decode_any data with
  | Ok (AMap m) => Ok m
  | Ok ANil => Ok []
  | _ => Err (unmarshal_error data)
  end.
(** [requiredByProp] in the order the map is walked. *)
Definition relaxNested (schemaBytes : string) (requiredByProp : list (string * list string))
    (fullyOptional : list string) : res string :=
  match decode_doc schemaBytes with
  | Err e => Err e
  | Ok doc =>
      let doc := match map_index "properties" doc with
                 | AMap props => set_key "properties" (AMap (foldl (relax_prop fullyOptional) props requiredByProp)) doc
                 | _ => doc end in
      MarshalIndent (AMap doc)
  end.
End schema.

(** The generator library, and the files. *)
Class SchemaE (E : Type → Type) := {
  GenerateFor : string → string → E (res string);      (* the struct and the title *)
  MkdirAll : string → E (option string);
  WriteSchema : string → string → E (option string);
  SchemaStderr : string → E unit }.

Section generate.
Context `{JsonErrors} {E : Type → Type} `{!SchemaE E}.

Definition schema_of (name title : string) (requiredByProp : list (string * list string)) (fullyOptional : list string)
    : prog E (option string) :=
  b <- call (GenerateFor name title) ;;
  match b with
  | Err e => Ret (Some ("generate schema for " +:+ name +:+ " config: " +:+ e))
  | Ok b =>
      match boundSchema b with
      | Err e => Ret (Some ("bound " +:+ name +:+ " schema: " +:+ e))
      | Ok b =>
          match relaxNested b requiredByProp fullyOptional with
          | Err e => Ret (Some ("relax " +:+ name +:+ " schema: " +:+ e))
          | Ok b =>
              e <- call (WriteSchema ("schemas/" +:+ name +:+ ".schema.json") b) ;;
              Ret match e with Some e => Some ("write " +:+ name +:+ ".schema.json: " +:+ e) | None => None end
          end
      end
  end.
Definition generateSchemas : prog E (option string) :=
  e <- call (MkdirAll "schemas") ;;
  match e with
  | Some e => Ret (Some ("create schemas dir: " +:+ e))
  | None =>
      e <- schema_of "auth" "AccessGate auth (OIDC/session) config"
             [("connectors", ["id"; "oidc_issuer"; "oidc_redirect_uri"; "oidc_client_id"])] ["claim_mapping"] ;;
      match e with
      | Some e => Ret (Some e)
      | None => schema_of "proxy" "AccessGate proxy config" [("routes", ["id"; "path_prefix"; "upstream_url"])] []
      end
  end.
Definition schema_main : prog E Z :=
  e <- generateSchemas ;;
  match e with
  | Some e => call (SchemaStderr ("schema generation failed: " +:+ e +:+ newline)) ;;; Ret 1
  | None => Ret 0
  end.
End generate.

(** ** Checking a configuration (cmd/validateconfig)

    The YAML reader, the schema validator (which answers the texts of the
    errors it finds) and the loaders of the two binaries are outside. *)
Class ValidateE (E : Type → Type) := {
  Getwd : E (res string);
  YAMLToJSON : string → res string;
  SchemaErrors : string → any → E (res (list string));
  LoadAs : bool → string → E (option string);        (* the proxy's loader, or the auth server's *)
  Stdout : string → E unit;
  Stderr : string → E unit }.

(** [filepath.Dir] *)
Definition filepath_Dir (p : string) : string := Clean (dir_of p).

Section validate.
Context `{Unicode} `{JsonErrors} {E : Type → Type} `{!FileE E} `{!ValidateE E}.

(** The binary's name, and a warning for the old one. *)
Definition normalizeBinary (s : string) : string * string :=
  let s := TrimSpace (ToLower s) in
  if String.eqb s "agent" then ("auth", "BINARY=agent is deprecated; use BINARY=auth") else (s, "").

(** The directories from the working directory up to the root; without fuel
    the search is not finished. *)
Fixpoint find_up (n : nat) (name dir : string) : prog E (option (option string)) :=
  match n with
  | O => Ret None
  | S n =>
      let candidate := join_path (join_path dir "schemas") name in
      st <- call (Stat candidate) ;;
      match st with
      | Ok _ => Ret (Some (Some candidate))
      | Err _ => if String.eqb (filepath_Dir dir) dir then Ret (Some None) else find_up n name (filepath_Dir dir)
      end
  end.
Definition findSchemaPath (binary : string) : prog E (res string) :=
  let name := binary +:+ ".schema.json" in
  let missing := "schema not found for " +:+ Quote binary +:+ " (expected schemas/" +:+ name +:+ ")" in
  wd <- call Getwd ;;
  match wd with
  | Err _ => Ret (Err missing)
  | Ok wd =>
      r <- find_up (S (String.length wd)) name wd ;;
      Ret match r with Some (Some p) => Ok p | _ => Err missing end
  end.

Definition back_slash : string := of_bytes [92].
Definition fileURL (absPath : string) : string :=
  let p := ReplaceAll absPath back_slash "/" in
  let p := if HasPrefix p "/" then p else "/" +:+ p in
  url_string "" {| Scheme := "file"; Opaque := ""; User := None; Host := ""; Path := p; RawPath := ""; ForceQuery := false;
                   RawQuery := ""; Fragment := "" |}.

(** The path found is absolute and clean, so [mustAbs] leaves it. *)
Definition validateAgainstSchema (configPath binary : string) : prog E (option string) :=
  p <- findSchemaPath binary ;;
  match p with
  | Err e => Ret (Some e)
  | Ok schemaPath =>
      a <- call (ReadFile configPath) ;;
      match a with
      | Data configBytes =>
          match YAMLToJSON configBytes with
          | Err e => Ret (Some ("parse config as json/yaml: " +:+ e))
          | Ok jsonBytes =>
              match decode_any jsonBytes with
              | Err e => Ret (Some ("decode config json: " +:+ e))
              | Ok doc =>
                  r <- call (SchemaErrors (fileURL schemaPath) doc) ;;
                  Ret match r with
                      | Err e => Some ("schema validation failed: " +:+ e)
                      | Ok [] => None
                      | Ok msgs => Some ("schema validation errors: " +:+ Join msgs "; ")
                      end
              end
          end
      | a => Ret (Some ("read config for schema validation: " +:+ read_error a))
      end
  end.

Definition validate_run (configPath binary : string) : prog E (option string) :=
  e <- validateAgainstSchema configPath binary ;;
  match e with
  | Some e => Ret (Some e)
  | None =>
      if String.eqb binary "auth" then call (LoadAs false configPath)
      else if String.eqb binary "proxy" then call (LoadAs true configPath)
      else Ret (Some ("unknown BINARY=" +:+ Quote binary +:+ " (use auth or proxy)"))
  end.

(** What is asked of [main]: the file and the binary, from the environment. *)
Definition validate_config_path (env : string → string) : string :=
  or_str (env "CONFIG_PATH") (or_str (env "AUTH_CONFIG") (or_str (env "AGENT_CONFIG") (env "PROXY_CONFIG"))).
Definition validate_binary (env : string → string) : string * string :=
  let path := validate_config_path env in
  let b := env "BINARY" in
  let b := if String.eqb b "" && negb (String.eqb path "")
           then if Contains path "proxy" then "proxy" else "auth" else b in
  normalizeBinary (or_str b "auth").
(** The exit status; [arg0] is the name the program was started by. *)
Definition validate_main (env : string → string) (arg0 : string) : prog E Z :=
  let '(binary, warn) := validate_binary env in
  (if String.eqb warn "" then Ret tt else call (Stderr ("validate-config: " +:+ warn +:+ newline))) ;;;
  let path := validate_config_path env in
  if String.eqb path "" then
    call (Stderr ("usage: CONFIG_PATH=/path/to/config.json BINARY=auth|proxy " +:+ arg0 +:+ newline)) ;;;
    call (Stderr ("  or set AUTH_CONFIG (or deprecated AGENT_CONFIG) / PROXY_CONFIG instead of CONFIG_PATH" +:+ newline)) ;;;
    Ret 2
  else
    e <- validate_run path binary ;;
    match e with
    | Some e => call (Stderr ("validate-config: " +:+ e +:+ newline)) ;;; Ret 1
    | None => call (Stdout ("config valid" +:+ newline)) ;;; Ret 0
    end.
End validate.

(** ** What the tools guarantee *)

(** Every object of a schema says what other members it takes, and no key of
    the optional ones is required anywhere. *)
Definition node_closed (m : list (string * any)) : Prop :=
  (map_index "type" m = AStr "object" → is_Some (assoc "additionalProperties" m)) ∧
  (∀ req, map_index "required" m = AList req → AStr "connectors" ∉ req ∧ AStr "routes" ∉ req).
Fixpoint schema_closed (v : any) : Prop :=
  match v with
  | AList l => (fix go l := match l with [] => True | x :: l' => schema_closed x ∧ go l' end) l
  | AMap m => node_closed m ∧ (fix go m := match m with [] => True | (_, x) :: m' => schema_closed x ∧ go m' end) m
  | _ => True
  end.

Lemma assoc_set_key_eq k v m : assoc k (set_key k v m) = Some v.
Proof.
  induction m as [|[k' v'] m IH]; simpl; [by rewrite String.eqb_refl|].
  destruct (String.eqb k k') eqn:E; simpl; [by rewrite String.eqb_refl|by rewrite E].
Qed.
Lemma assoc_set_key_ne k k' v m : k ≠ k' → assoc k (set_key k' v m) = assoc k m.
Proof.
  intros Hne. induction m as [|[a b] m IH]; simpl; [by rewrite (proj2 (String.eqb_neq _ _) Hne)|].
  destruct (String.eqb_spec k' a) as [->|]; simpl; [by rewrite (proj2 (String.eqb_neq _ _) Hne)|].
  by destruct (String.eqb k a).
Qed.
Lemma map_index_map (f : any → any) k (m : list (string * any)) :
  f ANil = ANil → map_index k (List.map (λ kv, (kv.1, f kv.2)) m) = f (map_index k m).
Proof.
  intros Hf. unfold map_index. induction m as [|[a b] m IH]; simpl; [done|]. by destruct (String.eqb k a).
Qed.
Lemma assoc_map (f : any → any) k (m : list (string * any)) :
  assoc k (List.map (λ kv, (kv.1, f kv.2)) m) = option_map f (assoc k m).
Proof. induction m as [|[a b] m IH]; simpl; [done|]. by destruct (String.eqb k a). Qed.
Lemma map_index_set_eq k v m : map_index k (set_key k v m) = v.
Proof. unfold map_index. by rewrite assoc_set_key_eq. Qed.
Lemma map_index_set_ne k k' v m : k ≠ k' → map_index k (set_key k' v m) = map_index k m.
Proof. intros. unfold map_index. by rewrite assoc_set_key_ne. Qed.
Lemma set_key_in kv k v m : kv ∈ set_key k v m → kv = (k, v) ∨ kv ∈ m.
Proof.
  induction m as [|[a b] m IH]; simpl; [set_solver|]. destruct (String.eqb k a); set_solver.
Qed.
Lemma assoc_in {A} k (v : A) m : assoc k m = Some v → (k, v) ∈ m.
Proof.
  induction m as [|[a b] m IH]; simpl; [done|]. destruct (String.eqb_spec k a) as [->|]; [intros [= ->]; left|].
  intros Hk. right. auto.
Qed.

Lemma schema_closed_map m : schema_closed (AMap m) ↔ node_closed m ∧ Forall (λ kv, schema_closed kv.2) m.
Proof.
  assert (Hg : (fix go m := match m with [] => True | (_, x) :: m' => schema_closed x ∧ go m' end) m ↔
               Forall (λ kv, schema_closed kv.2) m).
  { induction m as [|[k x] m IH]; [by split|]. rewrite Forall_cons, <-IH. done. }
  cbn [schema_closed]. by rewrite Hg.
Qed.
Lemma schema_closed_list l : schema_closed (AList l) ↔ Forall schema_closed l.
Proof. induction l as [|x l IH]; [by split|]. rewrite Forall_cons, <-IH. done. Qed.

Lemma bound_scalar n v : (∀ m, v ≠ AMap m) → (∀ l, v ≠ AList l) → boundSchemaValue n v = v.
Proof. destruct n, v; naive_solver. Qed.
Lemma bound_str n v s : boundSchemaValue n v = AStr s → v = AStr s.
Proof. destruct n, v; naive_solver. Qed.

Lemma bound_nil n : boundSchemaValue n ANil = ANil.
Proof. by destruct n. Qed.

(** A node, once rewritten. *)
Lemma close_object_required m : map_index "required" (close_object m) = map_index "required" m.
Proof.
  unfold close_object. destruct (String.eqb _ "object"); [|done].
  destruct (assoc "additionalProperties" m); [done|]. by apply map_index_set_ne.
Qed.
Lemma close_object_closed m :
  map_index "type" (close_object m) = AStr "object" → is_Some (assoc "additionalProperties" (close_object m)).
Proof.
  unfold close_object. destruct (String.eqb_spec (default "" (as_string (map_index "type" m))) "object") as [Ht|Ht].
  - intros _. destruct (assoc "additionalProperties" m) eqn:Ea; [by rewrite Ea|]. by rewrite assoc_set_key_eq.
  - intros He. rewrite He in Ht. by destruct Ht.
Qed.
Lemma bound_node_closed m : node_closed (bound_node m).
Proof.
  unfold bound_node, prune_required. pose proof (close_object_closed m) as Ho.
  split.
  - destruct (map_index "required" (close_object m)); try done.
    rewrite map_index_set_ne, assoc_set_key_ne by done. done.
  - intros req. destruct (map_index "required" (close_object m)) as [| | | | | | |l|] eqn:Er; try (by rewrite Er; intros [=]).
    rewrite map_index_set_eq. intros [= <-].
    split; intros [_ Hx]%list_elem_of_In%filter_In; discriminate Hx.
Qed.
Lemma node_closed_map f m :
  f ANil = ANil → (∀ v s, f v = AStr s → v = AStr s) → (∀ v l, f v = AList l → ∃ l0, v = AList l0 ∧ ∀ s, AStr s ∈ l → AStr s ∈ l0) →
  node_closed m → node_closed (List.map (λ kv, (kv.1, f kv.2)) m).
Proof.
  intros Hn Hs Hl [Ht Hr]. split.
  - rewrite map_index_map by done. intros Ho%Hs. destruct (Ht Ho) as [v Hv].
    rewrite (assoc_map f), Hv. by eexists.
  - intros req. rewrite map_index_map by done. intros (l0 & Hl0 & Hin)%Hl. destruct (Hr l0 Hl0) as [? ?]. auto.
Qed.
Lemma bound_list n v l :
  boundSchemaValue n v = AList l → ∃ l0, v = AList l0 ∧ ∀ s, AStr s ∈ l → AStr s ∈ l0.
Proof.
  destruct n as [|n]; simpl; [intros ->; eauto|]. destruct v as [| | | | | | |l0|]; try done. intros [= <-].
  exists l0. split; [done|]. intros s (x & Hx & Hin)%list_elem_of_In%in_map_iff.
  apply bound_str in Hx as ->. by apply list_elem_of_In.
Qed.

(** ** Depths *)
Lemma foldr_max {A} (d : A → nat) l x : x ∈ l → (d x ≤ foldr (λ y n, Nat.max (d y) n) O l)%nat.
Proof. induction l as [|y l IH]; [by intros ?%elem_of_nil|]. intros [->|Hx]%elem_of_cons; simpl; [lia|]. specialize (IH Hx). lia. Qed.
Lemma foldr_max_le {A} (d : A → nat) l n : (∀ x, x ∈ l → d x ≤ n)%nat → (foldr (λ y n, Nat.max (d y) n) O l ≤ n)%nat.
Proof. induction l as [|y l IH]; intros Hl; simpl; [lia|]. apply Nat.max_lub; [apply Hl; left|apply IH; intros; apply Hl; by right]. Qed.

Lemma bound_node_depth m kv :
  kv ∈ bound_node m → (any_depth kv.2 < any_depth (AMap m))%nat.
Proof.
  assert (Hm : ∀ x : string * any, x ∈ m → (any_depth x.2 < any_depth (AMap m))%nat).
  { intros x Hx. apply Nat.lt_succ_r. exact (foldr_max (λ kv, any_depth kv.2) m x Hx). }
  assert (Hc : ∀ x, x ∈ close_object m → (any_depth x.2 < any_depth (AMap m))%nat).
  { unfold close_object. intros x. destruct (String.eqb _ "object"); [|auto].
    destruct (assoc _ m); [auto|]. intros [->|Hx]%set_key_in; [simpl; lia|auto]. }
  unfold bound_node, prune_required. destruct (map_index "required" (close_object m)) as [| | | | | | |l|] eqn:Er; auto.
  intros [->|Hx]%set_key_in; [|auto]. unfold map_index in Er.
  destruct (assoc "required" (close_object m)) as [r|] eqn:Ea; [|done]. simpl in Er. subst r.
  apply assoc_in in Ea. specialize (Hc _ Ea). cbn [snd] in *.
  enough (any_depth (AList (List.filter (λ x, negb (is_optional x)) l)) ≤ any_depth (AList l))%nat by lia.
  cbn [any_depth]. apply le_n_S, (foldr_max_le any_depth). intros x [Hx _]%list_elem_of_In%filter_In.
  apply (foldr_max any_depth). by apply list_elem_of_In.
Qed.

(** The generated schemas are closed: with the fuel the tool gives, every
    object node of the result, at any depth, says what other members it takes,
    and no list of required members holds an optional key. *)
Theorem schema_bounded n v : (any_depth v < n)%nat → schema_closed (boundSchemaValue n v).
Proof.
  revert v. induction n as [|n IH]; intros v Hn; [lia|]. cbn [boundSchemaValue].
  destruct v as [| | | | | | |l|m]; try done.
  - apply schema_closed_list, Forall_forall. intros x (y & <- & Hy)%list_elem_of_In%in_map_iff.
    apply IH. apply list_elem_of_In in Hy. pose proof (foldr_max any_depth l y Hy). cbn [any_depth] in Hn. lia.
  - apply schema_closed_map. split.
    + apply node_closed_map; [apply bound_nil|apply bound_str|apply bound_list|apply bound_node_closed].
    + apply Forall_forall. intros x (y & <- & Hy)%list_elem_of_In%in_map_iff. cbn [snd].
      apply IH. apply list_elem_of_In, bound_node_depth in Hy. lia.
Qed.

(** ** The search for a schema ends *)
Definition path_of (l : list string) : string := "/" +:+ Join l "/".
Definition segment (x : string) : Prop := x ≠ "" ∧ x ≠ "." ∧ x ≠ ".." ∧ no_byte "/" x.

Lemma cut_last_first c a b : no_byte c b → cut_last (str c) (a +:+ str c +:+ b) = Some (a, b).
Proof.
  intros Hb. unfold cut_last. rewrite !rev_string_app, app_assoc_str. change (rev_string (str c)) with (str c).
  rewrite cut_first by by apply no_byte_rev. by rewrite !rev_string_invol.
Qed.
Lemma Join_snoc l x sep : l ≠ [] → Join (l ++ [x]) sep = Join l sep +:+ sep +:+ x.
Proof.
  induction l as [|y [|z l] IH]; intros Hl; [done..|].
  change (Join ((y :: z :: l) ++ [x]) sep) with (y +:+ sep +:+ Join ((z :: l) ++ [x]) sep).
  rewrite IH by done. change (Join (y :: z :: l) sep) with (y +:+ sep +:+ Join (z :: l) sep).
  by rewrite !app_assoc_str.
Qed.
Lemma Split_Join c l : l ≠ [] → Forall (no_byte c) l → Split (Join l (str c)) (str c) = l.
Proof. intros. unfold Split. apply split_aux_Join; [done..|apply Join_length]. Qed.

Lemma clean_plain l acc : Forall segment l → clean_segments true (l ++ [""]) acc = reverse acc ++ l.
Proof.
  revert acc. induction l as [|x l IH]; intros acc Hl; [simpl; by rewrite app_nil_r|].
  apply Forall_cons in Hl as [(H1 & H2 & H3 & _) Hl]. cbn [app clean_segments].
  rewrite !(proj2 (String.eqb_neq _ _)) by done. cbn [orb]. rewrite IH by done.
  by rewrite reverse_cons, <-app_assoc.
Qed.

Lemma Dir_path l x : Forall segment (l ++ [x]) → filepath_Dir (path_of (l ++ [x])) = path_of l.
Proof.
  intros [Hl Hx]%Forall_app. apply Forall_cons in Hx as [(_ & _ & _ & Hx) _]. unfold filepath_Dir, dir_of, path_of.
  destruct (decide (l = [])) as [->|Hne].
  - change ("/" +:+ Join ([] ++ [x]) "/") with ("" +:+ str "/" +:+ x). change "/" with (str "/").
    rewrite cut_last_first by done. reflexivity.
  - rewrite Join_snoc, <-app_assoc_str by done. change "/" with (str "/") at 1 3. rewrite cut_last_first by done.
    change (str "/") with "/". unfold Clean. assert (Hp : HasPrefix (("/" +:+ Join l "/") +:+ "/") "/" = true) by reflexivity.
    rewrite Hp. assert (Hs : Split (("/" +:+ Join l "/") +:+ "/") "/" = "" :: l ++ [""]).
    { transitivity (Split (Join ("" :: l ++ [""]) "/") "/").
      - f_equal. destruct l as [|y l]; [done|]. change (Join ("" :: (y :: l) ++ [""]) "/") with ("/" +:+ Join ((y :: l) ++ [""]) "/").
        by rewrite Join_snoc, app_empty_r, app_assoc_str.
      - apply (Split_Join "/"%char); [done|]. apply List.Forall_cons; [by intros ?%elem_of_nil|].
        apply Forall_app. split; [|by apply List.Forall_cons; [intros ?%elem_of_nil|]].
        eapply Forall_impl; [exact Hl|]. by intros y (_ & _ & _ & Hy). }
    rewrite Hs. cbn [clean_segments]. rewrite clean_plain by done. cbn [String.eqb orb app reverse].
    by destruct l.
Qed.

(** The search from a directory ends, at the first schema above it or at the
    root: the fuel, a unit per byte of the directory, is enough. *)
Theorem find_up_ends `{Unicode} {E : Type → Type} `{!FileE E} n name l :
  Forall segment l → (length l < n)%nat → always (λ r, r ≠ None) (find_up (E := E) n name (path_of l)).
Proof.
  revert l. induction n as [|n IH]; intros l Hl Hn; [lia|]. cbn [find_up always pbind call]. intros [t|e]; [done|].
  destruct (String.eqb_spec (filepath_Dir (path_of l)) (path_of l)) as [|Hd]; [done|].
  destruct l as [|x l _] using rev_ind; [by destruct Hd|].
  rewrite Dir_path by done. apply IH; [by apply Forall_app in Hl as [? _]|].
  rewrite length_app in Hn. simpl in Hn. lia.
Qed.
Lemma path_fuel l : (length l < S (String.length (path_of l)))%nat.
Proof. unfold path_of. cbn [String.append String.length]. pose proof (Join_length "/" l) as Hj. unfold str in Hj. lia. Qed.

(** ** The URL of a file *)
Definition path_byte (c : ascii) : bool := negb (byte_in [35; 63; 127] (byte_of c)) && (33 <=? byte_of c).

Lemma escape_path_cons c s : escape EncPath (String c s) =
  (if shouldEscape (byte_of c) EncPath then
     String (of_byte 37) (String (upperhex (byte_of c / 16)) (str (upperhex (byte_of c `mod` 16))))
   else str c) +:+ escape EncPath s.
Proof. cbn [escape]. by rewrite (bool_decide_false (EncPath = _)), andb_false_r by done. Qed.

Lemma unescape_escape_path s : unescape EncPath (escape EncPath s) = Some s.
Proof.
  induction s as [|c s IH]; [done|]. rewrite escape_path_cons. pose proof (byte_of_range c) as Hc.
  destruct (shouldEscape (byte_of c) EncPath) eqn:Ee.
  - cbn. rewrite !unhex_upperhex by (Z.to_euclidean_division_equations; lia). rewrite IH. do 2 f_equal.
    rewrite <-(of_byte_of c) at 3. f_equal. Z.to_euclidean_division_equations; lia.
  - assert (byte_of c ≠ 37) as H37 by (intros E; rewrite E in Ee; vm_compute in Ee; discriminate).
    cbn. rewrite (proj2 (Z.eqb_neq _ _) H37), andb_false_r. cbn. by rewrite IH.
Qed.

Lemma escape_path_bytes s : forallb path_byte (String.list_ascii_of_string (escape EncPath s)) = true.
Proof.
  induction s as [|c s IH]; [done|]. rewrite escape_path_cons. pose proof (byte_of_range c) as Hc.
  rewrite bytes_app_ascii, forallb_app, IH, andb_true_r.
  destruct (shouldEscape (byte_of c) EncPath) eqn:Ee.
  - assert (Hh : ∀ x, 0 ≤ x < 16 → path_byte (upperhex x) = true).
    { intros x Hx. unfold path_byte, upperhex, byte_in. cbn [existsb].
      destruct (Z.ltb_spec x 10); rewrite byte_of_of by lia; rewrite !(proj2 (Z.eqb_neq _ _)) by lia; simpl; lia. }
    cbn. by rewrite !Hh by (Z.to_euclidean_division_equations; lia).
  - destruct c as [[] [] [] [] [] [] [] []]; vm_compute in Ee; try discriminate Ee; reflexivity.
Qed.

(** ** What the checker reports *)

(** The checker says that a configuration is valid, and exits with success, only
    when some file was named, the binary is one of the two, a schema was found
    and had nothing to say about the document, and the binary's own loader took
    the file. *)
Theorem validate_success `{Unicode} `{JsonErrors} {E : Type → Type} `{!FileE E} `{!ValidateE E} env arg0 tr
    (Hx : exec (validate_main (E := E) env arg0) tr 0) :
  let path := validate_config_path env in
  let binary := (validate_binary env).1 in
  path ≠ "" ∧ (binary = "auth" ∨ binary = "proxy") ∧
  ∃ url doc data json, Ev (ReadFile path) (Data data) ∈ tr ∧ YAMLToJSON data = Ok json ∧ decode_any json = Ok doc ∧
    Ev (SchemaErrors url doc) (Ok []) ∈ tr ∧ Ev (LoadAs (String.eqb binary "proxy") path) None ∈ tr ∧
    last tr = Some (Ev (Stdout ("config valid" +:+ newline)) tt).
Proof.
  unfold validate_main in Hx. destruct (validate_binary env) as [binary warn]. cbv zeta. cbn [fst].
  apply exec_bind in Hx as (u & t1 & t2 & -> & _ & Hx).
  destruct (String.eqb_spec (validate_config_path env) "") as [Hp|Hp].
  { apply exec_bind in Hx as (? & ? & ? & _ & _ & Hx). by apply exec_bind in Hx as (? & ? & ? & _ & _ & [_ ?]). }
  split; [done|]. set (path := validate_config_path env) in *. clearbody path.
  apply exec_bind in Hx as (e & t3 & t4 & -> & Hr & Hx). destruct e as [e|].
  { by apply exec_bind in Hx as (? & ? & ? & _ & _ & [_ ?]). }
  destruct Hx as (u' & t5 & -> & [-> _]). destruct u'.
  unfold validate_run in Hr. apply exec_bind in Hr as (e & t6 & t7 & -> & Hv & Hr). destruct e as [e|]; [by destruct Hr|].
  assert (Hl : (binary = "auth" ∨ binary = "proxy") ∧ t7 = [Ev (LoadAs (String.eqb binary "proxy") path) None]).
  { destruct (String.eqb_spec binary "auth") as [->|_]; [|destruct (String.eqb_spec binary "proxy") as [->|_]; [|by destruct Hr]];
      destruct Hr as (a & t8 & -> & [-> ->]); auto. }
  destruct Hl as [Hb ->]. split; [done|]. clear Hr.
  unfold validateAgainstSchema in Hv. apply exec_bind in Hv as (p & t8 & t9 & -> & _ & Hv).
  destruct p as [p|e]; [|by destruct Hv]. destruct Hv as (a & t10 & -> & Hv). cbn [pbind call] in Hv.
  destruct a as [data|m|m]; [|by destruct Hv..]. destruct (YAMLToJSON data) as [json|e] eqn:Hy; [|by destruct Hv].
  destruct (decode_any json) as [doc|e] eqn:Hd; [|by destruct Hv]. destruct Hv as (a & t11 & -> & [-> Ha]).
  destruct a as [[|]|]; try done. exists (fileURL p), doc, data, json. split_and!; try done; try set_solver.
  rewrite !(assoc_L (++)). by rewrite last_snoc.
Qed.

(** A path with a drive or none, whatever bytes are in it, becomes a URL that
    parses back to the file scheme, no host, and that path with its
    separators turned and one slash in front. *)
Theorem file_url_reads_back `{Unicode} p :
  let q := ReplaceAll p back_slash "/" in
  let q := if HasPrefix q "/" then q else "/" +:+ q in
  ∃ u, Parse (fileURL p) = Ok u ∧ Scheme u = ToLower "file" ∧ Host u = "" ∧ Path u = q ∧ RawQuery u = "" ∧ Fragment u = "".
Proof.
  intros q0 q. assert (Hq : ∃ r, q = String "/" r).
  { unfold q. destruct (HasPrefix q0 "/") eqn:E; [by apply HasPrefix_spec in E as [r ->]; exists r|by eexists]. }
  destruct Hq as [r Hr].
  assert (Hu : fileURL p = "file://" +:+ escape EncPath q).
  { unfold fileURL, url_string. fold q0. fold q. rewrite Hr. unfold escaped.
    cbn [Scheme Opaque User Host Path RawPath ForceQuery RawQuery Fragment].
    rewrite escape_path_cons. generalize (escape EncPath r) as t. intros t. cbn. by rewrite !app_empty_r. }
  assert (Hb : ∀ c, path_byte c = false → no_byte c (escape EncPath q)).
  { intros c Hc Hin%list_elem_of_In. pose proof (escape_path_bytes q) as Hf. rewrite forallb_forall in Hf.
    specialize (Hf _ Hin). congruence. }
  assert (Hctl : has_ctl ("file://" +:+ escape EncPath q) = false).
  { rewrite has_ctl_app. apply orb_false_iff. split; [done|]. apply existsb_false_iff.
    intros z (c & -> & Hc%list_elem_of_In)%list_elem_of_fmap. pose proof (escape_path_bytes q) as Hf.
    rewrite forallb_forall in Hf. specialize (Hf _ Hc). unfold path_byte, byte_in in Hf. cbn [existsb] in Hf.
    rewrite andb_true_iff, negb_true_iff, !orb_false_iff, !Z.eqb_neq, Z.leb_le in Hf.
    rewrite (proj2 (Z.ltb_ge _ _)), (proj2 (Z.eqb_neq _ _)) by lia. done. }
  rewrite Hu. pose proof (unescape_escape_path q) as Hun. rewrite Hr in *.
  rewrite (escape_path_cons "/" r) in *. change (shouldEscape (byte_of "/") EncPath) with false in *. cbv iota in *.
  set (t := escape EncPath r) in *. clearbody t.
  assert (Hno : ∀ c, path_byte c = false → no_byte c ("file://" +:+ str "/" +:+ t)).
  { intros c Hc. apply no_byte_app. split; [|by apply Hb].
    intros Hin. assert (forallb path_byte (String.list_ascii_of_string "file://") = true) as Hf by done.
    rewrite forallb_forall in Hf. apply list_elem_of_In in Hin. specialize (Hf _ Hin). congruence. }
  unfold Parse. pose proof (proj2 (cut_none "#"%char _) (Hno "#"%char eq_refl)) as Hc. unfold str at 1 in Hc. rewrite Hc.
  unfold parse_url. rewrite Hctl. change (getScheme _) with (Ok ("file", "///" +:+ t)).
  pose proof (no_byte_app "?" "file:" ("///" +:+ t)) as [Hsplit _].
  destruct (Hsplit (Hno "?"%char eq_refl)) as [_ Hq]. apply cut_none in Hq. unfold str in Hq.
  cbn [res_bind fst snd]. rewrite Hq. change (ToLower "file") with "file".
  change (split_authority "file" ("///" +:+ t)) with (Some "", str "/" +:+ t).
  change (parseAuthority "") with (Ok (@None string, "")). cbn [res_bind fst snd]. unfold set_path. rewrite Hun.
  eexists. split; [reflexivity|]. done.
Qed.
