(* ===== verification/RenderConfig.v ===== *)
(** * The example configurations (cmd/renderconfig)

    The printer of the default configurations: the two structs as
    encoding/json writes them, field by field in their order, and the program
    around it. A list that was never set is nil, and null in the text; the
    printer only sees configurations whose empty lists are of that kind. *)

From S2P Require Import Prelude.
From S2P Require Import GoStrings.
From S2P Require Import Effects.
From S2P Require Import GoAny.
From S2P Require Import Json.
From S2P Require Import AuthConfig.
From S2P Require Import ProxyConfig.
From S2P Require Import Tools.

(** ** The structs as JSON *)
Definition json_list (l : list json) : json := match l with [] => JNull | _ => JArr l end.
Definition json_strings (l : list string) : json := json_list (List.map JStr l).
Definition json_int (z : Z) : json := JNum (Itoa z).

Definition claim_mapping_json (m : ClaimMappingConfig) : json :=
  JObj [("authoritative_id_claim", JStr (AuthoritativeIDClaim m)); ("id_kind", JStr (IDKind m));
        ("email_claim", JStr (EmailClaim m)); ("name_claim", JStr (NameClaim m)); ("roles_claim", JStr (RolesClaim m))].
Definition connector_json (c : ConnectorConfig) : json :=
  JObj [("id", JStr (cc_ID c)); ("default", JBool (cc_Default c)); ("provider_plugin_id", JStr (cc_ProviderPluginID c));
        ("oidc_issuer", JStr (cc_OIDCIssuer c)); ("oidc_redirect_uri", JStr (cc_OIDCRedirectURI c));
        ("oidc_client_id", JStr (cc_OIDCClientID c)); ("oidc_client_secret", JStr (cc_OIDCClientSecret c));
        ("oidc_scopes", json_strings (cc_OIDCScopes c)); ("oidc_audience", JStr (cc_OIDCAudience c));
        ("oidc_claims_source", JStr (cc_OIDCClaimsSource c)); ("session_redis_prefix", JStr (cc_SessionRedisPrefix c));
        ("cookie_name", JStr (cc_CookieName c)); ("session_ttl_seconds", json_int (cc_SessionTTLSeconds c));
        ("session_pkce_ttl_seconds", json_int (cc_SessionPKCETTLSeconds c));
        ("session_refresh_lock_ttl_seconds", json_int (cc_SessionRefreshLockTTLSeconds c));
        ("claim_mapping", claim_mapping_json (cc_ClaimMapping c))].
(** [CookieSameSite] is tagged out. *)
Definition config_json (c : Config) : json :=
  JObj [("oidc_issuer", JStr (OIDCIssuer c)); ("oidc_redirect_uri", JStr (OIDCRedirectURI c));
        ("oidc_client_id", JStr (OIDCClientID c)); ("oidc_client_secret", JStr (OIDCClientSecret c));
        ("oidc_scopes", json_strings (OIDCScopes c)); ("oidc_audience", JStr (OIDCAudience c));
        ("oidc_claims_source", JStr (OIDCClaimsSource c)); ("redis_url", JStr (RedisURL c));
        ("session_redis_prefix", JStr (SessionRedisPrefix c)); ("session_ttl_seconds", json_int (c_SessionTTLSeconds c));
        ("session_pkce_ttl_seconds", json_int (c_SessionPKCETTLSeconds c));
        ("session_refresh_lock_ttl_seconds", json_int (c_SessionRefreshLockTTLSeconds c));
        ("session_refresh_early_seconds", json_int (SessionRefreshEarlySeconds c));
        ("cookie_name", JStr (CookieName c)); ("cookie_signing_secret", JStr (CookieSigningSecret c));
        ("cookie_secure", JBool (CookieSecure c)); ("cookie_same_site", JStr (CookieSameSiteStr c));
        ("cookie_domain", JStr (CookieDomain c)); ("app_base_url", JStr (AppBaseURL c));
        ("login_error_redirect_path", JStr (LoginErrorRedirectPath c));
        ("allowed_redirect_origins", json_strings (AllowedRedirectOrigins c));
        ("allowed_redirect_paths", json_strings (AllowedRedirectPaths c)); ("http_port", JStr (HTTPPort c));
        ("admin_secret", JStr (AdminSecret c)); ("post_login_webhook_url", JStr (PostLoginWebhookURL c));
        ("cors_allowed_origins", json_strings (CORSAllowedOrigins c)); ("provider_plugin_id", JStr (ProviderPluginID c));
        ("connectors", json_list (List.map connector_json (Connectors c)))].

Definition route_json (r : RouteConfig) : json :=
  JObj [("id", JStr (rc_ID r)); ("hosts", json_strings (Hosts r)); ("path_prefix", JStr (PathPrefix r));
        ("upstream_url", JStr (rc_UpstreamURL r)); ("require_auth", JBool (rc_RequireAuth r));
        ("unauthenticated_mode", JStr (UnauthenticatedMode r)); ("login_redirect_url", JStr (LoginRedirectURL r));
        ("connector_id", JStr (ConnectorID r)); ("policy_bundle_path", JStr (rc_PolicyBundlePath r))].
(** A raw map may hold what cannot be written. *)
Definition entry_json (e : PipelinePluginEntry) : option json :=
  raw ← json_of_any (from_option (λ m, AMap (map_to_list m)) ANil (pe_Raw e));
  Some (JObj [("id", JStr (pe_ID e)); ("type", JStr (pe_Type e)); ("raw", raw)]).
Definition proxy_config_json (c : ProxyConfig) : option json :=
  entries ← mapM entry_json (PipelinePlugins c);
  Some (JObj
    [("upstream_url", JStr (UpstreamURL c)); ("proxy_path_prefix", JStr (ProxyPathPrefix c));
     ("require_auth", JBool (RequireAuth c)); ("auth_url", JStr (AuthURL c)); ("cookie_name", JStr (pc_CookieName c));
     ("http_port", JStr (pc_HTTPPort c)); ("grpc_listen_addr", JStr (GRPCListenAddr c));
     ("grpc_upstream_addr", JStr (GRPCUpstreamAddr c)); ("grpc_upstream_insecure", JBool (GRPCUpstreamInsecure c));
     ("policy_engine", JStr (PolicyEngine c)); ("policy_bundle_path", JStr (PolicyBundlePath c));
     ("policy_fallback_allow", JBool (PolicyFallbackAllow c)); ("policy_reload_enabled", JBool (PolicyReloadEnabled c));
     ("policy_reload_interval", JStr (PolicyReloadInterval c)); ("pipeline_plugins", json_list entries);
     ("plugins_manifest_dir", JStr (PluginsManifestDir c)); ("plugins_manifest_strict", JBool (PluginsManifestStrict c));
     ("plugins_manifest_public_key_path", JStr (PluginsManifestPublicKeyPath c)); ("admin_secret", JStr (pc_AdminSecret c));
     ("bundle_public_key_path", JStr (BundlePublicKeyPath c)); ("allow_private_upstreams", JBool (AllowPrivateUpstreams c));
     ("routes", json_list (List.map route_json (Routes c))); ("headers_user_id_claim", JStr (HeaderUserIDClaim c));
     ("headers_email_claim", JStr (HeaderEmailClaim c)); ("headers_name_claim", JStr (HeaderNameClaim c));
     ("headers_preferred_username_claim", JStr (HeaderPreferredUsernameClaim c));
     ("headers_roles_claim", JStr (HeaderRolesClaim c)); ("headers_groups_claim", JStr (HeaderGroupsClaim c));
     ("headers_tenant_id_claim", JStr (HeaderTenantIDClaim c)); ("headers_admin_role", JStr (HeaderAdminRole c))]).

(** ** The program *)
Definition zero_auth_config : Config :=
  {| OIDCIssuer := ""; OIDCRedirectURI := ""; OIDCClientID := ""; OIDCClientSecret := ""; OIDCScopes := [];
     OIDCAudience := ""; OIDCClaimsSource := ""; RedisURL := ""; SessionRedisPrefix := ""; c_SessionTTLSeconds := 0;
     c_SessionPKCETTLSeconds := 0; c_SessionRefreshLockTTLSeconds := 0; SessionRefreshEarlySeconds := 0; CookieName := "";
     CookieSigningSecret := ""; CookieSecure := false; CookieSameSiteStr := ""; CookieDomain := "";
     CookieSameSite := Cookie.SameSiteUnset; AppBaseURL := ""; LoginErrorRedirectPath := ""; AllowedRedirectOrigins := [];
     AllowedRedirectPaths := []; HTTPPort := ""; AdminSecret := ""; PostLoginWebhookURL := ""; CORSAllowedOrigins := [];
     ProviderPluginID := ""; Connectors := [] |}.
Definition zero_proxy_config : ProxyConfig :=
  {| UpstreamURL := ""; ProxyPathPrefix := ""; RequireAuth := false; AuthURL := ""; pc_CookieName := ""; pc_HTTPPort := "";
     GRPCListenAddr := ""; GRPCUpstreamAddr := ""; GRPCUpstreamInsecure := false; PolicyEngine := ""; PolicyBundlePath := "";
     PolicyFallbackAllow := false; PolicyReloadEnabled := false; PolicyReloadInterval := ""; PipelinePlugins := [];
     PluginsManifestDir := ""; PluginsManifestStrict := false; PluginsManifestPublicKeyPath := ""; pc_AdminSecret := "";
     BundlePublicKeyPath := ""; AllowPrivateUpstreams := false; Routes := []; HeaderUserIDClaim := ""; HeaderEmailClaim := "";
     HeaderNameClaim := ""; HeaderPreferredUsernameClaim := ""; HeaderRolesClaim := ""; HeaderGroupsClaim := "";
     HeaderTenantIDClaim := ""; HeaderAdminRole := "" |}.

(** [os.Stdout.Write], which answers its error, and [fmt.Fprintf] to stderr. *)
Class RenderE (E : Type → Type) := { WriteOut : string → E (option string); WriteErr : string → E unit }.

Section render.
Context `{Unicode} {E : Type → Type} `{!RenderE E}.

(** The text of encoding/json's error for a value it cannot write. *)
Context (marshal_failure : string).

Definition normalizeBinary (s : string) : string * string :=
  let s := TrimSpace (ToLower s) in
  if String.eqb s "agent" then ("auth", "BINARY=agent is deprecated; use BINARY=auth") else (s, "").

Definition emitJSON (cfg : option json) : prog E (option string) :=
  match cfg with
  | None => Ret (Some marshal_failure)
  | Some j => call (WriteOut (print_indent 0 j))
  end.
Definition render_run (binary : string) : prog E (option string) :=
  if String.eqb binary "auth" then emitJSON (Some (config_json (ApplyDefaults zero_auth_config)))
  else if String.eqb binary "proxy" then emitJSON (proxy_config_json (ProxyApplyDefaults zero_proxy_config))
  else Ret (Some ("unknown BINARY=" +:+ Quote binary +:+ " (use auth or proxy)")).

(** The exit status. *)
Definition render_main (env : string → string) : prog E Z :=
  let '(binary, warn) := normalizeBinary (or_str (env "BINARY") "auth") in
  (if String.eqb warn "" then Ret tt else call (WriteErr ("render-config-example: " +:+ warn +:+ ProxyServer.newline))) ;;;
  if negb (String.eqb (or_str (ToLower (env "FORMAT")) "json") "json") then
    call (WriteErr ("FORMAT must be json (YAML example output removed; use configs/*.yaml templates)"
                    +:+ ProxyServer.newline)) ;;;
    Ret 2
  else
    err <- render_run binary ;;
    match err with
    | Some e => call (WriteErr ("render-config-example: " +:+ e +:+ ProxyServer.newline)) ;;; Ret 1
    | None => Ret 0
    end.

(** ** What is printed *)

(** The two texts the program can print read back to the defaults. *)
Lemma auth_example_reads :
  parse (print_indent 0 (config_json (ApplyDefaults zero_auth_config))) = Some (config_json (ApplyDefaults zero_auth_config)).
Proof. vm_compute. reflexivity. Qed.
Lemma proxy_example_reads :
  match proxy_config_json (ProxyApplyDefaults zero_proxy_config) with
  | Some j => parse (print_indent 0 j) = Some j | None => False end.
Proof. vm_compute. reflexivity. Qed.

Definition render_err (msg : string) : event E := Ev (WriteErr (msg +:+ ProxyServer.newline)) tt.
Definition warned (warn : string) : list (event E) :=
  if String.eqb warn "" then [] else [render_err ("render-config-example: " +:+ warn)].

(** The printer, run by run. For another format it exits with 2; for a name
    that is no binary, or when the text it wrote was not taken, with 1 and that
    error; and otherwise with 0, having written one text to stdout, which is
    JSON that reads back, key for key, to the struct of the binary that was
    asked for with the defaults the loaders apply. Everything else it writes
    goes to stderr. *)
Theorem render_main_exact env tr code (Hx : exec (render_main env) tr code) :
  let '(wanted, warn) := normalizeBinary (or_str (env "BINARY") "auth") in
  let format := or_str (ToLower (env "FORMAT")) "json" in
  (code = 2 ∧ format ≠ "json" ∧ ∃ msg, tr = warned warn ++ [render_err msg]) ∨
  (format = "json" ∧ wanted ∉ ["auth"; "proxy"] ∧ code = 1 ∧ ∃ msg, tr = warned warn ++ [render_err msg]) ∨
  (format = "json" ∧ wanted ∈ ["auth"; "proxy"] ∧ ∃ text j, parse text = Some j ∧
     Some j = (if String.eqb wanted "auth" then Some (config_json (ApplyDefaults zero_auth_config))
               else proxy_config_json (ProxyApplyDefaults zero_proxy_config)) ∧
     ((code = 0 ∧ tr = warned warn ++ [Ev (WriteOut text) None]) ∨
      (code = 1 ∧ ∃ e, tr = warned warn ++ [Ev (WriteOut text) (Some e); render_err ("render-config-example: " +:+ e)]))).
Proof.
  unfold render_main in Hx. destruct (normalizeBinary _) as [wanted warn]. cbv zeta.
  apply exec_bind in Hx as ([] & t1 & t2 & -> & Hw & Hx).
  assert (t1 = warned warn) as ->.
  { unfold warned. destruct (String.eqb _ ""); [by destruct Hw as [-> _]|]. by destruct Hw as ([] & ? & -> & -> & _). }
  set (format := or_str (ToLower (env "FORMAT")) "json") in *.
  destruct (String.eqb_spec format "json") as [Hf|Hf]; cbn [negb] in Hx; [right|left].
  - assert (Hemit : ∀ j, parse (print_indent 0 j) = Some j →
      exec (err <- emitJSON (Some j) ;; match err with
        | Some e => call (WriteErr ("render-config-example: " +:+ e +:+ ProxyServer.newline)) ;;; Ret 1
        | None => Ret 0 end) t2 code →
      ∃ text, parse text = Some j ∧ ((code = 0 ∧ warned warn ++ t2 = warned warn ++ [Ev (WriteOut text) None]) ∨
        (code = 1 ∧ ∃ e, warned warn ++ t2 =
           warned warn ++ [Ev (WriteOut text) (Some e); render_err ("render-config-example: " +:+ e)]))).
    { intros j Hj (err & t3 & -> & Hr). exists (print_indent 0 j). split; [done|].
      destruct err as [e|]; [right|left; by destruct Hr as [-> <-]].
      destruct Hr as ([] & ? & -> & -> & <-). split; [done|]. exists e. done. }
    unfold render_run in Hx. destruct (String.eqb_spec wanted "auth") as [->|Ha].
    { right. split; [done|]. split; [left|]. apply Hemit in Hx as (text & Hp & Hor); [|apply auth_example_reads].
      by exists text, (config_json (ApplyDefaults zero_auth_config)). }
    destruct (String.eqb_spec wanted "proxy") as [->|Hpx].
    { right. split; [done|]. split; [right; left|]. pose proof proxy_example_reads as Hj.
      destruct (proxy_config_json _) as [j|]; [|done]. apply Hemit in Hx as (text & Hp & Hor); [|done]. by exists text, j. }
    left. destruct Hx as ([] & ? & -> & -> & <-). split; [done|]. split; [set_solver|]. split; [done|].
    by exists ("render-config-example: " +:+ "unknown BINARY=" +:+ Quote wanted +:+ " (use auth or proxy)").
  - destruct Hx as ([] & ? & -> & -> & <-). split; [done|]. split; [done|]. by eexists.
Qed.
End render.
