(* ===== verification/MockIdp.v ===== *)
(** * The mock identity provider (cmd/mockidp)

    The OIDC provider the development and integration environments run
    against: discovery, authorization with PKCE, the token endpoint with both
    grants, the JWKS document and the end-session page. Its two maps are
    reached under their locks, one call per critical section; random bytes,
    the clock and the JWT library's signing are external. *)

From S2P Require Import Prelude.
From S2P Require Import GoStrings.
From S2P Require Import Effects.
From S2P Require Import GoTime.
From S2P Require Import GoAny.
From S2P Require Import Base64.
From S2P Require Import Json.
From S2P Require Import GoUrl.
From S2P Require Import Token.
From S2P Require Import AuthzHttp.
From S2P Require Import ProxyServer.
From S2P Require Import GoHttp.
From S2P Require Import AuthService.
From S2P Require Import Oidc.
From S2P Require Import AuthServer.

Record authCodeInfo := {
  ai_CodeChallenge : string; ai_Nonce : string; ai_ClientID : string; ai_RedirectURI : string; ai_State : string;
  ai_CreatedAt : Z }.
Record refreshInfo := { ri_ClientID : string }.

(** The maps, each access under its mutex. *)
Class IdpMapsE (E : Type → Type) := {
  CodesGet : string → E (option authCodeInfo);
  CodesPut : string → authCodeInfo → E unit;
  RefreshGet : string → E (option refreshInfo);
  RefreshPut : string → refreshInfo → E unit }.

(** The JWT library: a compact token of claims, signed under the provider's
    key with RS256, its header naming the key id. *)
Class JwtSigner := SignedString : gmap string any → string → string.

(** ** Configuration, from the environment *)
Record IdpConfig := {
  idp_issuer : string; idp_authorizationEndpoint : string; idp_tokenEndpoint : string; idp_jwksURI : string;
  idp_endSessionEndpoint : string; idp_sub : string; idp_email : string; idp_expiresInSeconds : Z; idp_kid : string;
  idp_N : string; idp_E : string }.      (* the public key's numbers, big-endian *)

Definition envOrDefault (env : string → string) (name def : string) : string :=
  let v := TrimSpace (env name) in if String.eqb v "" then def else v.

(** [fmt.Sscanf(v, "%d", &n)]: a sign, then the leading digits. *)
Definition scan_int (v : string) : option Z :=
  let '(neg, r) := match v with
                   | String c r => if byte_of c =? 45 then (true, r) else if byte_of c =? 43 then (false, r) else (false, v)
                   | "" => (false, "") end in
  match digits r with
  | ("", _) => None
  | (ds, _) => let z := if neg then - digits_value 0 ds else digits_value 0 ds in
               if (- 2^63 <=? z) && (z <? 2^63) then Some z else None
  end.
Definition envOrDefaultInt (env : string → string) (name : string) (def : Z) : Z :=
  let v := TrimSpace (env name) in
  if String.eqb v "" then def else default def (scan_int v).

Definition idp_config (env : string → string) (N E : string) : IdpConfig :=
  {| idp_issuer := envOrDefault env "MOCKIDP_ISSUER" "http://mockidp:8082";
     idp_authorizationEndpoint := envOrDefault env "MOCKIDP_AUTHORIZATION_ENDPOINT" "http://localhost:8082/authorize";
     idp_tokenEndpoint := envOrDefault env "MOCKIDP_TOKEN_ENDPOINT" "http://mockidp:8082/token";
     idp_jwksURI := envOrDefault env "MOCKIDP_JWKS_URI" "http://mockidp:8082/jwks";
     idp_endSessionEndpoint := envOrDefault env "MOCKIDP_END_SESSION_ENDPOINT" "http://localhost:8082/logout";
     idp_sub := envOrDefault env "MOCKIDP_SUB" "test-user";
     idp_email := envOrDefault env "MOCKIDP_EMAIL" "u@example.com";
     idp_expiresInSeconds := envOrDefaultInt env "MOCKIDP_EXPIRES_IN_SECONDS" 10;
     idp_kid := envOrDefault env "MOCKIDP_KID" "mock-kid";
     idp_N := N; idp_E := E |}.

Section idp.
Context `{Unicode} `{JwtSigner} (multipart_values : http_request → list (string * string)).
Context {E : Type → Type} `{!ClockE E} `{!RandE E} `{!IdpMapsE E}.
Context (cfg : IdpConfig).

(** [json.NewEncoder(w).Encode]: the document and a line break. *)
Definition json_line (j : json) : string := print j +:+ newline.

Definition discovery_doc : json :=
  JObj [("authorization_endpoint", JStr (idp_authorizationEndpoint cfg));
        ("end_session_endpoint", JStr (idp_endSessionEndpoint cfg)); ("issuer", JStr (idp_issuer cfg));
        ("jwks_uri", JStr (idp_jwksURI cfg)); ("token_endpoint", JStr (idp_tokenEndpoint cfg))].
Definition jwks_doc : json :=
  JObj [("keys", JArr [JObj [("alg", JStr "RS256"); ("e", JStr (rawurl_encode (idp_E cfg))); ("kid", JStr (idp_kid cfg));
                             ("kty", JStr "RSA"); ("n", JStr (rawurl_encode (idp_N cfg))); ("use", JStr "sig")]])].

(** A failure of the random source is a panic: the request fails, as [Err]. *)
Definition randomCode : prog E (res string) :=
  b <- call (RandRead 16) ;;
  Ret match b with Err e => Err e | Ok b => Ok (TrimSpace (rawurl_encode b)) end.
Definition s256Challenge (verifier : string) : string := code_challenge verifier.

Definition id_claims (audience nonce : string) (exp iat : Z) : gmap string any :=
  let c : gmap string any :=
    {[ "iss" := AStr (idp_issuer cfg); "aud" := AStr audience; "sub" := AStr (idp_sub cfg); "exp" := AInt exp;
       "iat" := AInt iat; "email" := AStr (idp_email cfg) ]} in
  if String.eqb nonce "" then c else <["nonce" := AStr nonce]> c.
(** The expiry is computed by the caller, from its own reading of the clock. *)
Definition signIDToken (audience nonce : string) : prog E string :=
  now <- call Now ;;
  let exp := DurAdd now (DurMul (idp_expiresInSeconds cfg) Second) in
  now <- call Now ;;
  Ret (SignedString (id_claims audience nonce (Unix exp) (Unix now)) (idp_kid cfg)).

Definition token_doc (accessToken refreshToken idToken : string) : json :=
  JObj [("access_token", JStr accessToken); ("expires_in", JNum (Itoa (idp_expiresInSeconds cfg)));
        ("id_token", JStr idToken); ("refresh_token", JStr refreshToken); ("token_type", JStr "Bearer")].

(** [None] is a panic of the handler, which net/http turns into a broken answer. *)
Definition handleAuthorize (w : header) (r : http_request) : prog E (option reply) :=
  if negb (String.eqb (hr_Method r) "GET") then Ret (Some (write w 405 ""))
  else
    let q := Query r in
    let clientID := value_of "client_id" q in
    let redirectURI := value_of "redirect_uri" q in
    let state := value_of "state" q in
    let codeChallenge := value_of "code_challenge" q in
    let nonce := value_of "nonce" q in
    if String.eqb redirectURI "" || String.eqb state "" || String.eqb codeChallenge "" || String.eqb nonce "" then
      Ret (Some (write w 400 "missing required authorize params"))
    else
      c <- randomCode ;;
      match c with
      | Err _ => Ret None
      | Ok code =>
          now <- call Now ;;
          call (CodesPut code {| ai_CodeChallenge := codeChallenge; ai_Nonce := nonce; ai_ClientID := clientID;
                                 ai_RedirectURI := redirectURI; ai_State := state; ai_CreatedAt := now |}) ;;;
          match Parse redirectURI with
          | Err _ => Ret (Some (write w 400 ""))
          | Ok u =>
              let qq := values_set "state" state (values_set "code" code (parse_query (RawQuery u))) in
              let loc := url_string redirectURI
                {| Scheme := Scheme u; Opaque := Opaque u; User := User u; Host := Host u; Path := Path u;
                   RawPath := RawPath u; ForceQuery := ForceQuery u; RawQuery := Encode qq; Fragment := Fragment u |} in
              Ret (Some (http_redirect w r loc))
          end
      end.

(** Both grants end the same way: a new refresh token for the client, an ID
    token, and the answer. *)
Definition grant (w : header) (clientID nonce accessToken : string) : prog E (option reply) :=
  c <- randomCode ;;
  match c with
  | Err _ => Ret None
  | Ok t =>
      let refreshToken := "refresh-" +:+ t in
      call (RefreshPut refreshToken {| ri_ClientID := clientID |}) ;;;
      idToken <- signIDToken clientID nonce ;;
      Ret (Some (write w 200 (json_line (token_doc accessToken refreshToken idToken))))
  end.

Definition handleAuthCodeToken (w : header) (r : http_request) : prog E (option reply) :=
  let code := FormValue multipart_values r "code" in
  let codeVerifier := FormValue multipart_values r "code_verifier" in
  info <- call (CodesGet code) ;;
  match info with
  | None => Ret (Some (write w 400 (error_doc "invalid_code")))
  | Some info =>
      if negb (String.eqb (s256Challenge codeVerifier) (ai_CodeChallenge info)) then
        Ret (Some (write w 400 (error_doc "invalid_code_verifier")))
      else grant w (ai_ClientID info) (ai_Nonce info) ("access-" +:+ code)
  end.
Definition handleRefreshToken (w : header) (r : http_request) : prog E (option reply) :=
  let refreshToken := FormValue multipart_values r "refresh_token" in
  info <- call (RefreshGet refreshToken) ;;
  match info with
  | None => Ret (Some (write w 400 (error_doc "invalid_refresh_token")))
  | Some info => grant w (ri_ClientID info) "" ("access-refresh-" +:+ refreshToken)
  end.
Definition handleToken (w : header) (r : http_request) : prog E (option reply) :=
  if negb (String.eqb (hr_Method r) "POST") then Ret (Some (write w 405 ""))
  else
    let grantType := FormValue multipart_values r "grant_type" in
    let w := h_set w "Content-Type" "application/json" in
    if String.eqb grantType "authorization_code" then handleAuthCodeToken w r
    else if String.eqb grantType "refresh_token" then handleRefreshToken w r
    else Ret (Some (write w 400 (error_doc "unsupported_grant_type"))).

(** The multiplexer: its patterns name no method. *)
Definition idp_serve (r : http_request) : prog E (option reply) :=
  let w : header := ∅ in
  let at_path p := String.eqb (hr_Path r) p in
  if at_path "/.well-known/openid-configuration" then Ret (Some (write w 200 (json_line discovery_doc)))
  else if at_path "/authorize" then handleAuthorize w r
  else if at_path "/token" then handleToken w r
  else if at_path "/logout" then Ret (Some (write w 200 "ok"))
  else if at_path "/jwks" then
    Ret (Some (write (h_set w "Content-Type" "application/json") 200 (json_line jwks_doc)))
  else Ret (Some (http_error w "404 page not found" 404)).
End idp.
