(* ===== verification/MockIdpFacts.v ===== *)
(** * The code flow, from the client's request to the provider's tokens

    The OIDC client of the auth service run against the mock provider: the
    client's HTTP calls are served by the provider's handlers over the
    provider's two maps, and the browser follows the authorization URL. *)

From S2P Require Import Prelude.
From S2P Require Import GoStrings.
From S2P Require Import Effects.
From S2P Require Import GoTime.
From S2P Require Import GoAny.
From S2P Require Import Base64.
From S2P Require Import Json.
From S2P Require Import JsonFacts.
From S2P Require Import GoUrl.
From S2P Require Import Token.
From S2P Require Import AuthService.
From S2P Require Import AuthzHttp.
From S2P Require Import GoHttp.
From S2P Require Import Ratelimit.
From S2P Require Import Oidc.
From S2P Require Import OidcFacts.
From S2P Require Import AuthServer.
From S2P Require Import BundleSignFacts.
From S2P Require Import MockIdp.
From S2P Require Import UrlFacts.

(** ** The provider's world *)
Inductive idpE : Type → Type :=
| I_Now : idpE Z
| I_Rand (n : Z) : idpE (res string)
| I_CodesGet (code : string) : idpE (option authCodeInfo)
| I_CodesPut (code : string) (i : authCodeInfo) : idpE unit
| I_RefreshGet (token : string) : idpE (option refreshInfo)
| I_RefreshPut (token : string) (i : refreshInfo) : idpE unit.
#[global] Instance idpE_clock : ClockE idpE := I_Now.
#[global] Instance idpE_rand : RandE idpE := I_Rand.
#[global] Instance idpE_maps : IdpMapsE idpE :=
  {| CodesGet := I_CodesGet; CodesPut := I_CodesPut; RefreshGet := I_RefreshGet; RefreshPut := I_RefreshPut |}.

#[local] Instance asked_get : HttpGetE oidcE := OE_Get.
#[local] Instance asked_post : FormPostE oidcE := OE_Post.

(** [iw_reads]: how often the clock and the random source were read. *)
Record idp_world := {
  iw_codes : gmap string authCodeInfo; iw_refresh : gmap string refreshInfo; iw_reads : nat }.
Definition iw_read (w : idp_world) : idp_world :=
  {| iw_codes := iw_codes w; iw_refresh := iw_refresh w; iw_reads := S (iw_reads w) |}.

Section provider.
Context `{Unicode} `{JsonErrors} `{JwtSigner} (multipart_values : http_request → list (string * string)).
Context (clock : nat → Z) (bytes_read : nat → string) (cfg : IdpConfig).

Definition idp_calls : handler idpE idp_world := λ X e,
  match e in idpE X return idp_world → X * idp_world with
  | I_Now => λ w, (clock (iw_reads w), iw_read w)
  | I_Rand _ => λ w, (Ok (bytes_read (iw_reads w)), iw_read w)
  | I_CodesGet c => λ w, (iw_codes w !! c, w)
  | I_CodesPut c i => λ w, (tt, {| iw_codes := <[c := i]> (iw_codes w); iw_refresh := iw_refresh w; iw_reads := iw_reads w |})
  | I_RefreshGet t => λ w, (iw_refresh w !! t, w)
  | I_RefreshPut t i =>
      λ w, (tt, {| iw_codes := iw_codes w; iw_refresh := <[t := i]> (iw_refresh w); iw_reads := iw_reads w |})
  end.
Definition served (r : http_request) (w : idp_world) : option reply * idp_world :=
  run idp_calls (idp_serve multipart_values cfg r) w.

(** A request as it reaches the provider. *)
Definition get_request (u : URL) : http_request :=
  {| hr_Method := "GET"; hr_TLS := false; hr_Host := Host u; hr_Path := Path u; hr_RawQuery := RawQuery u;
     hr_Header := ∅; hr_Cookies := []; hr_Body := ""; hr_RemoteAddr := "192.0.2.1:1" |}.
Definition post_request (u : URL) (form : string) : http_request :=
  {| hr_Method := "POST"; hr_TLS := false; hr_Host := Host u; hr_Path := Path u; hr_RawQuery := RawQuery u;
     hr_Header := {[ "Content-Type" := ["application/x-www-form-urlencoded"] ]}; hr_Cookies := [];
     hr_Body := form; hr_RemoteAddr := "192.0.2.1:1" |}.
Definition answered (x : option reply * idp_world) : res (Z * string) * idp_world :=
  (match x.1 with Some rep => Ok (re_Status rep, re_Body rep) | None => Err "EOF" end, x.2).

(** The client's calls, and the browser's visit to a URL. *)
Definition client_calls : handler oidcE idp_world := λ X e,
  match e in oidcE X return idp_world → X * idp_world with
  | OE_Get url => λ w, match Parse url with Ok u => answered (served (get_request u) w) | Err e => (Err e, w) end
  | OE_Post url form =>
      λ w, match Parse url with Ok u => answered (served (post_request u form) w) | Err e => (Err e, w) end
  end.
Definition visit (url : string) (w : idp_world) : option reply * idp_world :=
  match Parse url with Ok u => served (get_request u) w | Err _ => (None, w) end.

(** ** Deployment: the configured URLs lead to the provider's pages *)
Definition leads (url path : string) : Prop := ∃ u, Parse url = Ok u ∧ Path u = path.
Record deployed (issuer : string) : Prop := {
  d_discovery : leads (issuer +:+ "/.well-known/openid-configuration") "/.well-known/openid-configuration";
  d_authorize : leads (idp_authorizationEndpoint cfg) "/authorize";
  d_token : leads (idp_tokenEndpoint cfg) "/token";
  d_plain : no_byte "?" (idp_authorizationEndpoint cfg) ∧ no_byte "#" (idp_authorizationEndpoint cfg);
  d_ascii : Forall ascii_str [idp_issuer cfg; idp_authorizationEndpoint cfg; idp_tokenEndpoint cfg; idp_jwksURI cfg;
                              idp_endSessionEndpoint cfg];
  d_expires : int64_range (idp_expiresInSeconds cfg);
  d_signed : ∀ c kid, ascii_str (SignedString c kid) }.
(** An absolute redirect URI without a query or a fragment, in its own normal form. *)
Definition callback_uri (uri : string) (u : URL) : Prop :=
  Parse uri = Ok u ∧ Scheme u ≠ "" ∧ ForceQuery u = false ∧ RawQuery u = "" ∧ Fragment u = "" ∧
  url_string uri u = uri ∧ no_byte "?" uri ∧ no_byte "#" uri ∧ ascii_str uri.

Lemma leads_nonempty url path : leads url path → path ≠ "" → url ≠ "".
Proof. intros (u & Hu & <-) Hp ->. vm_compute in Hu. by injection Hu as <-. Qed.
Lemma leads_not_star url path : leads url path → path ≠ "*" → url ≠ "*".
Proof. intros (u & Hu & <-) Hp ->. vm_compute in Hu. by injection Hu as <-. Qed.

(** ** Discovery *)
Lemma parse_line v : json_ok v → parse (print v +:+ ProxyServer.newline) = Some v.
Proof.
  intros Hok. unfold parse. pose proof (json_fuel_bound v Hok).
  rewrite (parse_value_print v Hok); [done| |vm_compute; auto].
  unfold parse_fuel. rewrite length_app_str. lia.
Qed.

Definition discovered : Discovery :=
  {| dd_Issuer := idp_issuer cfg; AuthorizationEndpoint := idp_authorizationEndpoint cfg;
     TokenEndpoint := idp_tokenEndpoint cfg; EndSessionEndpoint := idp_endSessionEndpoint cfg;
     JWKSURI := idp_jwksURI cfg; RevocationEndpoint := "" |}.

Lemma discovery_ok issuer : deployed issuer → json_ok (discovery_doc cfg).
Proof. intros Hd. pose proof (d_ascii _ Hd) as Ha. rewrite !Forall_cons in Ha. destruct_and! Ha. obj_ok. Qed.

Lemma discovery_decodes issuer :
  deployed issuer → decode_discovery (json_line (discovery_doc cfg)) = Some discovered.
Proof.
  intros Hd. unfold decode_discovery, json_line. unfold ProxyServer.newline.
  rewrite parse_first_line by (by eapply discovery_ok || done). reflexivity.
Qed.

(** A client that has not asked yet, or was answered. *)
Definition may_discover (c : Client) : Prop := oc_discovery c = None ∨ oc_discovery c = Some (Ok discovered).

Lemma discovery_answers c w :
  deployed (oc_issuer c) → may_discover c →
  run client_calls (client_Discovery (E := oidcE) c) w = ((with_discovery c (Ok discovered), Ok discovered), w).
Proof.
  intros Hd [Hc|Hc]; [|unfold client_Discovery; rewrite Hc; destruct c; cbn in *; by subst].
  unfold client_Discovery, fetchDiscovery. rewrite Hc.
  destruct (d_discovery _ Hd) as (u & Hu & Hp). rewrite Hu. cbn [pbind call run]. unfold HttpGet, asked_get. cbn [client_calls]. rewrite Hu.
  unfold served, idp_serve. cbn [hr_Path get_request]. rewrite Hp. cbn [String.eqb Ascii.eqb Bool.eqb].
  cbn [run answered write re_Status re_Body fst snd Z.eqb Pos.eqb negb]. rewrite (discovery_decodes _ Hd).
  cbn [AuthorizationEndpoint TokenEndpoint discovered].
  pose proof (leads_nonempty _ _ (d_token _ Hd)) as Ht. pose proof (leads_nonempty _ _ (d_authorize _ Hd)) as Ha.
  rewrite (proj2 (String.eqb_neq _ _) (Ht ltac:(done))), (proj2 (String.eqb_neq _ _) (Ha ltac:(done))). done.
Qed.

(** ** The authorization page *)
Definition new_code (b : string) : string := TrimSpace (rawurl_encode b).

Lemma visit_authorize issuer params uri ucb state challenge nonce w :
  deployed issuer → callback_uri uri ucb → params ≠ [] →
  (let q k := value_of k (sort_pairs params) in
   q "redirect_uri" = uri ∧ q "state" = state ∧ q "code_challenge" = challenge ∧ q "nonce" = nonce) →
  Forall (λ s, s ≠ "") [uri; state; challenge; nonce] →
  let code := new_code (bytes_read (iw_reads w)) in
  ∃ r, hr_Method r = "GET" ∧ visit (idp_authorizationEndpoint cfg +:+ "?" +:+ Encode params) w =
    (Some (http_redirect ∅ r (uri +:+ "?" +:+ Encode [("code", code); ("state", state)])),
     {| iw_codes := <[code := {| ai_CodeChallenge := challenge; ai_Nonce := nonce;
                                 ai_ClientID := value_of "client_id" (sort_pairs params); ai_RedirectURI := uri;
                                 ai_State := state; ai_CreatedAt := clock (S (iw_reads w)) |}]> (iw_codes w);
        iw_refresh := iw_refresh w; iw_reads := S (S (iw_reads w)) |}).
Proof.
  intros Hd (Hu & Hs & Hf & Hq & Hg & Hn & _) Hl (Er & Es & Ec & En) Hne code.
  destruct (d_authorize _ Hd) as (u & Hau & Hp). destruct (d_plain _ Hd) as [Hno Hno'].
  rewrite !Forall_cons in Hne. destruct Hne as (N1 & N2 & N3 & N4 & _).
  exists (get_request (with_query u (Encode params))). split; [done|].
  unfold visit. rewrite (Parse_encoded _ _ _ Hau) by (done || by apply (leads_not_star _ _ (d_authorize _ Hd))).
  unfold served, idp_serve. cbn [hr_Path get_request with_query Path]. rewrite Hp.
  cbn [String.eqb Ascii.eqb Bool.eqb]. unfold handleAuthorize. cbn [hr_Method String.eqb Ascii.eqb Bool.eqb negb].
  unfold Query. cbn [hr_RawQuery get_request with_query RawQuery]. rewrite (parse_query_encode _ Hl), Er, Es, Ec, En.
  apply String.eqb_neq in N1 as ->, N2 as ->, N3 as ->, N4 as ->. cbn [orb].
  unfold randomCode. cbn [pbind call run]. unfold RandRead, idpE_rand.
  cbn [hr_Method get_request String.eqb Ascii.eqb Bool.eqb negb idp_calls run].
  unfold Now, idpE_clock. cbn [idp_calls run]. unfold CodesPut, idpE_maps. cbn [idp_calls run].
  rewrite Hu, Hq. fold (new_code (bytes_read (iw_reads w))). fold code.
  change (values_set "state" state _) with [("code", code); ("state", state)].
  fold (with_query ucb (Encode [("code", code); ("state", state)])).
  by rewrite url_string_query, Hn by (done || by apply Encode_nonempty).
Qed.

(** The browser is sent to the callback with the code and the state. *)
Lemma redirected uri ucb r l :
  callback_uri uri ucb → l ≠ [] → hr_Method r = "GET" →
  let rep := http_redirect ∅ r (uri +:+ "?" +:+ Encode l) in
  re_Status rep = 302 ∧ h_get (re_Header rep) "Location" = uri +:+ "?" +:+ Encode l ∧
  Parse (uri +:+ "?" +:+ Encode l) = Ok (with_query ucb (Encode l)).
Proof.
  intros (Hu & Hs & _ & _ & _ & _ & Hno & Hno' & Ha) Hl Hm.
  assert (Hp : Parse (uri +:+ "?" +:+ Encode l) = Ok (with_query ucb (Encode l))).
  { apply Parse_encoded; try done. intros ->. vm_compute in Hu. injection Hu as <-. by apply Hs. }
  unfold http_redirect. rewrite Hm, (redirect_location_absolute _ _ _ Hp); [|done|].
  2: { unfold ascii_str in *. rewrite !bytes_app_ascii, !Forall_app. split; [done|].
       split; [by apply List.Forall_cons; [vm_compute|apply List.Forall_nil]|apply Encode_ascii]. }
  cbn [existsb String.eqb Ascii.eqb Bool.eqb orb]. split; [done|]. split; [|done].
  unfold h_get, h_set, write. cbn [re_Header].
  rewrite lookup_insert_ne, lookup_insert by (vm_compute; discriminate). done.
Qed.

(** ** The token page *)
Definition issued (access refresh idToken : string) : TokenResponse :=
  {| tr_AccessToken := access; tr_RefreshToken := refresh; tr_IDToken := idToken;
     tr_ExpiresIn := idp_expiresInSeconds cfg; tr_TokenType := "Bearer" |}.

Lemma token_decodes issuer access refresh idToken :
  deployed issuer → Forall ascii_str [access; refresh; idToken] →
  decode_token (json_line (token_doc cfg access refresh idToken)) = Some (issued access refresh idToken).
Proof.
  intros Hd Ha. rewrite !Forall_cons in Ha. destruct Ha as (A1 & A2 & A3 & _).
  unfold decode_token, json_line. rewrite parse_line by (obj_ok; repeat constructor).
  set (m := match token_doc cfg access refresh idToken with JObj l => l | _ => [] end).
  change (token_doc cfg access refresh idToken) with (JObj m).
  assert (bound token_fields "access_token" m = [JStr access] ∧ bound token_fields "refresh_token" m = [JStr refresh] ∧
          bound token_fields "id_token" m = [JStr idToken] ∧ bound token_fields "token_type" m = [JStr "Bearer"] ∧
          bound token_fields "expires_in" m = [JNum (Itoa (idp_expiresInSeconds cfg))])
    as (E1 & E2 & E3 & E4 & E5) by done.
  cbv zeta. rewrite E1, E2, E3, E4, E5.
  unfold dec_int, dec_field. cbn [foldl conv_int]. rewrite int_of_lit_Itoa by apply (d_expires _ Hd). reflexivity.
Qed.

(** What a grant stores and answers. *)
Definition refresh_of (w : idp_world) : string := "refresh-" +:+ new_code (bytes_read (iw_reads w)).
Definition signed_for (clientID nonce : string) (w : idp_world) : string :=
  SignedString (id_claims cfg clientID nonce
                  (Unix (DurAdd (clock (S (iw_reads w))) (DurMul (idp_expiresInSeconds cfg) Second)))
                  (Unix (clock (S (S (iw_reads w)))))) (idp_kid cfg).
Definition after_grant (clientID : string) (w : idp_world) : idp_world :=
  {| iw_codes := iw_codes w; iw_refresh := <[refresh_of w := {| ri_ClientID := clientID |}]> (iw_refresh w);
     iw_reads := S (S (S (iw_reads w))) |}.

Lemma grant_run h clientID nonce access w :
  run idp_calls (grant cfg h clientID nonce access) w =
  (Some (write h 200 (json_line (token_doc cfg access (refresh_of w) (signed_for clientID nonce w)))),
   after_grant clientID w).
Proof. reflexivity. Qed.

Lemma token_page u l k v :
  Path u = "/token" → l ≠ [] → value_of k (sort_pairs l) = v → v ≠ "" →
  FormValue multipart_values (post_request u (Encode l)) k = v.
Proof.
  intros Hp Hl Hk Hv. unfold FormValue.
  change (media_type (post_request u (Encode l))) with "application/x-www-form-urlencoded".
  cbn [hr_Method post_request existsb String.eqb Ascii.eqb Bool.eqb orb hr_Body].
  rewrite (parse_query_encode _ Hl). unfold value_of in *. rewrite find_app.
  destruct (List.find _ (sort_pairs l)); [done|]. by destruct Hv.
Qed.

Lemma served_token u l w grantType :
  Path u = "/token" → l ≠ [] → value_of "grant_type" (sort_pairs l) = grantType → grantType ≠ "" →
  served (post_request u (Encode l)) w =
  run idp_calls
    (let r := post_request u (Encode l) in
     let h := h_set ∅ "Content-Type" "application/json" in
     if String.eqb grantType "authorization_code" then handleAuthCodeToken multipart_values cfg h r
     else if String.eqb grantType "refresh_token" then handleRefreshToken multipart_values cfg h r
     else Ret (Some (write h 400 (error_doc "unsupported_grant_type")))) w.
Proof.
  intros Hp Hl Hg Hne. unfold served, idp_serve. cbn [hr_Path post_request]. rewrite Hp.
  cbn [String.eqb Ascii.eqb Bool.eqb]. unfold handleToken. by rewrite (token_page _ _ _ _ Hp Hl Hg Hne).
Qed.

Lemma new_code_eq b : new_code b = rawurl_encode b.
Proof. apply TrimSpace_printable, encoded_printable. Qed.
Lemma printable_ascii s : printable s → ascii_str s.
Proof.
  unfold printable, ascii_str, bytes_of. rewrite Forall_fmap. intros Hs.
  eapply Forall_impl; [exact Hs|]. cbn. lia.
Qed.
Lemma new_code_ascii b : ascii_str (new_code b).
Proof. rewrite new_code_eq. apply printable_ascii, encoded_printable. Qed.
Lemma ascii_str_app s t : ascii_str (s +:+ t) ↔ ascii_str s ∧ ascii_str t.
Proof. unfold ascii_str. by rewrite bytes_app_ascii, Forall_app. Qed.

(** The client's reading of a grant's answer. *)
Lemma grant_answer issuer h clientID nonce access w :
  deployed issuer → ascii_str access →
  let '(x, w') := answered (run idp_calls (grant cfg h clientID nonce access) w) in
  ∃ data, x = Ok (200, data) ∧ w' = after_grant clientID w ∧
    decode_token data = Some (issued access (refresh_of w) (signed_for clientID nonce w)).
Proof.
  intros Hd Ha. rewrite grant_run. cbn [answered fst snd write re_Status re_Body]. eexists. split; [done|].
  split; [done|]. apply (token_decodes _ _ _ _ Hd).
  forall_each ltac:(idtac; first [exact Ha|apply (d_signed _ Hd)|apply ascii_str_app; split; [repeat constructor|apply new_code_ascii]]).
Qed.

(** A token request, from the client's form to its reading of the answer. *)
Lemma token_request_run what form c w u :
  deployed (oc_issuer c) → oc_discovery c = Some (Ok discovered) → Parse (idp_tokenEndpoint cfg) = Ok u →
  run client_calls (token_request (E := oidcE) what form c) w =
  let '(x, w') := answered (served (post_request u (Encode (with_secret c (form c)))) w) in
  ((c, match x with
       | Err e => Err e
       | Ok (status, data) =>
           if negb (status =? 200) then Err (what +:+ ": status " +:+ Itoa status +:+ ": " +:+ data)
           else match decode_token data with Some t => Ok t | None => Err (unmarshal_error data) end
       end), w').
Proof.
  intros Hd Hc Hu. unfold token_request, client_Discovery. rewrite Hc. cbn [pbind TokenEndpoint discovered]. rewrite Hu.
  cbn [pbind call run]. unfold FormPost, asked_post. cbn [client_calls]. rewrite Hu.
  by destruct (answered _).
Qed.

(** The value of a literal key of a form. *)
Ltac form_value := unfold with_secret; destruct (String.eqb _ _); reflexivity.

(** The client's exchange of a code at the provider. *)
Lemma exchange_run c w code verifier :
  deployed (oc_issuer c) → oc_discovery c = Some (Ok discovered) → code ≠ "" → verifier ≠ "" → ascii_str code →
  run client_calls (Exchange (E := oidcE) code verifier c) w =
  match iw_codes w !! code with
  | None => ((c, Err ("token exchange: status 400: " +:+ error_doc "invalid_code")), w)
  | Some info =>
      if String.eqb (code_challenge verifier) (ai_CodeChallenge info)
      then ((c, Ok (issued ("access-" +:+ code) (refresh_of w) (signed_for (ai_ClientID info) (ai_Nonce info) w))),
            after_grant (ai_ClientID info) w)
      else ((c, Err ("token exchange: status 400: " +:+ error_doc "invalid_code_verifier")), w)
  end.
Proof.
  intros Hd Hc Hne Hne' Ha. destruct (d_token _ Hd) as (u & Hu & Hp).
  unfold Exchange. rewrite (token_request_run _ _ _ _ _ Hd Hc Hu). cbv beta. set (form := with_secret c _).
  assert (Hform : form ≠ []) by by unfold form, with_secret; destruct (String.eqb _ _).
  assert (Hcode : value_of "code" (sort_pairs form) = code) by (unfold form; form_value).
  assert (Hver : value_of "code_verifier" (sort_pairs form) = verifier) by (unfold form; form_value).
  assert (Hg : value_of "grant_type" (sort_pairs form) = "authorization_code") by (unfold form; form_value).
  rewrite (served_token _ _ _ _ Hp Hform Hg) by done. cbn [String.eqb Ascii.eqb Bool.eqb].
  unfold handleAuthCodeToken. rewrite (token_page _ _ _ _ Hp Hform Hcode Hne), (token_page _ _ _ _ Hp Hform Hver Hne').
  cbn [pbind call run]. unfold CodesGet, idpE_maps. cbn [idp_calls].
  destruct (iw_codes w !! code) as [info|]; [|done]. unfold s256Challenge.
  destruct (String.eqb _ _); [|done]. cbn [negb].
  pose proof (grant_answer _ (h_set ∅ "Content-Type" "application/json") (ai_ClientID info) (ai_Nonce info)
                ("access-" +:+ code) w Hd) as Hans.
  destruct (answered _) as [x w']. destruct Hans as (data & -> & -> & ->); [|done].
  rewrite ascii_str_app. split; [repeat constructor|done].
Qed.

(** Its refresh, with a token of the provider. *)
Lemma refresh_run c w token info :
  deployed (oc_issuer c) → oc_discovery c = Some (Ok discovered) → token ≠ "" → ascii_str token →
  iw_refresh w !! token = Some info →
  run client_calls (oidc_Refresh (E := oidcE) token c) w =
  ((c, Ok (issued ("access-refresh-" +:+ token) (refresh_of w) (signed_for (ri_ClientID info) "" w))),
   after_grant (ri_ClientID info) w).
Proof.
  intros Hd Hc Hne Ha Hi. destruct (d_token _ Hd) as (u & Hu & Hp).
  unfold oidc_Refresh. rewrite (token_request_run _ _ _ _ _ Hd Hc Hu). cbv beta. set (form := with_secret c _).
  assert (Hform : form ≠ []) by by unfold form, with_secret; destruct (String.eqb _ _).
  assert (Ht : value_of "refresh_token" (sort_pairs form) = token) by (unfold form; form_value).
  assert (Hg : value_of "grant_type" (sort_pairs form) = "refresh_token") by (unfold form; form_value).
  rewrite (served_token _ _ _ _ Hp Hform Hg) by done. cbn [String.eqb Ascii.eqb Bool.eqb].
  unfold handleRefreshToken. rewrite (token_page _ _ _ _ Hp Hform Ht Hne).
  cbn [pbind call run]. unfold RefreshGet, idpE_maps. cbn [idp_calls]. rewrite Hi.
  pose proof (grant_answer _ (h_set ∅ "Content-Type" "application/json") (ri_ClientID info) ""
                ("access-refresh-" +:+ token) w Hd) as Hans.
  destruct (answered _) as [x w']. destruct Hans as (data & -> & -> & ->); [|done].
  rewrite ascii_str_app. split; [repeat constructor|done].
Qed.

(** ** The authorization request, followed by the browser *)
Definition code_at (w : idp_world) : string := new_code (bytes_read (iw_reads w)).
Definition after_authorize (clientID uri state challenge nonce : string) (w : idp_world) : idp_world :=
  {| iw_codes := <[code_at w := {| ai_CodeChallenge := challenge; ai_Nonce := nonce; ai_ClientID := clientID;
                                   ai_RedirectURI := uri; ai_State := state; ai_CreatedAt := clock (S (iw_reads w)) |}]>
                   (iw_codes w);
     iw_refresh := iw_refresh w; iw_reads := S (S (iw_reads w)) |}.

Lemma code_at_nonempty w : bytes_read (iw_reads w) ≠ "" → code_at w ≠ "".
Proof.
  unfold code_at. rewrite new_code_eq. intros Hb He. apply Hb.
  pose proof (DecodeString_EncodeToString UrlAlphabet false (bytes_read (iw_reads w))) as Hd.
  unfold rawurl_encode in He. rewrite He in Hd.
  change (DecodeString UrlAlphabet false "") with (Some "") in Hd. congruence.
Qed.

Lemma authorize_run c w state challenge nonce ucb :
  deployed (oc_issuer c) → may_discover c → callback_uri (oc_redirectURI c) ucb →
  Forall (λ s, s ≠ "") [state; challenge; nonce] →
  let back := [("code", code_at w); ("state", state)] in
  ∃ url rep, run client_calls (AuthURL (E := oidcE) state challenge nonce c) w
             = ((with_discovery c (Ok discovered), Ok url), w) ∧
    visit url w = (Some rep, after_authorize (oc_clientID c) (oc_redirectURI c) state challenge nonce w) ∧
    re_Status rep = 302 ∧ Parse (h_get (re_Header rep) "Location") = Ok (with_query ucb (Encode back)).
Proof.
  intros Hd Hc Hcb Hne back. unfold AuthURL. rewrite run_bind, (discovery_answers _ _ Hd Hc). cbn [run res_bind].
  set (params := auth_params _ _ _ _).
  assert (Hp : params ≠ []) by by unfold params, auth_params.
  assert (Hv : (let q k := value_of k (sort_pairs params) in
     q "redirect_uri" = oc_redirectURI c ∧ q "state" = state ∧ q "code_challenge" = challenge ∧ q "nonce" = nonce)
     ∧ value_of "client_id" (sort_pairs params) = oc_clientID c).
  { unfold params, auth_params. cbn [oc_redirectURI oc_clientID oc_scopes oc_audience with_discovery].
    destruct (String.eqb (oc_audience c) ""); repeat split; reflexivity. }
  destruct Hv as [Hv Hid].
  assert (Hu : oc_redirectURI c ≠ "").
  { intros He. destruct Hcb as (Hu & Hs & _). rewrite He in Hu. vm_compute in Hu. injection Hu as <-. by apply Hs. }
  destruct (visit_authorize _ params _ _ state challenge nonce w Hd Hcb Hp Hv) as (r & Hm & Hvis).
  { by apply List.Forall_cons. }
  rewrite Hid in Hvis. destruct (redirected _ _ r back Hcb ltac:(done) Hm) as (Hst & Hloc & Hparse).
  eexists _, _. split; [reflexivity|]. cbn [AuthorizationEndpoint discovered]. split; [exact Hvis|].
  split; [exact Hst|]. exact (eq_trans (f_equal Parse Hloc) Hparse).
Qed.

(** What the callback's query says. *)
Lemma callback_values code state :
  let q := parse_query (Encode [("code", code); ("state", state)]) in
  value_of "code" q = code ∧ value_of "state" q = state.
Proof. intros q. unfold q. rewrite parse_query_encode by done. split; reflexivity. Qed.
End provider.
