(* ===== verification/LoginLoop.v ===== *)
(** * A login from end to end

    The auth service wired to the OIDC plugin, the plugin to the mock identity
    provider over HTTP, the token validation to the provider's JWKS through the
    cached source, and the service's stores as maps.  The random source and the
    clock are those every party reads; the JWT library is a parser that accepts
    what the provider signed. *)

From S2P Require Import Prelude.
From S2P Require Import GoStrings.
From S2P Require Import Effects.
From S2P Require Import GoTime.
From S2P Require Import GoAny.
From S2P Require Import Base64.
From S2P Require Import Sha256.
From S2P Require Import Json.
From S2P Require Import JsonFacts.
From S2P Require Import FloatJson.
From S2P Require Import Cookie.
From S2P Require Import Session.
From S2P Require Import SessionFacts.
From S2P Require Import AuthConfig.
From S2P Require Import GoUrl.
From S2P Require Import Token.
From S2P Require Import Sdk.
From S2P Require Import AuthService.
From S2P Require Import AuthFlows.
From S2P Require Import AuthEnv.
From S2P Require Import AuthzHttp.
From S2P Require Import GoHttp.
From S2P Require Import Ratelimit.
From S2P Require Import Oidc.
From S2P Require Import OidcFacts.
From S2P Require Import AuthServer.
From S2P Require Import MockIdp.
From S2P Require Import UrlFacts.
From S2P Require Import BundleSignFacts.
From S2P Require Import MockIdpFacts.

Record stack := {
  sk_idp : idp_world; sk_plugin : OidcPlugin; sk_jwks : HTTPJWKSSource; sk_sess : gmap string Session;
  sk_pkce : gmap string PKCEState }.
Definition set_idp (w : stack) (i : idp_world) : stack :=
  {| sk_idp := i; sk_plugin := sk_plugin w; sk_jwks := sk_jwks w; sk_sess := sk_sess w; sk_pkce := sk_pkce w |}.
Definition set_plugin (w : stack) (p : OidcPlugin) (i : idp_world) : stack :=
  {| sk_idp := i; sk_plugin := p; sk_jwks := sk_jwks w; sk_sess := sk_sess w; sk_pkce := sk_pkce w |}.
Definition set_jwks (w : stack) (s : HTTPJWKSSource) (i : idp_world) : stack :=
  {| sk_idp := i; sk_plugin := sk_plugin w; sk_jwks := s; sk_sess := sk_sess w; sk_pkce := sk_pkce w |}.
Definition set_sess (w : stack) (m : gmap string Session) : stack :=
  {| sk_idp := sk_idp w; sk_plugin := sk_plugin w; sk_jwks := sk_jwks w; sk_sess := m; sk_pkce := sk_pkce w |}.
Definition set_pkce (w : stack) (m : gmap string PKCEState) : stack :=
  {| sk_idp := sk_idp w; sk_plugin := sk_plugin w; sk_jwks := sk_jwks w; sk_sess := sk_sess w; sk_pkce := m |}.

#[local] Transparent read_limited.
#[local] Instance loop_get : HttpGetE oidcE := OE_Get.
#[local] Instance loop_post : FormPostE oidcE := OE_Post.

Section login.
Context `{Unicode} `{JsonErrors} `{JwtSigner} (multipart_values : http_request → list (string * string)).
Context (clock : nat → Z) (bytes_read : nat → string) (cfg : IdpConfig).
Context (jwt_parse : Z → string → keyfunc → jwt_options → res jwt_token).
Notation provider_calls := (client_calls multipart_values clock bytes_read cfg).

Definition jwks_calls : handler jwksE idp_world := λ X e,
  match e in jwksE X return idp_world → X * idp_world with
  | JNow => λ w, (clock (iw_reads w), iw_read w)
  | JGet url => provider_calls _ (OE_Get url)
  | JCache _ _ => λ w, (tt, w)
  end.

(** A call of the plugin, served by the provider. *)
Definition through {A} (f : OidcPlugin → prog oidcE (OidcPlugin * res A)) (w : stack) : res A * stack :=
  let '(p, r, i) := run provider_calls (f (sk_plugin w)) (sk_idp w) in (r, set_plugin w p i).

Definition stack_calls : handler authE stack := λ X e,
  match e in authE X return stack → X * stack with
  | E_Now => λ w, (clock (iw_reads (sk_idp w)), set_idp w (iw_read (sk_idp w)))
  | E_Rand _ => λ w, (Ok (bytes_read (iw_reads (sk_idp w))), set_idp w (iw_read (sk_idp w)))
  | E_Log _ => λ w, (tt, w)
  | E_Webhook _ _ _ => λ w, (Ok 200, w)
  | E_Metric _ => λ w, (tt, w)
  | E_JWKS issuer => λ w, let '(r, s, i) := run jwks_calls (source_GetJWKS (sk_jwks w) issuer) (sk_idp w) in (r, set_jwks w s i)
  | E_Jwt raw kf opts => λ w, (jwt_parse (clock (iw_reads (sk_idp w))) raw kf opts, set_idp w (iw_read (sk_idp w)))
  | E_Once _ _ => λ w, (Ok true, w)
  | E_SGet i => λ w, (Ok (sk_sess w !! i), w)
  | E_SSet i s _ => λ w, (None, set_sess w (<[i := s]> (sk_sess w)))
  | E_SDel i => λ w, (None, set_sess w (delete i (sk_sess w)))
  | E_PGet i => λ w, (Ok (sk_pkce w !! i), w)
  | E_PSet i p _ => λ w, (None, set_pkce w (<[i := p]> (sk_pkce w)))
  | E_PDel i => λ w, (None, set_pkce w (delete i (sk_pkce w)))
  | E_Obtain _ _ => λ w, (Ok true, w)
  | E_Release _ => λ w, (None, w)
  | E_AuthURL st ch n extra => through (λ p, plugin_AuthorizationURL p st ch n extra)
  | E_Exchange code v uri => through (λ p, plugin_ExchangeCode p code v uri)
  | E_Refresh t => through (λ p, plugin_Refresh p t)
  | E_EndSession hint uri => through (λ p, plugin_EndSessionURL p hint uri)
  | E_Find _ _ => λ w, (Ok None, w)
  | E_Net => λ w, (None, w)
  end.

(** ** The provider's keys *)
Definition idp_key : pubkey := RSAPublicKey (int_of_bytes (idp_N cfg)) (int_of_bytes (idp_E cfg)).
Definition jwt_header : gmap string any :=
  {[ "alg" := AStr "RS256"; "kid" := AStr (idp_kid cfg); "typ" := AStr "JWT" ]}.

Record keys_served : Prop := {
  ks_page : leads (idp_jwksURI cfg) "/jwks";
  ks_kid : ascii_str (idp_kid cfg);
  ks_modulus : 2048 ≤ BitLen (int_of_bytes (idp_N cfg));
  ks_exponent : idp_E cfg ≠ "" ∧ int_of_bytes (idp_E cfg) < 2 ^ 31;
  ks_small : Forall (λ j, len (json_line j) ≤ maxJWKSBytes) [discovery_doc cfg; jwks_doc cfg] }.

(** The JWT library accepts a token the provider signed: when the key function
    gives the provider's key for its header, its issuer is the one expected, it
    has not expired and was not issued in the future; its claims are what encoding/json reads of them. *)
Definition accepts_signed : Prop := ∀ now c kf issuer exp,
  kf jwt_header = Ok idp_key → c !! "iss" = Some (AStr issuer) → c !! "exp" = Some (AInt exp) → Unix now < exp →
  (∀ iat, c !! "iat" = Some (AInt iat) → iat ≤ Unix now) → plain_claims c →
  jwt_parse now (SignedString c (idp_kid cfg)) kf (id_token_options issuer) = Ok {| jt_claims := Some (as_read <$> c); jt_valid := true |}.

Lemma encode_nonempty s : s ≠ "" → rawurl_encode s ≠ "".
Proof.
  intros Hs He. apply Hs. pose proof (DecodeString_EncodeToString UrlAlphabet false s) as Hd.
  unfold rawurl_encode in He. rewrite He in Hd. change (DecodeString UrlAlphabet false "") with (Some "") in Hd. congruence.
Qed.

Lemma code_challenge_nonempty v : code_challenge v ≠ "".
Proof.
  apply encode_nonempty. unfold sha256_string, of_bytes. intros He.
  pose proof (Sum256_length (bytes_of v)) as Hl. by destruct (Sum256 (bytes_of v)).
Qed.

Lemma find_rsa kid n e :
  2048 ≤ BitLen (int_of_bytes n) → e ≠ "" → int_of_bytes e < 2 ^ 31 →
  find_key kid [{| Kid := kid; Kty := "RSA"; jN := rawurl_encode n; jE := rawurl_encode e; Crv := ""; jX := "";
                   jY := "" |}] = Ok (RSAPublicKey (int_of_bytes n) (int_of_bytes e)).
Proof.
  intros Hn He Hr. cbn [find_key Kid Kty jN jE]. rewrite String.eqb_refl. cbn [negb String.eqb Ascii.eqb Bool.eqb].
  assert (Hn' : n ≠ "") by (intros ->; vm_compute in Hn; by destruct Hn).
  rewrite (proj2 (String.eqb_neq _ _) (encode_nonempty _ Hn')), (proj2 (String.eqb_neq _ _) (encode_nonempty _ He)).
  cbn [orb]. unfold rawurl_decode, rawurl_encode. rewrite !DecodeString_EncodeToString.
  rewrite (proj2 (Z.ltb_ge _ _) Hn), (proj2 (Z.leb_gt _ _)), (proj2 (Z.ltb_ge _ _)) by lia. done.
Qed.

Lemma jwks_decodes : keys_served → keyFuncFromJWKS (json_line (jwks_doc cfg)) jwt_header = Ok idp_key.
Proof.
  intros K. unfold keyFuncFromJWKS, jwks_keys, json_line.
  assert (Hok : json_ok (jwks_doc cfg)).
  { obj_ok. repeat split; try solve [repeat constructor];
      apply ascii_utf8; first [apply (ks_kid K)|apply printable_ascii, encoded_printable]. }
  rewrite (parse_line _ Hok). set (m := match jwks_doc cfg with JObj l => l | _ => [] end).
  change (jwks_doc cfg) with (JObj m). cbv beta iota zeta.
  assert (Hb : bound ["keys"] "keys" m =
    [JArr [JObj [("alg", JStr "RS256"); ("e", JStr (rawurl_encode (idp_E cfg))); ("kid", JStr (idp_kid cfg));
                 ("kty", JStr "RSA"); ("n", JStr (rawurl_encode (idp_N cfg))); ("use", JStr "sig")]]]) by done.
  rewrite Hb. cbn [dec_field foldl conv_keys foldr].
  set (k := [("alg", _); _; _; _; _; _]).
  assert (Hk : jwk_of_members k = ({| Kid := idp_kid cfg; Kty := "RSA"; jN := rawurl_encode (idp_N cfg);
                                      jE := rawurl_encode (idp_E cfg); Crv := ""; jX := ""; jY := "" |}, true)) by done.
  rewrite Hk. cbn [fst snd].
  change (jwt_header !! "kid") with (Some (AStr (idp_kid cfg))). cbn [option_bind mbind as_string].
  apply find_rsa; apply K.
Qed.

(** ** Fetching them *)
Lemma take_bytes_all n s : (String.length s ≤ n)%nat → take_bytes n s = s.
Proof.
  revert s. induction n as [|n IH]; intros [|c s]; cbn [String.length take_bytes]; try done; [lia|].
  intros. by rewrite IH by lia.
Qed.
Lemma read_limited_small s : len s ≤ maxJWKSBytes → read_limited s = s.
Proof. unfold len. intros. apply take_bytes_all. lia. Qed.

Definition discovery_path : string := "/.well-known/openid-configuration".
Lemma get_discovery url w :
  leads url discovery_path → provider_calls _ (OE_Get url) w = (Ok (200, json_line (discovery_doc cfg)), w).
Proof.
  intros (u & Hu & Hp). cbn [client_calls]. rewrite Hu. unfold served, idp_serve. cbn [hr_Path get_request].
  by rewrite Hp.
Qed.
Lemma get_jwks url w :
  leads url "/jwks" → provider_calls _ (OE_Get url) w = (Ok (200, json_line (jwks_doc cfg)), w).
Proof.
  intros (u & Hu & Hp). cbn [client_calls]. rewrite Hu. unfold served, idp_serve. cbn [hr_Path get_request].
  by rewrite Hp.
Qed.

Lemma fetch_run url doc w :
  provider_calls _ (OE_Get url) w = (Ok (200, json_line doc), w) →
  len (json_line doc) ≤ maxJWKSBytes →
  run jwks_calls (fetchURL url) w = (Ok (json_line doc), w).
Proof.
  intros Hg Hs. unfold fetchURL. cbn [pbind call run]. unfold HttpGet, jwksE_get. cbn [jwks_calls]. rewrite Hg.
  cbn [run negb Z.eqb Pos.eqb]. by rewrite read_limited_small.
Qed.

Lemma discovery_names_keys :
  deployed cfg (TrimSuffix (idp_issuer cfg) "/") → idp_jwksURI cfg ≠ "" →
  discovery_uri (json_line (discovery_doc cfg)) = Ok (idp_jwksURI cfg).
Proof.
  intros Hd Hne. unfold discovery_uri, json_line. rewrite (parse_line _ (discovery_ok _ _ Hd)).
  set (m := match discovery_doc cfg with JObj l => l | _ => [] end).
  change (discovery_doc cfg) with (JObj m). cbv beta iota zeta.
  assert (Hb : bound ["jwks_uri"] "jwks_uri" m = [JStr (idp_jwksURI cfg)]) by done.
  rewrite Hb. cbn. by rewrite (proj2 (String.eqb_neq _ _) Hne).
Qed.

(** What the cache may hold: nothing, or the provider's document. *)
Definition cache_ok (s : HTTPJWKSSource) : Prop := ∀ d exp,
  js_cache s !! TrimSuffix (idp_issuer cfg) "/" = Some (d, exp) → d = json_line (jwks_doc cfg).

Lemma jwks_run s w :
  deployed cfg (TrimSuffix (idp_issuer cfg) "/") → keys_served → cache_ok s →
  ∃ s' n, run jwks_calls (source_GetJWKS s (idp_issuer cfg)) w =
    ((Ok (json_line (jwks_doc cfg)), s'),
     {| iw_codes := iw_codes w; iw_refresh := iw_refresh w; iw_reads := n |}) ∧ (iw_reads w ≤ n)%nat.
Proof.
  intros Hd K Hc. pose proof (ks_small K) as Hs. rewrite !Forall_cons in Hs. destruct Hs as (Hs1 & Hs2 & _).
  assert (Hmiss : ∀ v, ∃ s' n, run jwks_calls
    (call (JWKSCache false (TrimSuffix (idp_issuer cfg) "/")) ;;;
     uri <- fetchJWKSURI (TrimSuffix (idp_issuer cfg) "/") ;;
     match uri with
     | Err e => Ret (Err e, s)
     | Ok jwksURI =>
         data <- fetchURL jwksURI ;;
         match data with
         | Err e => Ret (Err e, s)
         | Ok d => now <- call Now ;;
                   Ret (Ok d, {| js_cache := <[TrimSuffix (idp_issuer cfg) "/" := (d, now + js_ttl s)]> (js_cache s);
                                 js_ttl := js_ttl s |})
         end
     end) v = ((Ok (json_line (jwks_doc cfg)), s'),
               {| iw_codes := iw_codes v; iw_refresh := iw_refresh v; iw_reads := n |}) ∧ (iw_reads v ≤ n)%nat).
  { intros v. cbn [pbind call run]. unfold JWKSCache, jwksE_metrics. cbn [jwks_calls]. unfold fetchJWKSURI.
    rewrite !run_bind, (fetch_run _ (discovery_doc cfg)) by (exact Hs1 || by apply get_discovery, Hd).
    cbn [run]. rewrite discovery_names_keys by (done || apply (leads_nonempty _ _ (ks_page K)); done).
    rewrite run_bind, (fetch_run _ (jwks_doc cfg)) by (exact Hs2 || by apply get_jwks, K). cbn.
    eexists _, _. split; [reflexivity|]. cbn. lia. }
  unfold source_GetJWKS. cbv zeta. destruct (js_cache s !! _) as [[d exp]|] eqn:Ec; [|by apply Hmiss].
  cbn [pbind call run]. unfold Now, jwksE_clock. cbn [jwks_calls].
  destruct (_ <? exp).
  - rewrite (Hc _ _ Ec). cbn. eexists _, _. split; [reflexivity|]. cbn. lia.
  - destruct (Hmiss (iw_read w)) as (s' & n & Hrun & Hn). exists s', n. split; [exact Hrun|]. cbn in Hn. lia.
Qed.

(** ** The ID token is accepted *)
Definition token_expires (j : nat) : Z := Unix (DurAdd (clock j) (DurMul (idp_expiresInSeconds cfg) Second)).
(** The clock does not run back, and tokens outlive the login, in a time JSON
    carries exactly. *)
Definition unexpired : Prop :=
  (∀ i j, (i ≤ j)%nat → Unix (clock i) ≤ Unix (clock j)) ∧
  ∀ i j, Unix (clock i) < token_expires j ∧ exact_int (Unix (clock i)) ∧ exact_int (token_expires j).
Definition token_of (clientID nonce : string) (i : idp_world) : string := signed_for clock cfg clientID nonce i.

Lemma id_claims_plain clientID nonce exp iat :
  Forall ascii_str [idp_issuer cfg; clientID; idp_sub cfg; idp_email cfg; nonce] → exact_int exp → exact_int iat →
  plain_claims (id_claims cfg clientID nonce exp iat).
Proof.
  rewrite !Forall_cons. intros (A1 & A2 & A3 & A4 & A5 & _) He Hi. unfold plain_claims, id_claims.
  destruct (String.eqb nonce "");
    repeat (apply map_Forall_insert_2;
      [split; [repeat constructor|first [done|by apply ascii_utf8]]|]); apply map_Forall_empty.
Qed.

(** The principal of the provider's user. *)
Record idp_user (pr : Principal) : Prop := {
  iu_subject : Subject pr = idp_sub cfg;
  iu_roles : Roles pr = [];
  iu_claims : ∃ m, p_Claims pr = Some m ∧ plain_claims m }.

Lemma id_claims_user clientID nonce exp iat :
  plain_claims (id_claims cfg clientID nonce exp iat) →
  idp_user (Token.principal_of (as_read <$> id_claims cfg clientID nonce exp iat)).
Proof.
  intros Hp. assert (Hc : ∀ k, claim k (Some (as_read <$> id_claims cfg clientID nonce exp iat)) =
                               as_read (claim k (Some (id_claims cfg clientID nonce exp iat)))).
  { intros k. cbn [claim]. rewrite lookup_fmap. by destruct (_ !! k). }
  split.
  - cbn [Token.principal_of Subject]. rewrite Hc. cbn [claim]. unfold id_claims. by destruct (String.eqb nonce "").
  - cbn [Token.principal_of Roles]. unfold roles_of. rewrite !Hc. cbn [claim]. unfold id_claims.
    by destruct (String.eqb nonce "").
  - eexists. split; [reflexivity|]. by apply claims_again.
Qed.

Lemma id_token_accepted w i clientID nonce audience :
  deployed cfg (TrimSuffix (idp_issuer cfg) "/") → keys_served → cache_ok (sk_jwks w) → accepts_signed → unexpired →
  Forall ascii_str [idp_issuer cfg; clientID; idp_sub cfg; idp_email cfg; nonce] →
  audience = "" ∨ audience = clientID → nonce ≠ "" → (S (S (iw_reads i)) ≤ iw_reads (sk_idp w))%nat →
  ∃ pr src n, run stack_calls (ValidateIDToken (token_of clientID nonce i) true (idp_issuer cfg) audience nonce) w =
    (Ok pr, set_jwks w src {| iw_codes := iw_codes (sk_idp w); iw_refresh := iw_refresh (sk_idp w); iw_reads := n |}) ∧
    idp_user pr.
Proof.
  intros Hd K Hc Hj [Hsteady Hu] Ha Haud Hn Hi. unfold ValidateIDToken. cbn [negb pbind call run]. unfold GetJWKS, env_jwks.
  cbn [stack_calls]. destruct (jwks_run _ (sk_idp w) Hd K Hc) as (src & n & -> & Hreads). cbn [pbind run].
  unfold JwtParse, env_jwt. cbn [stack_calls]. unfold token_of, signed_for.
  change (Unix (DurAdd (clock ?j) _)) with (token_expires j).
  destruct (Hu n (S (iw_reads i))) as (Hlive & _ & Hexp). destruct (Hu (S (S (iw_reads i))) O) as (_ & Hiat & _).
  pose proof (id_claims_plain _ _ _ _ Ha Hexp Hiat) as Hp. pose proof (id_claims_user _ _ _ _ Hp) as Huser.
  set (claims := id_claims _ _ _ _ _) in *.
  assert (Hget : claims !! "iss" = Some (AStr (idp_issuer cfg)) ∧ claims !! "aud" = Some (AStr clientID) ∧
                 claims !! "nonce" = Some (AStr nonce) ∧ claims !! "exp" = Some (AInt (token_expires (S (iw_reads i))))).
  { unfold claims, id_claims. by rewrite (proj2 (String.eqb_neq _ _) Hn). }
  assert (Giat : ∀ iat, claims !! "iat" = Some (AInt iat) → iat ≤ Unix (clock n)).
  { intros iat Hiat'. apply Z.le_trans with (Unix (clock (S (S (iw_reads i))))); [|apply Hsteady; lia].
    unfold claims, id_claims in Hiat'. rewrite (proj2 (String.eqb_neq _ _) Hn) in Hiat'. injection Hiat' as <-. done. }
  destruct Hget as (Giss & Gaud & Gn & Gexp). cbn [set_jwks sk_idp iw_reads].
  rewrite (Hj (clock n) claims _ _ _ (jwks_decodes K) Giss Gexp Hlive Giat Hp). unfold claim. rewrite !lookup_fmap, Gaud, Gn.
  cbn [fmap option_fmap option_map default from_option id as_read as_string audience_ok].
  rewrite String.eqb_refl, andb_false_r. destruct Haud as [-> | ->]; [cbn [negb andb String.eqb]|rewrite String.eqb_refl, andb_false_r];
    (eexists _, _, _; split; [reflexivity|done]).
Qed.

(** ** The session is established *)

(** Readings of the clock and the random source change nothing else. *)
Definition same_stores (w w' : stack) : Prop :=
  sk_sess w' = sk_sess w ∧ sk_pkce w' = sk_pkce w ∧ sk_plugin w' = sk_plugin w ∧ sk_jwks w' = sk_jwks w ∧
  iw_codes (sk_idp w') = iw_codes (sk_idp w) ∧ iw_refresh (sk_idp w') = iw_refresh (sk_idp w).
#[local] Instance same_stores_refl : Reflexive same_stores.
Proof. intros w. unfold same_stores. done. Qed.

Lemma expiry_run n msg w :
  ∃ x w', run stack_calls (token_expiry n msg) w = (x, w') ∧ same_stores w w' ∧
    (0 < n → ∃ i, x = wrap64 (Unix (clock i) + n)).
Proof.
  unfold token_expiry. cbn. destruct (Z.leb_spec n 0); cbn; eexists _, _; (split; [reflexivity|]; split; [done|]); [lia|].
  intros _. by eexists.
Qed.

Lemma webhook_run s url id sub email cl host w :
  ∃ r, run stack_calls (callPostLoginWebhook s url id sub email cl host) w = (r, w).
Proof.
  unfold callPostLoginWebhook. destruct (Parse url) as [u|e]; [|by eexists]. destruct (negb _); [by eexists|].
  cbn. by eexists.
Qed.

Definition stores_of (c : connector authE) : Prop := k_sessions c = env_sessions ∧ k_pkce c = env_pkce ∧ k_provider c = env_provider.

(** The session of a login, and the cookie value that names it. *)
Record established (s : Service authE) (c : connector authE) (t : ProviderTokens) (pr : Principal) (value id : string)
    (sess : Session) : Prop := {
  es_cookie : codec_Encode (s_cookie s) id = Ok value;
  es_id : id ≠ "";
  es_access : AccessToken sess = pt_AccessToken t;
  es_refresh : RefreshToken sess = pt_RefreshToken t;
  es_claims : Claims sess = Some (session_claims (k_cfg c) pr);
  es_tenant : s_Tenant sess = None;
  es_expiry : 0 < pt_ExpiresIn t → ∃ i, ExpiresAt sess = wrap64 (Unix (clock i) + pt_ExpiresIn t) }.

Lemma established_value s c t pr value id sess :
  established s c t pr value id sess → codec_Decode (s_cookie s) value = Ok id ∧ value ≠ "".
Proof.
  intros [Ee _ _ _ _ _ _]. split; [by apply (codec_round _ _ _ _ ltac:(left) Ee)|].
  intros ->. unfold codec_Encode, Encode in Ee. injection Ee as Ee. by apply app_nil_inv in Ee as [_ Ee].
Qed.

Lemma establish_run s c req p t pr w :
  stores_of c → (∀ n, bytes_read n ≠ "") →
  ∃ resp w' id sess, run stack_calls (establish s c req p t pr) w = ((Ok resp, true), w') ∧
    ler_ClearCookie resp = false ∧ established s c t pr (ler_SetCookieValue resp) id sess ∧
    ler_RedirectURL resp = or_str (validate_target s (RedirectTo p)) (AppBaseURL (s_cfg s)) ∧
    same_stores (set_sess w (<[id := sess]> (sk_sess w))) w'.
Proof.
  intros (Hs & _ & _) Hb. unfold establish. rewrite run_bind.
  destruct (expiry_run (pt_ExpiresIn t) ("warn: IdP omitted expires_in for subject=" +:+ Subject pr +:+ ", defaulting to 1 hour") w)
    as (x & w1 & -> & (E1 & E2 & E3 & E4 & E5 & E6) & Hexp).
  cbn [pbind call run generateSessionID random_id]. unfold RandRead, env_rand. cbn [stack_calls]. rewrite Hs.
  cbn [pbind call run]. cbn [env_sessions SS_Set stack_calls]. unfold log. cbn [pbind call run]. unfold Log, env_log. cbn [stack_calls].
  set (id := rawurl_encode _). set (w2 := set_sess _ _).
  assert (Hw : run stack_calls
    (if String.eqb (PostLoginWebhookURL (s_cfg s)) "" then Ret tt
     else werr <- callPostLoginWebhook s (PostLoginWebhookURL (s_cfg s)) id (Subject pr)
            (getClaimString (Some (session_claims (k_cfg c) pr)) "email") (session_claims (k_cfg c) pr) (le_Host req) ;;
          match werr with
          | Some e => call (E_Log ("warn: post_login_webhook failed: " +:+ e))
          | None => Ret tt end) w2 = (tt, w2)).
  { destruct (String.eqb _ ""); [done|]. rewrite run_bind.
    destruct (webhook_run s (PostLoginWebhookURL (s_cfg s)) id (Subject pr)
                (getClaimString (Some (session_claims (k_cfg c) pr)) "email") (session_claims (k_cfg c) pr) (le_Host req) w2)
      as ([e|] & ->); done. }
  rewrite run_bind, Hw. destruct (codec_Encode (s_cookie s) id) as [raw|] eqn:Ee; [|discriminate Ee].
  cbn [run]. eexists _, w2, id, (Build_Session id (pt_AccessToken t) (pt_RefreshToken t) (pt_IDToken t) x
    (Some (session_claims (k_cfg c) pr)) None). split; [reflexivity|]. cbn [ler_ClearCookie ler_SetCookieValue ler_RedirectURL].
  split; [done|]. split; [split; try done; apply encode_nonempty, Hb|]. split; [done|].
  unfold w2, same_stores. cbn. by rewrite E1, E2, E3, E4, E5, E6.
Qed.
(** ** From the login page back to the callback *)
Definition plugin_with (p : OidcPlugin) (c : Client) : OidcPlugin := {| op_cfg := op_cfg p; op_oidc := Some c |}.
Definition reads (n : nat) (i : idp_world) : idp_world :=
  {| iw_codes := iw_codes i; iw_refresh := iw_refresh i; iw_reads := n |}.
Definition random_text (n : nat) : string := rawurl_encode (bytes_read n).

Lemma plugin_url_run w client c' st ch n url i :
  op_oidc (sk_plugin w) = Some client →
  run provider_calls (AuthURL st ch n client) (sk_idp w) = ((c', Ok url), i) →
  through (λ p, plugin_AuthorizationURL p st ch n []) w = (Ok url, set_plugin w (plugin_with (sk_plugin w) c') i).
Proof.
  intros Hp Hr. unfold through, plugin_AuthorizationURL, with_client. rewrite Hp.
  by rewrite !run_bind, Hr.
Qed.
Lemma plugin_exchange_run w client c' code v uri t i :
  op_oidc (sk_plugin w) = Some client →
  run provider_calls (Exchange code v client) (sk_idp w) = ((c', Ok t), i) →
  through (λ p, plugin_ExchangeCode p code v uri) w =
    (Ok (provider_tokens t), set_plugin w (plugin_with (sk_plugin w) c') i).
Proof.
  intros Hp Hr. unfold through, plugin_ExchangeCode, with_client. rewrite Hp.
  by rewrite !run_bind, Hr.
Qed.

Lemma login_start_run s req c client w ucb :
  conn s (ls_Connector req) = Ok c → stores_of c → TrimSpace (ls_Prompt req) = "" →
  deployed cfg (oc_issuer client) → op_oidc (sk_plugin w) = Some client → may_discover cfg client →
  callback_uri (oc_redirectURI client) ucb → (∀ n, bytes_read n ≠ "") →
  let n := iw_reads (sk_idp w) in
  let p := {| State := random_text (S (S n)); CodeVerifier := random_text n;
              CodeChallenge := code_challenge (random_text n); Nonce := random_text (S n);
              RedirectTo := ValidateRedirectURL s (ls_RedirectTo req) |} in
  let client' := with_discovery client (Ok (discovered cfg)) in
  let w1 := set_plugin (set_pkce w (<[State p := p]> (sk_pkce w))) (plugin_with (sk_plugin w) client')
              (reads (S (S (S n))) (sk_idp w)) in
  ∃ url rep, run stack_calls (LoginStart s req) w = (Ok {| lsr_RedirectURL := url |}, w1) ∧
    visit multipart_values clock bytes_read cfg url (sk_idp w1) =
      (Some rep, after_authorize clock bytes_read (oc_clientID client) (oc_redirectURI client) (State p) (CodeChallenge p)
                   (Nonce p) (sk_idp w1)) ∧
    re_Status rep = 302 ∧
    Parse (h_get (re_Header rep) "Location") =
      Ok (with_query ucb (Encode [("code", code_at bytes_read (sk_idp w1)); ("state", State p)])).
Proof.
  intros Hconn (_ & Hpk & Hpr) Hprompt Hd Hp Hm Hcb Hb n p client' w1.
  destruct (authorize_run multipart_values clock bytes_read cfg client (sk_idp w1) (State p) (CodeChallenge p) (Nonce p) ucb
              Hd Hm Hcb) as (url & rep & Hurl & Hvis & Hst & Hloc).
  { unfold p. cbn [State CodeChallenge Nonce]. forall_each ltac:(first [apply code_challenge_nonempty|apply encode_nonempty, Hb]). }
  exists url, rep. split; [|done].
  unfold LoginStart, GeneratePKCE, GenerateState, random_id. rewrite Hconn. cbn [pbind call run].
  unfold Metric, env_metrics, RandRead, env_rand. cbn [stack_calls pbind call run]. rewrite Hpk, Hpr.
  cbn [pbind call run env_pkce PS_Set env_provider AuthorizationURL stack_calls]. rewrite Hprompt. cbn [String.eqb].
  match goal with |- context [through ?f ?W] =>
    pose proof (plugin_url_run W client _ _ _ _ _ _ Hp Hurl) as Hx;
    match type of Hx with ?l = _ => change (through f W) with l end; by rewrite Hx end.
Qed.

(** ** The callback *)
Lemma login_end_run s req c client w p info :
  conn s (le_Connector req) = Ok c → stores_of c → s_jwks s = true →
  cc_OIDCIssuer (k_cfg c) = idp_issuer cfg → audience_of (k_cfg c) = "" ∨ audience_of (k_cfg c) = ai_ClientID info →
  oc_issuer client = TrimSuffix (idp_issuer cfg) "/" → op_oidc (sk_plugin w) = Some client →
  oc_discovery client = Some (Ok (discovered cfg)) →
  deployed cfg (oc_issuer client) → keys_served → cache_ok (sk_jwks w) → accepts_signed → unexpired →
  Forall ascii_str [idp_issuer cfg; ai_ClientID info; idp_sub cfg; idp_email cfg; Nonce p; le_Code req] →
  Forall (λ s, s ≠ "") [le_State req; le_Code req; CodeVerifier p; Nonce p] → le_Error req = "" →
  sk_pkce w !! le_State req = Some p → iw_codes (sk_idp w) !! le_Code req = Some info →
  ai_CodeChallenge info = code_challenge (CodeVerifier p) → ai_Nonce info = Nonce p → (∀ n, bytes_read n ≠ "") →
  ∃ resp w' id sess pr t, run stack_calls (LoginEnd s req) w = (Ok resp, w') ∧
    ler_ClearCookie resp = false ∧ established s c t pr (ler_SetCookieValue resp) id sess ∧
    ler_RedirectURL resp = or_str (validate_target s (RedirectTo p)) (AppBaseURL (s_cfg s)) ∧
    pt_AccessToken t = "access-" +:+ le_Code req ∧ pt_ExpiresIn t = idp_expiresInSeconds cfg ∧ idp_user pr ∧
    sk_sess w' = <[id := sess]> (sk_sess w) ∧ sk_pkce w' = delete (le_State req) (sk_pkce w).
Proof.
  intros Hconn Hst Hj Hiss Haud Hci Hp Hdis Hd K Hc Hacc Hlive Ha Hne Herr Hpk Hcode Hch Hno Hb.
  repeat rewrite Forall_cons in Ha, Hne. repeat rewrite Forall_cons in Ha. destruct Ha as (A1 & A2 & A3 & A4 & A5 & A6 & _). destruct Hne as (N1 & N2 & N3 & N4 & _).
  destruct Hst as (Hs & Hpks & Hpr).
  unfold LoginEnd. rewrite Hconn, run_bind. unfold login_end. rewrite Herr. cbn [negb String.eqb].
  rewrite (proj2 (String.eqb_neq _ _) N1), (proj2 (String.eqb_neq _ _) N2). cbn [orb].
  rewrite Hpks, Hpr. cbn [env_pkce PS_Get PS_Delete pbind call run stack_calls]. rewrite Hpk.
  cbn [env_provider ExchangeCode pbind call run stack_calls].
  set (w1 := set_pkce w _).
  pose proof (exchange_run multipart_values clock bytes_read cfg client (sk_idp w1) (le_Code req) (CodeVerifier p) Hd Hdis N2 N3 A6) as Hex.
  change (iw_codes (sk_idp w1)) with (iw_codes (sk_idp w)) in Hex. rewrite Hcode, Hch, String.eqb_refl in Hex.
  rewrite (plugin_exchange_run w1 client _ _ _ (cc_OIDCRedirectURI (k_cfg c)) _ _ Hp Hex). cbn [pt_IDToken provider_tokens issued tr_IDToken].
  set (w2 := set_plugin w1 _ _).
  rewrite run_bind, Hj, Hiss, Hno.
  destruct (id_token_accepted w2 (sk_idp w1) (ai_ClientID info) (Nonce p) (audience_of (k_cfg c)))
    as (pr & src & n & Hval & Hsub); [by rewrite <-Hci|done..|by forall_each ltac:(done)|done|done|cbn; lia|].
  unfold token_of in Hval. rewrite Hval.
  match goal with |- context [establish s c req p ?t pr] =>
    match goal with |- context [run stack_calls _ ?W] =>
      destruct (establish_run s c req p t pr W (conj Hs (conj Hpks Hpr)) Hb)
        as (resp & w' & id & sess & -> & R1 & R2 & R3 & (S1 & S2 & _)); exists resp, w', id, sess, pr, t end end.
  split; [reflexivity|]. split_and!; try done.
Qed.

Lemma session_run s c cid raw id sess w :
  conn s cid = Ok c → stores_of c → raw ≠ "" → codec_Decode (s_cookie s) raw = Ok id → sk_sess w !! id = Some sess →
  run stack_calls (auth_Session s {| sr_SessionCookie := raw; sr_Connector := cid |}) w =
  (Ok {| IsAuthenticated := true; sr_User := SessionUserFromSession (Some sess) |}, w).
Proof.
  intros Hc (Hs & _) Hr Hd Hw. unfold auth_Session. cbn [sr_SessionCookie sr_Connector].
  rewrite (proj2 (String.eqb_neq _ _) Hr), Hc, Hd, Hs. cbn [env_sessions SS_Get call pbind run stack_calls]. by rewrite Hw.
Qed.

(** The deployment: the connector is served by the plugin's client, the
    client and the connector are configured for this provider, which is up, and
    every party's texts are ASCII. *)
Record wired (s : Service authE) (cid : string) (c : connector authE) (client : Client) (ucb : URL) (w : stack) : Prop := {
  wi_conn : conn s cid = Ok c;
  wi_stores : stores_of c;
  wi_jwks : s_jwks s = true;
  wi_issuer : cc_OIDCIssuer (k_cfg c) = idp_issuer cfg;
  wi_audience : audience_of (k_cfg c) = "" ∨ audience_of (k_cfg c) = oc_clientID client;
  wi_plugin : op_oidc (sk_plugin w) = Some client;
  wi_client : oc_issuer client = TrimSuffix (idp_issuer cfg) "/" ∧ may_discover cfg client;
  wi_deployed : deployed cfg (oc_issuer client);
  wi_keys : keys_served ∧ cache_ok (sk_jwks w);
  wi_callback : callback_uri (oc_redirectURI client) ucb;
  wi_ascii : Forall ascii_str [idp_issuer cfg; oc_clientID client; idp_sub cfg; idp_email cfg];
  wi_random : ∀ n, bytes_read n ≠ "" }.

(** The callback request of the browser. *)
Definition callback_request (cid host : string) (cb : URL) : LoginEndRequest :=
  let q := parse_query (RawQuery cb) in
  {| le_Connector := cid; le_Code := value_of "code" q; le_State := value_of "state" q; le_Error := value_of "error" q;
     le_ErrorDescription := value_of "error_description" q; le_Host := host |}.

Lemma callback_is cid host u code state :
  callback_request cid host (with_query u (Encode [("code", code); ("state", state)])) =
  {| le_Connector := cid; le_Code := code; le_State := state; le_Error := ""; le_ErrorDescription := ""; le_Host := host |}.
Proof. unfold callback_request. cbn [RawQuery with_query]. by rewrite parse_query_encode. Qed.

Lemma random_text_ascii n : ascii_str (random_text n).
Proof. apply printable_ascii, encoded_printable. Qed.

(** The whole login: the URL, the visit, the callback, and the session. *)
Lemma login_run s cid c client ucb w redirectTo host :
  wired s cid c client ucb w → accepts_signed → unexpired →
  ∃ url w1 rep i2 cb resp w3 id sess pr t, let req := callback_request cid host cb in
    (run stack_calls (LoginStart s {| ls_Connector := cid; ls_RedirectTo := redirectTo; ls_Prompt := "" |}) w =
      (Ok {| lsr_RedirectURL := url |}, w1) ∧
     visit multipart_values clock bytes_read cfg url (sk_idp w1) = (Some rep, i2) ∧ re_Status rep = 302 ∧
     Parse (h_get (re_Header rep) "Location") = Ok cb ∧ cb = with_query ucb (RawQuery cb) ∧
     run stack_calls (LoginEnd s req) (set_idp w1 i2) = (Ok resp, w3)) ∧
    ler_ClearCookie resp = false ∧
    ler_RedirectURL resp = or_str (validate_target s (ValidateRedirectURL s redirectTo)) (AppBaseURL (s_cfg s)) ∧
    established s c t pr (ler_SetCookieValue resp) id sess ∧ idp_user pr ∧
    pt_AccessToken t = "access-" +:+ le_Code req ∧ pt_ExpiresIn t = idp_expiresInSeconds cfg ∧
    ascii_str (le_Code req) ∧ sk_sess w3 !! id = Some sess ∧
    sk_pkce w1 !! le_State req ≠ None ∧ sk_pkce w3 !! le_State req = None.
Proof.
  intros [Hconn Hst Hj Hiss Haud Hp [Hci Hm] Hd [K Hc] Hcb Ha Hb] Hacc Hlive.
  destruct (login_start_run s {| ls_Connector := cid; ls_RedirectTo := redirectTo; ls_Prompt := "" |}
              c client w ucb Hconn Hst eq_refl Hd Hp Hm Hcb Hb) as (url & rep & Hrun & Hvis & Hstat & Hloc).
  set (p := Build_PKCEState _ _ _ _ _) in Hrun, Hvis, Hloc.
  match type of Hrun with _ = (_, ?W) => set (w1 := W) in Hrun, Hvis, Hloc end.
  match type of Hvis with _ = (_, ?I) => set (i2 := I) in Hvis end.
  match type of Hloc with _ = Ok ?U => set (cb := U) in Hloc end.
  assert (Hcode : code_at bytes_read (sk_idp w1) ≠ "") by apply code_at_nonempty, Hb.
  set (req := Build_LoginEndRequest cid (code_at bytes_read (sk_idp w1)) (State p) "" "" host).
  assert (Hreq : callback_request cid host cb = req) by apply callback_is.
  set (info := {| ai_CodeChallenge := CodeChallenge p; ai_Nonce := Nonce p; ai_ClientID := oc_clientID client;
       ai_RedirectURI := oc_redirectURI client; ai_State := State p; ai_CreatedAt := clock (S (iw_reads (sk_idp w1))) |}).
  repeat rewrite Forall_cons in Ha. destruct Ha as (A1 & A2 & A3 & A4 & _).
  destruct (login_end_run s req c (with_discovery client (Ok (discovered cfg))) (set_idp w1 i2) p info)
    as (resp & w3 & id & sess & pr & t & Hend & R1 & R2 & R3 & R4 & R5 & R6 & R7 & R8); try done.
  { forall_each ltac:(first [done|apply random_text_ascii|apply new_code_ascii]). }
  { forall_each ltac:(first [done|apply encode_nonempty, Hb]). }
  { apply lookup_insert_eq. }
  { apply lookup_insert_eq. }
  exists url, w1, rep, i2, cb, resp, w3, id, sess, pr, t. cbv zeta. rewrite Hreq. split_and!; try done.
  - apply new_code_ascii.
  - rewrite R7. apply lookup_insert_eq.
  - replace (sk_pkce w1 !! le_State req) with (Some p); [done|]. symmetry. apply lookup_insert_eq.
  - rewrite R8. apply lookup_delete_eq.
Qed.

(** C2: a login completes. In a deployment where the connector, the OIDC
    plugin and the mock provider are configured for one another, the stores and
    the provider answer, the clock does not run back and the JWT library accepts
    what the provider signs and has not expired:
    starting a login gives a URL; a browser that follows it is redirected by the
    provider to the client's redirect URI with a code and the state; handling
    that callback succeeds, sending the browser to the validated target; the
    session it stored has the access token of that code and the claims of the
    provider's user; the PKCE record is gone; and the cookie it set
    authenticates the browser from then on. *)
Theorem login_completes s cid c client ucb w redirectTo host
    (Hw : wired s cid c client ucb w) (Hacc : accepts_signed) (Hlive : unexpired) :
  ∃ url w1 rep i2 cb resp w3 id sess pr,
    let req := callback_request cid host cb in
    run stack_calls (LoginStart s {| ls_Connector := cid; ls_RedirectTo := redirectTo; ls_Prompt := "" |}) w =
      (Ok {| lsr_RedirectURL := url |}, w1) ∧
    visit multipart_values clock bytes_read cfg url (sk_idp w1) = (Some rep, i2) ∧ re_Status rep = 302 ∧
    Parse (h_get (re_Header rep) "Location") = Ok cb ∧ cb = with_query ucb (RawQuery cb) ∧
    run stack_calls (LoginEnd s req) (set_idp w1 i2) = (Ok resp, w3) ∧ ler_ClearCookie resp = false ∧
    ler_RedirectURL resp = or_str (validate_target s (ValidateRedirectURL s redirectTo)) (AppBaseURL (s_cfg s)) ∧
    sk_sess w3 !! id = Some sess ∧ AccessToken sess = "access-" +:+ le_Code req ∧
    Claims sess = Some (session_claims (k_cfg c) pr) ∧ Subject pr = idp_sub cfg ∧
    sk_pkce w1 !! le_State req ≠ None ∧ sk_pkce w3 !! le_State req = None ∧
    fst (run stack_calls (auth_Session s {| sr_SessionCookie := ler_SetCookieValue resp; sr_Connector := cid |}) w3) =
      Ok {| IsAuthenticated := true; sr_User := SessionUserFromSession (Some sess) |}.
Proof.
  destruct (login_run s cid c client ucb w redirectTo host Hw Hacc Hlive)
    as (url & w1 & rep & i2 & cb & resp & w3 & id & sess & pr & t & (Q1 & Q2 & Q3 & Q4 & Q5 & Q6) & Q7 & Q8 & Hes & Hu
        & Hat & _ & _ & Hs & Hk1 & Hk3).
  exists url, w1, rep, i2, cb, resp, w3, id, sess, pr. cbv zeta in *.
  destruct (established_value _ _ _ _ _ _ _ Hes) as [Hdec Hne]. split_and!; try done.
  - rewrite (es_access _ _ _ _ _ _ _ Hes). exact Hat.
  - apply Hes.
  - apply Hu.
  - by rewrite (session_run _ c cid _ id sess _ (wi_conn _ _ _ _ _ _ Hw) (wi_stores _ _ _ _ _ _ Hw) Hne Hdec Hs).
Qed.
End login.

(** ** A deployment

    The token format of this JWT library is the payload in base64. *)
#[local] Existing Instance ascii_unicode.
#[local] Instance loop_json_errors : JsonErrors :=
  {| marshal_error _ := "json: unsupported value"; unmarshal_error _ := "json: syntax error" |}.

#[local] Instance demo_signer : JwtSigner := λ c _,
  match claims_json (Some c) with Some j => rawurl_encode (print j) | None => "" end.
Definition demo_idp : IdpConfig :=
  {| idp_issuer := "https://idp.example"; idp_authorizationEndpoint := "https://idp.example/authorize";
     idp_tokenEndpoint := "https://idp.example/token"; idp_jwksURI := "https://idp.example/jwks";
     idp_endSessionEndpoint := "https://idp.example/logout"; idp_sub := "test-user"; idp_email := "u@example.com";
     idp_expiresInSeconds := 300; idp_kid := "mock-kid"; idp_N := of_bytes (replicate 256 200);
     idp_E := of_bytes [1; 0; 1] |}.
Definition demo_parse (now : Z) (raw : string) (kf : keyfunc) (opts : jwt_options) : res jwt_token :=
  match rawurl_decode raw with
  | Some t =>
      match parse t, kf (jwt_header demo_idp) with
      | Some j, Ok _ =>
          match dec_claims [j] with
          | (Some m, true) => if String.eqb (getClaimString (Some m) "iss") (WithIssuer opts)
                              then Ok {| jt_claims := Some m; jt_valid := true |} else Err "token has invalid issuer"
          | _ => Err "token is malformed"
          end
      | _, _ => Err "token is unverifiable"
      end
  | None => Err "token is malformed"
  end.

Lemma demo_accepts : accepts_signed demo_idp demo_parse.
Proof.
  intros now c kf issuer exp Hkf Hiss _ _ _ Hp.
  destruct (claims_stored _ Hp) as (js & Hj & Hok & Hd).
  unfold demo_parse, SignedString, demo_signer. rewrite Hj. unfold rawurl_decode, rawurl_encode.
  rewrite DecodeString_EncodeToString, (parse_print _ Hok), Hkf, Hd. unfold getClaimString. cbn [read_claims].
  change (claim "iss" _) with (default ANil ((as_read <$> c) !! "iss")).
  rewrite lookup_fmap, Hiss. cbn [fmap option_fmap option_map default from_option id as_read as_string].
  by rewrite String.eqb_refl.
Qed.

Definition demo_clock (n : nat) : Z := 1700000000 * Second.
Definition demo_bytes (n : nat) : string := "random-" +:+ Itoa (Z.of_nat n).
Definition demo_oidc : Client := NewClient "https://idp.example" "app" "s3cret" "https://app.example/callback" None "".
Definition demo_callback : URL :=
  match Parse "https://app.example/callback" with Ok u => u | Err _ => empty_url end.
Definition demo_stack : stack :=
  {| sk_idp := {| iw_codes := ∅; iw_refresh := ∅; iw_reads := 0 |};
     sk_plugin := {| op_cfg := zero_oidc_config; op_oidc := Some demo_oidc |}; sk_jwks := NewHTTPJWKSSource 0;
     sk_sess := ∅; sk_pkce := ∅ |}.

Lemma demo_wired :
  wired demo_bytes demo_idp env_service "" (connector_of env_cfg env_wiring env_provider) demo_oidc demo_callback demo_stack.
Proof.
  split; try reflexivity.
  - done.
  - by right.
  - split; [done|by left].
  - split; try (eexists; split; [vm_compute; reflexivity|reflexivity]).
    + split; vm_compute; set_solver.
    + forall_each ltac:(repeat constructor).
    + done.
    + intros c kid. unfold SignedString, demo_signer. destruct (claims_json _); [|constructor].
      apply printable_ascii, encoded_printable.
  - split; [|intros d exp; vm_compute; discriminate].
    split; [eexists; split; [vm_compute; reflexivity|reflexivity]|repeat constructor|vm_compute; discriminate|
            split; [done|vm_compute; reflexivity]|].
    forall_each ltac:(vm_compute; discriminate).
  - unfold callback_uri. split; [vm_compute; reflexivity|]. split; [vm_compute; discriminate|].
    do 4 (split; [vm_compute; reflexivity|]). split; [vm_compute; set_solver|]. split; [vm_compute; set_solver|].
    repeat constructor.
  - forall_each ltac:(repeat constructor).
  - intros n. discriminate.
Qed.

Lemma login_completes_witness :
  ∃ w raw sess, fst (run (stack_calls (λ _, []) demo_clock demo_bytes demo_idp demo_parse)
      (auth_Session env_service {| sr_SessionCookie := raw; sr_Connector := "" |}) w) =
    Ok {| IsAuthenticated := true; sr_User := SessionUserFromSession (Some sess) |}.
Proof.
  destruct (login_completes (λ _, []) demo_clock demo_bytes demo_idp demo_parse env_service "" _ demo_oidc demo_callback
              demo_stack "/home" "app.example" demo_wired demo_accepts)
    as (url & w1 & rep & i2 & cb & resp & w3 & id & sess & pr & Hall).
  - split; [done|]. intros i j. vm_compute. done.
  - exists w3, (ler_SetCookieValue resp), sess. apply Hall.
Defined.
