(* ===== verification/LoginThrough.v ===== *)
(** * From the login to the protected page

    The login of LoginLoop, and then the browser's next request: the proxy
    built over the configuration takes the cookie the login set, asks the auth
    server for its session over HTTP, has the policy decide, and forwards the
    request upstream in the name of the provider's user.  The proxy's calls are
    served by the same stack of stores, provider and keys the login ran on. *)

From S2P Require Import Prelude.
From S2P Require Import GoStrings.
From S2P Require Import Utf8Facts.
From S2P Require Import Effects.
From S2P Require Import GoTime.
From S2P Require Import GoAny.
From S2P Require Import Json.
From S2P Require Import JsonFacts.
From S2P Require Import FloatJson.
From S2P Require Import Cookie.
From S2P Require Import Session.
From S2P Require Import SessionFacts.
From S2P Require Import AuthConfig.
From S2P Require Import GoUrl.
From S2P Require Import Handoff.
From S2P Require Import Token.
From S2P Require Import Sdk.
From S2P Require Import AuthService.
From S2P Require Import AuthFlows.
From S2P Require Import AuthEnv.
From S2P Require Import AuthAccess.
From S2P Require Import Graphql.
From S2P Require Import Authz.
From S2P Require Import AuthzFacts.
From S2P Require Import AuthzHttp.
From S2P Require Import ProxyConfig.
From S2P Require Import Registry.
From S2P Require Import Ratelimit.
From S2P Require Import ProxyServer.
From S2P Require Import ProxyClient.
From S2P Require Import ProxyServerFacts.
From S2P Require Import GoHttp.
From S2P Require Import AuthServer.
From S2P Require Import ResolveChain.
From S2P Require Import Oidc.
From S2P Require Import OidcFacts.
From S2P Require Import Manifest.
From S2P Require Import Bootstrap.
From S2P Require Import BootstrapFacts.
From S2P Require Import MockIdp.
From S2P Require Import MockIdpFacts.
From S2P Require Import LoginLoop.

(** The proxy's calls. *)
Inductive doorE : Type → Type :=
| D_Resolve (a : AuthPrincipalResolver) (r : Request) : doorE (res (option Principal))
| D_Evaluate (i : Input) : doorE (res (option Decision))
| D_Loaded : doorE bool
| D_Bundle : doorE string
| D_Plugin (i : nat) (r : Request) (p : option Principal) : doorE (res (option Decision))
| D_Page : doorE unit
| D_Decision (allow : bool) (status : Z) : doorE unit
| D_Outcome (route what : string) : doorE unit
| D_Forward (f : forwarded) : doorE unit
| D_Redirect (url : string) (status : Z) : doorE unit
| D_Write (status : Z) (headers : list (string * string)) (body : string) : doorE unit.
#[local] Instance door_objects : ProxyObjectsE doorE :=
  {| ResolveWith := D_Resolve; EvaluatePolicy := D_Evaluate; PolicyLoaded := D_Loaded; PolicyBundle := D_Bundle;
     RunPlugin := D_Plugin; ServeMetrics := D_Page |}.
#[local] Instance door_metrics : ProxyMetricsE doorE := D_Decision.
#[local] Instance door_outcome : RouteMetricsE doorE := D_Outcome.
#[local] Instance door_forward : ForwardE doorE := D_Forward.
#[local] Instance door_redirect : RedirectE doorE := D_Redirect.
#[local] Instance door_write : WriteE doorE := D_Write.
#[local] Existing Instance env_net.

Section through.
Context `{Unicode} `{JsonErrors} `{JwtSigner} `{StructPB} `{MapRange} `{UnicodeDigit}.
Context (multipart_values : http_request → list (string * string)) (json_error : string → string).
Context (clock : nat → Z) (bytes_read : nat → string) (cfg : IdpConfig).
Context (jwt_parse : Z → string → keyfunc → jwt_options → res jwt_token).
Context (decide : Input → res (option Decision)).
Notation stack_calls := (stack_calls multipart_values clock bytes_read cfg jwt_parse).
Notation resolve_over := (resolve_over multipart_values json_error).

(** The auth server answers the proxy's resolvers; what is forwarded is kept. *)
Definition door_calls (s : AuthServer authE) : handler doorE (stack * list forwarded) := λ X e,
  match e in doorE X return stack * list forwarded → X * (stack * list forwarded) with
  | D_Resolve a r => λ w, let '(x, st) := run stack_calls (resolve_over s a r) w.1 in (x, (st, w.2))
  | D_Evaluate i => λ w, (decide i, w)
  | D_Loaded => λ w, (true, w)
  | D_Bundle => λ w, ("", w)
  | D_Plugin _ _ _ => λ w, (Ok None, w)
  | D_Page => λ w, (tt, w)
  | D_Decision _ _ => λ w, (tt, w)
  | D_Outcome _ _ => λ w, (tt, w)
  | D_Forward f => λ w, (tt, (w.1, w.2 ++ [f]))
  | D_Redirect _ _ => λ w, (tt, w)
  | D_Write _ _ _ => λ w, (tt, w)
  end.

(** ** The session resolves *)

(** The access token of the session is good for longer than the margin. *)
Definition fresh (early : Z) : Prop :=
  ∀ i j, Unix (clock j) < wrap64 (wrap64 (Unix (clock i) + idp_expiresInSeconds cfg) - early).

Lemma ensure_fresh_run s (c : connector authE) id sess w :
  stores_of c → id ≠ "" → sk_sess w !! id = Some sess →
  (∀ j, NeedsRefresh sess (clock j) (SessionRefreshEarlySeconds (s_cfg s)) = false) →
  ∃ w', run stack_calls (ensureFresh s c id) w = (Ok (sess, false), w').
Proof.
  intros (Hs & _) Hid Hw Hn. unfold ensureFresh. rewrite (proj2 (String.eqb_neq _ _) Hid), Hs. cbv zeta.
  cbn [env_sessions SS_Get pbind call run LoginLoop.stack_calls]. rewrite Hw.
  destruct (String.eqb _ ""); [by eexists|]. cbn [pbind call run]. unfold Now, env_clock. cbn [LoginLoop.stack_calls].
  rewrite Hn. by eexists.
Qed.

(** What the service resolves the login's cookie to. *)
Definition login_resolved (c : connector authE) (t : ProviderTokens) (pr : Principal) : Resolved :=
  {| rs_AccessToken := pt_AccessToken t; rs_Claims := session_claims (k_cfg c) pr; rs_Tenant := None; rs_SetCookie := "" |}.

Lemma resolve_run s cid (c : connector authE) t pr value id sess w :
  conn s cid = Ok c → stores_of c → established clock s c t pr value id sess → sk_sess w !! id = Some sess →
  pt_ExpiresIn t = idp_expiresInSeconds cfg → 0 < idp_expiresInSeconds cfg →
  fresh (SessionRefreshEarlySeconds (s_cfg s)) →
  ∃ w', run stack_calls (ResolveForConnector s cid value) w = (Ok (login_resolved c t pr), w').
Proof.
  intros Hconn Hst Hes Hw Ht Hpos Hf. destruct (established_value _ _ _ _ _ _ _ _ Hes) as [Hdec Hne].
  destruct Hes as [_ Hid Ha _ Hc Htn Hexp]. destruct Hexp as [i Hexp]; [lia|].
  destruct (ensure_fresh_run s c id sess w Hst Hid Hw) as [w' Hrun].
  { intros j. unfold NeedsRefresh. rewrite Hexp, Ht. apply Z.leb_gt, Hf. }
  exists w'. unfold ResolveForConnector. rewrite (proj2 (String.eqb_neq _ _) Hne), Hconn, Hdec, run_bind, Hrun.
  cbn [run]. by rewrite Ha, Hc, Htn.
Qed.

(** The connector keeps the provider's subject as the user's id. *)
Record keeps_subject (c : ConnectorConfig) : Prop := {
  kp_claim : AuthoritativeIDClaim (cc_ClaimMapping c) ∈ [""; "sub"];
  kp_kind : ascii_str (IDKind (cc_ClaimMapping c)) }.

Lemma session_claims_plain c pr :
  keeps_subject c → idp_user cfg pr → ascii_str (idp_sub cfg) →
  plain_claims (session_claims c pr) ∧ claim_str "sub" (Some (session_claims c pr)) = idp_sub cfg.
Proof.
  intros [Hk Ha] [Hsub Hr (m & Hm & Hp)] Hs. unfold session_claims. rewrite Hm, Hr, Hsub. cbn [default from_option id].
  assert (Hauth : authoritativeID c (Some m) = "").
  { unfold authoritativeID. rewrite !elem_of_cons, elem_of_nil in Hk. by destruct Hk as [-> | [-> | []]]. }
  rewrite Hauth. cbn [String.eqb]. destruct (String.eqb _ ""); split.
  - apply map_Forall_insert_2; [split; [repeat constructor|by apply ascii_utf8]|done].
  - unfold claim_str, claim. by rewrite lookup_insert_eq.
  - repeat (apply map_Forall_insert_2; [split; [repeat constructor|by apply ascii_utf8]|]). done.
  - unfold claim_str, claim. by rewrite lookup_insert_ne, lookup_insert_eq.
Qed.

(** ** The proxy's side *)

(** A request for the route, whose resolver reaches the auth server. *)
Record guarded (sv : Server doorE factory) (pcfg : ProxyConfig) (rc : RouteConfig) (r : http_request) : Prop := {
  gd_path : hr_Path r ∉ own_paths;
  gd_route : ∃ n, matchRoute sv (hr_Host r) (hr_Path r) = Some (build_route pcfg n rc);
  gd_name : cookie_name (pc_CookieName pcfg);
  gd_reaches : reaches (NewAuthClient (ProxyConfig.AuthURL pcfg) (pc_CookieName pcfg)) (ConnectorID rc) }.
(** The cookie name the proxy's client sends is the one the auth server looks
    the connector's cookie up by. *)
Definition agreed (s : AuthServer authE) (pcfg : ProxyConfig) (rc : RouteConfig) : Prop :=
  pc_CookieName pcfg = fst (connectorCookie s (ConnectorID rc)).
#[local] Instance agreed_dec s pcfg rc : base.Decision (agreed s pcfg rc).
Proof. unfold agreed. apply _. Defined.
(** The request makes a URL of the route's upstream. *)
Definition forwardable (rc : RouteConfig) (r : http_request) : Prop :=
  ∃ up u, Parse (rc_UpstreamURL rc) = Ok up ∧ (Scheme up = "http" ∨ Scheme up = "https") ∧
    Parse (outgoing_url up r) = Ok u.
(** Its cookie for the connector. *)
Definition carries (pcfg : ProxyConfig) (rc : RouteConfig) (r : http_request) (value : string) : Prop :=
  Cookies (RequestFromHTTP r) !! connectorCookieName pcfg (ConnectorID rc) = Some value.

(** Under the agreed name the service resolves the cookie the request carries,
    and nothing is lost on the way; under another it sees none. *)
Lemma asked_run sv s pcfg rc r id value w :
  guarded sv pcfg rc r → carries pcfg rc r value → codec_Encode (s_cookie (as_svc s)) id = Ok value →
  (agreed s pcfg rc → run stack_calls (resolve_over s (route_resolver pcfg rc) (RequestFromHTTP r)) w =
    let '(x, w') := run stack_calls (ResolveForConnector (as_svc s) (ConnectorID rc) value) w in
    (relayed json_error x, w')) ∧
  (¬ agreed s pcfg rc →
    run stack_calls (resolve_over s (route_resolver pcfg rc) (RequestFromHTTP r)) w = (Ok None, w)).
Proof.
  intros [_ _ Hn Hreach] Hck He.
  pose proof (resolve_over_run multipart_values json_error stack_calls s (route_resolver pcfg rc)
    (RequestFromHTTP r) value w) as Hrun.
  rewrite Hrun; clear Hrun; [|done| | |done].
  - unfold seen, agreed. cbn [route_resolver ProxyClient.Client ac_cookieName NewAuthClient apr_ConnectorID].
    by split; intros Ha; [rewrite Ha, String.eqb_refl|rewrite (proj2 (String.eqb_neq _ _) Ha)].
  - cbn [route_resolver CookieName]. unfold carries in Hck. by rewrite Hck.
  - right. split; [apply (signed_wire _ _ _ He)|done].
Qed.

(** A decision that allows the request, sets no other spelling of the two
    headers, and leaves the connection alone. *)
Definition keeps_identity (d : Decision) : Prop :=
  d_Allow d = true ∧ ∀ n, is_Some (merge_obligations (d_Obligations d) (d_Headers d) !! n) →
    (CanonicalHeaderKey n ∈ ["X-User-Id"; "Authorization"] → n = CanonicalHeaderKey n) ∧
    CanonicalHeaderKey n ∉ ["Connection"; "Upgrade"].

Lemma plugins_run s n k req p w :
  run (door_calls s) (run_plugins (List.map (λ i, Some (RunPlugin i)) (seq k n)) req p) w = (Ok None, w).
Proof. revert k. induction n as [|n IH]; intros k; [done|]. cbn. apply IH. Qed.

Lemma handle_run s pcfg n rc req who d w st :
  run stack_calls (resolve_over s (route_resolver pcfg rc) req) w.1 = (Ok (Some who), st) →
  decide (policy_input req (Some who)) = Ok (Some d) →
  run (door_calls s) (Handle (route_engine pcfg n rc) req) w = (respond None (Some who) d, (st, w.2)).
Proof.
  intros Hr Hd. unfold Handle. cbn [route_engine e_Resolve e_HeaderBuilder e_Metrics pbind call run]. cbv zeta.
  cbn [ResolveWith door_objects door_calls]. rewrite Hr, run_bind. unfold decide_request.
  cbn [route_engine e_Plugins e_Evaluate]. rewrite run_bind, plugins_run. cbn. by rewrite Hd.
Qed.

(** The headers of the default builder win, in their canonical spelling. *)
Lemma set_if_keys (P : string → Prop) k v h :
  P k → map_Forall (λ n _, P n) h → map_Forall (λ n _, P n) (set_if k v h).
Proof. unfold set_if. destruct (String.eqb v ""); [done|]. intros. by apply map_Forall_insert_2. Qed.

Lemma default_headers_canonical who o n :
  is_Some (defaultHeaderBuilder who o !! n) → CanonicalHeaderKey n = n ∧ n ≠ "Connection" ∧ n ≠ "Upgrade".
Proof.
  intros [y Hy]. revert n y Hy.
  set (P := λ n, CanonicalHeaderKey n = n ∧ n ≠ "Connection" ∧ n ≠ "Upgrade").
  change (map_Forall (λ n _, P n) (defaultHeaderBuilder who o)). unfold defaultHeaderBuilder.
  repeat (apply (set_if_keys P); [by split_and!|]).
  assert (Hb : map_Forall (λ n (_ : string), P n)
    (set_if "X-User-Id" (Subject who) (if String.eqb (p_AccessToken who) "" then ∅ else
       <["Authorization" := "Bearer " +:+ p_AccessToken who]> ∅))).
  { apply (set_if_keys P); [by split_and!|]. destruct (String.eqb _ ""); [apply map_Forall_empty|].
    apply map_Forall_insert_2; [by split_and!|apply map_Forall_empty]. }
  destruct (Roles who); [done|]. apply map_Forall_insert_2; [by split_and!|done].
Qed.

Lemma identity_forwarded r who d k x :
  keeps_identity d → defaultHeaderBuilder who (d_Obligations d) !! k = Some x →
  k ∈ ["X-User-Id"; "Authorization"] →
  out_header r (UpstreamHeaders (respond None (Some who) d)) !! k = Some [x].
Proof.
  intros [Ha Hd] Hb Hk. cbn [respond UpstreamHeaders default from_option id]. rewrite Ha.
  destruct (default_headers_canonical who (d_Obligations d) k (ex_intro _ _ Hb)) as [Hcan _].
  apply out_header_engine; [by apply lookup_union_Some_l|done|].
  intros n [y [Hy|[_ Hy]]%lookup_union_Some_raw] Hn.
  - destruct (default_headers_canonical who (d_Obligations d) n ltac:(eauto)) as [Hc _]. congruence.
  - rewrite (proj1 (Hd n ltac:(eauto))) by (by rewrite Hn). done.
Qed.

(** The connection headers stay the client's. *)
Lemma connection_forwarded r who d k :
  keeps_identity d → k ∈ ["Connection"; "Upgrade"] →
  out_header r (UpstreamHeaders (respond None (Some who) d)) !! k = hr_Header r !! k.
Proof.
  intros [Ha Hd] Hk. cbn [respond UpstreamHeaders default from_option id]. rewrite Ha.
  assert (Hopen : ∀ v, client_header (k, v) = true).
  { intros v. rewrite !elem_of_cons, elem_of_nil in Hk. destruct Hk as [->|[->|[]]]; vm_compute; reflexivity. }
  assert (Hset : ∀ w, ¬ engine_set (defaultHeaderBuilder who (d_Obligations d) ∪
                          merge_obligations (d_Obligations d) (d_Headers d)) k w).
  { intros w (n & x & [Hy|[_ Hy]]%lookup_union_Some_raw & Hn & _).
    - destruct (default_headers_canonical who (d_Obligations d) n ltac:(eauto)) as (Hc & Hn1 & Hn2).
      rewrite <-Hn, Hc, !elem_of_cons, elem_of_nil in Hk. tauto.
    - destruct (Hd n ltac:(eauto)) as [_ Hno]. rewrite Hn in Hno. done. }
  destruct (hr_Header r !! k) as [v|] eqn:Ev; [apply out_header_client; [exact Ev|apply Hopen|exact Hset]|].
  destruct (out_header r _ !! k) as [w|] eqn:Ew; [|done].
  apply out_header_lookup in Ew as [Hw|[Hw _]]; [by apply Hset in Hw|congruence].
Qed.

Lemma identity_headers_built who o :
  p_AccessToken who ≠ "" → Subject who ≠ "" →
  defaultHeaderBuilder who o !! "Authorization" = Some ("Bearer " +:+ p_AccessToken who) ∧
  defaultHeaderBuilder who o !! "X-User-Id" = Some (Subject who).
Proof.
  intros Ht Hs. unfold defaultHeaderBuilder, set_if.
  rewrite (proj2 (String.eqb_neq _ _) Ht), (proj2 (String.eqb_neq _ _) Hs).
  repeat (case_match; rewrite ?lookup_insert_ne by done); rewrite ?lookup_insert_eq; split; try done;
    rewrite ?lookup_insert_ne by done; by rewrite lookup_insert_eq.
Qed.
(** A request resolved to [who] and allowed is forwarded in the name of [who];
    the reverse proxy sends it on, unless the client asks for an unprintable
    upgrade, with these headers, less those the Connection header names. *)
Record in_name_of (who : Principal) (rc : RouteConfig) (r : http_request) (f : forwarded) : Prop := {
  io_target : Parse (rc_UpstreamURL rc) = Ok (fw_target f);
  io_method : fw_Method f = hr_Method r;
  io_body : fw_Body f = read_body (hr_Body r);
  io_user : fw_Header f !! "X-User-Id" = Some [Subject who];
  io_token : fw_Header f !! "Authorization" = Some ["Bearer " +:+ p_AccessToken who];
  io_sent : ascii_printable (upgradeType (hr_Header r)) = true → ∃ sent, reverse_proxy f = Some sent ∧
    Host (fw_URL sent) = Host (fw_target f) ∧ fw_Method sent = hr_Method r ∧ fw_Body sent = fw_Body f ∧
    ∀ k, k ∈ ["X-User-Id"; "Authorization"] →
      (¬ named (hr_Header r) k → fw_Header sent !! k = fw_Header f !! k) ∧
      (named (hr_Header r) k → fw_Header sent !! k = None) }.

Lemma forwarded_sent r f :
  fw_Header f !! "Connection" = hr_Header r !! "Connection" → fw_Header f !! "Upgrade" = hr_Header r !! "Upgrade" →
  ascii_printable (upgradeType (hr_Header r)) = true → ∃ sent, reverse_proxy f = Some sent ∧
    Host (fw_URL sent) = Host (fw_target f) ∧ fw_Method sent = fw_Method f ∧ fw_Body sent = fw_Body f ∧
    ∀ k, k ∈ ["X-User-Id"; "Authorization"] →
      (¬ named (hr_Header r) k → fw_Header sent !! k = fw_Header f !! k) ∧
      (named (hr_Header r) k → fw_Header sent !! k = None).
Proof.
  intros Hc Hu. assert (upgradeType (hr_Header r) = upgradeType (fw_Header f)) as ->
    by (unfold upgradeType, first_value, header_values; by rewrite Hc, Hu).
  assert (Hn : ∀ k, named (hr_Header r) k ↔ named (fw_Header f) k).
  { intros k. unfold named, connection_names, header_values. by rewrite Hc. }
  setoid_rewrite Hn. unfold reverse_proxy. intros ->. cbn [negb]. eexists. split; [reflexivity|].
  cbn [fw_Header fw_URL fw_Method fw_Body]. split; [unfold rewriteRequestURL; by destruct (joinURLPath _ _)|].
  do 2 (split; [done|]). intros k Hk. rewrite !elem_of_cons, elem_of_nil in Hk.
  apply proxied_named; by destruct Hk as [->|[->|[]]]; apply (bool_decide_unpack (_ ∉ _)).
Qed.

Lemma serve_run sv s pcfg rc r who d st0 st1 fs :
  guarded sv pcfg rc r → forwardable rc r →
  run stack_calls (resolve_over s (route_resolver pcfg rc) (RequestFromHTTP r)) st0 = (Ok (Some who), st1) →
  decide (policy_input (RequestFromHTTP r) (Some who)) = Ok (Some d) → keeps_identity d →
  p_AccessToken who ≠ "" → Subject who ≠ "" →
  ∃ f, run (door_calls s) (serve sv r) (st0, fs) = (tt, (st1, fs ++ [f])) ∧ in_name_of who rc r f.
Proof.
  intros [Hp [n Hm] _ _] (up & u & Hup & Hsch & Hu) Hr Hd Hk Ht Hs.
  assert (Hne : rc_UpstreamURL rc ≠ "").
  { intros E0. rewrite E0 in Hup. injection Hup as <-. by destruct Hsch. }
  rewrite serve_proxies by done. unfold handleProxy. rewrite Hm. cbn [build_route rt_Config rt_Engine]. cbv zeta.
  rewrite run_bind, (handle_run _ _ _ _ _ _ _ (st0, fs) _ Hr Hd). cbn [respond Allow rp_RedirectTo String.eqb negb].
  rewrite (proj1 Hk), (proj2 (String.eqb_neq _ _) Hne). cbn [andb negb].
  assert (Ho : ∀ what w, run (door_calls s) (recordOutcome sv (rc_ID rc) what) w = (tt, w)).
  { intros what w. unfold recordOutcome. by destruct (sv_metrics sv). }
  rewrite run_bind, Ho, run_bind. unfold ProxyToUpstream. rewrite Hup.
  assert (Hb : negb (String.eqb (Scheme up) "http") && negb (String.eqb (Scheme up) "https") = false)
    by (by destruct Hsch as [-> | ->]). rewrite Hb, Hu.
  cbn [pbind call run door_calls Forward door_forward snd fst]. eexists. split; [reflexivity|].
  destruct (identity_headers_built who (d_Obligations d) Ht Hs) as [Hauth Huser].
  split; [done|done|apply RequestFromHTTP_body|..|apply forwarded_sent];
    cbn [fw_Header]; first [apply identity_forwarded|apply connection_forwarded]; (done || set_solver).
Qed.

(** A route that requires authentication forwards nothing for nobody. *)
Lemma nobody_run sv s pcfg rc r st st' fs :
  guarded sv pcfg rc r → rc_RequireAuth rc = true →
  run stack_calls (resolve_over s (route_resolver pcfg rc) (RequestFromHTTP r)) st = (Ok None, st') →
  run (door_calls s) (serve sv r) (st, fs) = (tt, (st', fs)).
Proof.
  intros [Hp [n Hm] _ _] Hauth Hres. rewrite serve_proxies by done. unfold handleProxy. rewrite Hm.
  cbn [build_route rt_Config rt_Engine]. cbv zeta. rewrite run_bind. unfold Handle.
  cbn [route_engine e_Resolve e_RequireAuth pbind call run ResolveWith door_objects door_calls fst snd].
  rewrite Hres, Hauth. unfold recordOutcome.
  destruct (String.eqb _ _ && negb _); cbn; [destruct (String.eqb _ _); cbn|]; by destruct (sv_metrics sv).
Qed.

(** C3: a login opens the protected pages. After the login of a deployment wired
    as in LoginLoop, whose clock does not run back, whose access tokens outlive
    the refresh margin and whose connector keeps the provider's subject (which
    is not empty), take any request that carries the cookie the login set, for a
    route of the proxy on that connector and not one of the proxy's own pages,
    where the proxy's auth URL reaches the auth server, its cookie name is a
    legal one, the network loses nothing and no pipeline plugin interferes.
    When that name is the one the auth server has for the connector, the
    request makes a URL of the upstream, and the policy allows it and writes
    neither X-User-Id nor Authorization in another spelling nor Connection or
    Upgrade, it is forwarded: the proxy asks the auth server over HTTP, the
    server resolves the signed cookie to the stored session, and the one
    request handed to the upstream's reverse proxy has the client's method and
    body, the subject of the provider's user as X-User-Id and the access token
    the provider issued for this login as the bearer token, whatever the client
    sent for them; the reverse proxy sends both on to the upstream's host,
    except one the client's own Connection header names, which it drops, and
    unless the client asks for an upgrade that is not printable, which is
    refused.  When the two names differ, as they do for a named connector whose
    cookie name nobody configured, a route that requires authentication
    forwards nothing. *)
Theorem login_opens_route srv cid (c : connector authE) client ucb w redirectTo host
    (Hw : wired bytes_read cfg (as_svc srv) cid c client ucb w) (Hacc : accepts_signed cfg jwt_parse)
    (Hlive : unexpired clock cfg) (Hpos : 0 < idp_expiresInSeconds cfg)
    (Hfresh : fresh (SessionRefreshEarlySeconds (s_cfg (as_svc srv)))) (Hkeep : keeps_subject (k_cfg c))
    (Hsub : idp_sub cfg ≠ "") :
  ∃ url w1 rep i2 cb resp w3,
    let req := callback_request cid host cb in
    run stack_calls (LoginStart (as_svc srv) {| ls_Connector := cid; ls_RedirectTo := redirectTo; ls_Prompt := "" |}) w =
      (Ok {| lsr_RedirectURL := url |}, w1) ∧
    visit multipart_values clock bytes_read cfg url (sk_idp w1) = (Some rep, i2) ∧
    Parse (h_get (re_Header rep) "Location") = Ok cb ∧
    run stack_calls (LoginEnd (as_svc srv) req) (set_idp w1 i2) = (Ok resp, w3) ∧
    ∃ who, Subject who = idp_sub cfg ∧ p_AccessToken who = "access-" +:+ le_Code req ∧
    ∀ sv pcfg rc r,
      guarded sv pcfg rc r → ConnectorID rc = cid → carries pcfg rc r (ler_SetCookieValue resp) →
      (agreed srv pcfg rc → ∀ d, forwardable rc r →
        decide (policy_input (RequestFromHTTP r) (Some who)) = Ok (Some d) → keeps_identity d →
        ∃ st f, run (door_calls srv) (serve sv r) (w3, []) = (tt, (st, [f])) ∧ in_name_of who rc r f) ∧
      (¬ agreed srv pcfg rc → rc_RequireAuth rc = true →
        run (door_calls srv) (serve sv r) (w3, []) = (tt, (w3, []))).
Proof.
  destruct (login_run multipart_values clock bytes_read cfg jwt_parse (as_svc srv) cid c client ucb w redirectTo host
              Hw Hacc Hlive)
    as (url & w1 & rep & i2 & cb & resp & w3 & id & sess & pr & t & (Q1 & Q2 & _ & Q4 & _ & Q6) & _ & _ & Hes & Hu
        & Hat & Hexp & Hcode & Hs & _).
  exists url, w1, rep, i2, cb, resp, w3. cbv zeta in *. do 4 (split; [done|]).
  pose proof (wi_ascii _ _ _ _ _ _ _ _ Hw) as Ha. repeat rewrite Forall_cons in Ha. destruct Ha as (_ & _ & Hasc & _).
  destruct (session_claims_plain (k_cfg c) pr Hkeep Hu Hasc) as [Hplain Hclaim].
  assert (Hres : plain_resolved (login_resolved c t pr)).
  { split; [|done]. cbn [login_resolved rs_AccessToken]. rewrite Hat.
    apply ascii_utf8. unfold ascii_str. rewrite bytes_app_ascii, Forall_app. split; [repeat constructor|done]. }
  set (who := resolveResponseToPrincipal {| rr_AccessToken := rs_AccessToken (login_resolved c t pr);
    rr_Claims := read_claims (Some (rs_Claims (login_resolved c t pr))); rr_TenantContext := read_claims None |}).
  destruct (carried_identity (login_resolved c t pr) who Hres eq_refl) as (W1 & _ & W3).
  rewrite <-Hclaim, <-Hat. exists who. split; [done|]. split; [done|].
  intros sv pcfg rc r Hg <- Hck.
  destruct (asked_run sv srv pcfg rc r id _ w3 Hg Hck (es_cookie _ _ _ _ _ _ _ _ Hes)) as [Hsame Hother].
  split; [intros Hagree d Hf Hd Hk|intros Hne Hauth; by apply (nobody_run sv srv pcfg rc r w3 w3 []); auto].
  destruct (resolve_run (as_svc srv) (ConnectorID rc) c t pr _ id sess w3 (wi_conn _ _ _ _ _ _ _ _ Hw)
              (wi_stores _ _ _ _ _ _ _ _ Hw) Hes Hs Hexp Hpos Hfresh) as [st Hrun].
  exists st. apply (serve_run sv srv pcfg rc r who d w3 st [] Hg Hf); try done.
  - rewrite (Hsame Hagree), Hrun. by rewrite relayed_plain.
  - rewrite W3. cbn [login_resolved rs_AccessToken]. by rewrite Hat.
  - rewrite W1. cbn [login_resolved rs_Claims]. by rewrite Hclaim.
Qed.

(** ** After the logout *)

(** A route that requires authentication forwards nothing for a session
    that is gone. *)
Lemma closed_run sv s pcfg rc r (c : connector authE) id value st fs :
  guarded sv pcfg rc r → carries pcfg rc r value → rc_RequireAuth rc = true →
  conn (as_svc s) (ConnectorID rc) = Ok c → stores_of c → codec_Encode (s_cookie (as_svc s)) id = Ok value →
  sk_sess st !! id = None →
  run (door_calls s) (serve sv r) (st, fs) = (tt, (st, fs)).
Proof.
  intros Hg Hck Hauth Hconn (Hs & _) He Hnone.
  destruct (asked_run sv s pcfg rc r id value st Hg Hck He) as [Hsame Hother].
  apply (nobody_run sv s pcfg rc r st st fs Hg Hauth).
  destruct (base.decide (agreed s pcfg rc)) as [Ha|Ha]; [|by apply Hother].
  assert (Hr : ∃ e, run stack_calls (ResolveForConnector (as_svc s) (ConnectorID rc) value) st = (Err e, st)).
  { unfold ResolveForConnector. destruct (String.eqb value ""); [by eexists|].
    rewrite Hconn, (codec_round _ _ _ _ ltac:(left) He). unfold ensureFresh. destruct (String.eqb id ""); [by eexists|].
    rewrite Hs. cbn. rewrite Hnone. by eexists. }
  destruct Hr as [e Hr]. by rewrite (Hsame Ha), Hr.
Qed.

Lemma logout_run s (c : connector authE) req id w :
  conn s (lo_Connector req) = Ok c → stores_of c → csrf_refused s (lo_Origin req) (lo_Referer req) = false →
  id ≠ "" → codec_Encode (s_cookie s) id = Ok (lo_SessionCookie req) →
  ∃ resp w', run stack_calls (Logout s req) w = (Ok resp, w') ∧ lor_ClearCookie resp = true ∧
    sk_sess w' = delete id (sk_sess w).
Proof.
  intros Hconn (Hs & _ & Hpr) Hcsrf Hid He. unfold Logout, logout_body. rewrite Hconn, Hcsrf. cbv zeta.
  rewrite (codec_round _ _ _ _ ltac:(left) He), Hs, Hpr.
  assert (Hne : String.eqb (lo_SessionCookie req) "" = false).
  { apply String.eqb_neq. by destruct (signed_wire _ _ _ He). }
  rewrite Hne, (proj2 (String.eqb_neq _ _) Hid), !run_bind. cbn [env_sessions SS_Get SS_Delete pbind call run LoginLoop.stack_calls].
  assert (Hend : ∀ hint u v, ∃ r p i, stack_calls _ (@EndSessionURL authE env_provider hint u) v = (r, set_plugin v p i)).
  { intros hint u v. cbn [env_provider EndSessionURL LoginLoop.stack_calls]. unfold through.
    destruct (run _ _ _) as [[p r] i]. by eexists _, _, _. }
  destruct (sk_sess w !! id) as [sess|] eqn:Es; cbn [pbind call run LoginLoop.stack_calls log];
    unfold Log, Metric, env_log, env_metrics; cbn [LoginLoop.stack_calls];
    match goal with |- context [EndSessionURL _ ?t ?u] =>
      match goal with |- context [stack_calls _ (EndSessionURL _ _ _) ?v] => destruct (Hend t u v) as (r & p & i & ->) end end;
    (eexists _, _; split; [reflexivity|]; split; [done|]); cbn; [done|]. by rewrite delete_id.
Qed.

(** C8: a logout closes the protected pages. A logout that passes the CSRF check,
    with the cookie the server signed for a session, deletes that session and no
    other and clears the cookie; from then on, as long as no session of that id
    is stored again, no request that carries the cookie (outside the proxy's own pages) is
    forwarded upstream on a route of that connector that requires authentication, whatever the policy
    would decide, although the cookie's signature is still good. *)
Theorem logout_closes_route srv (c : connector authE) lo id w
    (Hconn : conn (as_svc srv) (lo_Connector lo) = Ok c) (Hst : stores_of c)
    (Hcsrf : csrf_refused (as_svc srv) (lo_Origin lo) (lo_Referer lo) = false) (Hid : id ≠ "")
    (Hcookie : codec_Encode (s_cookie (as_svc srv)) id = Ok (lo_SessionCookie lo)) :
  ∃ resp w1, run stack_calls (Logout (as_svc srv) lo) w = (Ok resp, w1) ∧ lor_ClearCookie resp = true ∧
    sk_sess w1 !! id = None ∧ (∀ other, other ≠ id → sk_sess w1 !! other = sk_sess w !! other) ∧
    ∀ st sv pcfg rc r fs, sk_sess st !! id = sk_sess w1 !! id →
      guarded sv pcfg rc r → ConnectorID rc = lo_Connector lo → rc_RequireAuth rc = true →
      carries pcfg rc r (lo_SessionCookie lo) →
      ∃ st', run (door_calls srv) (serve sv r) (st, fs) = (tt, (st', fs)).
Proof.
  destruct (logout_run (as_svc srv) c lo id w Hconn Hst Hcsrf Hid Hcookie) as (resp & w1 & Hrun & Hclear & Hdel).
  exists resp, w1. rewrite Hdel, lookup_delete_eq. do 3 (split; [done|]). split.
  - intros other Hne. by apply lookup_delete_ne.
  - intros st sv pcfg rc r fs Hgone Hg Hc Hauth Hck. rewrite <-Hc in Hconn. exists st. by eapply closed_run.
Qed.
End through.

(** ** A deployment *)
#[local] Existing Instance ascii_unicode.
#[local] Existing Instance sorted_range.
#[local] Existing Instance loop_json_errors.
#[local] Existing Instance demo_signer.
#[local] Instance door_digits : UnicodeDigit := λ _, false.

(** The proxy of the configuration, over its one route. *)
Definition door_cfg : ProxyConfig := effective boot_cfg.
Definition door_routes : list RouteConfig := Routes door_cfg.
Definition door_server : Server doorE factory :=
  SetMetrics (NewWithRoutes door_cfg (List.map (build_route door_cfg 1) door_routes) None (Some ServeMetrics)) true.
Definition door_decision (allow : bool) : Decision :=
  {| d_Allow := allow; d_StatusCode := 200; d_Headers := {[ "X-Policy" := "v1" ]}; d_Reason := ""; d_Obligations := ∅ |}.
Definition door_decide (i : Input) : res (option Decision) :=
  Ok (Some (door_decision (match in_Principal i with Some _ => true | None => false end))).
Definition door_request (cookie : string) : http_request :=
  {| hr_Method := "GET"; hr_TLS := true; hr_Host := "app.example"; hr_Path := "/orders"; hr_RawQuery := "";
     hr_Header := {[ "X-User-Id" := ["admin"] ]}; hr_Cookies := [("sid", cookie)]; hr_Body := "";
     hr_RemoteAddr := "198.51.100.7:1234" |}.

Lemma door_guarded v rc : head door_routes = Some rc → guarded door_server door_cfg rc (door_request v).
Proof.
  intros Hrc. vm_compute in Hrc. injection Hrc as <-. split.
  - by apply (bool_decide_unpack ("/orders" ∉ own_paths)).
  - exists 1%nat. reflexivity.
  - split; [discriminate|vm_compute; reflexivity].
  - exact (chain_reaches "sid").
Qed.
Lemma door_agreed rc : head door_routes = Some rc → agreed chain_server door_cfg rc.
Proof. intros Hrc. vm_compute in Hrc. injection Hrc as <-. reflexivity. Qed.
Lemma door_connector rc : head door_routes = Some rc → ConnectorID rc = "".
Proof. intros Hrc. vm_compute in Hrc. by injection Hrc as <-. Qed.
Lemma door_carries v rc : head door_routes = Some rc → carries door_cfg rc (door_request v) v.
Proof. intros Hrc. vm_compute in Hrc. by injection Hrc as <-. Qed.
Lemma door_forwardable v rc : head door_routes = Some rc → forwardable rc (door_request v).
Proof.
  intros Hrc. vm_compute in Hrc. injection Hrc as <-.
  eexists _, _. split; [vm_compute; reflexivity|]. split; [by right|vm_compute; reflexivity].
Qed.

Lemma door_keeps : keeps_identity (door_decision true).
Proof.
  split; [done|]. intros k [y Hy].
  change (merge_obligations _ _) with ({[ "X-Policy" := "v1" ]} : gmap string string) in Hy.
  apply lookup_singleton_Some in Hy as [<- _]. split; [done|]. by apply (bool_decide_unpack (_ ∉ _)).
Qed.

Lemma login_opens_route_witness :
  ∃ w v st f, run (door_calls (λ _, []) chain_error demo_clock demo_bytes demo_idp demo_parse door_decide chain_server)
      (serve door_server (door_request v)) (w, []) = (tt, (st, [f])) ∧
    fw_Header f !! "X-User-Id" = Some ["test-user"] ∧
    ∃ sent, reverse_proxy f = Some sent ∧ fw_Header sent !! "X-User-Id" = Some ["test-user"].
Proof.
  destruct (login_opens_route (λ _, []) chain_error demo_clock demo_bytes demo_idp demo_parse door_decide
    chain_server "" _ demo_oidc demo_callback demo_stack "/home" "app.example" demo_wired demo_accepts)
    as (url & w1 & rep & i2 & cb & resp & w3 & _ & _ & _ & _ & who & Hwho & _ & Hdoor).
  - split; [done|]. intros i j. vm_compute. done.
  - vm_compute. reflexivity.
  - intros i j. vm_compute. reflexivity.
  - split; [right; left|repeat constructor].
  - discriminate.
  - destruct (head door_routes) as [rc|] eqn:Hrc; [|vm_compute in Hrc; discriminate Hrc].
    pose proof (door_guarded (ler_SetCookieValue resp) rc Hrc) as Hg.
    destruct (Hdoor door_server door_cfg rc (door_request (ler_SetCookieValue resp)) Hg
      (door_connector _ Hrc) (door_carries _ _ Hrc)) as [Hopen _].
    destruct (Hopen (door_agreed _ Hrc) (door_decision true) (door_forwardable _ _ Hrc) eq_refl door_keeps)
      as (st & f & Hrun & Hf).
    exists w3, (ler_SetCookieValue resp), st, f. split; [exact Hrun|].
    destruct Hf as [_ _ _ Hu _ Hsent]. rewrite Hwho in Hu. change (idp_sub demo_idp) with "test-user" in Hu.
    split; [exact Hu|].
    destruct (Hsent eq_refl) as (sent & Hs & _ & _ & _ & Hk).
    exists sent. split; [exact Hs|]. rewrite <-Hu. apply Hk; [left|]. by intros (n & Hn%elem_of_nil & _).
Defined.

(** The same request before and after the logout. *)
Definition live_stack : stack := set_sess demo_stack {[ "sid" := live_session ]}.
Definition door_run (w : stack) : unit * (stack * list forwarded) :=
  run (door_calls (λ _, []) chain_error demo_clock demo_bytes demo_idp demo_parse door_decide chain_server)
    (serve door_server (door_request live_cookie)) (w, []).
Definition door_logout : res LogoutResponse * stack :=
  run (stack_calls (λ _, []) demo_clock demo_bytes demo_idp demo_parse) (Logout env_service logout_request) live_stack.

Lemma logout_closes_route_witness :
  length (snd (snd (door_run live_stack))) = 1%nat ∧ snd (snd (door_run (snd door_logout))) = [].
Proof.
  split; [vm_compute; reflexivity|].
  destruct (logout_closes_route (λ _, []) chain_error demo_clock demo_bytes demo_idp demo_parse door_decide
    chain_server (connector_of env_cfg env_wiring env_provider) logout_request "sid" live_stack)
    as (resp & w1 & Hrun & _ & _ & _ & Hshut).
  - reflexivity.
  - done.
  - vm_compute. reflexivity.
  - discriminate.
  - vm_compute. reflexivity.
  - destruct (head door_routes) as [rc|] eqn:Hrc; [|vm_compute in Hrc; discriminate Hrc].
    destruct (Hshut w1 door_server door_cfg rc (door_request live_cookie) [] eq_refl (door_guarded live_cookie rc Hrc))
      as [st Hst].
    + by apply door_connector.
    + vm_compute in Hrc. injection Hrc as <-. reflexivity.
    + by apply door_carries.
    + unfold door_run, door_logout. change env_service with (as_svc chain_server). rewrite Hrun. cbn [snd].
      rewrite Hst. reflexivity.
Defined.
